(* ===== verification/_CoqProject ===== *)
-Q . S2P
Prelude.v
GoStrings.v
Ordering.v
Wire.v
Errors.v
Protocol.v
Feedback.v
Capacity.v
Admission.v
Replay.v
Registry.v
Utf8.v
AllocTypes.v
Snapshot.v
AllocOps.v
Commands.v
Maintenance.v
Loading.v
Threads.v
Logic.v
Invariant.v
Refinement.v
Handlers.v
Upkeep.v
System.v
Lifecycle.v
Start.v
Safety.v
Upholds.v
Outcomes.v
Isolation.v
Persist.v
Client.v
ClientInv.v
ClientSafety.v
ClientReplies.v
ClientChoice.v
Delivery.v
Handshake.v
Controller.v
ControllerSafe.v
ControllerRuns.v
Base64.v
Json.v
Decimal.v
Cluster.v
ClusterCommand.v
Framing.v
Stream.v
StreamLink.v
StreamInv.v
StreamSafe.v
StreamLive.v
Concur.v
Edge.v
EdgeSafe.v
EdgeRuns.v
Tail.v
Sha256.v
ExecSpec.v
Manager.v
ManagerSafe.v
LogMeta.v
LogStore.v
LogSafe.v
Backend.v
Namespace.v
Calls.v
RunTunnel.v
RunTunnelSafe.v
Publish.v
Publisher.v
TunnelRuns.v
NetIP.v
Descriptor.v
Broker.v
BrokerSession.v
