(* ===== verification/Prelude.v ===== *)
(** * A verification development of r1s

    r1s runs containers on other people's machines.  A client asks the
    allocators of its cluster for an offer, selects one, and keeps a lease on
    the execution it was assigned; an allocator (the daemon [r1sd]) admits
    requests, starts containers, evicts executions whose lease is over, retains
    logs, and lets the owner of an execution open a byte tunnel into it.  The
    development models these parts as Rocq functions and step machines
    translated from the Go sources, and proves what they promise.

    ** How the code is represented

    A Go byte slice is a list of bytes, a string a Rocq string of its bytes, an
    instant or a duration an integer of nanoseconds, a pointer that may be nil an
    [option], a map a [gmap].  A number that may wrap around is reduced at its
    width where the code computes it.  A function that fails returns [result].
    A method that holds a mutex throughout is one function of the state; one that
    releases it is cut there, and a step machine runs the parts of all goroutines
    in every order.  What the program does not decide (the clock, random
    identifiers, the network, the disk, containerd, the operating system) is an
    argument: a class of oracles or a part of a step, over which the theorems
    quantify.  Third-party functions are the fields of a class with their
    documented behaviour as laws, and every such class has a concrete instance.

    ** The parts

    Shared vocabulary.  Prelude.v (lists, words, results), GoStrings.v and
    Ordering.v (Go's [strings], [bytes], [sort]), Utf8.v, Base64.v, Json.v,
    Decimal.v and Sha256.v (the encodings of the Go library), Errors.v (error
    values and [errors.Is]).

    The protocol.  Wire.v has the messages of api/gen/r1s/v1, Protocol.v the
    validators and placement matching of internal/protocol, Feedback.v the
    command errors an allocator answers with.

    The allocator (internal/allocator).  Capacity.v, Admission.v and Replay.v are
    its ledger, its policy and its duplicate cache; AllocTypes.v its state and the
    monad its handlers run in; AllocOps.v and Commands.v the handlers of every
    message; Maintenance.v eviction, retention and recovery; Snapshot.v and
    Loading.v the durable state and its reading at construction; Threads.v the
    goroutines, cut where the mutex is released.  The proofs go through one
    abstract specification: Logic.v is a predicate transformer for the handlers,
    Invariant.v the abstract transitions and the invariant they keep,
    Refinement.v, Handlers.v and Upkeep.v show that every locked segment of every
    handler implements them, System.v that every interleaving does.

    The client core (internal/client).  Client.v has the state of a run process
    with every operation on it, ClientInv.v its invariant, Delivery.v the loop
    that gives unused offers back.  Handshake.v runs client and allocator
    together.

    The run controller (client/run.go, client/client.go).  Controller.v is the
    public client's run loop over the core: its waiters, its lease renewals, the
    decision to ask for a further attempt.  Calls.v has the calls that read logs
    and open a tunnel (client/run.go, client/tunnel.go), RunTunnel.v the tunnel of
    a run, which is established on demand and follows the active attempt.

    The command (cmd/r1s).  Publish.v has the port flags, how they reach a
    detached child and its readiness line, Publisher.v the listeners of the
    published ports, Tail.v the goroutine that follows the logs.  TunnelRuns.v
    holds concrete runs of these parts.

    The local broker (internal/broker).  Broker.v has the frames of its socket
    with their JSON text, BrokerSession.v the first request of a connection and
    one endpoint session: the goroutines that send requests, the read loop and the
    serving loop of the broker.

    The runtime (internal/runtime/containerd).  ExecSpec.v validates and
    fingerprints what is to be started; Manager.v is the registry of containers
    with the goroutines that wait for them; Backend.v is what the backend asks of
    containerd to start, resume, recover and stop the container of one execution,
    with containerd as a class of calls and their documented effects; Namespace.v
    is how a stream is connected to a port inside the network namespace of an
    execution.

    The log store (internal/logstore).  LogMeta.v is its metadata file, LogStore.v
    its directory with the processes that copy output into it.

    The tunnel (internal/tunnel).  Registry.v has the bindings and sessions of the
    allocator, Framing.v the packets, Stream.v one stream, StreamLink.v both ends
    of a stream with their goroutines and the packets in flight between them.
    Edge.v is the daemon's and the client's end of the mesh (mux.go, pair*.go,
    listen.go, dial.go of internal/tunnel/yggdrasil, cmd/r1sd/tunnel_edge.go):
    packet demultiplexing, the preamble handshake, the streams of a pair and the
    accept loop, as goroutines of the small concurrent language of Concur.v.
    EdgeRuns.v has concrete runs of it.

    Cluster membership (internal/cluster).  Cluster.v has join tokens and the
    directory of credentials, ClusterCommand.v the command that initialises,
    joins, lists and shares clusters.

    Discovery (internal/transport/rns/descriptor.go).  Descriptor.v has the
    presence metadata of an allocator, NetIP.v the IP addresses of the Go library
    that it needs.

    ** What is proved

    Safety.v, Isolation.v, Persist.v, Upholds.v, Outcomes.v (allocator): in every
    reachable state, under every interleaving and every failure, the slots in use
    are exactly those of outstanding offers and live executions; nothing is
    started that is not on disk; an execution moves only forward through its
    phases and has at most one thread working on it; a command changes only
    records of the client that sent it; quotas and every bounded collection stay
    within their bounds; a refused command leaves no trace; a restart restores the
    offers, executions and replies; an eviction pass leaves no expired lease and
    recovery leaves no execution between two phases.

    ClientSafety.v, ClientReplies.v, ClientChoice.v, Delivery.v, Handshake.v
    (client): one execution per request, a selection is never undone and every
    other offer is given back, observed states only advance, a reply touches only
    what belongs to its sender, a lease is lost only on its holder's word, the
    selected offer is the one best offer whatever order the map is read in.

    ControllerSafe.v, ControllerRuns.v (controller): a further attempt is asked
    for only when the lease of the previous one is lost and the policy allows it,
    and a result is final; a replacement whose first renewal fails to be sent is
    forgotten, which is a defect of the code.

    ManagerSafe.v (runtime): one container per execution, one report and one
    cleanup per container.  Backend.v: a start succeeds only with a started task
    under the labels of its request, a recovery starts nothing, a stop without
    error has removed the container, and none of them touches a container with
    other labels.  Namespace.v: a connection is made only in the namespace of the
    live process of its own execution, never in the allocator's.  LogSafe.v (logs): the retained logs stay within the
    budget under failing and partial calls, and a reader gets what the container
    wrote.  Registry.v, StreamSafe.v, StreamLive.v, Framing.v (tunnel): one session
    per execution, the flow-control window is never exceeded, bytes arrive in
    order and complete, an EOF means that everything arrived, and a [Write] can
    always run to its end.  Cluster.v, ClusterCommand.v, ExecSpec.v: a token
    carries the membership to another machine, credentials change atomically, a
    fingerprint determines what it was made from.  Descriptor.v: what an allocator
    announces is what a client discovers.

    EdgeSafe.v (tunnel edge): whatever packets arrive, a container port is dialled
    only for a peer whose key a binding of that execution pins and only if that
    binding declares it, and the queues, pending sessions and streams of a daemon
    stay within their limits.  Calls.v: a log read returns what the allocator of
    the execution answered to it.  RunTunnelSafe.v: streams run over a pair for
    the active execution, dialled at an endpoint its allocator named; there is at
    most one open pair, and none once the tunnel is closed; a pair that has ended
    is never replaced, which is a defect of the code.  Tail.v: each attempt's log
    is shown without gaps or repetitions when no poll overlaps a switch.
    Publish.v, Publisher.v: port flags survive the way to a detached child, and a
    published port leads to the container port of its own mapping.  Broker.v,
    BrokerSession.v: a frame is read back as it was written, and a request returns
    the outcome of its own reply.

    ** Fuel and bounds

    A loop of the Go code that is not structural takes fuel.  The two eviction
    loops get one unit per entry and one more, and more fuel changes nothing
    ([evict_loop_fuel] in Replay.v, [evict_loop_more] in Upholds.v).  The JSON
    reader gets twice the length of its input and the UTF-8 functions its length,
    again shown to be enough ([parse_fuel], [valid_bytes_fuel]).  The loops of the
    run controller may run for ever: a computation out of fuel counts as still
    running, and the theorems about it speak of every prefix of a run.  The same
    holds of the loops of the tunnel edge, whose theorems are for any number of
    turns.  A call that waits for a reply ends when its timer fires.

    ** Not modelled

    The Reticulum endpoint (internal/transport/rns: endpoint.go, envelope.go,
    identity_source.go) and the embedded Yggdrasil node
    (internal/tunnel/yggdrasil: node.go, core.go) call third-party libraries and
    keep no state of their own.  The in-memory transports
    (internal/transport/memory.go, internal/tunnel: pipe.go, broker.go) stand in
    for the networks in tests.  The metrics and
    log exporters (internal/telemetry) write to a collector.  The rest of the
    commands under cmd/ parses flags, prints and wires the parts together.  The
    relay of bytes between a connection and a stream, the local sockets of the
    broker (internal/broker: path.go, socket_*.go) and its accept loop are calls
    into the operating system.  The bolt store
    (internal/store/bolt) is one transaction per call: the allocator's environment
    decides whether a save succeeds.  The generated Protobuf code is represented
    by the records of Wire.v; its encoding is the class [Codec]. *)

From stdpp Require Export base gmap strings list fin_maps sorting.
From Stdlib Require Export ZArith Lia ZifyBool.
From Corelib Require Export ssreflect.
From Stdlib Require Import Strings.Byte.

#[export] Set Warnings "-rewrite-rw,-clear-no-such-hyp,-register-all,-unused-intro-pattern".
Global Open Scope general_if_scope.
Open Scope Z_scope.

(** ** Go values *)

(** A Go byte slice.  A nil slice and an empty slice are the same list; the
    places where the code tells them apart use [option]. *)
Abbreviation bytes := (list Byte.byte).

#[export] Instance byte_eq_dec : EqDecision Byte.byte := Byte.byte_eq_dec.

(** [string(b)]: a Go string holds the bytes of the slice unchanged. *)
Definition go_string (b : bytes) : string := String.string_of_list_byte b.

(** [len] of a string and of a slice. *)
Definition slen (s : string) : Z := Z.of_nat (String.length s).
Definition zlen {A} (l : list A) : Z := Z.of_nat (length l).

(** Fixed-width unsigned arithmetic. *)
Definition u16 (x : Z) : Z := x mod 2 ^ 16.
Definition u32 (x : Z) : Z := x mod 2 ^ 32.
Definition u64 (x : Z) : Z := x mod 2 ^ 64.

Lemma u32_small x : 0 ≤ x < 2 ^ 32 → u32 x = x.
Proof. apply Z.mod_small. Qed.
Lemma u64_small x : 0 ≤ x < 2 ^ 64 → u64 x = x.
Proof. apply Z.mod_small. Qed.

(** ** Results

    A fallible Go function returns a value or an error.  [Ok] is the nil-error
    return, [Err] the error return. *)
Inductive result (E A : Type) : Type :=
| Ok (a : A)
| Err (e : E).
Arguments Ok {E A} a.
Arguments Err {E A} e.

Declare Scope go_scope.
Delimit Scope go_scope with go.
Open Scope go_scope.

Definition result_bind {E A B} (r : result E A) (k : A → result E B) : result E B :=
  match r with Ok a => k a | Err e => Err e end.

Notation "'try' x ← c ; k" := (result_bind c (fun x => k))
  (at level 10, x name, c at level 100, k at level 200) : go_scope.
(** An early return: [guard b e; k] is [if b { return e }; k]. *)
Notation "'fail_if' b 'with' e ; k" := (if b then Err e else k)
  (at level 10, b at level 100, e at level 100, k at level 200) : go_scope.

Definition is_ok {E A} (r : result E A) : bool := match r with Ok _ => true | Err _ => false end.

Lemma result_bind_ok {E A B} (r : result E A) (k : A → result E B) b :
  result_bind r k = Ok b ↔ ∃ a, r = Ok a ∧ k a = Ok b.
Proof. destruct r as [a|e]; simpl; split; intros H; [by exists a| by destruct H as (?&[= ->]&?) | done | by destruct H as (?&?&?)]. Qed.

(** ** Go maps

    A read of a missing key yields the zero value of the element type. *)
Definition mget {V} (zero : V) (m : gmap string V) (k : string) : V := default zero (m !! k).

Lemma mget_insert_eq {V} (z : V) m k v : mget z (<[k:=v]> m) k = v.
Proof. unfold mget. by rewrite lookup_insert_eq. Qed.
Lemma mget_insert_ne {V} (z : V) m k k' v : k ≠ k' → mget z (<[k:=v]> m) k' = mget z m k'.
Proof. intros. unfold mget. by rewrite lookup_insert_ne. Qed.
Lemma mget_insert {V} (z : V) m k k' v :
  mget z (<[k:=v]> m) k' = if decide (k = k') then v else mget z m k'.
Proof. case_decide; subst; [apply mget_insert_eq | by apply mget_insert_ne]. Qed.

(** The sum of [f] over the values of a map, used to count the records that
    satisfy a test. *)
Section msum.
Context {V : Type}.
Implicit Types (f : V → Z) (p : V → bool) (m : gmap string V).

Definition msum f m : Z := map_fold (fun _ v acc => f v + acc) 0 m.
Definition mcount p m : Z := msum (fun v => Z.b2z (p v)) m.

Lemma msum_empty f : msum f ∅ = 0.
Proof. unfold msum. by rewrite map_fold_empty. Qed.

Lemma msum_insert_None f m k v :
  m !! k = None → msum f (<[k:=v]> m) = f v + msum f m.
Proof. intros Hk. unfold msum. rewrite map_fold_insert_L //. intros; lia. Qed.

Lemma msum_delete f m k v :
  m !! k = Some v → msum f m = f v + msum f (delete k m).
Proof.
  intros Hk. rewrite -{1}(insert_delete_id m k v Hk).
  apply msum_insert_None, lookup_delete_eq.
Qed.

Lemma msum_insert_Some f m k v v' :
  m !! k = Some v → msum f (<[k:=v']> m) = msum f m - f v + f v'.
Proof.
  intros Hk. rewrite (msum_delete f m k v Hk).
  rewrite -insert_delete_eq msum_insert_None ?lookup_delete_eq //. lia.
Qed.

(** Inserting under any key: the old value, if there is one, is taken out. *)
Lemma msum_insert f m k v :
  msum f (<[k:=v]> m) = msum f m - from_option f 0 (m !! k) + f v.
Proof.
  destruct (m !! k) as [v0|] eqn:Hk; simpl.
  - by apply msum_insert_Some.
  - rewrite msum_insert_None //. lia.
Qed.

Lemma msum_delete_any f m k :
  msum f (delete k m) = msum f m - from_option f 0 (m !! k).
Proof.
  destruct (m !! k) as [v|] eqn:Hk; simpl.
  - rewrite (msum_delete f m k v Hk). lia.
  - rewrite delete_id //. lia.
Qed.

Lemma msum_nonneg f m : (∀ k v, m !! k = Some v → 0 ≤ f v) → 0 ≤ msum f m.
Proof.
  induction m as [|k v m Hk IH] using map_ind; intros Hf.
  - rewrite msum_empty. lia.
  - rewrite msum_insert_None //.
    assert (0 ≤ f v) by (apply (Hf k); apply lookup_insert_eq).
    assert (0 ≤ msum f m); [|lia].
    apply IH. intros k' v' Hk'. apply (Hf k').
    rewrite lookup_insert_ne //. naive_solver.
Qed.

Lemma msum_ext f g m : (∀ k v, m !! k = Some v → f v = g v) → msum f m = msum g m.
Proof.
  induction m as [|k v m Hk IH] using map_ind; intros Hf.
  - by rewrite !msum_empty.
  - rewrite !msum_insert_None // (Hf k v) ?lookup_insert_eq // IH //.
    intros k' v' Hk'. apply (Hf k'). rewrite lookup_insert_ne //. naive_solver.
Qed.

Lemma msum_le f g m : (∀ k v, m !! k = Some v → f v ≤ g v) → msum f m ≤ msum g m.
Proof.
  intros Hle. cut (0 ≤ msum (fun v => g v - f v) m).
  { enough (msum (fun v => g v - f v) m = msum g m - msum f m) by lia. clear.
    induction m as [|k v m Hk IH] using map_ind.
    - by rewrite !msum_empty.
    - rewrite !msum_insert_None // IH. lia. }
  apply msum_nonneg. intros k v Hk. specialize (Hle k v Hk). lia.
Qed.

Lemma mcount_nonneg p m : 0 ≤ mcount p m.
Proof. apply msum_nonneg. intros _ v _. destruct (p v); simpl; lia. Qed.

(** A record that satisfies the test is counted. *)
Lemma mcount_pos p m k v : m !! k = Some v → p v = true → 1 ≤ mcount p m.
Proof.
  intros Hk Hp. unfold mcount. rewrite (msum_delete _ m k v Hk) Hp.
  pose proof (mcount_nonneg p (delete k m)). unfold mcount in *. simpl. lia.
Qed.

Lemma msum_const m : msum (fun _ => 1) m = Z.of_nat (size m).
Proof.
  induction m as [|k v m Hk IH] using map_ind; [done|].
  rewrite msum_insert_None // map_size_insert_None // IH. lia.
Qed.

Lemma mcount_size p m : mcount p m ≤ Z.of_nat (size m).
Proof.
  rewrite -msum_const. apply msum_le. intros _ v _. destruct (p v); simpl; lia.
Qed.
End msum.

Lemma pair_fst {A B} (x : A * B) a : x.1 = a → x = (a, x.2).
Proof. destruct x. by intros <-. Qed.

(** ** Automation

    The database the development's [eauto] calls use; the component files add
    their closure lemmas to it. *)
Create HintDb r1s.
#[export] Hint Resolve u32_small u64_small mcount_nonneg mcount_size : r1s.

(** Turn the boolean guards of a handler into equations. *)
Ltac guards :=
  repeat match goal with
  | H : negb _ = false |- _ => apply negb_false_iff in H
  | H : negb _ = true |- _ => apply negb_true_iff in H
  | H : bool_decide _ = true |- _ => apply bool_decide_eq_true in H
  | H : bool_decide _ = false |- _ => apply bool_decide_eq_false in H
  | H : _ || _ = false |- _ => apply orb_false_iff in H as [? ?]
  | H : _ && _ = true |- _ => apply andb_true_iff in H as [? ?]
  end.

(** Arithmetic on counters that differ at one key. *)
Ltac counters := repeat case_bool_decide; subst; simpl; lia.
