(* ===== verification/GoStrings.v ===== *)
(** * Go string and byte helpers

    The parts of Go's [strings], [bytes] and [encoding/hex] packages that the
    sources call, on byte strings: [strings.TrimSpace], [strings.ToLower] on
    ASCII, [strings.Join], [hex.EncodeToString] and [hex.DecodeString]. *)

From S2P Require Import Prelude.
From Stdlib Require Import Strings.Byte Ascii.

(** ** [strings.TrimSpace]

    [unicode.IsSpace] holds of the runes below; each is given by its UTF-8
    encoding. The encodings are prefix free, so at most one of them starts (or
    ends) a string. *)
Definition space_runes : list bytes :=
  [ [x09]; [x0a]; [x0b]; [x0c]; [x0d]; [x20]; [xc2; x85]; [xc2; xa0]; [xe1; x9a; x80];
    [xe2; x80; x80]; [xe2; x80; x81]; [xe2; x80; x82]; [xe2; x80; x83]; [xe2; x80; x84];
    [xe2; x80; x85]; [xe2; x80; x86]; [xe2; x80; x87]; [xe2; x80; x88]; [xe2; x80; x89];
    [xe2; x80; x8a]; [xe2; x80; xa8]; [xe2; x80; xa9]; [xe2; x80; xaf]; [xe2; x81; x9f];
    [xe3; x80; x80] ]%byte.

Fixpoint strip_prefix (p l : bytes) : option bytes :=
  match p, l with
  | [], _ => Some l
  | a :: p', b :: l' => if decide (a = b) then strip_prefix p' l' else None
  | _ :: _, [] => None
  end.

(** Drop one leading space, if there is one. *)
Fixpoint strip_one (runes : list bytes) (l : bytes) : option bytes :=
  match runes with
  | [] => None
  | r :: rs => match strip_prefix r l with Some l' => Some l' | None => strip_one rs l end
  end.

(** Every step drops at least one byte: the length of the input is enough fuel. *)
Fixpoint trim_left (runes : list bytes) (fuel : nat) (l : bytes) : bytes :=
  match fuel with
  | O => l
  | S n => match strip_one runes l with Some l' => trim_left runes n l' | None => l end
  end.

Definition trim_bytes (l : bytes) : bytes :=
  let l1 := trim_left space_runes (length l) l in
  rev (trim_left (map (@rev _) space_runes) (length l1) (rev l1)).

Definition trim_space (s : string) : string :=
  String.string_of_list_byte (trim_bytes (String.list_byte_of_string s)).

(** [strings.TrimSpace(s) == ""], the test for a missing field. *)
Definition blank (s : string) : bool := bool_decide (trim_space s = "").

Lemma blank_empty : blank "" = true.
Proof. reflexivity. Qed.

Lemma not_blank_nonempty s : blank s = false → s ≠ "".
Proof. intros H ->. by rewrite blank_empty in H. Qed.

(** A string whose first and last byte start no space keeps them all. *)
Lemma strip_one_None runes a l :
  Forall (fun r => head r ≠ None ∧ head r ≠ Some a) runes → strip_one runes (a :: l) = None.
Proof.
  induction 1 as [|r rs [Hn Ha] _ IH]; [done|]. simpl.
  destruct r as [|b r]; [done|]. simpl. case_decide; [naive_solver|done].
Qed.

(** ** ASCII letters and hexadecimal *)

Definition lower_byte (b : Byte.byte) : Byte.byte :=
  let n := Byte.to_N b in
  if (65 <=? n)%N && (n <=? 90)%N then default b (Byte.of_N (n + 32)) else b.

(** [strings.ToLower] on strings of ASCII bytes; other bytes are left alone. *)
Definition to_lower (s : string) : string :=
  String.string_of_list_byte (map lower_byte (String.list_byte_of_string s)).

Definition hex_digit (n : N) : Byte.byte :=
  default x00 (Byte.of_N (if (n <? 10)%N then 48 + n else 87 + n)%N).

Definition hex_byte (b : Byte.byte) : bytes :=
  let n := Byte.to_N b in [hex_digit (n / 16); hex_digit (n mod 16)].

(** [hex.EncodeToString]. *)
Definition hex_encode (b : bytes) : string :=
  String.string_of_list_byte (flat_map hex_byte b).

Definition hex_value (b : Byte.byte) : option N :=
  let n := Byte.to_N b in
  if (48 <=? n)%N && (n <=? 57)%N then Some (n - 48)%N
  else if (97 <=? n)%N && (n <=? 102)%N then Some (n - 87)%N
  else if (65 <=? n)%N && (n <=? 70)%N then Some (n - 55)%N
  else None.

Fixpoint hex_decode_bytes (l : bytes) : option bytes :=
  match l with
  | [] => Some []
  | a :: b :: l' =>
      match hex_value a, hex_value b, hex_decode_bytes l' with
      | Some h, Some d, Some r =>
          match Byte.of_N (h * 16 + d) with Some x => Some (x :: r) | None => None end
      | _, _, _ => None
      end
  | _ => None
  end.

(** [hex.DecodeString]: an odd length or a byte outside [0-9a-fA-F] is an error. *)
Definition hex_decode (s : string) : option bytes := hex_decode_bytes (String.list_byte_of_string s).

Definition lower_hex_byte (b : Byte.byte) : bool :=
  let n := Byte.to_N b in
  ((48 <=? n)%N && (n <=? 57)%N) || ((97 <=? n)%N && (n <=? 102)%N).

Lemma list_byte_of_string_length s :
  length (String.list_byte_of_string s) = String.length s.
Proof.
  unfold String.list_byte_of_string. rewrite length_map.
  induction s as [|c s IH]; simpl; [done|]. by rewrite IH.
Qed.

Lemma hex_decode_byte b l :
  hex_decode_bytes (hex_byte b ++ l) = (fun r => b :: r) <$> hex_decode_bytes l.
Proof. destruct b; simpl; by destruct (hex_decode_bytes l). Qed.

Lemma hex_decode_flat b : hex_decode_bytes (flat_map hex_byte b) = Some b.
Proof.
  induction b as [|x b IH]; [done|].
  cbn [flat_map]. by rewrite hex_decode_byte IH.
Qed.

(** Encoding then decoding gives the bytes back. *)
Lemma hex_decode_encode b : hex_decode (hex_encode b) = Some b.
Proof.
  unfold hex_decode, hex_encode. rewrite String.list_byte_of_string_of_list_byte.
  apply hex_decode_flat.
Qed.

Lemma hex_encode_inj b1 b2 : hex_encode b1 = hex_encode b2 → b1 = b2.
Proof. intros H. apply (f_equal hex_decode) in H. rewrite !hex_decode_encode in H. congruence. Qed.

Lemma lower_byte_hex b : is_Some (hex_value b) → lower_byte b = b → lower_hex_byte b = true.
Proof. by destruct b; intros [? ?] ?. Qed.

Lemma lower_hex_lower b : lower_hex_byte b = true → lower_byte b = b ∧ is_Some (hex_value b).
Proof. destruct b; intros [=]; (split; [reflexivity | eexists; reflexivity]). Qed.

Lemma list_pair_ind {A} (P : list A → Prop) :
  P [] → (∀ a, P [a]) → (∀ a b l, P l → P (a :: b :: l)) → ∀ l, P l.
Proof.
  intros H0 H1 H2 l. enough (P l ∧ ∀ a, P (a :: l)) by tauto.
  induction l as [|a l [IH1 IH2]]; auto.
Qed.

(** Decoding succeeds exactly on even-length hexadecimal strings, and halves
    the length. *)
Lemma hex_decode_bytes_spec l r :
  hex_decode_bytes l = Some r →
  Forall (fun b => is_Some (hex_value b)) l ∧ length l = (2 * length r)%nat.
Proof.
  revert r. induction l as [|a|a b l IH] using list_pair_ind; intros r; simpl.
  - intros [= <-]. split; [constructor|done].
  - done.
  - destruct (hex_value a) eqn:Ha; [|done]. destruct (hex_value b) eqn:Hb; [|done].
    destruct (hex_decode_bytes l) as [r'|]; [|done].
    destruct (Byte.of_N _) eqn:E; [|done]. intros [= <-].
    destruct (IH r' eq_refl) as [IH1 IH2]. split.
    + constructor; [by rewrite Ha|]. constructor; [by rewrite Hb|done].
    + simpl. lia.
Qed.

Lemma hex_value_lt b n : hex_value b = Some n → (n < 16)%N.
Proof. by destruct b; vm_compute; intros [= <-]. Qed.

Lemma hex_decode_bytes_total l :
  Forall (fun b => is_Some (hex_value b)) l → Nat.even (length l) = true →
  is_Some (hex_decode_bytes l).
Proof.
  induction l as [|a|a b l IH] using list_pair_ind; intros Hall Hev.
  - by eexists.
  - done.
  - apply Forall_cons in Hall as [[x Hx] Hall]. apply Forall_cons in Hall as [[y Hy] Hall].
    destruct (IH Hall Hev) as [r Hr]. simpl. rewrite Hx Hy Hr.
    apply hex_value_lt in Hx. apply hex_value_lt in Hy.
    destruct (Byte.of_N (x * 16 + y)) eqn:E; [by eexists|].
    apply Byte.of_N_None_iff in E. lia.
Qed.

(** ** Joining *)

(** [strings.Join(parts, sep)]. *)
Fixpoint str_join (sep : string) (parts : list string) : string :=
  match parts with
  | [] => ""
  | [p] => p
  | p :: ps => (p ++ sep ++ str_join sep ps)%string
  end.

(** A copy of [values] that holds [target]: the linear membership test. *)
Fixpoint str_contains (values : list string) (target : string) : bool :=
  match values with
  | [] => false
  | v :: vs => if decide (v = target) then true else str_contains vs target
  end.

Lemma str_contains_spec values target : str_contains values target = true ↔ target ∈ values.
Proof.
  induction values as [|v vs IH]; simpl; [split; [done|inversion 1]|].
  rewrite elem_of_cons -IH. case_decide; naive_solver.
Qed.
