(* ===== verification/Ordering.v ===== *)
(** * Orders on bytes and strings

    [bytes.Compare], Go's string order and [sort.Strings].  Both compare byte by
    byte, so a string is ordered as the list of its bytes. *)

From S2P Require Import Prelude GoStrings.

(** ** Comparisons *)

(** [bytes.Compare] *)
Fixpoint bytes_compare (a b : bytes) : comparison :=
  match a, b with
  | [], [] => Eq
  | [], _ :: _ => Lt
  | _ :: _, [] => Gt
  | x :: a', y :: b' =>
    match N.compare (Byte.to_N x) (Byte.to_N y) with
    | Eq => bytes_compare a' b'
    | c => c
    end
  end.

Definition string_compare (s t : string) : comparison :=
  bytes_compare (String.list_byte_of_string s) (String.list_byte_of_string t).

(** [s < t] on strings. *)
Definition string_lt (s t : string) : bool :=
  match string_compare s t with Lt => true | _ => false end.

Definition string_le (s t : string) : Prop := string_compare s t ≠ Gt.

#[export] Instance string_le_dec : RelDecision string_le.
Proof. intros s t. unfold string_le. destruct (string_compare s t); [left|left|right]; congruence. Defined.

(** [sort.Strings] *)
Definition sort_strings (l : list string) : list string := merge_sort string_le l.

(** ** Comparison functions that are total orders *)

Class OrderedBy {A} (cmp : A → A → comparison) : Prop := {
  ord_eq x y : cmp x y = Eq ↔ x = y;
  ord_opp x y : cmp y x = CompOpp (cmp x y);
  ord_trans x y z : cmp x y = Lt → cmp y z = Lt → cmp x z = Lt
}.

Section ordered.
Context {A} (cmp : A → A → comparison) `{!OrderedBy cmp}.

Lemma ord_refl x : cmp x x = Eq.
Proof. by apply ord_eq. Qed.

Lemma ord_le_trans x y z : cmp x y ≠ Gt → cmp y z ≠ Gt → cmp x z ≠ Gt.
Proof.
  intros Hxy Hyz. destruct (cmp x y) eqn:Exy; [|destruct (cmp y z) eqn:Eyz|done].
  - apply ord_eq in Exy as ->. done.
  - apply ord_eq in Eyz as ->. congruence.
  - by rewrite (ord_trans _ _ _ Exy Eyz).
  - done.
Qed.

Lemma ord_le_total x y : cmp x y ≠ Gt ∨ cmp y x ≠ Gt.
Proof. rewrite (ord_opp x y). destruct (cmp x y); simpl; auto. Qed.

Lemma ord_le_antisym x y : cmp x y ≠ Gt → cmp y x ≠ Gt → x = y.
Proof. rewrite (ord_opp x y). intros ? ?. apply ord_eq. by destruct (cmp x y). Qed.
End ordered.

(** Lexicographic composition. *)
Definition lex (c d : comparison) : comparison := match c with Eq => d | _ => c end.

#[export] Instance pair_ordered {A B} (ca : A → A → comparison) (cb : B → B → comparison) :
  OrderedBy ca → OrderedBy cb → OrderedBy (fun p q => lex (ca p.1 q.1) (cb p.2 q.2)).
Proof.
  intros Ha Hb. split.
  - intros [a b] [a' b']; simpl. split.
    + destruct (ca a a') eqn:E; simpl; [|done|done]. intros E'. apply ord_eq in E as ->. by apply ord_eq in E' as ->.
    + intros [= -> ->]. rewrite (ord_refl ca). apply (ord_refl cb).
  - intros [a b] [a' b']; simpl. rewrite (ord_opp (cmp := ca) a a') (ord_opp (cmp := cb) b b'). by destruct (ca a a').
  - intros [a b] [a' b'] [a'' b'']; simpl. intros H1 H2.
    destruct (ca a a') eqn:E1; simpl in H1; [|destruct (ca a' a'') eqn:E2; simpl in H2|done].
    + apply ord_eq in E1 as ->. destruct (ca a' a''); simpl in *; [|done|done]. by apply (ord_trans _ b').
    + apply ord_eq in E2 as ->. by rewrite E1.
    + by rewrite (ord_trans _ _ _ E1 E2).
    + done.
Qed.

#[export] Instance Z_ordered : OrderedBy Z.compare.
Proof.
  split; [apply Z.compare_eq_iff| |]; [intros; apply Z.compare_antisym|].
  intros x y z. rewrite !Z.compare_lt_iff. lia.
Qed.

Definition bool_compare (b c : bool) : comparison := Z.compare (Z.b2z b) (Z.b2z c).
#[export] Instance bool_ordered : OrderedBy bool_compare.
Proof. split; [|intros|intros x y z]; unfold bool_compare; [intros [] []|..]; try destruct x, y; try destruct z; naive_solver. Qed.

#[export] Instance bytes_ordered : OrderedBy bytes_compare.
Proof.
  split.
  - induction x as [|a x IH]; intros [|b y]; simpl; try done. destruct (N.compare _ _) eqn:E.
    + apply N.compare_eq_iff in E. rewrite IH. split; [|naive_solver]. intros ->. f_equal.
      apply (f_equal Byte.of_N) in E. rewrite !Byte.of_to_N in E. congruence.
    + split; [done|]. intros [= -> ->]. by rewrite N.compare_refl in E.
    + split; [done|]. intros [= -> ->]. by rewrite N.compare_refl in E.
  - induction x as [|a x IH]; intros [|b y]; simpl; try done.
    rewrite (N.compare_antisym (Byte.to_N a)). by destruct (N.compare _ _); simpl.
  - induction x as [|a x IH]; intros [|b y] [|c z]; simpl; try done.
    destruct (N.compare (Byte.to_N a) (Byte.to_N b)) eqn:E1; [|destruct (N.compare (Byte.to_N b) (Byte.to_N c)) eqn:E2|done].
    + apply N.compare_eq_iff in E1. rewrite E1. destruct (N.compare _ _); [|done|done]. apply IH.
    + apply N.compare_eq_iff in E2. rewrite -E2 E1. done.
    + rewrite N.compare_lt_iff in E1. rewrite N.compare_lt_iff in E2.
      assert (Byte.to_N a < Byte.to_N c)%N as ->%N.compare_lt_iff by lia. done.
    + done.
Qed.

#[export] Instance string_ordered : OrderedBy string_compare.
Proof.
  split; unfold string_compare.
  - intros s t. rewrite ord_eq. split; [|naive_solver]. intros Heq%(f_equal String.string_of_list_byte).
    by rewrite !String.string_of_list_byte_of_string in Heq.
  - intros. apply ord_opp.
  - intros s t u. apply ord_trans.
Qed.

#[export] Instance string_le_trans : Transitive string_le.
Proof. intros s t u. apply (ord_le_trans string_compare). Qed.
#[export] Instance string_le_total : Total string_le.
Proof. intros s t. apply (ord_le_total string_compare). Qed.
#[export] Instance string_le_antisym : AntiSymm (=) string_le.
Proof. intros s t. apply (ord_le_antisym string_compare). Qed.

(** ** Sorting *)

(** [sort.Strings] does not depend on the order of its input. *)
Lemma sort_strings_perm l l' : l ≡ₚ l' → sort_strings l = sort_strings l'.
Proof.
  intros Hp. apply (StronglySorted_unique string_le).
  - apply (StronglySorted_merge_sort string_le).
  - apply (StronglySorted_merge_sort string_le).
  - unfold sort_strings. by rewrite !merge_sort_Permutation.
Qed.

Lemma elem_of_sort_strings s l : s ∈ sort_strings l ↔ s ∈ l.
Proof. by rewrite /sort_strings merge_sort_Permutation. Qed.

(** The head of a sorted list is the least element. *)
Lemma merge_sort_head {A} (R : relation A) `{!RelDecision R, !Transitive R, !Total R} l x l' :
  merge_sort R l = x :: l' → x ∈ l ∧ ∀ y, y ∈ l → R x y ∨ x = y.
Proof.
  intros Hm. pose proof (merge_sort_Permutation R l) as Hp. rewrite Hm in Hp.
  pose proof (StronglySorted_merge_sort R l) as Hs. rewrite Hm in Hs. apply StronglySorted_inv in Hs as [_ Hall].
  split; [rewrite -Hp; constructor|]. intros y Hy. rewrite -Hp elem_of_cons in Hy. destruct Hy as [->|Hy]; [by right|].
  left. rewrite Forall_forall in Hall. by apply Hall.
Qed.
