(* ===== verification/Wire.v ===== *)
(** * The wire schema

    The messages of the versioned control protocol, as generated into
    [api/gen/r1s/v1/control.pb.go]: one record per message, [option] for a
    pointer that may be nil, [gmap] for a Protobuf map and one inductive for the
    [oneof] payload of an envelope.  A getter on a nil message returns the zero
    value of the field, as the generated getters do.  Unknown fields are not
    represented.

    The functions of the Protobuf runtime, of [strconv] and of the hash the code
    calls are the fields of the class [Externals]; the documented behaviour the
    theorems need of them is the class [ExternalLaws]. *)

From S2P Require Import Prelude GoStrings.

(** ** Times and durations

    A [time] is the number of nanoseconds since the Unix epoch, a [duration] a
    number of nanoseconds.  The zero [time.Time] is the first instant of year 1. *)
Abbreviation time := Z.
Abbreviation duration := Z.

Definition Second : duration := 1000000000.
Definition Minute : duration := 60 * Second.
Definition Hour : duration := 60 * Minute.

Definition zero_time : time := (-62135596800) * Second.
Definition is_zero (t : time) : bool := t =? zero_time.
(** [a.After(b)] and [a.Before(b)]. *)
Definition after (a b : time) : bool := b <? a.
Definition before (a b : time) : bool := a <? b.

Record Timestamp := mkTimestamp { ts_seconds : Z; ts_nanos : Z }.
Record Duration := mkDuration { dur_seconds : Z; dur_nanos : Z }.

#[export] Instance Timestamp_eq_dec : EqDecision Timestamp.
Proof. solve_decision. Defined.
#[export] Instance Duration_eq_dec : EqDecision Duration.
Proof. solve_decision. Defined.

(** ** Messages *)

Inductive OfferReleaseOutcome :=
| OUTCOME_UNSPECIFIED | OUTCOME_RELEASED | OUTCOME_EXPIRED | OUTCOME_ASSIGNED
| OUTCOME_OTHER (number : Z).

Definition outcome_number (o : OfferReleaseOutcome) : Z :=
  match o with
  | OUTCOME_UNSPECIFIED => 0 | OUTCOME_RELEASED => 1 | OUTCOME_EXPIRED => 2
  | OUTCOME_ASSIGNED => 3 | OUTCOME_OTHER n => n
  end.

Inductive ExecutionPhase :=
| PHASE_UNSPECIFIED | PHASE_STARTING | PHASE_RUNNING | PHASE_CANCELLING
| PHASE_CANCELLED | PHASE_COMPLETED | PHASE_FAILED | PHASE_OTHER (number : Z).

Definition phase_number (p : ExecutionPhase) : Z :=
  match p with
  | PHASE_UNSPECIFIED => 0 | PHASE_STARTING => 1 | PHASE_RUNNING => 2
  | PHASE_CANCELLING => 3 | PHASE_CANCELLED => 4 | PHASE_COMPLETED => 5
  | PHASE_FAILED => 6 | PHASE_OTHER n => n
  end.

#[export] Instance OfferReleaseOutcome_eq_dec : EqDecision OfferReleaseOutcome.
Proof. solve_decision. Defined.
#[export] Instance ExecutionPhase_eq_dec : EqDecision ExecutionPhase.
Proof. solve_decision. Defined.

Record Workload := mkWorkload {
  wl_image : string;
  wl_command : list string;
  wl_args : list string;
  wl_environment : gmap string string;
  wl_working_directory : string
}.

Record ExecutionPolicy := mkPolicy {}.

Record NodeCapabilities := mkNode {
  nc_os : string;
  nc_arch : string;
  nc_runtime : string;
  nc_resource_profiles : list string;
  nc_devices : list string;
  nc_labels : gmap string string;
  nc_cached_images : list string
}.

Record PlacementConstraints := mkConstraints {
  pc_os : string;
  pc_arch : string;
  pc_runtime : string;
  pc_labels : gmap string string;
  pc_devices : list string
}.

Record ExecutionRequest := mkRequest {
  er_request_id : string;
  er_workload : option Workload;
  er_policy : option ExecutionPolicy;
  er_resource_class : string;
  er_constraints : option PlacementConstraints;
  er_run_id : string;
  er_attempt : Z
}.

Record ExecutionOffer := mkOffer {
  eo_offer_id : string;
  eo_request_id : string;
  eo_resource_class : string;
  eo_expires_at : option Timestamp;
  eo_node : option NodeCapabilities
}.

Record ExecutionAssign := mkAssign {
  ea_request_id : string;
  ea_offer_id : string;
  ea_execution_id : string
}.

Record ExecutionOfferRelease := mkOfferRelease { or_request_id : string; or_offer_id : string }.

Record ExecutionOfferReleaseAck := mkOfferReleaseAck {
  ora_request_id : string;
  ora_offer_id : string;
  ora_outcome : OfferReleaseOutcome
}.

Record ExecutionCancel := mkCancel { ec_execution_id : string; ec_reason : string }.

Record ExecutionInspect := mkInspect { ei_execution_id : string }.

Record ExecutionState := mkState {
  es_execution_id : string;
  es_phase : ExecutionPhase;
  es_occurred_at : option Timestamp;
  es_detail : string;
  es_exit_code : option Z;
  es_revision : Z
}.

Record CommandError := mkCommandError { ce_code : string; ce_detail : string; ce_retryable : bool }.

Record ExecutionLogsRequest := mkLogsRequest {
  lq_execution_id : string;
  lq_stream : string;
  lq_offset : Z;
  lq_max_bytes : Z
}.

Record ExecutionLogsResponse := mkLogsResponse {
  lr_execution_id : string;
  lr_stream : string;
  lr_offset : Z;
  lr_data : bytes;
  lr_next_offset : Z;
  lr_eof : bool;
  lr_truncated : bool;
  lr_sha256 : bytes
}.

Record ExecutionLeaseRenew := mkLeaseRenew {
  ln_execution_id : string;
  ln_lease_duration : option Duration
}.

Record ExecutionLeaseRenewAck := mkLeaseRenewAck {
  la_execution_id : string;
  la_expires_at : option Timestamp
}.

(** A nil element of the repeated field reads as port 0. *)
Record TunnelTarget := mkTunnelTarget { tt_port : Z }.

Record ExecutionTunnelOpen := mkTunnelOpen {
  to_execution_id : string;
  to_ygg_peer_pubkey : bytes;
  to_targets : list TunnelTarget
}.

Record ExecutionTunnelOpenAck := mkTunnelOpenAck {
  ta_execution_id : string;
  ta_allocator_endpoint : bytes;
  ta_allocator_endpoint_pubkey : bytes;
  ta_targets : list TunnelTarget
}.

(** The [oneof payload]; the inner message pointer may be nil. *)
Inductive Payload :=
| P_ExecutionRequest (m : option ExecutionRequest)
| P_ExecutionOffer (m : option ExecutionOffer)
| P_ExecutionAssign (m : option ExecutionAssign)
| P_ExecutionCancel (m : option ExecutionCancel)
| P_ExecutionState (m : option ExecutionState)
| P_ExecutionInspect (m : option ExecutionInspect)
| P_ExecutionOfferRelease (m : option ExecutionOfferRelease)
| P_ExecutionOfferReleaseAck (m : option ExecutionOfferReleaseAck)
| P_CommandError (m : option CommandError)
| P_ExecutionLogsRequest (m : option ExecutionLogsRequest)
| P_ExecutionLogsResponse (m : option ExecutionLogsResponse)
| P_ExecutionLeaseRenew (m : option ExecutionLeaseRenew)
| P_ExecutionLeaseRenewAck (m : option ExecutionLeaseRenewAck)
| P_ExecutionTunnelOpen (m : option ExecutionTunnelOpen)
| P_ExecutionTunnelOpenAck (m : option ExecutionTunnelOpenAck).

Record Envelope := mkEnvelope {
  env_message_id : string;
  env_sender : bytes;
  env_correlation_id : string;
  env_sent_at : option Timestamp;
  env_payload : option Payload
}.

(** [proto.Equal] on these messages is equality of their fields. *)
#[export] Instance Workload_eq_dec : EqDecision Workload.
Proof. solve_decision. Defined.
#[export] Instance ExecutionPolicy_eq_dec : EqDecision ExecutionPolicy.
Proof. solve_decision. Defined.
#[export] Instance NodeCapabilities_eq_dec : EqDecision NodeCapabilities.
Proof. solve_decision. Defined.
#[export] Instance PlacementConstraints_eq_dec : EqDecision PlacementConstraints.
Proof. solve_decision. Defined.
#[export] Instance ExecutionRequest_eq_dec : EqDecision ExecutionRequest.
Proof. solve_decision. Defined.
#[export] Instance ExecutionOffer_eq_dec : EqDecision ExecutionOffer.
Proof. solve_decision. Defined.
#[export] Instance ExecutionAssign_eq_dec : EqDecision ExecutionAssign.
Proof. solve_decision. Defined.
#[export] Instance ExecutionOfferRelease_eq_dec : EqDecision ExecutionOfferRelease.
Proof. solve_decision. Defined.
#[export] Instance ExecutionOfferReleaseAck_eq_dec : EqDecision ExecutionOfferReleaseAck.
Proof. solve_decision. Defined.
#[export] Instance ExecutionCancel_eq_dec : EqDecision ExecutionCancel.
Proof. solve_decision. Defined.
#[export] Instance ExecutionInspect_eq_dec : EqDecision ExecutionInspect.
Proof. solve_decision. Defined.
#[export] Instance ExecutionState_eq_dec : EqDecision ExecutionState.
Proof. solve_decision. Defined.
#[export] Instance CommandError_eq_dec : EqDecision CommandError.
Proof. solve_decision. Defined.
#[export] Instance ExecutionLogsRequest_eq_dec : EqDecision ExecutionLogsRequest.
Proof. solve_decision. Defined.
#[export] Instance ExecutionLogsResponse_eq_dec : EqDecision ExecutionLogsResponse.
Proof. solve_decision. Defined.
#[export] Instance ExecutionLeaseRenew_eq_dec : EqDecision ExecutionLeaseRenew.
Proof. solve_decision. Defined.
#[export] Instance ExecutionLeaseRenewAck_eq_dec : EqDecision ExecutionLeaseRenewAck.
Proof. solve_decision. Defined.
#[export] Instance TunnelTarget_eq_dec : EqDecision TunnelTarget.
Proof. solve_decision. Defined.
#[export] Instance ExecutionTunnelOpen_eq_dec : EqDecision ExecutionTunnelOpen.
Proof. solve_decision. Defined.
#[export] Instance ExecutionTunnelOpenAck_eq_dec : EqDecision ExecutionTunnelOpenAck.
Proof. solve_decision. Defined.
#[export] Instance Payload_eq_dec : EqDecision Payload.
Proof. solve_decision. Defined.
#[export] Instance Envelope_eq_dec : EqDecision Envelope.
Proof. solve_decision. Defined.

(** ** Code outside the repository *)

(** Functions of packages outside the sources: the timestamp and duration
    helpers of the Protobuf runtime ([AsTime], [New], [CheckValid]; a failed
    check returns the text of its error), [%q] formatting, and SHA-256. *)
Class Externals := {
  ts_as_time : Timestamp → time;
  ts_new : time → Timestamp;
  ts_check : Timestamp → option string;
  dur_as : Duration → duration;
  dur_new : duration → Duration;
  dur_check : Duration → option string;
  quote : string → string;
  sha256 : bytes → bytes
}.

(** The instants a Protobuf timestamp can hold: years 1 to 9999. *)
Definition max_time : time := 253402300799 * Second + 999999999.
Definition timestamp_range (t : time) : Prop := zero_time ≤ t ≤ max_time.

(** A Go [time.Duration] is a signed 64-bit count of nanoseconds. *)
Definition duration_range (d : duration) : Prop := - 2 ^ 63 ≤ d < 2 ^ 63.

(** What is documented of them and used below. *)
Class ExternalLaws `{Externals} := {
  ts_as_new t : timestamp_range t → ts_as_time (ts_new t) = t;
  ts_new_valid t : timestamp_range t → ts_check (ts_new t) = None;
  dur_as_new d : duration_range d → dur_as (dur_new d) = d;
  dur_new_valid d : duration_range d → dur_check (dur_new d) = None;
  sha256_length b : length (sha256 b) = 32%nat
}.

(** [AsTime] of a nil timestamp is the Unix epoch; [AsDuration] of a nil
    duration is zero. *)
Definition as_time `{Externals} (t : option Timestamp) : time := from_option ts_as_time 0 t.
Definition as_duration `{Externals} (d : option Duration) : duration := from_option dur_as 0 d.

(** A concrete instance: the laws can be satisfied, and witnesses can run. *)
Definition concrete_as_duration (d : Duration) : duration :=
  let n := dur_seconds d * Second + dur_nanos d in
  Z.max (- 2 ^ 63) (Z.min (2 ^ 63 - 1) n).

Definition concrete_ts_check (t : Timestamp) : option string :=
  if ts_seconds t <? -62135596800 then Some "timestamp before 0001-01-01"
  else if 253402300799 <? ts_seconds t then Some "timestamp after 9999-12-31"
  else if (ts_nanos t <? 0) || (1000000000 <=? ts_nanos t) then Some "timestamp has out-of-range nanos"
  else None.

Definition concrete_dur_check (d : Duration) : option string :=
  if (dur_seconds d <? -315576000000) || (315576000000 <? dur_seconds d)
  then Some "duration exceeds 10000 years"
  else if (dur_nanos d <=? -1000000000) || (1000000000 <=? dur_nanos d)
  then Some "duration has out-of-range nanos"
  else if ((0 <? dur_seconds d) && (dur_nanos d <? 0)) || ((dur_seconds d <? 0) && (0 <? dur_nanos d))
  then Some "duration has seconds and nanos with different signs"
  else None.

Definition concrete_externals : Externals := {|
  ts_as_time t := ts_seconds t * Second + ts_nanos t;
  ts_new t := mkTimestamp (t / Second) (t mod Second);
  ts_check := concrete_ts_check;
  dur_as := concrete_as_duration;
  dur_new d := mkDuration (Z.quot d Second) (Z.rem d Second);
  dur_check := concrete_dur_check;
  quote s := String.append "'" (String.append s "'");
  sha256 b := take 32 (b ++ replicate 32 Byte.x00)
|}.

Lemma concrete_laws : @ExternalLaws concrete_externals.
Proof.
  split; [intros x Hx; simpl; unfold timestamp_range, duration_range, zero_time, max_time, Second in *..|intros x].
  - pose proof (Z.div_mod x 1000000000). lia.
  - unfold concrete_ts_check; simpl.
    repeat case_match; try done; exfalso; Z.to_euclidean_division_equations; lia.
  - unfold concrete_as_duration; simpl. unfold Second.
    pose proof (Z.quot_rem x 1000000000). lia.
  - unfold concrete_dur_check; simpl.
    repeat case_match; try done; exfalso; Z.to_euclidean_division_equations; lia.
  - cbn [sha256 concrete_externals]. rewrite length_take length_app length_replicate. lia.
Qed.
