(* ===== verification/Errors.v ===== *)
(** * Go errors

    The error values of the allocator, the protocol, the runtime boundary and
    the tunnel registry.  A sentinel is a package-level [errors.New] value;
    [fmt.Errorf] with a leading [%w] wraps one sentinel; [errors.Join] keeps a
    list.  [errors.Is] walks the tree, [error_text] is [Error()]. *)

From S2P Require Import Prelude GoStrings Wire.

Inductive sentinel :=
(* internal/protocol *)
| ErrInvalidEnvelope
(* internal/allocator *)
| ErrOfferReleased | ErrInvalidConfig | ErrUnsupportedMessage | ErrCapacityExhausted
| ErrOfferNotFound | ErrOfferExpired | ErrOfferAlreadyAssigned | ErrExecutionNotFound
| ErrExecutionConflict | ErrUnauthorized | ErrInvalidTransition | ErrRuntimeStart
| ErrRuntimeStop | ErrIDCollision | ErrReplayCapacity | ErrReplayConflict
| ErrLeaseTooLong | ErrStore | ErrRecoveryUnsupported | ErrIncompatible
| ErrAdmission | ErrResultExpired | ErrCommandExpired
| ErrTunnelDisabled | ErrTunnelNoEndpoint
(* internal/runtime *)
| RtErrExecutionMissing | RtErrExecutionConflict | RtErrLogsMissing | RtErrLogOffset
| RtErrTunnelUnsupported
(* internal/tunnel *)
| ErrTunnelNotBound | ErrPeerKeyMismatch | ErrSessionBusy | ErrUnknownTargetPort
(* context *)
| CtxCanceled | CtxDeadlineExceeded.

#[export] Instance sentinel_eq_dec : EqDecision sentinel.
Proof. solve_decision. Defined.

Definition sentinel_text (s : sentinel) : string :=
  match s with
  | ErrInvalidEnvelope => "invalid envelope"
  | ErrOfferReleased => "offer was released"
  | ErrInvalidConfig => "invalid allocator configuration"
  | ErrUnsupportedMessage => "unsupported allocator message"
  | ErrCapacityExhausted => "allocator capacity exhausted"
  | ErrOfferNotFound => "offer not found"
  | ErrOfferExpired => "offer expired"
  | ErrOfferAlreadyAssigned => "offer already assigned"
  | ErrExecutionNotFound => "execution not found"
  | ErrExecutionConflict => "execution conflicts with existing execution"
  | ErrUnauthorized => "sender is not authorized"
  | ErrInvalidTransition => "invalid execution transition"
  | ErrRuntimeStart => "runtime start failed"
  | ErrRuntimeStop => "runtime stop failed"
  | ErrIDCollision => "generated identifier already exists"
  | ErrReplayCapacity => "replay capacity exhausted"
  | ErrReplayConflict => "message ID reused with different content"
  | ErrLeaseTooLong => "lease duration exceeds the allocator bound"
  | ErrStore => "allocator state store failed"
  | ErrRecoveryUnsupported => "runtime does not support recovery"
  | ErrIncompatible => "node does not satisfy placement constraints"
  | ErrAdmission => "client admission denied"
  | ErrResultExpired => "retained result expired"
  | ErrCommandExpired => "command outside replay horizon"
  | ErrTunnelDisabled => "direct-access tunnels are disabled on this allocator"
  | ErrTunnelNoEndpoint => "tunnel endpoint is not ready"
  | RtErrExecutionMissing => "runtime execution is missing"
  | RtErrExecutionConflict => "runtime execution conflicts with durable state"
  | RtErrLogsMissing => "logs are missing or expired"
  | RtErrLogOffset => "log offset is outside retained data"
  | RtErrTunnelUnsupported => "runtime cannot dial execution ports"
  | ErrTunnelNotBound => "execution has no tunnel binding"
  | ErrPeerKeyMismatch => "tunnel peer key does not match the execution's bound key"
  | ErrSessionBusy => "execution already has a live tunnel session"
  | ErrUnknownTargetPort => "tunnel target port was not pre-authorized"
  | CtxCanceled => "context canceled"
  | CtxDeadlineExceeded => "context deadline exceeded"
  end.

(** The pieces of a formatted message after the wrapped sentinel: literal text
    and [%s] values, and [%q] values. *)
Inductive part := Txt (s : string) | Quoted (s : string).

Inductive gerror :=
| ESentinel (s : sentinel)
| EWrap (s : sentinel) (msg : list part)
| EInvalid (field problem : string)
| EOpaque (text : string)
| EJoin (es : list gerror).

(** A nil or non-nil [error]. *)
Abbreviation error := (option gerror).

(** [errors.Is(err, s)] *)
Fixpoint is_err (s : sentinel) (e : gerror) : bool :=
  match e with
  | ESentinel s' => bool_decide (s = s')
  | EWrap s' _ => bool_decide (s = s')
  | EInvalid _ _ => bool_decide (s = ErrInvalidEnvelope)
  | EOpaque _ => false
  | EJoin es => existsb (is_err s) es
  end.

Section text.
Context `{Externals}.

Definition part_text (p : part) : string :=
  match p with Txt s => s | Quoted s => quote s end.

Fixpoint error_text (e : gerror) : string :=
  match e with
  | ESentinel s => sentinel_text s
  | EWrap s msg => (sentinel_text s ++ ": " ++ str_join "" (map part_text msg))%string
  | EInvalid f p => (sentinel_text ErrInvalidEnvelope ++ ": " ++ f ++ ": " ++ p)%string
  | EOpaque t => t
  | EJoin es => str_join (String (Ascii.ascii_of_nat 10) "") (map error_text es)
  end.
End text.

(** [errors.Join(...)]: nil errors are dropped, and joining none of them is nil. *)
Definition join_errors (es : list error) : error :=
  match omap id es with [] => None | l => Some (EJoin l) end.

(** The error of a joined list is one of its members. *)
Lemma is_err_join s es :
  is_err s (EJoin es) = true ↔ ∃ e, e ∈ es ∧ is_err s e = true.
Proof.
  simpl. rewrite existsb_exists. split; intros (e & He & ?); exists e; split; auto;
    by apply list_elem_of_In.
Qed.

Lemma join_errors_None es : join_errors es = None ↔ Forall (eq None) es.
Proof.
  unfold join_errors. induction es as [|[e|] es IH]; simpl.
  - split; [constructor|done].
  - split; [done|]. inversion 1; subst. done.
  - rewrite IH. split; [by constructor|]. by inversion 1.
Qed.
