(* ===== verification/Protocol.v ===== *)
(** * The protocol contract (internal/protocol)

    Envelope and payload validation, placement matching and the protocol-level
    vocabulary shared by the client and the allocator.  A validator returns [Ok]
    or the first [ValidationError].  Where the source ranges over a Go map (whose
    order is unspecified), the model takes the map's canonical order: which of
    several problems is reported may differ, whether one is reported does not. *)

From S2P Require Import Prelude GoStrings Wire Errors.
From stdpp Require Import pretty.
From Stdlib Require Import Strings.Byte.

Open Scope Z_scope.

Definition invalid (field problem : string) : result gerror unit := Err (EInvalid field problem).

(** ** Durations and bounds *)

Definition DefaultLease : duration := 10 * Minute.
Definition LeaseExpiredDetail : string := "execution lease expired".
Definition MaxLogBytes : Z := Z.shiftl 64 10.
Definition MaxPeerKeySize : Z := 64.

Definition MaxCapabilityKeyLen : Z := 64.
Definition MaxCapabilityValueLen : Z := 128.
Definition MaxCapabilityLabels : Z := 8.
Definition MaxCapabilityDevices : Z := 8.
Definition MaxCapabilityProfiles : Z := 16.
Definition MaxCapabilityCache : Z := 16.
Definition MaxCapabilityCacheImage : Z := 256.

Definition runIDBytes : Z := 16.

Definition ErrorCodes : list string :=
  [ "INVALID_REQUEST"; "CAPACITY"; "NOT_FOUND"; "CONFLICT"; "EXPIRED"; "UNAVAILABLE";
    "DENIED"; "INTERNAL"; "OUTCOME_UNKNOWN"; "INCOMPATIBLE" ].

(** ** Lifecycle vocabulary *)

(** [protocol.Terminal] *)
Definition Terminal (phase : ExecutionPhase) : bool :=
  bool_decide (phase = PHASE_CANCELLED) || bool_decide (phase = PHASE_COMPLETED)
  || bool_decide (phase = PHASE_FAILED).

(** ** Placement *)

Definition lower_alnum (b : Byte.byte) : bool :=
  let n := Byte.to_N b in
  ((97 <=? n)%N && (n <=? 122)%N) || ((48 <=? n)%N && (n <=? 57)%N).

Definition one_of (set : string) (b : Byte.byte) : bool :=
  existsb (Byte.eqb b) (String.list_byte_of_string set).

(** An anchored pattern: one character of [first], then any of [rest]. *)
Definition match_class (first rest : Byte.byte → bool) (s : string) : bool :=
  match String.list_byte_of_string s with
  | [] => false
  | b :: l => first b && forallb rest l
  end.

(** [^[a-z0-9][a-z0-9._/-]*$] and [^[a-z0-9][a-z0-9._/:+-]*$] *)
Definition capabilityKey : string → bool :=
  match_class lower_alnum (fun b => lower_alnum b || one_of "._/-" b).
Definition capabilityValue : string → bool :=
  match_class lower_alnum (fun b => lower_alnum b || one_of "._/:+-" b).

Definition check (b : bool) (field problem : string) : result gerror unit :=
  if b then Ok tt else invalid field problem.

(** Check every element of a list, stopping at the first failure. *)
Fixpoint check_all {A} (f : A → result gerror unit) (l : list A) : result gerror unit :=
  match l with
  | [] => Ok tt
  | a :: l' => try _ ← f a; check_all f l'
  end.

Definition bounded_value (v : string) : bool :=
  negb ((MaxCapabilityValueLen <? slen v) || negb (capabilityValue v)).

Definition bounded_name (v : string) : bool :=
  negb ((slen v =? 0) || (MaxCapabilityValueLen <? slen v) || negb (capabilityValue v)).

Definition optional_value (prefix : string) (fv : string * string) : result gerror unit :=
  check (bool_decide (fv.2 = "") || bounded_value fv.2)
    (prefix +:+ fv.1) "must be lowercase ASCII and bounded".

Definition check_label (field : string) (kv : string * string) : result gerror unit :=
  try _ ← check (negb ((slen kv.1 =? 0) || (MaxCapabilityKeyLen <? slen kv.1) || negb (capabilityKey kv.1)))
            field "each label key must be lowercase ASCII and bounded";
  check (bounded_value kv.2) field "each label value must be bounded".

(** [ValidateCapabilities] *)
Definition ValidateCapabilities (node : option NodeCapabilities) : result gerror unit :=
  match node with
  | None => Ok tt
  | Some n =>
    try _ ← check_all (optional_value "node_capabilities.")
              [("os", nc_os n); ("arch", nc_arch n); ("runtime", nc_runtime n)];
    try _ ← check (zlen (nc_cached_images n) <=? MaxCapabilityCache)
              "node_capabilities.cached_images" "too many entries";
    try _ ← check_all (fun image =>
                check (negb ((slen image =? 0) || (MaxCapabilityCacheImage <? slen image)))
                  "node_capabilities.cached_images" "entry must be a bounded image reference")
              (nc_cached_images n);
    try _ ← check (zlen (nc_devices n) <=? MaxCapabilityDevices)
              "node_capabilities.devices" "too many devices";
    try _ ← check_all (fun device => check (bounded_name device)
                "node_capabilities.devices" "each device must be a lowercase ASCII name")
              (nc_devices n);
    try _ ← check (zlen (nc_resource_profiles n) <=? MaxCapabilityProfiles)
              "node_capabilities.resource_profiles" "too many profiles";
    try _ ← check_all (fun profile => check (bounded_name profile)
                "node_capabilities.resource_profiles" "each profile must be a bounded lowercase name")
              (nc_resource_profiles n);
    try _ ← check (Z.of_nat (size (nc_labels n)) <=? MaxCapabilityLabels)
              "node_capabilities.labels" "too many labels";
    check_all (check_label "node_capabilities.labels") (map_to_list (nc_labels n))
  end.

(** [ValidateConstraints] *)
Definition ValidateConstraints (constraints : option PlacementConstraints) : result gerror unit :=
  match constraints with
  | None => Ok tt
  | Some c =>
    try _ ← check_all (optional_value "placement_constraints.")
              [("os", pc_os c); ("arch", pc_arch c); ("runtime", pc_runtime c)];
    try _ ← check (zlen (pc_devices c) <=? MaxCapabilityDevices)
              "placement_constraints.devices" "too many devices";
    try _ ← check_all (fun device => check (bounded_name device)
                "placement_constraints.devices" "each device must be a lowercase ASCII name")
              (pc_devices c);
    try _ ← check (Z.of_nat (size (pc_labels c)) <=? MaxCapabilityLabels)
              "placement_constraints.labels" "too many labels";
    check_all (check_label "placement_constraints.labels") (map_to_list (pc_labels c))
  end.

(** A required identity string equals the node's, when one is required. *)
Definition field_conflicts (required actual : string) : bool :=
  negb (bool_decide (required = "")) && negb (bool_decide (required = actual)).

Definition label_conflicts (node : NodeCapabilities) (kv : string * string) : bool :=
  negb (bool_decide (mget "" (nc_labels node) kv.1 = kv.2)).

Definition contains := str_contains.

(** [PlacementMatches] *)
Definition PlacementMatches (constraints : option PlacementConstraints) (node : option NodeCapabilities) : bool :=
  match constraints, node with
  | None, _ => true
  | Some _, None => false
  | Some c, Some n =>
    if field_conflicts (pc_os c) (nc_os n) then false
    else if field_conflicts (pc_arch c) (nc_arch n) then false
    else if field_conflicts (pc_runtime c) (nc_runtime n) then false
    else if existsb (label_conflicts n) (map_to_list (pc_labels c)) then false
    else forallb (contains (nc_devices n)) (pc_devices c)
  end.

(** [PlacementCompatible] *)
Definition PlacementCompatible (constraints : option PlacementConstraints) (node : option NodeCapabilities) : bool :=
  match constraints with
  | None => true
  | Some c =>
    if slen (pc_os c) + slen (pc_arch c) + slen (pc_runtime c)
       + Z.of_nat (size (pc_labels c)) + zlen (pc_devices c) =? 0 then true
    else match node with
         | None => true
         | Some _ => PlacementMatches constraints node
         end
  end.

(** The list of requirements a node does not meet, in the order reported. *)
Definition missing_requirements (c : PlacementConstraints) (n : NodeCapabilities) : list string :=
  (if field_conflicts (pc_os c) (nc_os n) then ["os=" +:+ pc_os c] else [])
  ++ (if field_conflicts (pc_arch c) (nc_arch n) then ["arch=" +:+ pc_arch c] else [])
  ++ (if field_conflicts (pc_runtime c) (nc_runtime n) then ["runtime=" +:+ pc_runtime c] else [])
  ++ map (fun kv => "label=" +:+ kv.1 +:+ "=" +:+ kv.2)
       (List.filter (label_conflicts n) (map_to_list (pc_labels c)))
  ++ map (fun d => "device=" +:+ d)
       (List.filter (fun d => negb (contains (nc_devices n) d)) (pc_devices c)).

(** [PlacementConflictDetails] *)
Definition PlacementConflictDetails (constraints : option PlacementConstraints) (node : option NodeCapabilities) : string :=
  match constraints, node with
  | Some c, Some n =>
    match missing_requirements c n with
    | [] => "node satisfies no placement constraints"
    | missing => "node does not satisfy placement constraints: " +:+ str_join "," missing
    end
  | _, _ => "node satisfies no placement constraints"
  end.

(** [CapabilitiesEqual] *)
Definition CapabilitiesEqual (left right : option NodeCapabilities) : bool :=
  match left, right with
  | None, None => true
  | Some l, Some r =>
    if negb (bool_decide (nc_os l = nc_os r)) || negb (bool_decide (nc_arch l = nc_arch r))
       || negb (bool_decide (nc_runtime l = nc_runtime r)) then false
    else if negb (bool_decide (nc_devices l = nc_devices r)) then false
    else if negb (bool_decide (nc_resource_profiles l = nc_resource_profiles r)) then false
    else if negb (bool_decide (nc_cached_images l = nc_cached_images r)) then false
    else if negb (Z.of_nat (size (nc_labels l)) =? Z.of_nat (size (nc_labels r))) then false
    else forallb (fun kv => bool_decide (mget "" (nc_labels r) kv.1 = kv.2)) (map_to_list (nc_labels l))
  | _, _ => false
  end.

(** ** Tunnel targets *)

(** [tunnel.Target] *)
Record Target := mkTarget { target_port : Z }.

#[export] Instance Target_eq_dec : EqDecision Target.
Proof. solve_decision. Defined.

(** [ValidateTunnelTargets]: the index of a bad target is part of its error. *)
Fixpoint convert_targets (i : Z) (l : list TunnelTarget) : result gerror (list Target) :=
  match l with
  | [] => Ok []
  | pt :: l' =>
    let port := tt_port pt in
    if port =? 0 then Err (EWrap ErrInvalidEnvelope [Txt "tunnel target["; Txt (pretty i); Txt "]: port must be positive"])
    else if 0xFFFF <? port then Err (EWrap ErrInvalidEnvelope [Txt "tunnel target["; Txt (pretty i); Txt "]: port too large"])
    else try rest ← convert_targets (i + 1) l'; Ok (mkTarget (u16 port) :: rest)
  end.

Definition ValidateTunnelTargets (protoTargets : list TunnelTarget) : result gerror (list Target) :=
  match protoTargets with
  | [] => Err (EWrap ErrInvalidEnvelope [Txt "no tunnel targets supplied"])
  | _ => convert_targets 0 protoTargets
  end.

(** [TargetsToProto] *)
Definition TargetsToProto (targets : list Target) : list TunnelTarget :=
  map (fun t => mkTunnelTarget (target_port t)) targets.

(** ** Payload validation *)

(** [validRunID] *)
Definition validRunID (value : string) : bool :=
  if negb (slen value =? runIDBytes * 2) || negb (bool_decide (to_lower value = value)) then false
  else match hex_decode value with
       | Some decoded => zlen decoded =? runIDBytes
       | None => false
       end.

Definition required (s field : string) : result gerror unit :=
  check (negb (blank s)) field "is required".

Section validate.
Context `{Externals}.

(** [validTimestamp] *)
Definition validTimestamp (field : string) (value : option Timestamp) : result gerror unit :=
  match value with
  | None => invalid field "is required"
  | Some t => match ts_check t with Some problem => invalid field problem | None => Ok tt end
  end.

(** [validateRequest] *)
Definition validateRequest (request : option ExecutionRequest) : result gerror unit :=
  match request with
  | None => invalid "execution_request" "is required"
  | Some r =>
    try _ ← required (er_request_id r) "execution_request.request_id";
    try _ ← check (validRunID (er_run_id r)) "execution_request.run_id" "must be 32 lowercase hexadecimal characters";
    try _ ← check (negb (er_attempt r =? 0)) "execution_request.attempt" "must be positive";
    try _ ← required (er_resource_class r) "execution_request.resource_class";
    try _ ← ValidateConstraints (er_constraints r);
    match er_workload r with
    | None => invalid "execution_request.workload" "is required"
    | Some w =>
      try _ ← required (wl_image w) "execution_request.workload.image";
      try _ ← check_all (fun kv => check (negb (blank kv.1))
                  "execution_request.workload.environment" "contains an empty key")
                (map_to_list (wl_environment w));
      match er_policy r with
      | None => invalid "execution_request.policy" "is required"
      | Some _ => Ok tt
      end
    end
  end.

(** [validateOffer] *)
Definition validateOffer (envelope : Envelope) (offer : option ExecutionOffer) : result gerror unit :=
  match offer with
  | None => invalid "execution_offer" "is required"
  | Some o =>
    try _ ← required (eo_offer_id o) "execution_offer.offer_id";
    try _ ← required (eo_request_id o) "execution_offer.request_id";
    try _ ← required (eo_resource_class o) "execution_offer.resource_class";
    try _ ← validTimestamp "execution_offer.expires_at" (eo_expires_at o);
    try _ ← check (after (as_time (eo_expires_at o)) (as_time (env_sent_at envelope)))
              "execution_offer.expires_at" "must be after sent_at";
    ValidateCapabilities (eo_node o)
  end.

(** [validateAssign] *)
Definition validateAssign (assign : option ExecutionAssign) : result gerror unit :=
  match assign with
  | None => invalid "execution_assign" "is required"
  | Some a =>
    try _ ← required (ea_request_id a) "execution_assign.request_id";
    try _ ← required (ea_offer_id a) "execution_assign.offer_id";
    required (ea_execution_id a) "execution_assign.execution_id"
  end.

(** [validateCancel] *)
Definition validateCancel (cancel : option ExecutionCancel) : result gerror unit :=
  match cancel with
  | None => invalid "execution_cancel" "is required"
  | Some c => required (ec_execution_id c) "execution_cancel.execution_id"
  end.

(** [validateInspect] *)
Definition validateInspect (inspect : option ExecutionInspect) : result gerror unit :=
  match inspect with
  | None => invalid "execution_inspect" "is required"
  | Some i => required (ei_execution_id i) "execution_inspect.execution_id"
  end.

(** The phases a state message may carry. *)
Definition known_phase (p : ExecutionPhase) : bool :=
  match p with
  | PHASE_STARTING | PHASE_RUNNING | PHASE_CANCELLING
  | PHASE_CANCELLED | PHASE_COMPLETED | PHASE_FAILED => true
  | _ => false
  end.

(** [validateState] *)
Definition validateState (state : option ExecutionState) : result gerror unit :=
  match state with
  | None => invalid "execution_state" "is required"
  | Some s =>
    try _ ← required (es_execution_id s) "execution_state.execution_id";
    try _ ← check (known_phase (es_phase s)) "execution_state.phase" "is required and must be known";
    validTimestamp "execution_state.occurred_at" (es_occurred_at s)
  end.

(** [validateError] *)
Definition validateError (e : Envelope) (failure : option CommandError) : result gerror unit :=
  match failure with
  | Some f =>
    check (negb (negb (str_contains ErrorCodes (ce_code f)) || blank (env_correlation_id e)
                 || (256 <? slen (ce_detail f))))
      "command_error" "requires a known code, correlation, and bounded detail"
  | None => invalid "command_error" "requires a known code, correlation, and bounded detail"
  end.

Definition known_stream (s : string) : bool := bool_decide (s = "stdout") || bool_decide (s = "stderr").

(** [validateLogsRequest] *)
Definition validateLogsRequest (q : option ExecutionLogsRequest) : result gerror unit :=
  match q with
  | Some q =>
    check (negb (blank (lq_execution_id q) || negb (known_stream (lq_stream q))
                 || (lq_max_bytes q =? 0) || (MaxLogBytes <? lq_max_bytes q)))
      "execution_logs_request" "requires execution, stdout/stderr, and 1..65536 bytes"
  | None => invalid "execution_logs_request" "requires execution, stdout/stderr, and 1..65536 bytes"
  end.

(** [validateLogsResponse] *)
Definition validateLogsResponse (e : Envelope) (r : option ExecutionLogsResponse) : result gerror unit :=
  match r with
  | None => invalid "execution_logs_response" "invalid range or correlation"
  | Some r =>
    if bool_decide (env_correlation_id e = "") || bool_decide (lr_execution_id r = "")
       || negb (known_stream (lr_stream r)) || (MaxLogBytes <? zlen (lr_data r))
       || (lr_next_offset r <? lr_offset r)
       || negb (u64 (lr_next_offset r - lr_offset r) =? u64 (zlen (lr_data r)))
    then invalid "execution_logs_response" "invalid range or correlation"
    else check (bool_decide (sha256 (lr_data r) = lr_sha256 r))
           "execution_logs_response.sha256" "checksum mismatch"
  end.

(** [validateLeaseRenew] *)
Definition validateLeaseRenew (renew : option ExecutionLeaseRenew) : result gerror unit :=
  match renew with
  | None => invalid "execution_lease_renew" "is required"
  | Some r =>
    try _ ← required (ln_execution_id r) "execution_lease_renew.execution_id";
    match ln_lease_duration r with
    | None => invalid "execution_lease_renew.lease_duration" "is required"
    | Some d =>
      match dur_check d with
      | Some problem => invalid "execution_lease_renew.lease_duration" problem
      | None => check (0 <? dur_as d) "execution_lease_renew.lease_duration" "must be positive"
      end
    end
  end.

(** [validateLeaseRenewAck] *)
Definition validateLeaseRenewAck (ack : option ExecutionLeaseRenewAck) : result gerror unit :=
  match ack with
  | None => invalid "execution_lease_renew_ack" "is required"
  | Some a =>
    try _ ← required (la_execution_id a) "execution_lease_renew_ack.execution_id";
    validTimestamp "execution_lease_renew_ack.expires_at" (la_expires_at a)
  end.

(** [validateOfferRelease] *)
Definition validateOfferRelease (release : option ExecutionOfferRelease) : result gerror unit :=
  match release with
  | None => invalid "execution_offer_release" "is required"
  | Some r => check (negb (blank (or_request_id r) || blank (or_offer_id r)))
                "execution_offer_release" "request_id and offer_id are required"
  end.

(** [validateOfferReleaseAck] *)
Definition validateOfferReleaseAck (envelope : Envelope) (ack : option ExecutionOfferReleaseAck) : result gerror unit :=
  match ack with
  | None => invalid "execution_offer_release_ack" "is required"
  | Some a =>
    try _ ← check (negb (blank (env_correlation_id envelope)))
              "correlation_id" "is required for offer release acknowledgement";
    try _ ← check (negb (blank (ora_request_id a) || blank (ora_offer_id a)))
              "execution_offer_release_ack" "request_id and offer_id are required";
    check (negb ((outcome_number (ora_outcome a) <? outcome_number OUTCOME_RELEASED)
                 || (outcome_number OUTCOME_ASSIGNED <? outcome_number (ora_outcome a))))
      "execution_offer_release_ack.outcome" "is not supported"
  end.

(** [validateTunnelOpen] *)
Definition validateTunnelOpen (open : option ExecutionTunnelOpen) : result gerror unit :=
  match open with
  | None => invalid "execution_tunnel_open" "is required"
  | Some o =>
    try _ ← required (to_execution_id o) "execution_tunnel_open.execution_id";
    try _ ← check (negb (zlen (to_ygg_peer_pubkey o) =? 0)) "execution_tunnel_open.ygg_peer_pubkey" "is required";
    try _ ← check (zlen (to_ygg_peer_pubkey o) <=? MaxPeerKeySize) "execution_tunnel_open.ygg_peer_pubkey" "is too large";
    try _ ← check (negb (zlen (to_targets o) =? 0)) "execution_tunnel_open.targets" "is required";
    try _ ← ValidateTunnelTargets (to_targets o);
    Ok tt
  end.

(** [validateTunnelOpenAck] *)
Definition validateTunnelOpenAck (ack : option ExecutionTunnelOpenAck) : result gerror unit :=
  match ack with
  | None => invalid "execution_tunnel_open_ack" "is required"
  | Some a => required (ta_execution_id a) "execution_tunnel_open_ack.execution_id"
  end.

(** The switch of [ValidateEnvelope] over the payload. *)
Definition validatePayload (envelope : Envelope) : result gerror unit :=
  match env_payload envelope with
  | Some (P_CommandError m) => validateError envelope m
  | Some (P_ExecutionLogsRequest m) => validateLogsRequest m
  | Some (P_ExecutionLogsResponse m) => validateLogsResponse envelope m
  | Some (P_ExecutionRequest m) => validateRequest m
  | Some (P_ExecutionOffer m) => validateOffer envelope m
  | Some (P_ExecutionAssign m) => validateAssign m
  | Some (P_ExecutionCancel m) => validateCancel m
  | Some (P_ExecutionState m) => validateState m
  | Some (P_ExecutionInspect m) => validateInspect m
  | Some (P_ExecutionOfferRelease m) => validateOfferRelease m
  | Some (P_ExecutionLeaseRenew m) => validateLeaseRenew m
  | Some (P_ExecutionLeaseRenewAck m) => validateLeaseRenewAck m
  | Some (P_ExecutionTunnelOpen m) => validateTunnelOpen m
  | Some (P_ExecutionTunnelOpenAck m) => validateTunnelOpenAck m
  | Some (P_ExecutionOfferReleaseAck m) => validateOfferReleaseAck envelope m
  | None => invalid "payload" "is required"
  end.

(** [ValidateEnvelope] *)
Definition ValidateEnvelope (envelope : option Envelope) : result gerror unit :=
  match envelope with
  | None => invalid "envelope" "is required"
  | Some e =>
    try _ ← required (env_message_id e) "message_id";
    try _ ← check (negb (zlen (env_sender e) =? 0)) "sender" "is required";
    try _ ← validTimestamp "sent_at" (env_sent_at e);
    validatePayload e
  end.
End validate.

(** ** Properties of the validators *)

Lemma check_ok b field problem : check b field problem = Ok tt ↔ b = true.
Proof. by destruct b. Qed.

Lemma check_all_ok {A} (f : A → result gerror unit) l :
  check_all f l = Ok tt ↔ ∀ a, a ∈ l → f a = Ok tt.
Proof.
  induction l as [|a l IH]; simpl.
  - split; [intros _ a Ha; by apply not_elem_of_nil in Ha | done].
  - rewrite result_bind_ok. setoid_rewrite IH. setoid_rewrite elem_of_cons. split.
    + intros ([] & Ha & Hl) b [->|Hb]; auto.
    + intros Hall. exists tt. auto.
Qed.

(** Unfold one validator step: every [try] of a successful validation succeeded. *)
Ltac ok_steps :=
  repeat match goal with
  | H : result_bind _ _ = Ok _ |- _ => apply result_bind_ok in H as ([] & ? & H)
  | H : check _ _ _ = Ok _ |- _ => apply check_ok in H
  | H : check_all _ _ = Ok _ |- _ => rewrite check_all_ok in H
  end.

Lemma slen_zero s : slen s = 0 ↔ s = "".
Proof. unfold slen. destruct s; simpl; split; try done; lia. Qed.

Lemma map_fixed {A} (f : A → A) l : map f l = l ↔ ∀ x, x ∈ l → f x = x.
Proof.
  induction l as [|a l IH]; simpl.
  - split; [intros _ x Hx; by apply not_elem_of_nil in Hx | done].
  - setoid_rewrite elem_of_cons. split.
    + intros [= Ha Hl] x [->|Hx]; [done|]. by apply IH.
    + intros Hall. rewrite (Hall a (or_introl eq_refl)). f_equal. apply IH. auto.
Qed.

Lemma to_lower_fixed s :
  to_lower s = s ↔ ∀ b, b ∈ String.list_byte_of_string s → lower_byte b = b.
Proof.
  unfold to_lower. rewrite -map_fixed. split; intros Hs.
  - apply (f_equal String.list_byte_of_string) in Hs.
    by rewrite String.list_byte_of_string_of_list_byte in Hs.
  - rewrite Hs. apply String.string_of_list_byte_of_string.
Qed.

(** [validRunID] accepts exactly the strings of 32 lowercase hexadecimal
    characters. *)
Theorem validRunID_spec value :
  validRunID value = true ↔
  String.length value = 32%nat ∧ ∀ b, b ∈ String.list_byte_of_string value → lower_hex_byte b = true.
Proof.
  unfold validRunID, slen, runIDBytes. rewrite /zlen /hex_decode. split.
  - destruct (_ || _) eqn:Hg; [done|]. apply orb_false_iff in Hg as [Hl Hlow].
    apply negb_false_iff, bool_decide_eq_true in Hlow. rewrite to_lower_fixed in Hlow.
    destruct (hex_decode_bytes _) as [r|] eqn:Hd; [|done]. intros Hr.
    apply hex_decode_bytes_spec in Hd as [Hhex Hlen]. split; [lia|].
    intros b Hb. apply lower_byte_hex; [|by apply Hlow].
    rewrite Forall_forall in Hhex. by apply Hhex.
  - intros [Hlen Hall].
    assert (to_lower value = value) as Hlow.
    { apply to_lower_fixed. intros b Hb. by apply lower_hex_lower, Hall. }
    rewrite bool_decide_eq_true_2 // Hlen. simpl.
    destruct (hex_decode_bytes_total (String.list_byte_of_string value)) as [r Hr].
    + apply Forall_forall. intros b Hb. by apply lower_hex_lower, Hall.
    + by rewrite list_byte_of_string_length Hlen.
    + rewrite Hr. apply hex_decode_bytes_spec in Hr as [_ Hr].
      rewrite list_byte_of_string_length Hlen in Hr. lia.
Qed.

(** ** Placement *)

(** The declarative meaning of the constraints of [PlacementConstraints]: each
    present field is met by the node. *)
Record satisfies (c : PlacementConstraints) (n : NodeCapabilities) : Prop := {
  sat_os : pc_os c ≠ "" → nc_os n = pc_os c;
  sat_arch : pc_arch c ≠ "" → nc_arch n = pc_arch c;
  sat_runtime : pc_runtime c ≠ "" → nc_runtime n = pc_runtime c;
  sat_labels : ∀ k v, pc_labels c !! k = Some v → nc_labels n !! k = Some v;
  sat_devices : ∀ d, d ∈ pc_devices c → d ∈ nc_devices n
}.

Lemma field_conflicts_false r a : field_conflicts r a = false ↔ (r ≠ "" → a = r).
Proof.
  unfold field_conflicts. destruct (decide (r = "")) as [->|Hr]; simpl; [naive_solver|].
  rewrite bool_decide_eq_false_2 //=. rewrite negb_false_iff bool_decide_eq_true. naive_solver.
Qed.

Lemma capabilityValue_nonempty v : capabilityValue v = true → v ≠ "".
Proof. by intros Hv ->. Qed.

Lemma valid_constraint_labels c k v :
  ValidateConstraints (Some c) = Ok tt → pc_labels c !! k = Some v → v ≠ "".
Proof.
  simpl. intros Hv Hk. ok_steps.
  match goal with H : ∀ a, a ∈ map_to_list (pc_labels c) → _ |- _ => rename H into Hall end.
  specialize (Hall (k, v)). unfold check_label in Hall.
  assert (Hkv := Hall (proj2 (elem_of_map_to_list _ _ _) Hk)). ok_steps.
  apply capabilityValue_nonempty. unfold bounded_value in *. simpl in *.
  rewrite negb_true_iff orb_false_iff in Hkv. destruct Hkv as [_ Hkv].
  by apply negb_false_iff in Hkv.
Qed.

Lemma existsb_false {A} (p : A → bool) l : existsb p l = false ↔ ∀ a, a ∈ l → p a = false.
Proof.
  induction l as [|a l IH]; simpl.
  - split; [intros _ a Ha; by apply not_elem_of_nil in Ha | done].
  - rewrite orb_false_iff IH. setoid_rewrite elem_of_cons. naive_solver.
Qed.

Lemma forallb_true {A} (p : A → bool) l : forallb p l = true ↔ ∀ a, a ∈ l → p a = true.
Proof.
  induction l as [|a l IH]; simpl.
  - split; [intros _ a Ha; by apply not_elem_of_nil in Ha | done].
  - rewrite andb_true_iff IH. setoid_rewrite elem_of_cons. naive_solver.
Qed.

Lemma PlacementMatches_fields c n :
  PlacementMatches (Some c) (Some n) = true ↔
  field_conflicts (pc_os c) (nc_os n) = false ∧ field_conflicts (pc_arch c) (nc_arch n) = false ∧
  field_conflicts (pc_runtime c) (nc_runtime n) = false ∧
  (∀ k v, pc_labels c !! k = Some v → mget "" (nc_labels n) k = v) ∧
  (∀ d, d ∈ pc_devices c → d ∈ nc_devices n).
Proof.
  simpl. do 3 (destruct (field_conflicts _ _); [naive_solver|]).
  assert (existsb (label_conflicts n) (map_to_list (pc_labels c)) = false ↔
          ∀ k v, pc_labels c !! k = Some v → mget "" (nc_labels n) k = v) as Hlab.
  { rewrite existsb_false. split.
    - intros Hall k v Hk. specialize (Hall (k, v)). rewrite elem_of_map_to_list in Hall.
      specialize (Hall Hk). unfold label_conflicts in Hall. simpl in Hall.
      by apply negb_false_iff, bool_decide_eq_true in Hall.
    - intros Hall [k v] Hk%elem_of_map_to_list. unfold label_conflicts; simpl.
      rewrite negb_false_iff bool_decide_eq_true. by apply Hall. }
  destruct (existsb _ _); rewrite -Hlab; [naive_solver|].
  rewrite forallb_true. unfold contains. setoid_rewrite str_contains_spec. naive_solver.
Qed.

(** On constraints that pass [ValidateConstraints], [PlacementMatches] decides
    exactly the documented relation: equal identity strings where required, every
    required label present with its value, every required device declared. *)
Theorem PlacementMatches_spec c n :
  ValidateConstraints (Some c) = Ok tt →
  PlacementMatches (Some c) (Some n) = true ↔ satisfies c n.
Proof.
  intros Hv. rewrite PlacementMatches_fields !field_conflicts_false. split.
  - intros (Hos & Har & Hrt & Hl & Hd). split; auto.
    intros k v Hk. pose proof (valid_constraint_labels c k v Hv Hk) as Hne.
    specialize (Hl k v Hk). unfold mget in Hl.
    destruct (nc_labels n !! k); simpl in Hl; congruence.
  - intros [Hos Har Hrt Hl Hd]. split_and!; auto.
    intros k v Hk. unfold mget. by rewrite (Hl k v Hk).
Qed.

Lemma PlacementMatches_spec_witness :
  let c := mkConstraints "linux" "" "" {["region" := "eu"]} ["gpu"] in
  PlacementMatches (Some c) (Some (mkNode "linux" "arm64" "" [] ["gpu"] {["region" := "eu"]} [])) = true.
Proof.
  intros c. apply PlacementMatches_spec; [reflexivity|].
  split; simpl; done.
Defined.

(** The rejection detail names a missing requirement exactly when the node
    does not match: the two traversals of the constraints agree. *)
Theorem missing_requirements_spec c n :
  PlacementMatches (Some c) (Some n) = true ↔ missing_requirements c n = [].
Proof.
  unfold missing_requirements. rewrite !app_nil.
  assert (∀ A B (f : A → B) (p : A → bool) l,
            map f (List.filter p l) = [] ↔ existsb p l = false) as Hfilter.
  { intros A B f p l. induction l as [|a l IH]; simpl; [done|].
    destruct (p a); simpl; [done|]. by rewrite IH. }
  rewrite !Hfilter. simpl.
  do 3 (destruct (field_conflicts _ _); [naive_solver|]).
  destruct (existsb (label_conflicts n) _); [naive_solver|].
  rewrite forallb_true existsb_false. setoid_rewrite negb_false_iff. naive_solver.
Qed.

(** The client's advisory filter never skips an allocator that the
    allocator's own check accepts. *)
Theorem PlacementCompatible_complete constraints node :
  PlacementMatches constraints node = true → PlacementCompatible constraints node = true.
Proof.
  destruct constraints as [c|]; [|done]. intros Hm. unfold PlacementCompatible.
  destruct (_ =? 0); [done|]. by destruct node.
Qed.

Lemma PlacementCompatible_complete_witness :
  PlacementCompatible (Some (mkConstraints "linux" "" "" ∅ [])) (Some (mkNode "linux" "" "" [] [] ∅ [])) = true.
Proof. apply PlacementCompatible_complete. reflexivity. Defined.

Lemma valid_node_labels n k v :
  ValidateCapabilities (Some n) = Ok tt → nc_labels n !! k = Some v → v ≠ "".
Proof.
  simpl. intros Hv Hk. ok_steps.
  match goal with H : ∀ a, a ∈ map_to_list (nc_labels n) → _ |- _ => rename H into Hall end.
  specialize (Hall (k, v)). unfold check_label in Hall.
  assert (Hkv := Hall (proj2 (elem_of_map_to_list _ _ _) Hk)). ok_steps.
  apply capabilityValue_nonempty. unfold bounded_value in *. simpl in *.
  rewrite negb_true_iff orb_false_iff in Hkv. destruct Hkv as [_ Hkv].
  by apply negb_false_iff in Hkv.
Qed.

(** On advertisements that pass [ValidateCapabilities], [CapabilitiesEqual] is
    equality. *)
Theorem CapabilitiesEqual_spec l r :
  ValidateCapabilities l = Ok tt → ValidateCapabilities r = Ok tt →
  CapabilitiesEqual l r = true ↔ l = r.
Proof.
  intros Hl Hr. destruct l as [l|], r as [r|]; [|done..]. split.
  - cbn -[Z.eqb]. rewrite -!negb_andb -!bool_decide_and.
    repeat (case_match; [done|]). intros Hlab. rewrite forallb_true in Hlab.
    repeat match goal with
    | H : negb _ = false |- _ => apply negb_false_iff in H
    | H : bool_decide _ = true |- _ => apply bool_decide_eq_true in H
    end.
    assert (nc_labels l = nc_labels r) as Heq.
    { apply map_subseteq_size_eq; [|lia]. apply map_subseteq_spec. intros k v Hk.
      specialize (Hlab (k, v) (proj2 (elem_of_map_to_list _ _ _) Hk)). simpl in Hlab.
      apply bool_decide_eq_true in Hlab. unfold mget in Hlab.
      pose proof (valid_node_labels l k v Hl Hk).
      destruct (nc_labels r !! k); simpl in Hlab; congruence. }
    destruct l, r; simpl in *. naive_solver.
  - intros [= ->]. cbn -[Z.eqb]. rewrite !bool_decide_eq_true_2 // Z.eqb_refl /=.
    apply forallb_true. intros [k v] Hk%elem_of_map_to_list.
    rewrite bool_decide_eq_true. unfold mget. simpl. by rewrite Hk.
Qed.

Lemma CapabilitiesEqual_spec_witness :
  let n := Some (mkNode "linux" "arm64" "" ["small"] [] {["region" := "eu"]} []) in
  CapabilitiesEqual n n = true.
Proof. intros n. apply CapabilitiesEqual_spec; reflexivity. Defined.

(** The size test and the lookups alone do not imply equality: an empty label
    value reads the same as an absent label. *)
Example CapabilitiesEqual_empty_value :
  let node labels := Some (mkNode "" "" "" [] [] labels []) in
  CapabilitiesEqual (node {["a" := ""]}) (node {["b" := ""]}) = true.
Proof. reflexivity. Qed.

(** ** Tunnel targets *)

Definition port_ok (t : Target) : Prop := 1 ≤ target_port t ≤ 65535.

Lemma convert_targets_proto i targets :
  Forall port_ok targets → convert_targets i (TargetsToProto targets) = Ok targets.
Proof.
  intros Hall. revert i. induction Hall as [|[p] l Hp _ IH]; intros i; [done|].
  unfold port_ok in Hp. simpl in *.
  destruct (p =? 0) eqn:E; [lia|]. destruct (0xFFFF <? p) eqn:E'; [lia|].
  unfold TargetsToProto in IH. rewrite IH /= /u16 Z.mod_small //. lia.
Qed.

Lemma convert_targets_ok i l targets :
  Forall (fun t => 0 ≤ tt_port t) l →
  convert_targets i l = Ok targets → l = TargetsToProto targets ∧ Forall port_ok targets.
Proof.
  intros Hall. revert i targets. induction Hall as [|[p] l Hp _ IH]; intros i targets; simpl in *.
  - intros [= <-]. split; [done|constructor].
  - destruct (p =? 0) eqn:E; [done|]. destruct (0xFFFF <? p) eqn:E'; [done|].
    rewrite result_bind_ok. intros (rest & Hr & [= <-]).
    apply IH in Hr as [-> Hok]. unfold u16. rewrite Z.mod_small; [lia|].
    split; [done|]. constructor; [unfold port_ok; simpl; lia|done].
Qed.

(** A port list that passes [ValidateTunnelTargets] is kept unchanged by the
    16-bit conversion and has only ports 1 to 65535, and every such list passes:
    conversion to and from the wire form is a round trip. *)
Theorem tunnel_targets_roundtrip (wire : list TunnelTarget) (targets : list Target) :
  Forall (fun t => 0 ≤ tt_port t) wire →
  ValidateTunnelTargets wire = Ok targets ↔
  wire = TargetsToProto targets ∧ Forall port_ok targets ∧ targets ≠ [].
Proof.
  intros Hpos. split.
  - destruct wire as [|w ws]; [done|]. intros Hv.
    apply convert_targets_ok in Hv as [Hw Hok]; [|done]. split_and!; [done..|].
    by intros ->.
  - intros (-> & Hok & Hne). destruct targets as [|t ts]; [done|].
    by apply (convert_targets_proto 0 (t :: ts)).
Qed.

Lemma tunnel_targets_roundtrip_witness :
  ValidateTunnelTargets [mkTunnelTarget 80; mkTunnelTarget 65535] = Ok [mkTarget 80; mkTarget 65535].
Proof.
  apply tunnel_targets_roundtrip; [repeat constructor; simpl; lia|].
  split_and!; [reflexivity| |done]. repeat constructor; simpl; lia.
Defined.

(** ** Log responses *)

(** A log response that passes validation carries exactly the bytes of the
    range it names, at most 64 KiB of them, with their checksum. *)
Theorem validateLogsResponse_range `{Externals} e r :
  0 ≤ lr_offset r < 2 ^ 64 → 0 ≤ lr_next_offset r < 2 ^ 64 →
  validateLogsResponse e (Some r) = Ok tt →
  lr_next_offset r = lr_offset r + zlen (lr_data r) ∧ zlen (lr_data r) ≤ 65536 ∧
  lr_sha256 r = sha256 (lr_data r) ∧ (lr_stream r = "stdout" ∨ lr_stream r = "stderr") ∧
  env_correlation_id e ≠ "".
Proof.
  intros Ho Hn. simpl. destruct (_ || _) eqn:Hg; [done|]. intros Hsum.
  rewrite !orb_false_iff in Hg. destruct Hg as [[[[[Hc Hid] Hst] Hmax] Hlt] Hlen].
  apply check_ok, bool_decide_eq_true in Hsum.
  apply bool_decide_eq_false in Hc. apply negb_false_iff in Hst. apply negb_false_iff in Hlen.
  unfold MaxLogBytes in Hmax. rewrite Z.shiftl_mul_pow2 in Hmax; [lia|].
  unfold known_stream in Hst. apply orb_true_iff in Hst. rewrite !bool_decide_eq_true in Hst.
  assert (0 ≤ zlen (lr_data r)) by (unfold zlen; lia).
  rewrite /u64 in Hlen. rewrite !Z.mod_small in Hlen; [lia..|].
  split_and!; [lia|lia|done|tauto|done].
Qed.

Lemma validateLogsResponse_range_witness :
  let r := mkLogsResponse "x" "stdout" 5 [Byte.x41] 6 true false
             (@sha256 concrete_externals [Byte.x41]) in
  lr_next_offset r = 6.
Proof.
  intros r.
  pose proof (@validateLogsResponse_range concrete_externals
                (mkEnvelope "m" [Byte.x01] "c" None None) r) as Hw.
  destruct Hw as [Hw _]; [simpl; lia|simpl; lia|reflexivity|]. exact Hw.
Defined.
