(* ===== verification/Feedback.v ===== *)
(** * Command errors (internal/allocator/feedback.go, durable_errors.go)

    How the allocator turns an error into the [CommandError] envelope it sends
    back, and how it classifies an error so that it survives a restart. *)

From S2P Require Import Prelude GoStrings Wire Errors Protocol.

(** ** [errorResponse] *)

Section response.
Context `{Externals}.

(** The code, detail and retry flag chosen by the switch of [errorResponse]. *)
Definition error_class (err : gerror) : string * string * bool :=
  let matches s := is_err s err in
  if matches ErrAdmission then ("DENIED", "identity is not admitted by local policy", false)
  else if matches ErrStore then ("OUTCOME_UNKNOWN", "state commit failed; inspect the same allocator", true)
  else if matches ErrUnauthorized || matches ErrOfferNotFound || matches ErrExecutionNotFound
  then ("NOT_FOUND", "resource unavailable to this identity", false)
  else if matches ErrCapacityExhausted || matches ErrReplayCapacity
  then ("CAPACITY", "allocator capacity or command queue exhausted", true)
  else if matches ErrIncompatible then ("INCOMPATIBLE", error_text err, false)
  else if matches ErrOfferExpired || matches ErrOfferReleased || matches ErrResultExpired || matches ErrCommandExpired
  then ("EXPIRED", "reservation or retained result expired", false)
  else if matches ErrExecutionConflict || matches ErrReplayConflict || matches ErrOfferAlreadyAssigned
  then ("CONFLICT", "command conflicts with durable state", false)
  else if matches ErrTunnelDisabled then ("TUNNEL", "direct-access tunnels are disabled on this allocator", false)
  else if matches ErrTunnelNoEndpoint then ("TUNNEL", "tunnel endpoint is not ready on this allocator", true)
  else if matches ErrInvalidTransition then ("CONFLICT", "command conflicts with the current execution phase", false)
  else if matches ErrInvalidEnvelope || matches ErrUnsupportedMessage || matches ErrLeaseTooLong
  then ("INVALID_REQUEST", "invalid or unsupported command", false)
  else if matches ErrRuntimeStart || matches ErrRuntimeStop
  then ("UNAVAILABLE", "runtime operation failed; inspect the same allocator", true)
  else ("INTERNAL", "allocator could not process command", false).

(** [errorResponse]: [message_id] is the fresh random ID, [now] the clock. *)
Definition errorResponse (identity : bytes) (message_id : string) (now : time)
    (command : Envelope) (err : gerror) : list Envelope :=
  let '(code, detail, retry) := error_class err in
  [ mkEnvelope message_id identity (env_message_id command) (Some (ts_new now))
      (Some (P_CommandError (Some (mkCommandError code detail retry)))) ].
End response.

(** ** Durable classification *)

Definition durableErrors : list (string * sentinel) :=
  [ ("result_expired", ErrResultExpired); ("command_expired", ErrCommandExpired);
    ("admission", ErrAdmission); ("offer_released", ErrOfferReleased);
    ("unsupported_message", ErrUnsupportedMessage); ("capacity_exhausted", ErrCapacityExhausted);
    ("offer_not_found", ErrOfferNotFound); ("offer_expired", ErrOfferExpired);
    ("offer_assigned", ErrOfferAlreadyAssigned); ("execution_not_found", ErrExecutionNotFound);
    ("execution_conflict", ErrExecutionConflict); ("unauthorized", ErrUnauthorized);
    ("invalid_transition", ErrInvalidTransition); ("runtime_start", ErrRuntimeStart);
    ("runtime_stop", ErrRuntimeStop); ("id_collision", ErrIDCollision);
    ("replay_capacity", ErrReplayCapacity); ("replay_conflict", ErrReplayConflict);
    ("store", ErrStore) ].

(** The codes an error can be classified as: [classifyError] ranges over a Go map
    and returns the first code met whose sentinel the error matches. *)
Definition durable_codes (err : gerror) : list string :=
  omap (fun '(code, s) => if is_err s err then Some code else None) durableErrors.

(** [classifyError], visiting the map in the order above. *)
Definition classifyError (err : gerror) : string :=
  default "" (head (durable_codes err)).

Fixpoint assoc_sentinel (code : string) (l : list (string * sentinel)) : option sentinel :=
  match l with
  | [] => None
  | (c, s) :: l' => if decide (c = code) then Some s else assoc_sentinel code l'
  end.

(** [restoreError] *)
Definition restoreError (code message : string) : gerror :=
  match assoc_sentinel code durableErrors with
  | Some s => EWrap s [Txt message]
  | None => EOpaque message
  end.

(** ** Properties *)

Section response_facts.
Context `{Externals, !ExternalLaws}.

(** The codes [errorResponse] can produce. *)
Definition tunnel_error (err : gerror) : bool := bool_decide ((error_class err).1.1 = "TUNNEL").

Lemma error_class_code err :
  tunnel_error err = false → str_contains ErrorCodes (error_class err).1.1 = true.
Proof.
  unfold tunnel_error. rewrite bool_decide_eq_false. unfold error_class.
  repeat (case_match; [done|]). done.
Qed.

Lemma error_class_detail err :
  is_err ErrIncompatible err = false → slen (error_class err).1.2 ≤ 256.
Proof.
  intros Hi. unfold error_class. rewrite Hi.
  repeat (case_match; [vm_compute; discriminate|]). vm_compute; discriminate.
Qed.

(** When the envelope metadata is sound, a command error validates exactly when
    its code is known and its detail bounded. *)
Lemma errorResponse_valid_iff identity mid now command err :
  identity ≠ [] → blank mid = false → timestamp_range now → blank (env_message_id command) = false →
  Forall (fun e => ValidateEnvelope (Some e) = Ok tt) (errorResponse identity mid now command err) ↔
  str_contains ErrorCodes (error_class err).1.1 = true ∧ slen (error_class err).1.2 ≤ 256.
Proof.
  intros Hid Hmid Hnow Hcmd. unfold errorResponse.
  destruct (error_class err) as [[code detail] retry].
  rewrite Forall_singleton /ValidateEnvelope /required /validatePayload /validateError.
  cbn [fst snd env_message_id env_sender env_sent_at env_payload env_correlation_id ce_code ce_detail].
  rewrite Hmid Hcmd. generalize ErrorCodes => codes. simpl. rewrite ts_new_valid //.
  destruct identity as [|b l]; [done|]. cbn -[str_contains slen check].
  destruct (str_contains codes code); [|by split; [|intros [? _]]].
  unfold check. destruct (256 <? slen detail) eqn:E2; simpl; split; try done; lia.
Qed.

(** C38 A command error the allocator builds passes the client's envelope
    validation, unless it reports a tunnel error or an unbounded placement
    conflict. *)
Theorem errorResponse_validates identity mid now command err :
  identity ≠ [] → blank mid = false → timestamp_range now → blank (env_message_id command) = false →
  tunnel_error err = false → is_err ErrIncompatible err = false →
  Forall (fun e => ValidateEnvelope (Some e) = Ok tt) (errorResponse identity mid now command err).
Proof.
  intros. apply errorResponse_valid_iff; auto using error_class_code, error_class_detail.
Qed.

(** The error code of the two tunnel errors is not one of the protocol's
    error codes: the envelope that reports them never passes validation, so a
    client drops it. *)
Theorem tunnel_error_dropped identity mid now command err :
  err = ESentinel ErrTunnelDisabled ∨ err = ESentinel ErrTunnelNoEndpoint →
  Forall (fun e => is_ok (ValidateEnvelope (Some e)) = false) (errorResponse identity mid now command err).
Proof.
  intros Herr. unfold errorResponse.
  assert ((error_class err).1.1 = "TUNNEL") as Hc by (by destruct Herr as [->| ->]).
  destruct (error_class err) as [[code detail] retry]. simpl in *. subst code.
  apply Forall_singleton. unfold ValidateEnvelope. simpl.
  destruct (required _ _); [|done]. simpl. destruct (check _ _ _); [|done]. simpl.
  by destruct (ts_check _).
Qed.

(** A durable error keeps its class through a restart: an error that wraps
    one durable sentinel is restored as an error that matches it again. *)
Theorem restore_classified s msg text :
  is_Some (List.find (fun cs => bool_decide (cs.2 = s)) durableErrors) →
  is_err s (restoreError (classifyError (EWrap s msg)) text) = true.
Proof. by destruct s; intros [? ?]. Qed.
End response_facts.

Lemma errorResponse_validates_witness :
  Forall (fun e => @ValidateEnvelope concrete_externals (Some e) = Ok tt)
    (@errorResponse concrete_externals [Byte.x01] "m1" 0
       (mkEnvelope "c1" [Byte.x02] "" None None) (ESentinel ErrOfferExpired)).
Proof.
  apply (@errorResponse_validates concrete_externals concrete_laws); try reflexivity; [done|].
  unfold timestamp_range; vm_compute; split; discriminate.
Defined.

Lemma tunnel_error_dropped_witness :
  Forall (fun e => is_ok (@ValidateEnvelope concrete_externals (Some e)) = false)
    (@errorResponse concrete_externals [Byte.x01] "m1" 0
       (mkEnvelope "c1" [Byte.x02] "" None None) (ESentinel ErrTunnelDisabled)).
Proof. apply (@tunnel_error_dropped concrete_externals). by left. Defined.

Lemma restore_classified_witness :
  is_err ErrOfferExpired (restoreError (classifyError (EWrap ErrOfferExpired [])) "offer expired") = true.
Proof. apply restore_classified. by eexists. Defined.

(** ** An unbounded placement conflict *)

Section long_detail.
Definition long_value : string := String.string_of_list_byte (replicate 120 Byte.x61).
Definition long_constraints : PlacementConstraints :=
  mkConstraints "" "" "" {["a" := long_value; "b" := long_value]} [].
Definition plain_node : NodeCapabilities := mkNode "linux" "amd64" "" [] [] ∅ [].

(** Constraints that pass [ValidateConstraints] can produce a placement
    conflict whose detail exceeds the 256 bytes [validateError] allows: the
    INCOMPATIBLE rejection then fails the client's validation. *)
Theorem incompatible_detail_unbounded :
  let err := EWrap ErrIncompatible [Txt (PlacementConflictDetails (Some long_constraints) (Some plain_node))] in
  ValidateConstraints (Some long_constraints) = Ok tt ∧
  ValidateCapabilities (Some plain_node) = Ok tt ∧
  PlacementMatches (Some long_constraints) (Some plain_node) = false ∧
  forallb (fun e => negb (is_ok (@ValidateEnvelope concrete_externals (Some e))))
    (@errorResponse concrete_externals [Byte.x01] "m1" 0 (mkEnvelope "c1" [Byte.x02] "" None None) err) = true.
Proof. intros err. split_and!; vm_compute; reflexivity. Qed.
End long_detail.
