(* ===== verification/Capacity.v ===== *)
(** * The capacity ledger (internal/allocator/capacity.go)

    Slot accounting per resource class.  The limits never change; the used
    counters are 32-bit.  A missing class reads as zero slots. *)

From S2P Require Import Prelude GoStrings Errors.

Record capacityLedger := mkLedger {
  limits : gmap string Z;
  used : gmap string Z
}.

Definition with_used (l : capacityLedger) (u : gmap string Z) : capacityLedger :=
  mkLedger (limits l) u.

(** [newCapacityLedger]; the classes are visited in the map's canonical order. *)
Definition newCapacityLedger (configured : gmap string Z) : result gerror capacityLedger :=
  fail_if Nat.eqb (size configured) 0 with EWrap ErrInvalidConfig [Txt "capacity is required"];
  fail_if existsb (fun '(class, slots) => blank class || (slots =? 0)) (map_to_list configured)
    with EWrap ErrInvalidConfig [Txt "capacity classes and slots must be non-zero"];
  Ok (mkLedger configured ∅).

(** [reserve] *)
Definition reserve (l : capacityLedger) (class : string) : result gerror capacityLedger :=
  let exhausted := EWrap ErrCapacityExhausted [Txt "resource class "; Quoted class] in
  match limits l !! class with
  | None => Err exhausted
  | Some limit =>
    if limit <=? mget 0 (used l) class then Err exhausted
    else Ok (with_used l (<[class := u32 (mget 0 (used l) class + 1)]> (used l)))
  end.

(** [release] *)
Definition release (l : capacityLedger) (class : string) : capacityLedger :=
  if 0 <? mget 0 (used l) class
  then with_used l (<[class := u32 (mget 0 (used l) class - 1)]> (used l))
  else l.

(** [available] *)
Definition available (l : capacityLedger) (class : string) : Z :=
  let limit := mget 0 (limits l) class in
  if limit <=? mget 0 (used l) class then 0 else u32 (limit - mget 0 (used l) class).

(** [snapshot] and [restore] copy and put back the counters. *)
Definition snapshot (l : capacityLedger) : gmap string Z := used l.
Definition restore (l : capacityLedger) (u : gmap string Z) : capacityLedger := with_used l u.

(** ** Invariant *)

(** The limits are 32-bit and no class is used beyond its limit. *)
Definition limits_ok (lim : gmap string Z) : Prop := ∀ c, 0 ≤ mget 0 lim c < 2 ^ 32.

Record ledger_ok (l : capacityLedger) : Prop := {
  lk_limits : limits_ok (limits l);
  lk_used c : 0 ≤ mget 0 (used l) c ≤ mget 0 (limits l) c
}.

Lemma newCapacityLedger_ok configured l :
  limits_ok configured → newCapacityLedger configured = Ok l → ledger_ok l ∧ limits l = configured.
Proof.
  unfold newCapacityLedger. do 2 (case_match; [done|]). intros Hlim [= <-].
  split; [|done]. split; [done|]. intros c. specialize (Hlim c).
  simpl. unfold mget at 1 2. rewrite lookup_empty. simpl. lia.
Qed.

(** What a successful reservation does to every counter. *)
Lemma reserve_used l c l' :
  ledger_ok l → reserve l c = Ok l' →
  limits l' = limits l ∧ mget 0 (used l) c < mget 0 (limits l) c ∧
  ∀ c', mget 0 (used l') c' = mget 0 (used l) c' + Z.b2z (bool_decide (c = c')).
Proof.
  intros [Hlim Hused]. unfold reserve.
  destruct (limits l !! c) as [limit|] eqn:Hc; [|done].
  destruct (limit <=? _) eqn:Hfull; [done|]. intros [= <-]. simpl.
  pose proof (Hlim c) as Hl. pose proof (Hused c) as Hu.
  assert (mget 0 (limits l) c = limit) as Heq by (unfold mget; by rewrite Hc).
  split_and!; [done|lia|]. intros c'. rewrite mget_insert.
  case_decide as E; simpl.
  - subst c'. rewrite bool_decide_eq_true_2 // u32_small; simpl; lia.
  - rewrite bool_decide_eq_false_2 //=. lia.
Qed.

Lemma release_used l c :
  ledger_ok l → 0 < mget 0 (used l) c →
  limits (release l c) = limits l ∧
  ∀ c', mget 0 (used (release l c)) c' = mget 0 (used l) c' - Z.b2z (bool_decide (c = c')).
Proof.
  intros [Hlim Hused] Hpos. unfold release. destruct (0 <? _) eqn:E; [|lia]. split; [done|].
  intros c'. simpl. rewrite mget_insert. pose proof (Hused c). pose proof (Hlim c).
  case_decide as E'; simpl.
  - subst c'. rewrite bool_decide_eq_true_2 // u32_small; simpl; lia.
  - rewrite bool_decide_eq_false_2 //=. lia.
Qed.

Lemma release_limits l c : limits (release l c) = limits l.
Proof. unfold release. by case_match. Qed.

Lemma reserve_limits l c l' : reserve l c = Ok l' → limits l' = limits l.
Proof. unfold reserve. repeat case_match; by intros [= <-]. Qed.

Lemma available_spec l c :
  ledger_ok l → available l c = mget 0 (limits l) c - mget 0 (used l) c.
Proof.
  intros [Hlim Hused]. unfold available. pose proof (Hused c). pose proof (Hlim c).
  case_match; [lia|]. rewrite u32_small; lia.
Qed.

(** A class with an available slot can be reserved. *)
Lemma reserve_available l c :
  ledger_ok l → available l c ≠ 0 → ∃ l', reserve l c = Ok l'.
Proof.
  intros Hok. rewrite available_spec //. intros Hne. unfold reserve.
  pose proof (lk_used _ Hok c) as Hu. unfold mget in *.
  destruct (limits l !! c) as [limit|]; simpl in *; [|lia].
  destruct (limit <=? _) eqn:E; [lia|]. by eexists.
Qed.

(** Reserving keeps every class within its limit, succeeds exactly when a slot
    is available, and takes exactly one slot of that class; releasing it again
    puts every counter back. *)
Theorem reserve_release_spec l c :
  ledger_ok l →
  match reserve l c with
  | Ok l' =>
    ledger_ok l' ∧ 0 < available l c ∧
    (∀ c', available l' c' = available l c' - Z.b2z (bool_decide (c = c'))) ∧
    (∀ c', mget 0 (used (release l' c)) c' = mget 0 (used l) c')
  | Err e => available l c = 0 ∧ is_err ErrCapacityExhausted e = true
  end.
Proof.
  intros Hok. destruct (reserve l c) as [l'|e] eqn:Hr.
  - destruct (reserve_used l c l' Hok Hr) as (Hlim & Hlt & Hused).
    assert (ledger_ok l') as Hok'.
    { split; rewrite Hlim; [apply Hok|]. intros c'. rewrite Hused.
      pose proof (lk_used _ Hok c'). case_bool_decide; simpl; subst; lia. }
    split_and!; [done| | |].
    + rewrite available_spec //. lia.
    + intros c'. rewrite !available_spec // Hlim Hused. lia.
    + intros c'. destruct (release_used l' c Hok') as [_ ->]; [|rewrite Hused; lia].
      rewrite Hused bool_decide_eq_true_2 //=. pose proof (lk_used _ Hok c). lia.
  - split.
    + destruct (decide (available l c = 0)) as [|Hne]; [done|].
      destruct (reserve_available l c Hok Hne) as [l' Hl']. congruence.
    + unfold reserve in Hr. repeat case_match; by simplify_eq.
Qed.

Lemma reserve_release_spec_witness :
  match reserve (mkLedger {["small" := 2]} {["small" := 1]}) "small" with
  | Ok l' => available l' "small" = 0
  | Err _ => False
  end.
Proof.
  pose proof (reserve_release_spec (mkLedger {["small" := 2]} {["small" := 1]}) "small") as Hw.
  destruct Hw as (_ & _ & Hw & _).
  - split; intros c; (destruct (decide (c = "small")) as [->|]; [vm_compute; split; done|]);
      unfold mget; simpl; rewrite !lookup_singleton_ne //; simpl; (lia || congruence).
  - apply (Hw "small").
Defined.
