(* ===== verification/Admission.v ===== *)
(** * Local admission policy (internal/allocator/admission.go,
      internal/runtime/resources.go)

    Resource profiles, the client allow-list and the per-client quotas of one
    allocator. *)

From S2P Require Import Prelude GoStrings Wire Errors.

(** [runtime.Resources] *)
Record Resources := mkResources { MemoryBytes : Z; CPUMilli : Z; Pids : Z }.

#[export] Instance Resources_eq_dec : EqDecision Resources.
Proof. solve_decision. Defined.

Definition zero_resources : Resources := mkResources 0 0 0.

(** [Resources.Validate] *)
Definition Resources_Validate (r : Resources) : result gerror unit :=
  if decide (r = zero_resources) then Ok tt
  else if (MemoryBytes r <? Z.shiftl 1 20) || (CPUMilli r <=? 0) || (1000000 <? CPUMilli r)
          || (Pids r <=? 0) || (1000000 <? Pids r)
  then Err (EOpaque "invalid resource profile: all limits must be positive and bounded")
  else Ok tt.

Record Quota := mkQuota { quota_Offers : Z; quota_Executions : Z }.

(** A nil [AllowedClients] admits every client; an empty one admits none. *)
Record AdmissionPolicy := mkPolicyA {
  Profiles : gmap string Resources;
  AllowedClients : option (list string);
  DefaultQuota : Quota;
  ClientQuotas : gmap string Quota
}.

(** A canonical lowercase encoding of a 16-byte identity hash. *)
Definition validIdentity (id : string) : bool :=
  match hex_decode id with
  | Some b => (zlen b =? 16) && bool_decide (hex_encode b = id)
  | None => false
  end.

Section admission.
Context `{Externals}.

Fixpoint check_profiles (capacity : gmap string Z) (l : list (string * Resources)) : result gerror unit :=
  match l with
  | [] => Ok tt
  | (class, r) :: l' =>
    fail_if mget 0 capacity class =? 0 with EOpaque ("profile " +:+ quote class +:+ " has no capacity");
    try _ ← Resources_Validate r;
    check_profiles capacity l'
  end.

(** [AdmissionPolicy.validate] *)
Definition validate_policy (p : AdmissionPolicy) (capacity : gmap string Z) : result gerror unit :=
  try _ ← check_profiles capacity (map_to_list (Profiles p));
  fail_if negb (forallb validIdentity (default [] (AllowedClients p)))
    with EOpaque "allowed client must be a lowercase 16-byte identity hash";
  fail_if negb (forallb (fun kv => validIdentity kv.1) (map_to_list (ClientQuotas p)))
    with EOpaque "quota identity must be a lowercase 16-byte identity hash";
  Ok tt.

Definition default_profile : Resources := mkResources (Z.shiftl 256 20) 1000 128.

(** The policy before the reader is consulted: one default profile per class. *)
Definition default_policy (capacity : gmap string Z) : AdmissionPolicy :=
  mkPolicyA ((fun _ => default_profile) <$> capacity) None (mkQuota 4 2) ∅.

(** What a JSON reader yields: the outcome of the first [Decode] onto the default
    policy, and whether the stream ended after that one value. *)
Record policy_reader := mkReader {
  reader_decode : AdmissionPolicy → result gerror AdmissionPolicy;
  reader_at_eof : bool
}.

Definition decode_policy (reader : option policy_reader) (p : AdmissionPolicy) : result gerror AdmissionPolicy :=
  match reader with
  | None => Ok p
  | Some r =>
    try p' ← reader_decode r p;
    fail_if negb (reader_at_eof r) with EOpaque "policy must contain one JSON object";
    Ok p'
  end.

Definition missing_profile (p : AdmissionPolicy) (class : string) : bool :=
  bool_decide (mget zero_resources (Profiles p) class = zero_resources).

(** [ReadAdmission] *)
Definition ReadAdmission (reader : option policy_reader) (capacity : gmap string Z) : result gerror AdmissionPolicy :=
  try p ← decode_policy reader (default_policy capacity);
  match List.find (fun kv => missing_profile p kv.1) (map_to_list capacity) with
  | Some (class, _) => Err (EOpaque ("class " +:+ quote class +:+ " needs a bounded profile"))
  | None => try _ ← validate_policy p capacity; Ok p
  end.
End admission.

(** [quota] as chosen by [admitLocked]: the client's own, or the default. *)
Definition client_quota (p : AdmissionPolicy) (owner : bytes) : Quota :=
  default (DefaultQuota p) (ClientQuotas p !! hex_encode owner).

Definition client_allowed (p : AdmissionPolicy) (owner : bytes) : bool :=
  match AllowedClients p with
  | None => true
  | Some l => str_contains l (hex_encode owner)
  end.

(** ** Properties *)

(** The bounds a validated non-zero profile meets. *)
Definition bounded_profile (r : Resources) : Prop :=
  2 ^ 20 ≤ MemoryBytes r ∧ 0 < CPUMilli r ≤ 1000000 ∧ 0 < Pids r ≤ 1000000.

Lemma Resources_Validate_spec r :
  Resources_Validate r = Ok tt ↔ r = zero_resources ∨ bounded_profile r.
Proof.
  unfold Resources_Validate, bounded_profile. case_decide as Hz; [naive_solver|].
  rewrite Z.shiftl_mul_pow2; [lia|].
  case_match; split; intros Hx; try done; [destruct Hx; [done|lia]|right; lia].
Qed.

Lemma validIdentity_spec id :
  validIdentity id = true ↔ ∃ b, length b = 16%nat ∧ id = hex_encode b.
Proof.
  unfold validIdentity. split.
  - destruct (hex_decode id) as [b|]; [|done]. rewrite andb_true_iff bool_decide_eq_true.
    intros [Hl <-]. exists b. split; [unfold zlen in Hl; lia|done].
  - intros (b & Hl & ->). rewrite hex_decode_encode andb_true_iff bool_decide_eq_true.
    split; [unfold zlen; lia|done].
Qed.

Section facts.
Context `{Externals}.

Lemma check_profiles_ok cap l :
  check_profiles cap l = Ok tt →
  ∀ c r, (c, r) ∈ l → mget 0 cap c ≠ 0 ∧ Resources_Validate r = Ok tt.
Proof.
  induction l as [|[c' r'] l IH]; simpl; [intros _ c r Hin; by apply not_elem_of_nil in Hin|].
  case_match eqn:E; [done|]. rewrite result_bind_ok. intros ([] & Hr & Hl) c r.
  rewrite elem_of_cons. intros [[= -> ->]|Hin]; [split; [lia|done]|by apply IH].
Qed.

(** A policy [ReadAdmission] returns gives every configured class a non-zero,
    bounded resource profile, names no class without capacity, and names clients
    only by their canonical 16-byte identity. *)
Theorem ReadAdmission_bounded reader capacity p :
  ReadAdmission reader capacity = Ok p →
  (∀ c, is_Some (capacity !! c) → bounded_profile (mget zero_resources (Profiles p) c)) ∧
  (∀ c r, Profiles p !! c = Some r → mget 0 capacity c ≠ 0) ∧
  (∀ l id, AllowedClients p = Some l → id ∈ l → ∃ b, length b = 16%nat ∧ id = hex_encode b).
Proof.
  unfold ReadAdmission. rewrite result_bind_ok. intros (p0 & _ & Hp).
  destruct (List.find _ _) as [[? ?]|] eqn:Hf; [done|].
  apply result_bind_ok in Hp as ([] & Hv & [= ->]).
  unfold validate_policy in Hv. apply result_bind_ok in Hv as ([] & Hprof & Hv).
  pose proof (check_profiles_ok _ _ Hprof) as Hall.
  destruct (negb (forallb validIdentity _)) eqn:Hids; [done|]. apply negb_false_iff in Hids.
  split_and!.
  - intros c [slots Hc]. pose proof (List.find_none _ _ Hf (c, slots)) as Hm.
    rewrite -list_elem_of_In elem_of_map_to_list in Hm. specialize (Hm Hc). simpl in Hm.
    unfold missing_profile in Hm. apply bool_decide_eq_false in Hm.
    unfold mget in *. destruct (Profiles p !! c) as [r|] eqn:Hr; simpl in *; [|done].
    destruct (Hall c r) as [_ Hval]; [by apply elem_of_map_to_list|].
    apply Resources_Validate_spec in Hval as [|]; done.
  - intros c r Hr. by destruct (Hall c r) as [? _]; [apply elem_of_map_to_list|].
  - intros l id Hl Hid. rewrite Hl /= in Hids. apply validIdentity_spec.
    rewrite forallb_forall in Hids. apply Hids. by apply list_elem_of_In.
Qed.
End facts.

Lemma ReadAdmission_bounded_witness :
  bounded_profile (mget zero_resources (Profiles (default_policy {["small" := 2]})) "small").
Proof.
  pose proof (@ReadAdmission_bounded concrete_externals None {["small" := 2]}) as Hw.
  destruct (Hw (default_policy {["small" := 2]})) as [Hb _]; [reflexivity|].
  apply Hb. by eexists.
Defined.
