(* ===== verification/Replay.v ===== *)
(** * The replay cache (internal/allocator/replay.go)

    Duplicate-command coalescing.  An entry is created undone when a command
    begins and is completed, with its responses and error, when the command
    ends; [re_done] is whether the entry's channel is closed.  Completed entries
    are retained for a time and up to a capacity; entries in progress are kept. *)

From S2P Require Import Prelude GoStrings Wire Errors.

Record replayEntry := mkReplayEntry {
  re_seenAt : time;
  re_done : bool;
  re_envelope : Envelope;
  re_responses : list Envelope;
  re_err : error
}.

Abbreviation replay_map := (gmap string replayEntry).

Record replayCache := mkReplayCache {
  rc_ttl : duration;
  rc_capacity : Z;
  rc_entries : replay_map
}.

Definition with_entries (c : replayCache) (m : replay_map) : replayCache :=
  mkReplayCache (rc_ttl c) (rc_capacity c) m.

(** [newReplayCache] *)
Definition newReplayCache (ttl : duration) (capacity : Z) : replayCache :=
  mkReplayCache ttl capacity ∅.

(** [replayDone] *)
Definition replayDone (e : replayEntry) : bool := re_done e.

(** [prune] *)
Definition prune_entries (ttl : duration) (now : time) (m : replay_map) : replay_map :=
  let cutoff := now - ttl in
  filter (fun kv => negb (negb (after (re_seenAt kv.2) cutoff) && replayDone kv.2) = true) m.

Definition prune (c : replayCache) (now : time) : replayCache :=
  with_entries c (prune_entries (rc_ttl c) now (rc_entries c)).

(** One pass of [evict]: the completed entry seen first, or the empty key. *)
Definition pick_older (acc : string * time) (kv : string * replayEntry) : string * time :=
  if replayDone kv.2 && (bool_decide (acc.1 = "") || before (re_seenAt kv.2) acc.2)
  then (kv.1, re_seenAt kv.2) else acc.

Definition oldest_done (m : replay_map) : string :=
  (fold_left pick_older (map_to_list m) ("", zero_time)).1.

(** The loop of [evict]; each turn removes one entry, so one unit of fuel per
    entry and one for the last test is enough ([evict_loop_fuel]). *)
Fixpoint evict_loop (fuel : nat) (limit : Z) (m : replay_map) : replay_map :=
  match fuel with
  | O => m
  | S fuel' =>
    if limit <? Z.of_nat (size m) then
      let oldestKey := oldest_done m in
      if bool_decide (oldestKey = "") then m
      else evict_loop fuel' limit (delete oldestKey m)
    else m
  end.

(** [evict] *)
Definition evict (limit : Z) (m : replay_map) : replay_map := evict_loop (S (size m)) limit m.

Inductive begin_result :=
| BeginFresh (c : replayCache)
| BeginDuplicate (c : replayCache) (e : replayEntry)
| BeginError (c : replayCache) (e : gerror).

Definition new_entry (envelope : Envelope) (now : time) : replayEntry :=
  mkReplayEntry now false envelope [] None.

(** [begin] *)
Definition begin (c : replayCache) (key : string) (envelope : Envelope) (now : time) : begin_result :=
  let c1 := prune c now in
  match rc_entries c1 !! key with
  | Some entry =>
    if decide (re_envelope entry = envelope) then BeginDuplicate c1 entry
    else BeginError c1 (ESentinel ErrReplayConflict)
  | None =>
    let c2 := with_entries c1 (evict (rc_capacity c - 1) (rc_entries c1)) in
    if rc_capacity c <=? Z.of_nat (size (rc_entries c2))
    then BeginError c2 (ESentinel ErrReplayCapacity)
    else BeginFresh (with_entries c2 (<[key := new_entry envelope now]> (rc_entries c2)))
  end.

Definition finished (e : replayEntry) (responses : list Envelope) (err : error) : replayEntry :=
  mkReplayEntry (re_seenAt e) true (re_envelope e) responses err.

(** [finish].  The entry is the one [begin] created under [key]. *)
Definition finish (c : replayCache) (key : string) (responses : list Envelope) (err : error) : replayCache :=
  match rc_entries c !! key with
  | Some e => with_entries c (evict (rc_capacity c) (<[key := finished e responses err]> (rc_entries c)))
  | None => with_entries c (evict (rc_capacity c) (rc_entries c))
  end.

(** ** Eviction *)

Definition undone (m : replay_map) (k : string) : Prop := ∃ e, m !! k = Some e ∧ re_done e = false.

Lemma pick_older_spec l acc :
  (∀ k e, (k, e) ∈ l → k ≠ "") →
  let r := fold_left pick_older l acc in
  (r = acc ∨ ∃ e, (r.1, e) ∈ l ∧ re_done e = true ∧ re_seenAt e = r.2) ∧
  (∀ k e, (k, e) ∈ l → re_done e = true → r.1 ≠ "" ∧ r.2 ≤ re_seenAt e) ∧
  (acc.1 ≠ "" → r.1 ≠ "" ∧ r.2 ≤ acc.2).
Proof.
  revert acc. induction l as [|[k e] l IH]; intros acc Hne; simpl.
  - split_and!; [by left| |naive_solver lia]. intros k e Hin. by apply not_elem_of_nil in Hin.
  - assert (∀ k0 e0, (k0, e0) ∈ l → k0 ≠ "") as Hne'
      by (intros k0 e0 H0; apply (Hne k0 e0); by apply elem_of_cons; right).
    assert (k ≠ "") as Hk by (apply (Hne k e); apply elem_of_cons; by left).
    destruct (IH (pick_older acc (k, e)) Hne') as (Hpick & Hall & Hacc).
    unfold pick_older in *. simpl in *. setoid_rewrite elem_of_cons.
    unfold replayDone, before in *.
    destruct (re_done e) eqn:Hd; simpl in *;
      [destruct (bool_decide (acc.1 = "")) eqn:Ha; simpl in *;
       [|destruct (re_seenAt e <? acc.2) eqn:Hlt; simpl in *]|].
    all: try apply bool_decide_eq_true in Ha; try apply bool_decide_eq_false in Ha.
    all: split_and!; [destruct Hpick as [->|(e' & ? & ? & ?)]; eauto 7|..].
    all: try (intros k0 e0 [[= -> ->]|H0] Hd0; [naive_solver lia|by eapply Hall]).
    all: naive_solver lia.
Qed.

Definition keys_ok (m : replay_map) : Prop := m !! "" = None.

Lemma oldest_done_spec m :
  keys_ok m →
  (oldest_done m = "" ∧ (∀ k e, m !! k = Some e → re_done e = false)) ∨
  (oldest_done m ≠ "" ∧ ∃ e, m !! oldest_done m = Some e ∧ re_done e = true ∧
     ∀ k' e', m !! k' = Some e' → re_done e' = true → re_seenAt e ≤ re_seenAt e').
Proof.
  intros Hk. unfold oldest_done.
  destruct (pick_older_spec (map_to_list m) ("", zero_time)) as (Hpick & Hall & _).
  { intros k e Hin%elem_of_map_to_list ->. by rewrite Hk in Hin. }
  setoid_rewrite elem_of_map_to_list in Hpick. setoid_rewrite elem_of_map_to_list in Hall.
  destruct (fold_left _ _ _) as [k t]. simpl in *.
  destruct (decide (k = "")) as [->|Hne].
  - left. split; [done|]. intros k e He. destruct (re_done e) eqn:Hd; [|done].
    by destruct (Hall k e He Hd).
  - right. split; [done|]. destruct Hpick as [[= -> _]|(e & He & Hd & <-)]; [done|].
    exists e. split_and!; [done..|]. intros k' e' He' Hd'. by apply (Hall k' e').
Qed.

Lemma keys_ok_subseteq m m' : m' ⊆ m → keys_ok m → keys_ok m'.
Proof. intros Hs Hk. exact (lookup_weaken_None m' m "" Hk Hs). Qed.

(** What the eviction loop does with enough fuel. *)
Record evicted (limit : Z) (m m' : replay_map) : Prop := {
  ev_sub : m' ⊆ m;
  ev_undone k e : m !! k = Some e → re_done e = false → m' !! k = Some e;
  ev_bound : Z.of_nat (size m') ≤ limit ∨ (∀ k e, m' !! k = Some e → re_done e = false);
  ev_needed : Z.of_nat (size m) ≤ limit → m' = m;
  ev_oldest k e k' e' : m !! k = Some e → m' !! k = None →
    m' !! k' = Some e' → re_done e' = true → re_seenAt e ≤ re_seenAt e'
}.

Lemma evict_loop_spec fuel limit m :
  keys_ok m → (size m < fuel)%nat → evicted limit m (evict_loop fuel limit m).
Proof.
  revert m. induction fuel as [|fuel IH]; intros m Hk Hf; [lia|]. simpl.
  destruct (limit <? _) eqn:Hlim.
  2:{ split; try done; [left; lia|]. intros; congruence. }
  destruct (oldest_done_spec m Hk) as [[-> Hnone]|(Hne & e & He & Hd & Hold)].
  - rewrite bool_decide_eq_true_2 //. split; try done; [by right|]. intros; congruence.
  - rewrite bool_decide_eq_false_2 //.
    assert (size (delete (oldest_done m) m) = pred (size m)) as Hsz
      by (apply map_size_delete_Some; eauto).
    assert (size m ≠ 0%nat) by (apply map_size_non_empty_iff; intros ->; by rewrite lookup_empty in He).
    destruct (IH (delete (oldest_done m) m)) as [Hsub Hund Hbound Hneed Holdest]; [|lia|].
    { eapply keys_ok_subseteq; [apply delete_subseteq|done]. }
    split; [..|intros; lia|].
    + etrans; [exact Hsub|apply delete_subseteq].
    + intros k e' Hke' Hd'. apply Hund; [|done]. rewrite lookup_delete_ne //. congruence.
    + done.
    + intros k e1 k' e' He1 Hgone He' Hd'.
      destruct (decide (k = oldest_done m)) as [->|Hkne].
      * rewrite He in He1. injection He1 as <-. apply (Hold k'); [|done].
        apply (lookup_weaken _ _ _ _ He'). etrans; [exact Hsub|apply delete_subseteq].
      * refine (Holdest k e1 k' e' _ Hgone He' Hd'). rewrite lookup_delete_ne //; congruence.
Qed.

Lemma evict_spec limit m : keys_ok m → evicted limit m (evict limit m).
Proof. intros Hk. apply evict_loop_spec; [done|lia]. Qed.

(** The loop stops on its own: more fuel than one unit per entry changes nothing. *)
Lemma evict_loop_fuel fuel limit m :
  keys_ok m → (size m < fuel)%nat → evict_loop fuel limit m = evict limit m.
Proof.
  unfold evict. intros Hk Hf. assert (size m < S (size m))%nat as Hf' by lia.
  revert Hf Hf'. generalize (S (size m)) as fuel'. intros fuel'. revert fuel' m Hk.
  induction fuel as [|fuel IH]; intros fuel' m Hk Hf Hf'; [lia|].
  destruct fuel' as [|fuel']; [lia|]. simpl. case_match; [|done].
  destruct (oldest_done_spec m Hk) as [[-> _]|(Hne & e & He & _)].
  - by rewrite bool_decide_eq_true_2.
  - rewrite bool_decide_eq_false_2 //. assert (size (delete (oldest_done m) m) = pred (size m)) by (apply map_size_delete_Some; eauto).
    assert (size m ≠ 0%nat) by (apply map_size_non_empty_iff; intros ->; by rewrite lookup_empty in He).
    apply IH; [|lia..]. eapply keys_ok_subseteq; [apply delete_subseteq|done].
Qed.

(** [evict] terminates; it removes completed entries only, oldest first and
    only as many as needed: the cache ends within the limit unless every
    remaining entry is still in progress. *)
Theorem evict_removes_oldest limit m :
  keys_ok m → evicted limit m (evict limit m) ∧
  (∀ fuel, (size m < fuel)%nat → evict_loop fuel limit m = evict limit m).
Proof. intros Hk. split; [by apply evict_spec|]. intros fuel Hf. by apply evict_loop_fuel. Qed.

Lemma evict_removes_oldest_witness :
  let e t d := mkReplayEntry t d (mkEnvelope "m" [] "" None None) [] None in
  let m : replay_map := {["a" := e 3 true; "b" := e 1 true; "c" := e 0 false]} in
  evicted 2 m {["a" := e 3 true; "c" := e 0 false]}.
Proof.
  intros e m. destruct (evict_removes_oldest 2 m) as [Hw _]; [reflexivity|].
  exact Hw.
Defined.

(** ** Beginning and finishing *)

Lemma prune_sub c now : rc_entries (prune c now) ⊆ rc_entries c.
Proof. apply map_filter_subseteq. Qed.

Lemma prune_lookup c now k e :
  rc_entries (prune c now) !! k = Some e ↔
  rc_entries c !! k = Some e ∧ (re_done e = false ∨ now - rc_ttl c < re_seenAt e).
Proof.
  unfold prune, prune_entries. simpl. rewrite map_lookup_filter_Some. simpl.
  unfold after, replayDone. destruct (re_done e); split; intros [? ?]; split; auto; [right; lia|naive_solver lia|].
  lia.
Qed.

Lemma prune_undone c now k e :
  rc_entries c !! k = Some e → re_done e = false → rc_entries (prune c now) !! k = Some e.
Proof. intros. apply prune_lookup. auto. Qed.

(** The invariant of a cache: bounded, and no empty key. *)
Record replay_ok (c : replayCache) : Prop := {
  rk_keys : keys_ok (rc_entries c);
  rk_bound : Z.of_nat (size (rc_entries c)) ≤ rc_capacity c
}.

Lemma replay_ok_sub c m :
  replay_ok c → m ⊆ rc_entries c → replay_ok (with_entries c m).
Proof.
  intros [Hk Hb] Hs. split; simpl; [by apply (keys_ok_subseteq _ _ Hs)|].
  pose proof (map_subseteq_size _ _ Hs). lia.
Qed.

Definition begin_cache (r : begin_result) : replayCache :=
  match r with BeginFresh c | BeginDuplicate c _ | BeginError c _ => c end.

(** Beginning a command keeps the cache within its capacity and never forgets
    a command in progress.  The command is fresh exactly when no retained entry
    has its key and a slot can be freed; a retained entry makes it a duplicate,
    or a conflict when its content differs. *)
Theorem begin_spec c key envelope now :
  key ≠ "" → replay_ok c →
  let r := begin c key envelope now in
  replay_ok (begin_cache r) ∧
  (∀ k e, rc_entries c !! k = Some e → re_done e = false → rc_entries (begin_cache r) !! k = Some e) ∧
  match r with
  | BeginFresh c' =>
    rc_entries c' !! key = Some (new_entry envelope now) ∧
    (∀ e, rc_entries c !! key = Some e → re_done e = true ∧ re_seenAt e ≤ now - rc_ttl c)
  | BeginDuplicate c' e =>
    rc_entries c !! key = Some e ∧ rc_entries c' !! key = Some e ∧ re_envelope e = envelope
  | BeginError c' err =>
    (err = ESentinel ErrReplayConflict ∧ ∃ e, rc_entries c !! key = Some e ∧ re_envelope e ≠ envelope) ∨
    (err = ESentinel ErrReplayCapacity ∧ ∀ k e, rc_entries c' !! k = Some e → re_done e = false)
  end.
Proof.
  intros Hkey Hok. unfold begin.
  assert (replay_ok (prune c now)) as Hok1 by (apply replay_ok_sub; [done|apply prune_sub]).
  destruct (rc_entries (prune c now) !! key) as [e|] eqn:He.
  - pose proof (proj1 (prune_lookup c now key e) He) as [He0 _].
    case_decide as Heq; simpl; (split; [done|split; [intros ? ? ? ?; by apply prune_undone|eauto 7]]).
  - pose proof (evict_spec (rc_capacity c - 1) _ (rk_keys _ Hok1)) as [Hsub Hund Hb _ _].
    set (m := evict _ _) in *.
    assert (∀ k e, rc_entries c !! k = Some e → re_done e = false → m !! k = Some e) as Hkeep
      by (intros k e ? ?; apply Hund; [by apply prune_undone|done]).
    case_match eqn:Hcap; simpl in *; (split; [|split; [intros k e Hk Hd|]]).
    + by apply (replay_ok_sub (prune c now)).
    + auto.
    + right. split; [done|]. destruct Hb as [Hb|Hb]; [lia|done].
    + split; simpl.
      * unfold keys_ok. rewrite lookup_insert_ne //.
        apply (keys_ok_subseteq _ _ Hsub), Hok1.
      * rewrite map_size_insert. case_match; unfold id; lia.
    + rewrite lookup_insert_ne; [|by auto]. intros ->.
      by rewrite (prune_undone c now k e Hk Hd) in He.
    + split; [apply lookup_insert_eq|]. intros e Hk.
      destruct (re_done e) eqn:Hd; [|by rewrite (prune_undone c now key e Hk Hd) in He].
      split; [done|]. destruct (decide (re_seenAt e ≤ now - rc_ttl c)); [done|].
      assert (rc_entries (prune c now) !! key = Some e) as Hp by (apply prune_lookup; split; [done|right; lia]).
      simpl in Hp; congruence.
Qed.

Lemma begin_spec_witness :
  match begin (newReplayCache 10 1) "k" (mkEnvelope "m" [] "" None None) 5 with
  | BeginFresh c => is_Some (rc_entries c !! "k")
  | _ => False
  end.
Proof.
  pose proof (begin_spec (newReplayCache 10 1) "k" (mkEnvelope "m" [] "" None None) 5) as Hw.
  destruct Hw as (_ & _ & Hw & _); [done|split; vm_compute; done|]. by eexists.
Defined.

Lemma finish_ok c key responses err :
  replay_ok c → replay_ok (finish c key responses err).
Proof.
  intros [Hk Hb]. unfold finish.
  destruct (rc_entries c !! key) as [e|] eqn:He.
  - assert (keys_ok (<[key := finished e responses err]> (rc_entries c))) as Hk'.
    { unfold keys_ok in *. rewrite lookup_insert_ne //. intros ->. congruence. }
    pose proof (ev_sub _ _ _ (evict_spec (rc_capacity c) _ Hk')) as Hs.
    split; simpl; [by apply (keys_ok_subseteq _ _ Hs)|]. apply map_subseteq_size in Hs.
    rewrite map_size_insert_Some in Hs; [by rewrite He|]. lia.
  - by apply replay_ok_sub; [|apply (ev_sub _ _ _ (evict_spec (rc_capacity c) _ Hk))].
Qed.

(** Finishing within capacity evicts nothing: the entry keeps its result. *)
Lemma finish_entries c key e responses err :
  replay_ok c → rc_entries c !! key = Some e →
  rc_entries (finish c key responses err) = <[key := finished e responses err]> (rc_entries c).
Proof.
  intros [Hk Hb] He. unfold finish. rewrite He. simpl.
  assert (keys_ok (<[key := finished e responses err]> (rc_entries c))) as Hk'.
  { unfold keys_ok in *. rewrite lookup_insert_ne //. intros ->. congruence. }
  apply (ev_needed _ _ _ (evict_spec (rc_capacity c) _ Hk')).
  rewrite map_size_insert_Some; [by rewrite He|done].
Qed.

(** A duplicate of a finished command is answered with the recorded
    responses and error, as long as the entry is retained. *)
Theorem duplicate_replays_result c key e envelope responses err now :
  replay_ok c → rc_entries c !! key = Some e → re_envelope e = envelope →
  now < re_seenAt e + rc_ttl c →
  ∃ e', begin (finish c key responses err) key envelope now =
          BeginDuplicate (prune (finish c key responses err) now) e' ∧
        re_done e' = true ∧ re_responses e' = responses ∧ re_err e' = err.
Proof.
  intros Hok He Henv Hnow. exists (finished e responses err). split; [|done].
  unfold begin. rewrite (proj2 (prune_lookup _ _ _ (finished e responses err))).
  { rewrite (finish_entries c key e) // lookup_insert_eq. split; [done|]. right. simpl.
    enough (rc_ttl (finish c key responses err) = rc_ttl c) as -> by lia.
    unfold finish. by case_match. }
  simpl. by rewrite decide_True.
Qed.

Lemma duplicate_replays_result_witness :
  let env := mkEnvelope "m" [] "" None None in
  let c := mkReplayCache 10 4 {["k" := new_entry env 5]} in
  ∃ e', begin (finish c "k" [env] None) "k" env 6 = BeginDuplicate (prune (finish c "k" [env] None) 6) e'
        ∧ re_done e' = true ∧ re_responses e' = [env] ∧ re_err e' = None.
Proof.
  intros env c. apply (duplicate_replays_result c "k" (new_entry env 5)); try reflexivity.
  split; vm_compute; done.
Defined.
