(* ===== verification/Registry.v ===== *)
(** * Tunnel bindings and sessions (internal/tunnel: registry.go, session.go,
      grants.go, tunnel.go)

    One binding per execution and at most one live session on it.  Callers hold
    pointers to sessions, so sessions live in a store indexed by handle, and two
    sessions are the same when their handles are.  Closing a channel that is
    already closed panics in Go; [reg_panicked] records that it happened, and
    the invariant shows that it does not. *)

From S2P Require Import Prelude GoStrings Errors Protocol.

Record Endpoint := mkEndpoint { ep_Address : bytes; ep_PubKey : bytes }.

(** [Session]; [s_done] is whether its channel is closed. *)
Record Session := mkSession {
  s_ExecutionID : string;
  s_PeerKey : bytes;
  s_Targets : list Target;
  s_Endpoint : Endpoint;
  s_done : bool
}.

(** [record] *)
Record record := mkRecord {
  r_executionID : string;
  r_peerKey : bytes;
  r_targets : list Target;
  r_endpoint : Endpoint;
  r_session : option nat
}.

Record Registry := mkRegistry {
  reg_records : gmap string record;
  reg_sessions : gmap nat Session;
  reg_next : nat;
  reg_panicked : bool
}.

Definition NewRegistry : Registry := mkRegistry ∅ ∅ 0 false.

Definition with_records (r : Registry) (m : gmap string record) : Registry :=
  mkRegistry m (reg_sessions r) (reg_next r) (reg_panicked r).

Definition with_session (rec : record) (s : option nat) : record :=
  mkRecord (r_executionID rec) (r_peerKey rec) (r_targets rec) (r_endpoint rec) s.

Definition closed (s : Session) : Session :=
  mkSession (s_ExecutionID s) (s_PeerKey s) (s_Targets s) (s_Endpoint s) true.

(** [close(session.done)] *)
Definition close_done (r : Registry) (h : nat) : Registry :=
  match reg_sessions r !! h with
  | Some s =>
    mkRegistry (reg_records r) (<[h := closed s]> (reg_sessions r)) (reg_next r)
      (reg_panicked r || s_done s)
  | None => r
  end.

(** [Bind] *)
Definition Bind (r : Registry) (executionID : string) (peerKey : bytes) (targets : list Target)
    (endpoint : Endpoint) : result gerror Registry :=
  fail_if bool_decide (executionID = "") with EOpaque "tunnel binding: execution ID is required";
  fail_if zlen peerKey =? 0 with EOpaque "tunnel binding: peer key is required";
  fail_if zlen targets =? 0 with EOpaque "tunnel binding: at least one target port is required";
  let session := match reg_records r !! executionID with Some rec => r_session rec | None => None end in
  Ok (with_records r (<[executionID := mkRecord executionID peerKey targets endpoint session]> (reg_records r))).

(** [Open]: the new session's handle. *)
Definition Open (r : Registry) (executionID : string) (peerKey : bytes) : result gerror (nat * Registry) :=
  fail_if bool_decide (executionID = "") with EOpaque "invalid tunnel open: execution ID is required";
  match reg_records r !! executionID with
  | None => Err (ESentinel ErrTunnelNotBound)
  | Some rec =>
    fail_if negb (bool_decide (r_peerKey rec = peerKey)) with ESentinel ErrPeerKeyMismatch;
    match r_session rec with
    | Some _ => Err (ESentinel ErrSessionBusy)
    | None =>
      let h := reg_next r in
      let session := mkSession executionID peerKey (r_targets rec) (r_endpoint rec) false in
      Ok (h, mkRegistry (<[executionID := with_session rec (Some h)]> (reg_records r))
               (<[h := session]> (reg_sessions r)) (S h) (reg_panicked r))
    end
  end.

(** [Session]: a copy of the active session. *)
Definition active_session (r : Registry) (executionID : string) : option Session :=
  match reg_records r !! executionID with
  | Some rec => match r_session rec with Some h => reg_sessions r !! h | None => None end
  | None => None
  end.

(** [CloseSession] *)
Definition CloseSession (r : Registry) (executionID : string) : Registry :=
  match reg_records r !! executionID with
  | Some rec =>
    match r_session rec with
    | Some h =>
      let r1 := close_done r h in
      with_records r1 (<[executionID := with_session rec None]> (reg_records r1))
    | None => r
    end
  | None => r
  end.

(** [Invalidate] *)
Definition Invalidate (r : Registry) (executionID : string) : Registry :=
  let r1 := match reg_records r !! executionID with
            | Some rec => match r_session rec with Some h => close_done r h | None => r end
            | None => r
            end in
  with_records r1 (delete executionID (reg_records r1)).

(** [Release] *)
Definition Release (r : Registry) (h : nat) : Registry :=
  match reg_sessions r !! h with
  | None => r
  | Some s =>
    match reg_records r !! s_ExecutionID s with
    | Some rec =>
      if decide (r_session rec = Some h) then
        let r1 := close_done r h in
        with_records r1 (<[s_ExecutionID s := with_session rec None]> (reg_records r1))
      else r
    | None => r
    end
  end.

(** [Active]; [None] is a nil session. *)
Definition Active (r : Registry) (session : option nat) : bool :=
  match session with
  | None => false
  | Some h =>
    match reg_sessions r !! h with
    | None => false
    | Some s =>
      match reg_records r !! s_ExecutionID s with
      | Some rec => bool_decide (r_session rec = Some h)
      | None => false
      end
    end
  end.

(** [ResolveTarget] *)
Definition ResolveTarget (s : Session) (port : Z) : option Target :=
  if s_done s then None
  else List.find (fun t => target_port t =? port) (s_Targets s).

(** ** Invariant *)

(** Every attached session is open and names its execution, every open session
    is attached, handles are fresh, and no channel was closed twice. *)
Record registry_ok (r : Registry) : Prop := {
  gk_attached ex rec h : reg_records r !! ex = Some rec → r_session rec = Some h →
    ∃ s, reg_sessions r !! h = Some s ∧ s_done s = false ∧ s_ExecutionID s = ex;
  gk_open h s : reg_sessions r !! h = Some s → s_done s = false →
    ∃ rec, reg_records r !! s_ExecutionID s = Some rec ∧ r_session rec = Some h;
  gk_next h s : reg_sessions r !! h = Some s → (h < reg_next r)%nat;
  gk_panic : reg_panicked r = false
}.

Lemma NewRegistry_ok : registry_ok NewRegistry.
Proof. split; [intros ???|intros ??|intros ??|done]; rewrite lookup_empty; done. Qed.

Lemma Bind_ok r ex k ts ep r' : registry_ok r → Bind r ex k ts ep = Ok r' → registry_ok r'.
Proof.
  intros [Ha Ho Hn Hp]. unfold Bind. do 3 (case_match; [done|]). intros [= <-]. split; simpl.
  - intros ex' rec h. rewrite lookup_insert_Some. intros [[<- <-]|[Hne Hr]] Hs; simpl in *; [|exact (Ha _ _ _ Hr Hs)].
    destruct (reg_records r !! ex) as [rec0|] eqn:E; [exact (Ha _ _ _ E Hs)|done].
  - intros h s Hs Hd. destruct (Ho h s Hs Hd) as (rec & Hr & Hh).
    rewrite lookup_insert. destruct (decide (ex = s_ExecutionID s)) as [E|]; [|by exists rec].
    subst ex. rewrite Hr. eexists. by split.
  - done.
  - done.
Qed.

Lemma Open_ok r ex k h r' : registry_ok r → Open r ex k = Ok (h, r') → registry_ok r'.
Proof.
  intros [Ha Ho Hn Hp]. unfold Open. case_match; [done|].
  destruct (reg_records r !! ex) as [rec|] eqn:Hr; [|done]. case_match; [done|].
  destruct (r_session rec) eqn:Hs; [done|]. intros [= <- <-]. split; simpl; [..|done].
  - intros ex' rec' h'. rewrite lookup_insert_Some. intros [[<- <-]|[Hne Hr']] Hs'; simpl in *.
    + injection Hs' as <-. rewrite lookup_insert_eq. by eexists.
    + destruct (Ha _ _ _ Hr' Hs') as (s & Hh & ? & ?). exists s. split; [|done].
      rewrite lookup_insert_ne //. pose proof (Hn _ _ Hh). lia.
  - intros h' s. rewrite lookup_insert_Some. intros [[<- <-]|[Hne Hh]] Hd; simpl in *.
    + rewrite lookup_insert_eq. by eexists.
    + destruct (Ho _ _ Hh Hd) as (rec' & Hr' & Hs'). exists rec'. split; [|done].
      rewrite lookup_insert_ne //. intros ->. congruence.
  - intros h' s. rewrite lookup_insert_Some. intros [[<- _]|[_ Hh]]; [lia|]. pose proof (Hn _ _ Hh). lia.
Qed.

(** Closing the attached session of [ex] and leaving [ex] without one. *)
Lemma detach_ok r ex rec h (m : gmap string record) :
  registry_ok r → reg_records r !! ex = Some rec → r_session rec = Some h →
  (∀ ex' rec', m !! ex' = Some rec' → if decide (ex' = ex) then r_session rec' = None
                                      else reg_records r !! ex' = Some rec') →
  (∀ ex' rec', ex' ≠ ex → reg_records r !! ex' = Some rec' → m !! ex' = Some rec') →
  registry_ok (with_records (close_done r h) m).
Proof.
  intros [Ha Ho Hn Hp] Hr Hs Hm Hm'. destruct (Ha _ _ _ Hr Hs) as (s & Hh & Hd & Hex).
  unfold close_done. rewrite Hh. split; simpl.
  - intros ex' rec' h' Hr' Hs'. specialize (Hm _ _ Hr'). case_decide as E; [congruence|].
    destruct (Ha _ _ _ Hm Hs') as (s' & Hh' & Hd' & Hex').
    exists s'. split; [|done]. rewrite lookup_insert_ne //. intros ->. congruence.
  - intros h' s'. rewrite lookup_insert_Some. intros [[<- <-]|[Hne Hh']] Hd'; [done|].
    destruct (Ho _ _ Hh' Hd') as (rec' & Hr' & Hs'). exists rec'. split; [|done].
    apply Hm'; [|done]. intros E. rewrite E Hr in Hr'. congruence.
  - intros h' s'. rewrite lookup_insert_Some. intros [[<- _]|[_ Hh']]; eauto.
  - by rewrite Hp Hd.
Qed.

Lemma CloseSession_ok r ex : registry_ok r → registry_ok (CloseSession r ex).
Proof.
  intros Hok. unfold CloseSession. destruct (reg_records r !! ex) as [rec|] eqn:Hr; [|done].
  destruct (r_session rec) as [h|] eqn:Hs; [|done].
  assert (reg_records (close_done r h) = reg_records r) as -> by (unfold close_done; by case_match).
  apply (detach_ok r ex rec h); [done..| |].
  - intros ex' rec'. rewrite lookup_insert_Some. case_decide; naive_solver.
  - intros ex' rec' Hne Hr'. rewrite lookup_insert_ne //; congruence.
Qed.

Lemma Invalidate_ok r ex : registry_ok r → registry_ok (Invalidate r ex).
Proof.
  intros Hok. unfold Invalidate. destruct (reg_records r !! ex) as [rec|] eqn:Hr;
    [destruct (r_session rec) as [h|] eqn:Hs|].
  - assert (reg_records (close_done r h) = reg_records r) as -> by (unfold close_done; by case_match).
    apply (detach_ok r ex rec h); [done..| |].
    + intros ex' rec'. rewrite lookup_delete_Some. case_decide; naive_solver.
    + intros ex' rec' Hne Hr'. rewrite lookup_delete_ne //; congruence.
  - destruct Hok as [Ha Ho Hn Hp]. split; simpl; [|..|done]; [|intros h s Hh Hd|done].
    + intros ex' rec' h. rewrite lookup_delete_Some. naive_solver.
    + destruct (Ho _ _ Hh Hd) as (rec' & Hr' & Hs'). exists rec'. split; [|done].
      rewrite lookup_delete_ne //. congruence.
  - by rewrite delete_id //; destruct r.
Qed.

Lemma Release_ok r h : registry_ok r → registry_ok (Release r h).
Proof.
  intros Hok. unfold Release. destruct (reg_sessions r !! h) as [s|] eqn:Hh; [|done].
  destruct (reg_records r !! s_ExecutionID s) as [rec|] eqn:Hr; [|done]. case_decide as Hs; [|done].
  assert (reg_records (close_done r h) = reg_records r) as -> by (unfold close_done; by case_match).
  apply (detach_ok r (s_ExecutionID s) rec h); [done..| |].
  - intros ex' rec'. rewrite lookup_insert_Some. case_decide; naive_solver.
  - intros ex' rec' Hne Hr'. rewrite lookup_insert_ne //; congruence.
Qed.

(** One registry operation. *)
Inductive registry_step : Registry → Registry → Prop :=
| step_bind r ex k ts ep r' : Bind r ex k ts ep = Ok r' → registry_step r r'
| step_open r ex k h r' : Open r ex k = Ok (h, r') → registry_step r r'
| step_close r ex : registry_step r (CloseSession r ex)
| step_invalidate r ex : registry_step r (Invalidate r ex)
| step_release r h : registry_step r (Release r h).

Lemma registry_step_ok r r' : registry_step r r' → registry_ok r → registry_ok r'.
Proof.
  intros [] Hok; eauto using Bind_ok, Open_ok, CloseSession_ok, Invalidate_ok, Release_ok.
Qed.

Lemma reachable_ok r : rtc registry_step NewRegistry r → registry_ok r.
Proof.
  intros Hr. pose proof NewRegistry_ok as H0. revert H0.
  induction Hr; eauto using registry_step_ok.
Qed.

(** ** Properties *)

(** In every reachable registry each execution has at most one open session,
    a caller's session counts as active exactly while its channel is open, and
    no session channel is ever closed twice (which would panic). *)
Theorem registry_single_session r :
  rtc registry_step NewRegistry r →
  reg_panicked r = false ∧
  (∀ h s, reg_sessions r !! h = Some s → Active r (Some h) = negb (s_done s)) ∧
  (∀ h1 h2 s1 s2, reg_sessions r !! h1 = Some s1 → reg_sessions r !! h2 = Some s2 →
     s_done s1 = false → s_done s2 = false → s_ExecutionID s1 = s_ExecutionID s2 → h1 = h2).
Proof.
  intros [Ha Ho Hn Hp]%reachable_ok.
  split_and!; [done| |].
  - intros h s Hh. unfold Active. rewrite Hh. destruct (s_done s) eqn:Hd; simpl.
    + destruct (reg_records r !! _) as [rec|] eqn:Hr'; [|done].
      apply bool_decide_eq_false. intros Hs. destruct (Ha _ _ _ Hr' Hs) as (?&?&?&?). congruence.
    + destruct (Ho _ _ Hh Hd) as (rec & -> & Hs). by apply bool_decide_eq_true.
  - intros h1 h2 s1 s2 H1 H2 Hd1 Hd2 Heq.
    destruct (Ho _ _ H1 Hd1) as (rec1 & Hr1 & Hs1), (Ho _ _ H2 Hd2) as (rec2 & Hr2 & Hs2). congruence.
Qed.

(** Once an execution is invalidated none of its sessions is usable: every
    session it ever had is closed and resolves no port, and a new one cannot be
    opened before a fresh binding. *)
Theorem Invalidate_revokes r ex :
  rtc registry_step NewRegistry r →
  (∀ h s, reg_sessions (Invalidate r ex) !! h = Some s → s_ExecutionID s = ex →
     s_done s = true ∧ ∀ port, ResolveTarget s port = None) ∧
  (∀ k, is_ok (Open (Invalidate r ex) ex k) = false).
Proof.
  intros Hr. pose proof (Invalidate_ok _ ex (reachable_ok r Hr)) as Hok.
  assert (reg_records (Invalidate r ex) !! ex = None) as Hgone by apply lookup_delete_eq.
  split.
  - intros h s Hh Hex. assert (s_done s = true) as Hd.
    { destruct (s_done s) eqn:Hd; [done|]. destruct (gk_open _ Hok _ _ Hh Hd) as (rec & Hrec & _).
      congruence. }
    split; [done|]. intros port. unfold ResolveTarget. by rewrite Hd.
  - intros k. unfold Open. case_match; [done|]. by rewrite Hgone.
Qed.

(** [Open] tells a peer that the session is busy, or hands it a session, only
    if the peer presented the bound key; the session carries exactly the bound
    ports, and the binding itself survives a refused attempt. *)
Theorem Open_authorizes r ex k :
  match Open r ex k with
  | Ok (h, r') =>
    ∃ rec, reg_records r !! ex = Some rec ∧ r_peerKey rec = k ∧ r_session rec = None ∧
      reg_sessions r' !! h = Some (mkSession ex k (r_targets rec) (r_endpoint rec) false) ∧
      (∀ port t, ResolveTarget (mkSession ex k (r_targets rec) (r_endpoint rec) false) port = Some t →
         t ∈ r_targets rec ∧ target_port t = port)
  | Err e =>
    e = ESentinel ErrSessionBusy → ∃ rec, reg_records r !! ex = Some rec ∧ r_peerKey rec = k
  end.
Proof.
  unfold Open. destruct (bool_decide (ex = "")); [done|]. destruct (reg_records r !! ex) as [rec|] eqn:Hr; [|done].
  destruct (negb _) eqn:Hk; [done|]. apply negb_false_iff, bool_decide_eq_true in Hk.
  destruct (r_session rec) eqn:Hs; [by eauto|]. exists rec. split_and!; try done.
  - simpl. apply lookup_insert_eq.
  - intros port t Hf. apply List.find_some in Hf as [Hin Ht]. split; [by apply list_elem_of_In|lia].
Qed.

(** Releasing a session that is no longer the active one changes nothing, so
    an edge that closes late never ends a newer session. *)
Theorem Release_stale r h :
  Active r (Some h) = false → Release r h = r.
Proof.
  unfold Active, Release. destruct (reg_sessions r !! h) as [s|]; [|done].
  destruct (reg_records r !! s_ExecutionID s) as [rec|]; [|done].
  rewrite bool_decide_eq_false. intros Hs. by rewrite decide_False.
Qed.

(** A registry with one binding and one session on it. *)
Definition demo_registry : Registry :=
  match Bind NewRegistry "x1" [Byte.x01] [mkTarget 80] (mkEndpoint [] []) with
  | Ok r => match Open r "x1" [Byte.x01] with Ok (_, r') => r' | Err _ => r end
  | Err _ => NewRegistry
  end.

Lemma demo_reachable : rtc registry_step NewRegistry demo_registry.
Proof.
  eapply rtc_l; [by apply (step_bind _ "x1" [Byte.x01] [mkTarget 80] (mkEndpoint [] []))|].
  eapply rtc_l; [by eapply (step_open _ "x1" [Byte.x01])|]. apply rtc_refl.
Qed.

Lemma registry_single_session_witness : reg_panicked demo_registry = false.
Proof. apply (registry_single_session demo_registry). apply demo_reachable. Defined.

Lemma Invalidate_revokes_witness :
  is_ok (Open demo_registry "x1" [Byte.x01]) = false ∧ Active demo_registry (Some 0%nat) = true ∧
  is_ok (Open (Invalidate demo_registry "x1") "x1" [Byte.x01]) = false.
Proof.
  split; [reflexivity|]. split; [reflexivity|]. apply (Invalidate_revokes demo_registry "x1"). apply demo_reachable.
Defined.

Lemma Release_stale_witness : Release (CloseSession demo_registry "x1") 0 = CloseSession demo_registry "x1".
Proof. apply Release_stale. reflexivity. Defined.
