(* ===== verification/Utf8.v ===== *)
(** * UTF-8 and JSON strings

    [encoding/json] writes a Go string as UTF-8 and replaces every byte that is
    not part of a valid encoding by U+FFFD.  [json_string s] is the string that
    decoding the encoded [s] yields. *)

From S2P Require Import Prelude GoStrings.
From Stdlib Require Import Strings.Byte.

Definition byte_in (lo hi : N) (b : Byte.byte) : bool :=
  (lo <=? Byte.to_N b)%N && (Byte.to_N b <=? hi)%N.

Definition continuation : Byte.byte → bool := byte_in 0x80 0xBF.

(** The range of the second byte after a lead byte of a three- or four-byte
    sequence. *)
Definition second_of_3 (b0 : Byte.byte) : option (Byte.byte → bool) :=
  if byte_in 0xE0 0xE0 b0 then Some (byte_in 0xA0 0xBF)
  else if byte_in 0xED 0xED b0 then Some (byte_in 0x80 0x9F)
  else if byte_in 0xE1 0xEF b0 then Some continuation
  else None.

Definition second_of_4 (b0 : Byte.byte) : option (Byte.byte → bool) :=
  if byte_in 0xF0 0xF0 b0 then Some (byte_in 0x90 0xBF)
  else if byte_in 0xF4 0xF4 b0 then Some (byte_in 0x80 0x8F)
  else if byte_in 0xF1 0xF3 b0 then Some continuation
  else None.

(** The size of the rune at the head of the bytes, 0 if it is not valid: the
    size [utf8.DecodeRune] returns, except that it returns 1 for an invalid
    byte. *)
Definition rune_size (l : bytes) : nat :=
  (match l with
  | [] => 0
  | b0 :: l' =>
    if byte_in 0x00 0x7F b0 then 1
    else match l' with
    | [] => 0
    | b1 :: l'' =>
      if byte_in 0xC2 0xDF b0 && continuation b1 then 2
      else match l'' with
      | [] => 0
      | b2 :: l3 =>
        if from_option (fun p => p b1) false (second_of_3 b0) && continuation b2 then 3
        else match l3 with
        | [] => 0
        | b3 :: _ =>
          if from_option (fun p => p b1) false (second_of_4 b0) && continuation b2 && continuation b3 then 4
          else 0
        end
      end
    end
  end)%nat.

Definition replacement : bytes := [xef; xbf; xbd].

(** One pass over the bytes; every turn consumes at least one byte, so the
    length is enough fuel. *)
Fixpoint coerce (fuel : nat) (l : bytes) : bytes :=
  match fuel, l with
  | _, [] => []
  | O, _ => l
  | S fuel', b :: l' =>
    match rune_size l with
    | O => replacement ++ coerce fuel' l'
    | n => take n l ++ coerce fuel' (drop n l)
    end
  end.

Definition json_string (s : string) : string :=
  go_string (coerce (String.length s) (String.list_byte_of_string s)).

(** [utf8.ValidString] *)
Fixpoint valid_bytes (fuel : nat) (l : bytes) : bool :=
  match fuel, l with
  | _, [] => true
  | O, _ => false
  | S fuel', _ =>
    match rune_size l with
    | O => false
    | n => valid_bytes fuel' (drop n l)
    end
  end.

Definition valid_utf8 (s : string) : bool :=
  valid_bytes (String.length s) (String.list_byte_of_string s).

(** ** Valid strings survive *)

Lemma coerce_valid fuel l : valid_bytes fuel l = true → coerce fuel l = l.
Proof.
  revert l. induction fuel as [|fuel IH]; intros [|b l]; try done.
  cbn [valid_bytes coerce]. destruct (rune_size (b :: l)) as [|n]; [done|].
  intros Hv. rewrite IH // take_drop //.
Qed.

Lemma json_string_valid s : valid_utf8 s = true → json_string s = s.
Proof.
  unfold valid_utf8, json_string. intros Hv. rewrite coerce_valid //.
  apply String.string_of_list_byte_of_string.
Qed.

Lemma rune_size_length l : (rune_size l ≤ length l)%nat.
Proof. destruct l as [|? [|? [|? [|? ?]]]]; simpl; repeat case_match; lia. Qed.

(** More fuel than the length changes nothing. *)
Lemma valid_bytes_fuel fuel fuel' l :
  (length l ≤ fuel)%nat → (length l ≤ fuel')%nat → valid_bytes fuel l = valid_bytes fuel' l.
Proof.
  revert fuel' l. induction fuel as [|fuel IH]; intros [|fuel'] [|b l] H1 H2; simpl in H1, H2; try done; try lia.
  cbn [valid_bytes]. destruct (rune_size (b :: l)) as [|n] eqn:Hn; [done|].
  apply IH; rewrite length_drop; simpl; lia.
Qed.

(** A string is changed by the coercion exactly when it is not valid UTF-8. *)
Lemma coerce_length fuel l : (length l ≤ fuel)%nat → (length l ≤ length (coerce fuel l))%nat.
Proof.
  revert l. induction fuel as [|fuel IH]; intros [|b l] Hl; simpl in Hl; try (simpl; lia).
  cbn [coerce]. destruct (rune_size (b :: l)) as [|n] eqn:Hn.
  - rewrite length_app. specialize (IH l). simpl. lia.
  - rewrite length_app length_take. pose proof (rune_size_length (b :: l)) as Hs.
    rewrite Hn in Hs. specialize (IH (drop (S n) (b :: l))). rewrite length_drop in IH. simpl in *. lia.
Qed.

Lemma coerce_invalid fuel l :
  (length l ≤ fuel)%nat → valid_bytes fuel l = false → (length l < length (coerce fuel l))%nat.
Proof.
  revert l. induction fuel as [|fuel IH]; intros [|b l] Hl Hv; simpl in Hl; try done; try lia.
  cbn [coerce valid_bytes] in *. destruct (rune_size (b :: l)) as [|n] eqn:Hn.
  - rewrite length_app. pose proof (coerce_length fuel l). simpl. lia.
  - rewrite length_app length_take. pose proof (rune_size_length (b :: l)) as Hs. rewrite Hn in Hs.
    assert (length (drop (S n) (b :: l)) ≤ fuel)%nat as Hd by (rewrite length_drop; simpl; lia).
    specialize (IH _ Hd Hv). rewrite length_drop in IH. lia.
Qed.

Lemma json_string_fixed s : json_string s = s ↔ valid_utf8 s = true.
Proof.
  split; [|apply json_string_valid]. intros Hs.
  destruct (valid_utf8 s) eqn:Hv; [done|]. exfalso. unfold valid_utf8 in Hv.
  apply (f_equal (length ∘ String.list_byte_of_string)) in Hs. simpl in Hs.
  unfold json_string, go_string in Hs.
  rewrite String.list_byte_of_string_of_list_byte in Hs.
  apply coerce_invalid in Hv; [lia|]. by rewrite list_byte_of_string_length.
Qed.

(** ** Concatenation *)

Lemma rune_size_app l k : rune_size l ≠ 0%nat → rune_size (l ++ k) = rune_size l.
Proof.
  destruct l as [|? [|? [|? [|? ?]]]]; simpl; try done; repeat case_match; try done.
Qed.

Lemma valid_bytes_app fuel l k :
  (length (l ++ k) ≤ fuel)%nat → valid_bytes fuel l = true →
  valid_bytes fuel (l ++ k) = valid_bytes fuel k.
Proof.
  revert l. induction fuel as [|fuel IH]; intros [|b l] Hl Hv; simpl in Hl; try done; try lia.
  assert (length l + length k ≤ fuel)%nat as Hlen by (rewrite length_app in Hl; lia).
  cbn [valid_bytes] in Hv. destruct (rune_size (b :: l)) as [|n] eqn:Hn; [done|].
  change ((b :: l) ++ k) with (b :: (l ++ k)). cbn [valid_bytes].
  pose proof (rune_size_app (b :: l) k) as Happ. rewrite Hn in Happ. simpl app in Happ.
  rewrite Happ //. change (b :: l ++ k) with ((b :: l) ++ k).
  pose proof (rune_size_length (b :: l)) as Hs. rewrite Hn in Hs.
  rewrite drop_app_le //. rewrite IH //.
  - rewrite length_app length_drop. simpl in *. lia.
  - apply (valid_bytes_fuel fuel (S fuel)); simpl in *; lia.
Qed.

Lemma list_byte_of_string_app s t :
  String.list_byte_of_string (s +:+ t) = String.list_byte_of_string s ++ String.list_byte_of_string t.
Proof. unfold String.list_byte_of_string. induction s as [|c s IH]; simpl; [done|]. by f_equal. Qed.

Lemma string_length_app s t : String.length (s +:+ t) = (String.length s + String.length t)%nat.
Proof. rewrite -!list_byte_of_string_length list_byte_of_string_app length_app //. Qed.

Lemma valid_utf8_app s t :
  valid_utf8 s = true → valid_utf8 (s +:+ t) = valid_utf8 t.
Proof.
  unfold valid_utf8. intros Hs. rewrite list_byte_of_string_app string_length_app.
  rewrite valid_bytes_app.
  - rewrite length_app !list_byte_of_string_length. lia.
  - rewrite -Hs. apply valid_bytes_fuel; rewrite list_byte_of_string_length; lia.
  - apply valid_bytes_fuel; rewrite list_byte_of_string_length; lia.
Qed.

(** ** Coerced strings are valid *)

Lemma rune_size_take l n : rune_size l = S n → rune_size (take (S n) l) = S n.
Proof.
  destruct l as [|? [|? [|? [|? ?]]]]; cbn [rune_size]; try done;
    repeat (case_match; try done); intros [= <-]; cbn [rune_size take];
    repeat match goal with E : ?x = true |- _ => try rewrite E; clear E | E : ?x = false |- _ => try rewrite E; clear E end;
    done.
Qed.

Lemma coerce_is_valid fuel l fuel' :
  (length l ≤ fuel)%nat → (length (coerce fuel l) ≤ fuel')%nat → valid_bytes fuel' (coerce fuel l) = true.
Proof.
  revert l fuel'. induction fuel as [|fuel IH]; intros [|b l] fuel' Hl Hf; simpl in Hl; try lia; try by destruct fuel'.
  cbn [coerce] in *. destruct (rune_size (b :: l)) as [|n] eqn:Hn.
  - destruct fuel' as [|fuel']; simpl in Hf; [lia|]. cbn [valid_bytes]. simpl. apply IH; lia.
  - pose proof (rune_size_length (b :: l)) as Hs. rewrite Hn in Hs.
    assert (length (take (S n) (b :: l)) = S n) as Ht by (rewrite length_take; lia).
    rewrite length_app Ht in Hf. destruct fuel' as [|fuel']; [lia|].
    pose proof (rune_size_take _ _ Hn) as Htake.
    pose proof (rune_size_app (take (S n) (b :: l)) (coerce fuel (drop (S n) (b :: l)))) as Happ.
    rewrite Htake in Happ. specialize (Happ ltac:(done)).
    destruct (take (S n) (b :: l) ++ coerce fuel (drop (S n) (b :: l))) as [|b0 l0] eqn:E; [done|].
    cbn [valid_bytes]. rewrite Happ. rewrite -E -{1}Ht drop_app_length. apply IH; [rewrite length_drop; simpl; lia|lia].
Qed.

Lemma json_string_is_valid s : valid_utf8 (json_string s) = true.
Proof.
  unfold valid_utf8, json_string, go_string. rewrite String.list_byte_of_string_of_list_byte.
  apply coerce_is_valid; [by rewrite list_byte_of_string_length|].
  set (b := coerce _ _). rewrite -(list_byte_of_string_length (String.string_of_list_byte b)).
  by rewrite String.list_byte_of_string_of_list_byte.
Qed.
