(* ===== verification/AllocTypes.v ===== *)
(** * Allocator state (internal/allocator: config.go, allocator.go,
      retention_policy.go, state_schema.go)

    The records the allocator keeps, its configuration, the durable snapshot and
    the world in which the handlers run.

    The handlers run in a state monad over [World]: the allocator's state, the
    last snapshot the store accepted, the trace of calls to the runtime, the log
    store and the metrics collector, and a counter that indexes the environment
    ([Env]: clock, identifiers, store and runtime outcomes).  Every theorem
    quantifies over the environment, so the clock may jump, the store may fail
    and the runtime may refuse at any point. *)

From S2P Require Import Prelude GoStrings Wire Errors Protocol Capacity Admission Replay Registry.

(** ** Records *)

Inductive offerStatus := offerOutstanding | offerAssigned | offerExpired | offerReleased.

#[export] Instance offerStatus_eq_dec : EqDecision offerStatus.
Proof. solve_decision. Defined.

(** The stored number of a status ([iota + 1]). *)
Definition status_number (s : offerStatus) : Z :=
  match s with offerOutstanding => 1 | offerAssigned => 2 | offerExpired => 3 | offerReleased => 4 end.

Definition status_of_number (n : Z) : option offerStatus :=
  if n =? 1 then Some offerOutstanding else if n =? 2 then Some offerAssigned
  else if n =? 3 then Some offerExpired else if n =? 4 then Some offerReleased else None.

Record offerRecord := mkOfferRecord {
  of_offer : ExecutionOffer;
  of_request : ExecutionRequest;
  of_client : bytes;
  of_status : offerStatus;
  of_execution : string;
  of_resources : Resources
}.

Record executionRecord := mkExecution {
  ex_id : string;
  ex_offerID : string;
  ex_client : bytes;
  ex_resourceClass : string;
  ex_request : ExecutionRequest;
  ex_phase : ExecutionPhase;
  ex_detail : string;
  ex_exitCode : option Z;
  ex_occurredAt : time;
  ex_startedAt : time;
  ex_released : bool;
  ex_retainUntil : time;
  ex_leaseUntil : time;
  ex_revision : Z;
  ex_resources : Resources
}.

Record tombstone := mkTombstone {
  tb_Client : bytes;
  tb_RequestID : string;
  tb_OfferID : string;
  tb_ExecutionID : string;
  tb_ExpiresAt : time;
  tb_CleanupPending : bool
}.

Definition set_status (o : offerRecord) (s : offerStatus) : offerRecord :=
  mkOfferRecord (of_offer o) (of_request o) (of_client o) s (of_execution o) (of_resources o).

Definition set_assignment (o : offerRecord) (s : offerStatus) (execution : string) : offerRecord :=
  mkOfferRecord (of_offer o) (of_request o) (of_client o) s execution (of_resources o).

(** The four fields a phase transition writes. *)
Definition set_phase (e : executionRecord) (phase : ExecutionPhase) (detail : string)
    (occurredAt : time) (revision : Z) : executionRecord :=
  mkExecution (ex_id e) (ex_offerID e) (ex_client e) (ex_resourceClass e) (ex_request e) phase detail
    (ex_exitCode e) occurredAt (ex_startedAt e) (ex_released e) (ex_retainUntil e) (ex_leaseUntil e)
    revision (ex_resources e).

Definition set_lease (e : executionRecord) (until : time) : executionRecord :=
  mkExecution (ex_id e) (ex_offerID e) (ex_client e) (ex_resourceClass e) (ex_request e) (ex_phase e)
    (ex_detail e) (ex_exitCode e) (ex_occurredAt e) (ex_startedAt e) (ex_released e) (ex_retainUntil e)
    until (ex_revision e) (ex_resources e).

Definition set_retain (e : executionRecord) (until : time) : executionRecord :=
  mkExecution (ex_id e) (ex_offerID e) (ex_client e) (ex_resourceClass e) (ex_request e) (ex_phase e)
    (ex_detail e) (ex_exitCode e) (ex_occurredAt e) (ex_startedAt e) (ex_released e) until
    (ex_leaseUntil e) (ex_revision e) (ex_resources e).

(** The fields [finishLocked] writes. *)
Definition set_finished (e : executionRecord) (phase : ExecutionPhase) (detail : string)
    (exitCode : option Z) (now retain : time) : executionRecord :=
  mkExecution (ex_id e) (ex_offerID e) (ex_client e) (ex_resourceClass e) (ex_request e) phase detail
    exitCode now (ex_startedAt e) true retain (ex_leaseUntil e) (u64 (ex_revision e + 1)) (ex_resources e).

(** ** Configuration *)

Definition CommandHorizon : duration := 7 * 24 * Hour.
Definition DefaultRetention : duration := 24 * Hour.
Definition DefaultMaxRecords : Z := 10000.
Definition maxLeaseTTL : duration := CommandHorizon.
Definition defaultOfferTTL : duration := 30 * Second.
Definition defaultReplayTTL : duration := 10 * Minute.
Definition defaultReplayCapacity : Z := 4096.
Definition defaultLeaseTTL : duration := DefaultLease.

(** [TunnelConfig] *)
Record TunnelConfig := mkTunnelConfig { tc_Enabled : bool; tc_Endpoint : Endpoint }.

(** [Config], with the optional collaborators represented by whether they are
    present: a store, a log store, a metrics collector, and which of the
    optional runtime interfaces the runtime implements. *)
Record Config := mkConfig {
  cf_MaxRecords : Z;
  cf_Retention : duration;
  cf_Identity : bytes;
  cf_Capacity : gmap string Z;
  cf_OfferTTL : duration;
  cf_LeaseTTL : duration;
  cf_ReplayTTL : duration;
  cf_ReplayCapacity : Z;
  cf_Admission : AdmissionPolicy;
  cf_Tunnel : TunnelConfig;
  cf_Node : option NodeCapabilities;
  cf_runtime : bool;
  cf_Store : bool;
  cf_Logs : bool;
  cf_Metrics : bool;
  cf_Recoverer : bool;
  cf_Forgetter : bool;
  cf_PortDialer : bool
}.

(** The fields of [Allocator] that never change after [New]. *)
Record Settings := mkSettings {
  p_maxRecords : Z;
  p_identity : bytes;
  p_offerTTL : duration;
  p_leaseTTL : duration;
  p_retention : duration;
  p_admission : AdmissionPolicy;
  p_node : option NodeCapabilities;
  p_tunnelConfig : TunnelConfig;
  p_store : bool;
  p_logs : bool;
  p_metrics : bool;
  p_recoverer : bool;
  p_forgetter : bool;
  p_dialer : bool
}.

(** The fields of [Allocator] that do. *)
Record Allocator := mkAllocator {
  al_highWater : time;
  al_tombstones : gmap string tombstone;
  al_capacity : capacityLedger;
  al_offers : gmap string offerRecord;
  al_requests : gmap string string;
  al_executions : gmap string executionRecord;
  al_replay : replayCache;
  al_tunnels : Registry
}.

Definition set_highWater (a : Allocator) (t : time) : Allocator :=
  mkAllocator t (al_tombstones a) (al_capacity a) (al_offers a) (al_requests a) (al_executions a) (al_replay a) (al_tunnels a).
Definition set_tombstones (a : Allocator) (m : gmap string tombstone) : Allocator :=
  mkAllocator (al_highWater a) m (al_capacity a) (al_offers a) (al_requests a) (al_executions a) (al_replay a) (al_tunnels a).
Definition set_capacity (a : Allocator) (c : capacityLedger) : Allocator :=
  mkAllocator (al_highWater a) (al_tombstones a) c (al_offers a) (al_requests a) (al_executions a) (al_replay a) (al_tunnels a).
Definition set_offers (a : Allocator) (m : gmap string offerRecord) : Allocator :=
  mkAllocator (al_highWater a) (al_tombstones a) (al_capacity a) m (al_requests a) (al_executions a) (al_replay a) (al_tunnels a).
Definition set_requests (a : Allocator) (m : gmap string string) : Allocator :=
  mkAllocator (al_highWater a) (al_tombstones a) (al_capacity a) (al_offers a) m (al_executions a) (al_replay a) (al_tunnels a).
Definition set_executions (a : Allocator) (m : gmap string executionRecord) : Allocator :=
  mkAllocator (al_highWater a) (al_tombstones a) (al_capacity a) (al_offers a) (al_requests a) m (al_replay a) (al_tunnels a).
Definition set_replay (a : Allocator) (c : replayCache) : Allocator :=
  mkAllocator (al_highWater a) (al_tombstones a) (al_capacity a) (al_offers a) (al_requests a) (al_executions a) c (al_tunnels a).
Definition set_tunnels (a : Allocator) (r : Registry) : Allocator :=
  mkAllocator (al_highWater a) (al_tombstones a) (al_capacity a) (al_offers a) (al_requests a) (al_executions a) (al_replay a) r.

Definition put_offer (a : Allocator) (id : string) (o : offerRecord) : Allocator :=
  set_offers a (<[id := o]> (al_offers a)).
Definition put_execution (a : Allocator) (id : string) (e : executionRecord) : Allocator :=
  set_executions a (<[id := e]> (al_executions a)).

(** [authorityKey]: the identity, a NUL byte and the identifier. *)
Definition nul : string := String (Ascii.ascii_of_nat 0) "".
Definition authorityKey (identity : bytes) (id : string) : string :=
  (go_string identity +:+ nul) +:+ id.

(** The request key of an offer record. *)
Definition offer_key (o : offerRecord) : string :=
  authorityKey (of_client o) (eo_request_id (of_offer o)).

(** ** The runtime boundary *)

(** [runtime.StartRequest] *)
Record StartRequest := mkStart {
  st_ExecutionID : string;
  st_RunID : string;
  st_Attempt : Z;
  st_Client : bytes;
  st_Workload : option Workload;
  st_Policy : option ExecutionPolicy;
  st_Resources : Resources;
  st_StartedAt : time
}.

(** [runtime.Completion] *)
Record Completion := mkCompletion {
  cm_ExecutionID : string;
  cm_Err : error;
  cm_Detail : string;
  cm_ExitCode : option Z
}.

(** [runtime.LogChunk] *)
Record LogChunk := mkLogChunk { lc_Data : bytes; lc_NextOffset : Z; lc_EOF : bool; lc_Truncated : bool }.

(** ** Durable snapshot (state_schema.go)

    The Protobuf messages inside the snapshot are stored encoded, as values of
    the type [wire_bytes] of the codec. *)
Class Codec := {
  wire_bytes : Type;
  marshal_offer : ExecutionOffer → result gerror wire_bytes;
  unmarshal_offer : wire_bytes → result gerror ExecutionOffer;
  marshal_request : ExecutionRequest → result gerror wire_bytes;
  unmarshal_request : wire_bytes → result gerror ExecutionRequest;
  marshal_envelope : Envelope → result gerror wire_bytes;
  unmarshal_envelope : wire_bytes → result gerror Envelope
}.

(** Decoding an encoded message gives the message back. *)
Class CodecLaws `{Codec} := {
  unmarshal_marshal_offer x b : marshal_offer x = Ok b → unmarshal_offer b = Ok x;
  unmarshal_marshal_request x b : marshal_request x = Ok b → unmarshal_request b = Ok x;
  unmarshal_marshal_envelope x b : marshal_envelope x = Ok b → unmarshal_envelope b = Ok x
}.

(** A concrete codec: the bytes are the tagged message. *)
Inductive tagged := T_offer (m : ExecutionOffer) | T_request (m : ExecutionRequest) | T_envelope (m : Envelope).

Definition concrete_codec : Codec := {|
  wire_bytes := tagged;
  marshal_offer m := Ok (T_offer m);
  unmarshal_offer b := match b with T_offer m => Ok m | _ => Err (EOpaque "wrong message") end;
  marshal_request m := Ok (T_request m);
  unmarshal_request b := match b with T_request m => Ok m | _ => Err (EOpaque "wrong message") end;
  marshal_envelope m := Ok (T_envelope m);
  unmarshal_envelope b := match b with T_envelope m => Ok m | _ => Err (EOpaque "wrong message") end
|}.

Lemma concrete_codec_laws : @CodecLaws concrete_codec.
Proof. split; by intros x b [= <-]. Qed.

Section schema.
Context `{Codec}.

Record persistedOffer := mkPOffer {
  po_Resources : Resources;
  po_Offer : wire_bytes;
  po_Request : wire_bytes;
  po_Client : bytes;
  po_LegacySender : bytes;
  po_Status : Z;
  po_Execution : string
}.

Record persistedExecution := mkPExecution {
  pe_RetainUntil : time;
  pe_LeaseUntil : time;
  pe_Resources : Resources;
  pe_ID : string;
  pe_OfferID : string;
  pe_Client : bytes;
  pe_LegacySender : bytes;
  pe_ResourceClass : string;
  pe_Request : wire_bytes;
  pe_Phase : ExecutionPhase;
  pe_Detail : string;
  pe_ExitCode : option Z;
  pe_OccurredAt : time;
  pe_StartedAt : time;
  pe_Released : bool;
  pe_Revision : Z
}.

Record persistedReplay := mkPReplay {
  pr_Key : string;
  pr_SeenAt : time;
  pr_Envelope : wire_bytes;
  pr_Responses : list wire_bytes;
  pr_Error : string;
  pr_ErrorCode : string;
  pr_Complete : bool
}.

Record persistedState := mkPState {
  ps_HighWater : time;
  ps_Tombstones : gmap string tombstone;
  ps_Version : Z;
  ps_Identity : bytes;
  ps_Offers : list persistedOffer;
  ps_Executions : list persistedExecution;
  ps_Replay : list persistedReplay
}.
End schema.

Definition stateVersion : Z := 2.

(** ** Calls out of the allocator *)

(** The metric updates of metrics_observer.go. *)
Inductive metric :=
| ObserveRequest (class : string)
| ObserveOffer (class : string)
| ObserveRejection (code : string)
| ObserveLeaseEviction
| ObserveExecutionTerminal (class phase : string) (d : duration)
| ObserveDispatchLatency (command : string)
| SetActiveExecutions (class : string) (n : Z)
| UpdateCapacity (class : string) (limit available : Z).

Inductive event :=
| EvStart (r : StartRequest)
| EvStop (id : string)
| EvRecover (r : StartRequest)
| EvForget (id : string)
| EvRemoveLogs (id : string)
| EvDial (id : string) (port : Z)
| EvCloseConn (id : string) (port : Z)
| EvMetric (m : metric).

(** What the environment answers, indexed by the call counter. *)
Class Env := {
  clock : nat → time;
  new_id : nat → string;
  random_id : nat → string;
  save_result : nat → error;
  start_result : nat → error;
  stop_result : nat → error;
  recover_result : nat → error;
  forget_result : nat → error;
  remove_logs_result : nat → error;
  read_logs : nat → result gerror LogChunk;
  dial_result : nat → error;
  context_err : nat → error
}.

(** ** The world and its monad *)

Record World `{Codec} := mkWorld {
  w_alloc : Allocator;
  w_disk : option persistedState;
  w_trace : list event;
  w_tick : nat;
  w_panicked : bool
}.

Section monad.
Context `{Codec, Env}.

Definition M (A : Type) : Type := World → A * World.

#[export] Instance M_ret : MRet M := fun A a w => (a, w).
#[export] Instance M_bind : MBind M := fun A B f m w => let '(a, w') := m w in f a w'.

Definition get : M Allocator := fun w => (w_alloc w, w).
Definition modify (f : Allocator → Allocator) : M unit :=
  fun w => (tt, mkWorld _ (f (w_alloc w)) (w_disk w) (w_trace w) (w_tick w) (w_panicked w)).
Definition put (a : Allocator) : M unit := modify (fun _ => a).

(** Ask the environment and advance the counter. *)
Definition ask {A} (f : nat → A) : M A :=
  fun w => (f (w_tick w), mkWorld _ (w_alloc w) (w_disk w) (w_trace w) (S (w_tick w)) (w_panicked w)).

Definition emit (e : event) : M unit :=
  fun w => (tt, mkWorld _ (w_alloc w) (w_disk w) (w_trace w ++ [e]) (w_tick w) (w_panicked w)).

Definition write_disk (s : persistedState) : M unit :=
  fun w => (tt, mkWorld _ (w_alloc w) (Some s) (w_trace w) (w_tick w) (w_panicked w)).

(** A nil dereference or another run-time panic. *)
Definition panic : M unit :=
  fun w => (tt, mkWorld _ (w_alloc w) (w_disk w) (w_trace w) (w_tick w) true).

(** [a.now().UTC()], [a.newID()] and [randomID()]. *)
Definition now : M time := ask clock.
Definition newID : M string := ask new_id.
Definition randomID : M string := ask random_id.

(** The calls through the runtime and the log store. *)
Definition runtime_Start (r : StartRequest) : M error := emit (EvStart r);; ask start_result.
Definition runtime_Stop (id : string) : M error := emit (EvStop id);; ask stop_result.
Definition runtime_Recover (r : StartRequest) : M error := emit (EvRecover r);; ask recover_result.
Definition runtime_Forget (id : string) : M error := emit (EvForget id);; ask forget_result.
Definition logs_Remove (id : string) : M error := emit (EvRemoveLogs id);; ask remove_logs_result.
Definition logs_Read : M (result gerror LogChunk) := ask read_logs.
Definition runtime_Dial (id : string) (port : Z) : M error := emit (EvDial id port);; ask dial_result.
Definition ctx_Err : M error := ask context_err.
End monad.
