(* ===== verification/Snapshot.v ===== *)
(** * Encoding the durable snapshot (internal/allocator/state.go, persistLocked)

    [encode_state] is the body of [persistLocked] up to the store: the messages
    are marshalled by the codec and the snapshot by [encoding/json].  The JSON
    text itself is not represented; [json_state] is the value that decoding it
    yields, in which strings are coerced to UTF-8, and it fails on an instant
    outside the years 0 to 9999, as [time.Time] does. *)

From S2P Require Import Prelude GoStrings Wire Errors Protocol Feedback Capacity Admission Replay Registry.
From S2P Require Import Utf8 AllocTypes.

(** Apply a fallible function to every element, stopping at the first failure. *)
Fixpoint try_map {A B} (f : A → result gerror B) (l : list A) : result gerror (list B) :=
  match l with
  | [] => Ok []
  | a :: l' => try b ← f a; try rest ← try_map f l'; Ok (b :: rest)
  end.

(** The instants [time.Time.MarshalJSON] accepts. *)
Definition json_time (t : time) : bool := (-62167219200 * Second <=? t) && (t <=? max_time).

Definition json_tombstone (d : tombstone) : tombstone :=
  mkTombstone (tb_Client d) (json_string (tb_RequestID d)) (json_string (tb_OfferID d))
    (json_string (tb_ExecutionID d)) (tb_ExpiresAt d) (tb_CleanupPending d).

Section snapshot.
Context `{Externals, Codec}.

Definition encode_offer (record : offerRecord) : result gerror persistedOffer :=
  try offer ← marshal_offer (of_offer record);
  try request ← marshal_request (of_request record);
  Ok (mkPOffer (of_resources record) offer request (of_client record) []
        (status_number (of_status record)) (of_execution record)).

Definition encode_execution (record : executionRecord) : result gerror persistedExecution :=
  try request ← marshal_request (ex_request record);
  Ok (mkPExecution (ex_retainUntil record) (ex_leaseUntil record) (ex_resources record) (ex_id record)
        (ex_offerID record) (ex_client record) [] (ex_resourceClass record) request (ex_phase record)
        (ex_detail record) (ex_exitCode record) (ex_occurredAt record) (ex_startedAt record)
        (ex_released record) (ex_revision record)).

Definition encode_replay (kv : string * replayEntry) : result gerror persistedReplay :=
  let '(key, entry) := kv in
  try envelope ← marshal_envelope (re_envelope entry);
  if replayDone entry then
    try responses ← try_map marshal_envelope (re_responses entry);
    Ok (mkPReplay key (re_seenAt entry) envelope responses
          (from_option error_text "" (re_err entry)) (from_option classifyError "" (re_err entry)) true)
  else Ok (mkPReplay key (re_seenAt entry) envelope [] "" "" false).

(** ** JSON *)

Definition json_offer (o : persistedOffer) : persistedOffer :=
  mkPOffer (po_Resources o) (po_Offer o) (po_Request o) (po_Client o) (po_LegacySender o)
    (po_Status o) (json_string (po_Execution o)).

Definition json_execution (e : persistedExecution) : persistedExecution :=
  mkPExecution (pe_RetainUntil e) (pe_LeaseUntil e) (pe_Resources e) (json_string (pe_ID e))
    (json_string (pe_OfferID e)) (pe_Client e) (pe_LegacySender e) (json_string (pe_ResourceClass e))
    (pe_Request e) (pe_Phase e) (json_string (pe_Detail e)) (pe_ExitCode e) (pe_OccurredAt e)
    (pe_StartedAt e) (pe_Released e) (pe_Revision e).

Definition json_replay (r : persistedReplay) : persistedReplay :=
  mkPReplay (json_string (pr_Key r)) (pr_SeenAt r) (pr_Envelope r) (pr_Responses r)
    (json_string (pr_Error r)) (json_string (pr_ErrorCode r)) (pr_Complete r).

Definition json_times (s : persistedState) : bool :=
  json_time (ps_HighWater s)
  && forallb (fun kv => json_time (tb_ExpiresAt kv.2)) (map_to_list (ps_Tombstones s))
  && forallb (fun e => json_time (pe_RetainUntil e) && json_time (pe_LeaseUntil e)
                       && json_time (pe_OccurredAt e) && json_time (pe_StartedAt e)) (ps_Executions s)
  && forallb (fun r => json_time (pr_SeenAt r)) (ps_Replay s).

Definition json_state (s : persistedState) : result gerror persistedState :=
  if json_times s then
    Ok (mkPState (ps_HighWater s)
          (list_to_map (map (fun '(id, d) => (json_string id, json_tombstone d)) (map_to_list (ps_Tombstones s))))
          (ps_Version s) (ps_Identity s) (map json_offer (ps_Offers s))
          (map json_execution (ps_Executions s)) (map json_replay (ps_Replay s)))
  else Err (EOpaque "Time.MarshalJSON: year outside of range [0,9999]").

Definition encode_state (identity : bytes) (a : Allocator) : result gerror persistedState :=
  try offers ← try_map encode_offer (map_to_list (al_offers a)).*2;
  try executions ← try_map encode_execution (map_to_list (al_executions a)).*2;
  try replay ← try_map encode_replay (map_to_list (rc_entries (al_replay a)));
  json_state (mkPState (al_highWater a) (al_tombstones a) stateVersion identity offers executions replay).
End snapshot.

(** ** Lemmas *)

Lemma try_map_ok {A B} (f : A → result gerror B) l r :
  try_map f l = Ok r ↔ Forall2 (fun a b => f a = Ok b) l r.
Proof.
  revert r. induction l as [|a l IH]; intros r; simpl.
  - split; [by intros [= <-]|]. by inversion 1.
  - rewrite result_bind_ok. setoid_rewrite result_bind_ok. split.
    + intros (b & Hb & rest & Hr & [= <-]). constructor; [done|]. by apply IH.
    + inversion 1 as [|? b ? rest Hb Hr]; subst. exists b. split; [done|]. exists rest.
      split; [by apply IH|done].
Qed.
