(* ===== verification/AllocOps.v ===== *)
(** * Allocator commands (internal/allocator: dispatch.go, offers.go, assign.go,
      cancel.go, release.go, lease.go, logs.go, runtime_bridge.go, views.go,
      replay.go, retention_policy.go, metrics_observer.go, tunnel.go)

    One definition per function of the source.  A handler that releases the
    allocator's lock around a runtime call is two definitions, the part before
    the call and the part after it; the handler composes them, and so does the
    step relation of [System], with other threads in between. *)

From S2P Require Import Prelude GoStrings Wire Errors Protocol Feedback Capacity Admission Replay Registry.
From S2P Require Import Utf8 AllocTypes Snapshot.
From stdpp Require Import pretty.
Open Scope Z_scope.

(** What a handler returns: the response envelopes and an error. *)
Abbreviation reply := (list Envelope * error)%type.

Definition fails {A} (e : gerror) : list A * error := ([], Some e).

(** The generated [String] method of a phase. *)
Definition phase_name (ph : ExecutionPhase) : string :=
  match ph with
  | PHASE_UNSPECIFIED => "EXECUTION_PHASE_UNSPECIFIED"
  | PHASE_STARTING => "EXECUTION_PHASE_STARTING"
  | PHASE_RUNNING => "EXECUTION_PHASE_RUNNING"
  | PHASE_CANCELLING => "EXECUTION_PHASE_CANCELLING"
  | PHASE_CANCELLED => "EXECUTION_PHASE_CANCELLED"
  | PHASE_COMPLETED => "EXECUTION_PHASE_COMPLETED"
  | PHASE_FAILED => "EXECUTION_PHASE_FAILED"
  | PHASE_OTHER n => pretty n
  end.

(** The generated getters of the oneof payload: the message when the payload has
    that type, nil otherwise. *)
Definition get_request (e : Envelope) := match env_payload e with Some (P_ExecutionRequest m) => m | _ => None end.
Definition get_assign (e : Envelope) := match env_payload e with Some (P_ExecutionAssign m) => m | _ => None end.
Definition get_cancel (e : Envelope) := match env_payload e with Some (P_ExecutionCancel m) => m | _ => None end.
Definition get_inspect (e : Envelope) := match env_payload e with Some (P_ExecutionInspect m) => m | _ => None end.
Definition get_logs (e : Envelope) := match env_payload e with Some (P_ExecutionLogsRequest m) => m | _ => None end.
Definition get_renew (e : Envelope) := match env_payload e with Some (P_ExecutionLeaseRenew m) => m | _ => None end.
Definition get_tunnel_open (e : Envelope) := match env_payload e with Some (P_ExecutionTunnelOpen m) => m | _ => None end.

(** ** Metrics (metrics_observer.go) *)

Definition unconfiguredResourceClass : string := "__unconfigured__".

Definition metricResourceClass (a : Allocator) (class : string) : string :=
  match limits (al_capacity a) !! class with Some _ => class | None => unconfiguredResourceClass end.

(** The number of live executions reported for a class. *)
Definition classActive (a : Allocator) (class : string) : Z :=
  mcount (fun e => bool_decide (metricResourceClass a (ex_resourceClass e) = class)
                   && negb (Terminal (ex_phase e))) (al_executions a).

(** The updates of [syncMetricsLocked]. *)
Definition sync_updates (a : Allocator) : list metric :=
  map (fun class => SetActiveExecutions class (classActive a class))
    (remove_dups (map (fun kv => metricResourceClass a (ex_resourceClass kv.2)) (map_to_list (al_executions a))))
  ++ flat_map (fun '(class, limit) =>
         [ UpdateCapacity class limit (available (al_capacity a) class);
           SetActiveExecutions class (classActive a class) ])
       (map_to_list (limits (al_capacity a))).

(** The code [observeRejectionMetric] reports. *)
Definition rejection_code (err : gerror) : string :=
  let matches s := is_err s err in
  if matches ErrAdmission then "ADMISSION"
  else if matches ErrStore then "OUTCOME_UNKNOWN"
  else if matches ErrUnauthorized then "UNAUTHORIZED"
  else if matches ErrOfferNotFound || matches ErrExecutionNotFound then "NOT_FOUND"
  else if matches ErrCapacityExhausted || matches ErrReplayCapacity then "CAPACITY"
  else if matches ErrIncompatible then "INCOMPATIBLE"
  else if matches ErrOfferExpired || matches ErrOfferReleased || matches ErrResultExpired || matches ErrCommandExpired
  then "EXPIRED"
  else if matches ErrExecutionConflict || matches ErrReplayConflict || matches ErrOfferAlreadyAssigned
          || matches ErrInvalidTransition then "CONFLICT"
  else if matches ErrTunnelDisabled || matches ErrTunnelNoEndpoint then "TUNNEL"
  else if matches ErrInvalidEnvelope || matches ErrUnsupportedMessage || matches ErrLeaseTooLong
  then "INVALID_REQUEST"
  else if matches ErrRuntimeStart || matches ErrRuntimeStop then "UNAVAILABLE"
  else "INTERNAL".

(** The updates of [observeFinishedMetricsLocked]. *)
Definition finished_updates (a : Allocator) (record : executionRecord) : list metric :=
  let d := if negb (is_zero (ex_startedAt record)) && negb (before (ex_occurredAt record) (ex_startedAt record))
           then ex_occurredAt record - ex_startedAt record else 0 in
  let phaseStr := match ex_phase record with
                  | PHASE_COMPLETED => "completed" | PHASE_FAILED => "failed"
                  | PHASE_CANCELLED => "cancelled" | _ => "unknown" end in
  ObserveExecutionTerminal (metricResourceClass a (ex_resourceClass record)) phaseStr d
  :: (if bool_decide (ex_phase record = PHASE_FAILED) && bool_decide (ex_detail record = LeaseExpiredDetail)
      then [ObserveLeaseEviction] else []).

(** [commandName] *)
Definition commandName (e : Envelope) : string :=
  match get_logs e with
  | Some _ => "logs"
  | None =>
    match env_payload e with
    | Some (P_ExecutionRequest _) => "request"
    | Some (P_ExecutionAssign _) => "assign"
    | Some (P_ExecutionCancel _) => "cancel"
    | Some (P_ExecutionInspect _) => "inspect"
    | Some (P_ExecutionOfferRelease _) => "release"
    | Some (P_ExecutionLeaseRenew _) => "renew"
    | Some (P_ExecutionTunnelOpen _) => "tunnel_open"
    | _ => "unknown"
    end
  end.

(** ** Offer expiry (views.go) *)

Definition offer_lapsed `{Externals} (o : offerRecord) (now : time) : bool :=
  bool_decide (of_status o = offerOutstanding) && negb (after (as_time (eo_expires_at (of_offer o))) now).

(** One turn of the loop of [expireOffersLocked]. *)
Definition expire_one `{Externals} (now : time) (acc : Allocator * Z) (kv : string * offerRecord) : Allocator * Z :=
  let '(a, expired) := acc in
  if offer_lapsed kv.2 now then
    (set_capacity (put_offer a kv.1 (set_status kv.2 offerExpired))
       (release (al_capacity a) (eo_resource_class (of_offer kv.2))), expired + 1)
  else acc.

Definition expire_offers `{Externals} (now : time) (a : Allocator) : Allocator * Z :=
  fold_left (expire_one now) (map_to_list (al_offers a)) (a, 0).

(** ** Admission (admission.go) *)

Definition owned_outstanding (owner : bytes) (o : offerRecord) : bool :=
  bool_decide (of_status o = offerOutstanding) && bool_decide (of_client o = owner).

Definition owned_live (owner : bytes) (e : executionRecord) : bool :=
  negb (Terminal (ex_phase e)) && bool_decide (ex_client e = owner).

(** [admitLocked] *)
Definition admitLocked (policy : AdmissionPolicy) (a : Allocator) (owner : bytes) (assigning : bool) : error :=
  if negb (client_allowed policy owner) then Some (ESentinel ErrAdmission)
  else
    let quota := client_quota policy owner in
    let offers := u32 (mcount (owned_outstanding owner) (al_offers a)) in
    let executions := u32 (mcount (owned_live owner) (al_executions a)) in
    if assigning && (0 <? quota_Executions quota) && (quota_Executions quota <=? executions)
    then Some (ESentinel ErrCapacityExhausted)
    else if negb assigning && (0 <? quota_Offers quota) && (quota_Offers quota <=? offers)
    then Some (ESentinel ErrCapacityExhausted)
    else None.

(** [retention] *)
Definition retention (configured : duration) : duration := Z.min configured CommandHorizon.

Section ops.
Context `{Externals, Codec, Env} (p : Settings).

Definition observe (m : metric) : M unit := if p_metrics p then emit (EvMetric m) else mret tt.

Fixpoint observe_all (l : list metric) : M unit :=
  match l with [] => mret tt | m :: l' => observe m;; observe_all l' end.

(** [syncMetricsLocked] *)
Definition syncMetricsLocked : M unit := a ← get; observe_all (sync_updates a).

(** [observeFinishedMetricsLocked] *)
Definition observeFinishedMetricsLocked (record : executionRecord) : M unit :=
  a ← get; observe_all (finished_updates a record).

(** [persistLocked] *)
Definition persistLocked : M error :=
  if negb (p_store p) then mret None
  else
    a ← get;
    match encode_state (p_identity p) a with
    | Err e => mret (Some (EJoin [ESentinel ErrStore; e]))
    | Ok s =>
      saved ← ask save_result;
      match saved with
      | Some e => mret (Some (EJoin [ESentinel ErrStore; e]))
      | None => write_disk s;; mret None
      end
    end.

(** [expireOffersLocked] *)
Definition expireOffersLocked (t : time) : M Z :=
  a ← get;
  let '(a', expired) := expire_offers t a in
  put a';; mret expired.

(** [effectiveNowLocked] *)
Definition effectiveNowLocked : M time :=
  t ← now;
  modify (fun a => if after t (al_highWater a) then set_highWater a t else a);;
  a ← get; mret (al_highWater a).

(** The execution a command names, as [checkFreshness] reads it. *)
Definition command_execution (e : Envelope) : string :=
  match env_payload e with
  | Some (P_ExecutionInspect (Some q)) => ei_execution_id q
  | Some (P_ExecutionCancel (Some q)) => ec_execution_id q
  | Some (P_ExecutionAssign (Some q)) => ea_execution_id q
  | Some (P_ExecutionLogsRequest (Some q)) => lq_execution_id q
  | Some (P_ExecutionLeaseRenew (Some q)) => ln_execution_id q
  | Some (P_ExecutionTunnelOpen (Some q)) => to_execution_id q
  | _ => ""
  end.

Definition result_expired (a : Allocator) (now : time) (sender : bytes) (id : string) : bool :=
  match al_executions a !! id with
  | Some record => bool_decide (ex_client record = sender) && Terminal (ex_phase record)
                   && negb (after (ex_retainUntil record) now)
  | None => false
  end.

Definition names_dead (sender : bytes) (id : string) (d : tombstone) : bool :=
  negb (bool_decide (tb_ExecutionID d = "")) && bool_decide (tb_ExecutionID d = id)
  && bool_decide (tb_Client d = sender).

(** [checkFreshness] *)
Definition checkFreshness (e : Envelope) : M error :=
  t ← effectiveNowLocked;
  a ← get;
  let sent := as_time (env_sent_at e) in
  let id := command_execution e in
  mret (
    if before sent (t - CommandHorizon) || after sent (t + 2 * Minute) then Some (ESentinel ErrCommandExpired)
    else if result_expired a t (env_sender e) id then Some (ESentinel ErrResultExpired)
    else if existsb (fun kv => names_dead (env_sender e) id kv.2) (map_to_list (al_tombstones a))
    then Some (ESentinel ErrResultExpired)
    else None).

(** [errorResponse] with its fresh message ID and clock reading. *)
Definition reply_error (command : Envelope) (err : gerror) : M (list Envelope) :=
  mid ← randomID; t ← now; mret (errorResponse (p_identity p) mid t command err).

(** ** Responses (views.go) *)

(** [stateFromRecord] *)
Definition stateFromRecord (record : executionRecord) : ExecutionState :=
  mkState (ex_id record) (ex_phase record) (Some (ts_new (ex_occurredAt record))) (ex_detail record)
    (ex_exitCode record) (ex_revision record).

(** The envelope of a response, when the generated message ID is not empty. *)
Definition respond (correlationID : string) (t : time) (payload : Payload) : M (result gerror Envelope) :=
  messageID ← newID;
  mret (if bool_decide (messageID = "") then Err (EWrap ErrInvalidConfig [Txt "empty message ID"])
        else Ok (mkEnvelope messageID (p_identity p) correlationID (Some (ts_new t)) (Some payload))).

(** [offerEnvelopeLocked] *)
Definition offerEnvelopeLocked (offer : ExecutionOffer) (correlationID : string) (t : time) : M (result gerror Envelope) :=
  respond correlationID t (P_ExecutionOffer (Some offer)).

(** [stateEnvelopeLocked] *)
Definition stateEnvelopeLocked (record : option executionRecord) (correlationID : string) (t : time) : M (result gerror Envelope) :=
  match record with
  | None => mret (Err (EWrap ErrExecutionNotFound [Txt "missing execution record"]))
  | Some r => respond correlationID t (P_ExecutionState (Some (stateFromRecord r)))
  end.

(** [[]*Envelope{response}, nil], or the error of building it. *)
Definition reply_with (r : result gerror Envelope) : reply :=
  match r with Ok e => ([e], None) | Err err => fails err end.
End ops.
