(* ===== verification/Commands.v ===== *)
(** * Command handlers (internal/allocator: offers.go, assign.go, cancel.go,
      release.go, lease.go, logs.go, tunnel.go, runtime_bridge.go, dispatch.go) *)

From S2P Require Import Prelude GoStrings Wire Errors Protocol Feedback Capacity Admission Replay Registry.
From S2P Require Import Utf8 AllocTypes Snapshot AllocOps.

Section commands.
Context `{Externals, Codec, Env} (p : Settings).

(** ** Requests (offers.go) *)

(** [handleInspect] *)
Definition handleInspect (envelope : Envelope) (inspect : ExecutionInspect) : M reply :=
  a ← get;
  match al_executions a !! ei_execution_id inspect with
  | None => mret (fails (EWrap ErrExecutionNotFound [Quoted (ei_execution_id inspect)]))
  | Some record =>
    if negb (bool_decide (ex_client record = env_sender envelope)) then mret (fails (ESentinel ErrUnauthorized))
    else
      t ← now;
      response ← stateEnvelopeLocked p (Some record) (env_message_id envelope) t;
      mret (reply_with response)
  end.

(** The live offer record a request key leads to. *)
Definition requested_offer (a : Allocator) (requestKey : string) : option offerRecord :=
  match al_requests a !! requestKey with
  | Some offerID => al_offers a !! offerID
  | None => None
  end.

(** The answer to a repeated request. *)
Definition repeat_request (envelope : Envelope) (request : ExecutionRequest) (record : offerRecord) (t : time) : M reply :=
  if decide (of_status record = offerExpired) then mret (fails (ESentinel ErrOfferExpired))
  else if negb (bool_decide (of_request record = request)) then
    mret (fails (EWrap ErrExecutionConflict
                   [Txt "request ID "; Quoted (er_request_id request); Txt " was reused with different content"]))
  else if decide (of_status record = offerReleased) then mret (fails (ESentinel ErrOfferReleased))
  else
    response ← offerEnvelopeLocked p (of_offer record) (env_message_id envelope) t;
    mret (reply_with response).

Definition request_retired (sender : bytes) (requestID : string) (d : tombstone) : bool :=
  bool_decide (tb_Client d = sender) && bool_decide (tb_RequestID d = requestID).

(** The guards of [handleRequest] before an offer is made. *)
Definition request_refused (a : Allocator) (sender : bytes) (request : ExecutionRequest) : error :=
  let class := er_resource_class request in
  if existsb (fun kv => request_retired sender (er_request_id request) kv.2) (map_to_list (al_tombstones a))
  then Some (ESentinel ErrResultExpired)
  else if p_maxRecords p <? Z.of_nat (size (al_offers a)) * 2 + Z.of_nat (size (al_tombstones a)) + 2
  then Some (ESentinel ErrCapacityExhausted)
  else match admitLocked (p_admission p) a sender false with
  | Some e => Some e
  | None =>
    if available (al_capacity a) class =? 0
    then Some (EWrap ErrCapacityExhausted [Txt "resource class "; Quoted class])
    else if negb (PlacementMatches (er_constraints request) (p_node p))
    then Some (EWrap ErrIncompatible [Txt (PlacementConflictDetails (er_constraints request) (p_node p))])
    else match p_node p with
    | Some n => if negb (contains (nc_resource_profiles n) class)
                then Some (EWrap ErrAdmission [Txt "resource class "; Quoted class]) else None
    | None => None
    end
  end.

Definition fresh_offer (request : ExecutionRequest) (offerID : string) (t : time) : ExecutionOffer :=
  mkOffer offerID (er_request_id request) (er_resource_class request) (Some (ts_new (t + p_offerTTL p))) (p_node p).

Definition fresh_offer_record (sender : bytes) (request : ExecutionRequest) (offer : ExecutionOffer) : offerRecord :=
  mkOfferRecord offer request sender offerOutstanding ""
    (mget zero_resources (Profiles (p_admission p)) (er_resource_class request)).

Definition drop_offer (requestKey offerID : string) (a : Allocator) : Allocator :=
  set_offers (set_requests a (delete requestKey (al_requests a))) (delete offerID (al_offers a)).

(** Insert the offer, take its slot and commit; undo both if the commit fails. *)
Definition commit_offer (requestKey offerID : string) (record : offerRecord) (response : Envelope) : M reply :=
  let class := eo_resource_class (of_offer record) in
  modify (fun a => set_requests (put_offer a offerID record) (<[requestKey := offerID]> (al_requests a)));;
  a ← get;
  match reserve (al_capacity a) class with
  | Err e => modify (drop_offer requestKey offerID);; mret (fails e)
  | Ok cap =>
    put (set_capacity a cap);;
    persistErr ← persistLocked p;
    match persistErr with
    | Some e =>
      modify (fun a => let a' := drop_offer requestKey offerID a in set_capacity a' (release (al_capacity a') class));;
      mret (fails e)
    | None =>
      observe p (ObserveOffer class);;
      syncMetricsLocked p;;
      mret ([response], None)
    end
  end.

(** [handleRequest] *)
Definition handleRequest (envelope : Envelope) (request : ExecutionRequest) : M reply :=
  t ← now;
  _ ← expireOffersLocked t;
  a ← get;
  observe p (ObserveRequest (metricResourceClass a (er_resource_class request)));;
  let requestKey := authorityKey (env_sender envelope) (er_request_id request) in
  match requested_offer a requestKey with
  | Some record => repeat_request envelope request record t
  | None =>
    match request_refused a (env_sender envelope) request with
    | Some e => mret (fails e)
    | None =>
      offerID ← newID;
      if bool_decide (offerID = "") then mret (fails (EWrap ErrInvalidConfig [Txt "empty offer ID"]))
      else match al_offers a !! offerID with
      | Some _ => mret (fails (EWrap ErrIDCollision [Txt "offer "; Quoted offerID]))
      | None =>
        let offer := fresh_offer request offerID t in
        response ← offerEnvelopeLocked p offer (env_message_id envelope) t;
        match response with
        | Err e => mret (fails e)
        | Ok r => commit_offer requestKey offerID (fresh_offer_record (env_sender envelope) request offer) r
        end
      end
    end
  end.

(** ** Terminal transitions (runtime_bridge.go) *)

(** [finishLocked] on the record stored under [id]. *)
Definition finish_record (id : string) (record : executionRecord) (phase : ExecutionPhase) (detail : string)
    (exitCode : option Z) (t : time) (a : Allocator) : Allocator :=
  let end_ := if after (al_highWater a) t then al_highWater a else t in
  let a1 := put_execution a id (set_finished record phase detail exitCode t (end_ + p_retention p)) in
  let a2 := if ex_released record then a1
            else set_capacity a1 (release (al_capacity a1) (ex_resourceClass record)) in
  set_tunnels a2 (Invalidate (al_tunnels a2) (ex_id record)).

Definition finishLocked (id : string) (record : executionRecord) (phase : ExecutionPhase) (detail : string)
    (exitCode : option Z) (t : time) : M unit :=
  modify (finish_record id record phase detail exitCode t).

(** [startRequestLocked] *)
Definition startRequestLocked (record : executionRecord) : StartRequest :=
  mkStart (ex_id record) (er_run_id (ex_request record)) (er_attempt (ex_request record)) (ex_client record)
    (er_workload (ex_request record)) (er_policy (ex_request record)) (ex_resources record) (ex_startedAt record).

(** [RuntimeCompleted] *)
Definition RuntimeCompleted (completion : Completion) : M error :=
  let id := cm_ExecutionID completion in
  if bool_decide (id = "") then mret (Some (EWrap ErrInvalidTransition [Txt "execution ID is required"]))
  else
    a ← get;
    match al_executions a !! id with
    | None => mret (Some (EWrap ErrExecutionNotFound [Quoted id]))
    | Some record =>
      let phase := match cm_Err completion with Some _ => PHASE_FAILED | None => PHASE_COMPLETED end in
      let detail := match cm_Err completion with
                    | Some e => if bool_decide (cm_Detail completion = "") then error_text e else cm_Detail completion
                    | None => cm_Detail completion end in
      if Terminal (ex_phase record) then
        mret (if decide (ex_phase record = phase) then None
              else Some (EWrap ErrInvalidTransition
                           [Txt "execution "; Quoted (ex_id record); Txt " is already "; Txt (phase_name (ex_phase record))]))
      else
        let used_before := snapshot (al_capacity a) in
        t ← now;
        finishLocked id record phase detail (cm_ExitCode completion) t;;
        persistErr ← persistLocked p;
        match persistErr with
        | Some e =>
          modify (fun a => set_capacity (put_execution a id record) (restore (al_capacity a) used_before));;
          syncMetricsLocked p;;
          mret (Some e)
        | None =>
          a' ← get;
          from_option (observeFinishedMetricsLocked p) (mret tt) (al_executions a' !! id);;
          syncMetricsLocked p;;
          mret None
        end
    end.

(** [completionReporter]: the callback given to the runtime for one execution. *)
Definition completionReporter (executionID : string) (completion : Completion) : M error :=
  let id := if bool_decide (cm_ExecutionID completion = "") then executionID else cm_ExecutionID completion in
  if negb (bool_decide (id = executionID)) then
    mret (Some (EWrap ErrExecutionConflict [Txt "runtime reported "; Quoted id; Txt " for "; Quoted executionID]))
  else RuntimeCompleted (mkCompletion id (cm_Err completion) (cm_Detail completion) (cm_ExitCode completion)).

(** ** Assignment (assign.go) *)

(** The record [handleAssign] creates. *)
Definition fresh_execution (offer : offerRecord) (executionID : string) (t : time) : executionRecord :=
  mkExecution executionID (eo_offer_id (of_offer offer)) (of_client offer) (eo_resource_class (of_offer offer))
    (of_request offer) PHASE_STARTING "" None t t false zero_time (t + p_leaseTTL p) 1 (of_resources offer).

(** Commit the assignment; undo it if the commit fails.  [inr] is the start
    request to hand to the runtime once the lock is released. *)
Definition commit_assignment (offerID : string) (offer : offerRecord) (record : executionRecord) : M (reply + StartRequest) :=
  modify (fun a => put_execution (put_offer a offerID (set_assignment offer offerAssigned (ex_id record)))
                     (ex_id record) record);;
  persistErr ← persistLocked p;
  match persistErr with
  | Some e =>
    modify (fun a => put_offer (set_executions a (delete (ex_id record) (al_executions a))) offerID
                       (set_assignment offer offerOutstanding ""));;
    mret (inl (fails e))
  | None => syncMetricsLocked p;; mret (inr (startRequestLocked record))
  end.

(** [handleAssign] up to the call of the runtime. *)
Definition assign_begin (envelope : Envelope) (assign : ExecutionAssign) : M (reply + StartRequest) :=
  t ← now;
  _ ← expireOffersLocked t;
  a ← get;
  let stop e := mret (inl (fails e)) in
  match al_offers a !! ea_offer_id assign with
  | None => stop (EWrap ErrOfferNotFound [Quoted (ea_offer_id assign)])
  | Some offer =>
    if negb (bool_decide (of_client offer = env_sender envelope)) then stop (ESentinel ErrUnauthorized)
    else if negb (bool_decide (eo_request_id (of_offer offer) = ea_request_id assign))
    then stop (EWrap ErrExecutionConflict [Txt "assignment request does not match offer"])
    else match of_status offer with
    | offerReleased => stop (ESentinel ErrOfferReleased)
    | offerExpired => stop (ESentinel ErrOfferExpired)
    | offerAssigned =>
      if negb (bool_decide (of_execution offer = ea_execution_id assign)) then stop (ESentinel ErrOfferAlreadyAssigned)
      else
        response ← stateEnvelopeLocked p (al_executions a !! of_execution offer) (env_message_id envelope) t;
        mret (inl (reply_with response))
    | offerOutstanding =>
      match al_executions a !! ea_execution_id assign with
      | Some existing =>
        if bool_decide (ex_offerID existing = eo_offer_id (of_offer offer))
           && bool_decide (ex_client existing = env_sender envelope)
        then mret (inl ([], None))
        else stop (EWrap ErrExecutionConflict [Quoted (ea_execution_id assign)])
      | None =>
        if negb (PlacementMatches (er_constraints (of_request offer)) (p_node p)) then
          stop (EWrap ErrIncompatible
                  [Txt (PlacementConflictDetails (er_constraints (of_request offer)) (p_node p))])
        else match admitLocked (p_admission p) a (env_sender envelope) true with
        | Some e => stop e
        | None =>
          commit_assignment (ea_offer_id assign) offer (fresh_execution offer (ea_execution_id assign) t)
        end
      end
    end
  end.

(** The end of a handler that changed the phase of [id]: build the state
    response, commit, and report the metrics of a committed terminal state. *)
Definition commit_state (envelope : Envelope) (id : string) (finished : bool) : M (result gerror Envelope * error) :=
  t ← now;
  a ← get;
  response ← stateEnvelopeLocked p (al_executions a !! id) (env_message_id envelope) t;
  persistErr ← persistLocked p;
  (if negb (from_option (fun _ => true) false persistErr) && finished
   then from_option (observeFinishedMetricsLocked p) (mret tt) (al_executions a !! id) else mret tt);;
  syncMetricsLocked p;;
  mret (response, persistErr).

(** [handleAssign] after the runtime returned. *)
Definition assign_finish (envelope : Envelope) (id : string) (startErr : error) : M reply :=
  a ← get;
  match al_executions a !! id with
  | None => panic;; mret ([], None)
  | Some current =>
    finished ←
      (match startErr with
       | Some e =>
         if decide (ex_phase current = PHASE_STARTING) then
           t ← now; finishLocked id current PHASE_FAILED (error_text e) None t;; mret true
         else mret false
       | None =>
         if decide (ex_phase current = PHASE_STARTING) then
           t ← now;
           modify (fun a => put_execution a id
                      (set_phase current PHASE_RUNNING (ex_detail current) t (u64 (ex_revision current + 1))));;
           mret false
         else mret false
       end);
    committed ← commit_state envelope id finished;
    let '(response, persistErr) := committed in
    mret (match response with
          | Err e => fails e
          | Ok r =>
            match persistErr with
            | Some _ => ([r], join_errors [startErr; persistErr])
            | None =>
              match startErr with
              | Some _ => ([r], join_errors [Some (ESentinel ErrRuntimeStart); startErr])
              | None => ([r], None)
              end
            end
          end)
  end.

(** [handleAssign] *)
Definition handleAssign (envelope : Envelope) (assign : ExecutionAssign) : M reply :=
  begun ← assign_begin envelope assign;
  match begun with
  | inl r => mret r
  | inr request =>
    startErr ← runtime_Start request;
    assign_finish envelope (st_ExecutionID request) startErr
  end.

(** ** Cancellation (cancel.go) *)

(** What [handleCancel] keeps across the call of the runtime. *)
Record stopping := mkStopping {
  sp_id : string;
  sp_previousPhase : ExecutionPhase;
  sp_previousDetail : string
}.

(** Commit CANCELLING for the record under [id]; put the record back if the
    commit fails. *)
Definition commit_cancelling (id : string) (record : executionRecord) (detail : string) (t : time) : M error :=
  modify (fun a => put_execution a id (set_phase record PHASE_CANCELLING detail t (u64 (ex_revision record + 1))));;
  persistErr ← persistLocked p;
  match persistErr with
  | Some e => modify (fun a => put_execution a id record);; mret (Some e)
  | None => mret None
  end.

(** [handleCancel] up to the call of the runtime. *)
Definition cancel_begin (envelope : Envelope) (cancel : ExecutionCancel) : M (reply + stopping) :=
  t ← now;
  a ← get;
  let id := ec_execution_id cancel in
  match al_executions a !! id with
  | None => mret (inl (fails (EWrap ErrExecutionNotFound [Quoted id])))
  | Some record =>
    if negb (bool_decide (ex_client record = env_sender envelope)) then mret (inl (fails (ESentinel ErrUnauthorized)))
    else if Terminal (ex_phase record) || bool_decide (ex_phase record = PHASE_CANCELLING) then
      response ← stateEnvelopeLocked p (Some record) (env_message_id envelope) t;
      mret (inl (reply_with response))
    else
      persistErr ← commit_cancelling id record (ec_reason cancel) t;
      match persistErr with
      | Some e => mret (inl (fails e))
      | None => mret (inr (mkStopping (ex_id record) (ex_phase record) (ex_detail record)))
      end
  end.

(** The phase and detail a failed stop puts back. *)
Definition restore_phase (id : string) (s : stopping) (t : time) (current : executionRecord) (a : Allocator) : Allocator :=
  put_execution a id (set_phase current (sp_previousPhase s) (sp_previousDetail s) t (u64 (ex_revision current + 1))).

(** [handleCancel] after the runtime returned. *)
Definition cancel_finish (envelope : Envelope) (cancel : ExecutionCancel) (s : stopping) (stopErr : error) : M reply :=
  a ← get;
  let id := sp_id s in
  match al_executions a !! id with
  | None => panic;; mret ([], None)
  | Some current =>
    match stopErr with
    | Some _ =>
      (if decide (ex_phase current = PHASE_CANCELLING)
       then t ← now; modify (restore_phase id s t current) else mret tt);;
      persistErr ← persistLocked p;
      mret ([], join_errors [Some (ESentinel ErrRuntimeStop); stopErr; persistErr])
    | None =>
      finished ← (if negb (Terminal (ex_phase current)) then
                    t ← now; finishLocked id current PHASE_CANCELLED (ec_reason cancel) None t;; mret true
                  else mret false);
      committed ← commit_state envelope id finished;
      let '(response, persistErr) := committed in
      mret (match response with
            | Err e => fails e
            | Ok r => ([r], persistErr)
            end)
    end
  end.

(** [handleCancel] *)
Definition handleCancel (envelope : Envelope) (cancel : ExecutionCancel) : M reply :=
  begun ← cancel_begin envelope cancel;
  match begun with
  | inl r => mret r
  | inr s => stopErr ← runtime_Stop (sp_id s); cancel_finish envelope cancel s stopErr
  end.

(** ** Releasing an offer (release.go) *)

(** The client, request, class, expiry and status [handleOfferRelease] works on:
    the live offer, or what a tombstone remembers of a collected one. *)
Definition released_offer (a : Allocator) (offerID : string) : option offerRecord :=
  match al_offers a !! offerID with
  | Some record => Some record
  | None =>
    match al_tombstones a !! offerID with
    | Some dead =>
      Some (mkOfferRecord (mkOffer (tb_OfferID dead) (tb_RequestID dead) "" None None)
              (mkRequest "" None None "" None "" 0) (tb_Client dead) offerExpired "" zero_resources)
    | None => None
    end
  end.

(** The status an outstanding offer gets when it is given back. *)
Definition release_status (record : offerRecord) (t : time) : offerStatus :=
  match of_status record with
  | offerOutstanding =>
    if negb (after (as_time (eo_expires_at (of_offer record))) t) then offerExpired else offerReleased
  | s => s
  end.

Definition release_outcome (s : offerStatus) : OfferReleaseOutcome :=
  match s with
  | offerExpired => OUTCOME_EXPIRED
  | offerAssigned => OUTCOME_ASSIGNED
  | _ => OUTCOME_RELEASED
  end.

(** [handleOfferRelease] *)
Definition handleOfferRelease (envelope : Envelope) (rel : ExecutionOfferRelease) : M reply :=
  a ← get;
  match released_offer a (or_offer_id rel) with
  | None => mret (fails (ESentinel ErrOfferNotFound))
  | Some record =>
    if negb (bool_decide (of_client record = env_sender envelope)) then mret (fails (ESentinel ErrUnauthorized))
    else if negb (bool_decide (eo_request_id (of_offer record) = or_request_id rel))
    then mret (fails (ESentinel ErrExecutionConflict))
    else
      messageID ← newID;
      if bool_decide (messageID = "") then mret (fails (EWrap ErrInvalidConfig [Txt "empty message ID"]))
      else
        t ← now;
        let status := release_status record t in
        let class := eo_resource_class (of_offer record) in
        let ack := [mkEnvelope messageID (p_identity p) (env_message_id envelope) (Some (ts_new t))
                      (Some (P_ExecutionOfferReleaseAck (Some
                         (mkOfferReleaseAck (or_request_id rel) (or_offer_id rel) (release_outcome status)))))] in
        if decide (of_status record = status) then mret (ack, None)
        else
          modify (fun a => set_capacity (put_offer a (or_offer_id rel) (set_status record status))
                             (Capacity.release (al_capacity a) class));;
          persistErr ← persistLocked p;
          match persistErr with
          | Some e =>
            modify (fun a =>
              let a' := put_offer a (or_offer_id rel) record in
              match reserve (al_capacity a') class with Ok cap => set_capacity a' cap | Err _ => a' end);;
            mret (fails e)
          | None => syncMetricsLocked p;; mret (ack, None)
          end
  end.

(** ** Leases (lease.go) *)

(** [handleLeaseRenew] *)
Definition handleLeaseRenew (envelope : Envelope) (renew : ExecutionLeaseRenew) : M reply :=
  t ← now;
  a ← get;
  let id := ln_execution_id renew in
  match al_executions a !! id with
  | None => mret (fails (EWrap ErrExecutionNotFound [Quoted id]))
  | Some record =>
    if negb (bool_decide (ex_client record = env_sender envelope)) then mret (fails (ESentinel ErrUnauthorized))
    else if Terminal (ex_phase record) then
      mret (fails (EWrap ErrInvalidTransition
                     [Txt "execution "; Quoted (ex_id record); Txt " is "; Txt (phase_name (ex_phase record))]))
    else if decide (ex_phase record = PHASE_CANCELLING) then
      mret (fails (EWrap ErrInvalidTransition [Txt "execution "; Quoted (ex_id record); Txt " is cancelling"]))
    else
      let d := as_duration (ln_lease_duration renew) in
      if maxLeaseTTL <? d then mret (fails (EWrap ErrLeaseTooLong [Txt "lease duration exceeds 168h0m0s"]))
      else
        modify (fun a => put_execution a id (set_lease record (t + d)));;
        persistErr ← persistLocked p;
        match persistErr with
        | Some e => modify (fun a => put_execution a id record);; mret (fails e)
        | None =>
          response ← respond p (env_message_id envelope) t
                       (P_ExecutionLeaseRenewAck (Some (mkLeaseRenewAck (ex_id record) (Some (ts_new (t + d))))));
          mret (reply_with response)
        end
  end.

(** ** Logs (logs.go) *)

(** The owner check of [handleLogs]. *)
Definition logs_authorized (a : Allocator) (sender : bytes) (id : string) : bool :=
  match al_executions a !! id with
  | Some record => bool_decide (ex_client record = sender)
  | None => false
  end.

Definition logs_error (err : gerror) : gerror :=
  if is_err RtErrLogsMissing err then ESentinel ErrExecutionNotFound
  else if is_err RtErrLogOffset err then ESentinel ErrExecutionConflict
  else err.

(** [handleLogs] *)
Definition handleLogs (e : Envelope) (q : ExecutionLogsRequest) : M reply :=
  a ← get;
  let refuse err := (responses ← reply_error p e err; mret (responses, Some err)) in
  if negb (logs_authorized a (env_sender e) (lq_execution_id q)) then refuse (ESentinel ErrExecutionNotFound)
  else if negb (p_logs p) then refuse (ESentinel ErrExecutionNotFound)
  else
    read ← logs_Read;
    match read with
    | Err err => refuse (logs_error err)
    | Ok chunk =>
      mid ← randomID;
      t ← now;
      mret ([mkEnvelope mid (p_identity p) (env_message_id e) (Some (ts_new t))
               (Some (P_ExecutionLogsResponse (Some
                  (mkLogsResponse (lq_execution_id q) (lq_stream q) (lq_offset q) (lc_Data chunk)
                     (lc_NextOffset chunk) (lc_EOF chunk) (lc_Truncated chunk) (sha256 (lc_Data chunk))))))], None)
    end.
(** ** Tunnels (tunnel.go) *)

(** The authority check of [handleTunnelOpen], under the lock. *)
Definition tunnel_open_check (envelope : Envelope) (open : ExecutionTunnelOpen) : M (reply + time) :=
  t ← now;
  a ← get;
  match al_executions a !! to_execution_id open with
  | None => mret (inl (fails (EWrap ErrExecutionNotFound [Quoted (to_execution_id open)])))
  | Some record =>
    if negb (bool_decide (ex_client record = env_sender envelope)) then mret (inl (fails (ESentinel ErrUnauthorized)))
    else if Terminal (ex_phase record) then
      mret (inl (fails (EWrap ErrInvalidTransition
                          [Txt "execution "; Quoted (ex_id record); Txt " is "; Txt (phase_name (ex_phase record))])))
    else mret (inr t)
  end.

(** The rest of [handleTunnelOpen], after the lock is released. *)
Definition tunnel_open_bind (envelope : Envelope) (open : ExecutionTunnelOpen) (t : time) : M reply :=
  if negb (tc_Enabled (p_tunnelConfig p)) then mret (fails (ESentinel ErrTunnelDisabled))
  else match ValidateTunnelTargets (to_targets open) with
  | Err e => mret (fails e)
  | Ok targets =>
    let endpoint := tc_Endpoint (p_tunnelConfig p) in
    if (zlen (ep_Address endpoint) =? 0) || (zlen (ep_PubKey endpoint) =? 0)
    then mret (fails (ESentinel ErrTunnelNoEndpoint))
    else
      a ← get;
      match Bind (al_tunnels a) (to_execution_id open) (to_ygg_peer_pubkey open) targets endpoint with
      | Err e => mret (fails e)
      | Ok r =>
        put (set_tunnels a r);;
        response ← respond p (env_message_id envelope) t
                     (P_ExecutionTunnelOpenAck (Some (mkTunnelOpenAck (to_execution_id open)
                        (ep_Address endpoint) (ep_PubKey endpoint) (TargetsToProto targets))));
        mret (reply_with response)
      end
  end.

(** [handleTunnelOpen] *)
Definition handleTunnelOpen (envelope : Envelope) (open : ExecutionTunnelOpen) : M reply :=
  checked ← tunnel_open_check envelope open;
  match checked with
  | inl r => mret r
  | inr t => tunnel_open_bind envelope open t
  end.

Definition not_live (id : string) : gerror :=
  EWrap ErrInvalidTransition [Txt "execution "; Quoted id; Txt " is no longer live"].

(** The three parts of [OpenTunnelSession]: the check under the lock, the
    registry's own operation, and the second check. *)
Definition session_check (executionID : string) : M error :=
  a ← get;
  mret (match al_executions a !! executionID with
        | None => Some (EWrap ErrExecutionNotFound [Quoted executionID])
        | Some record =>
          if Terminal (ex_phase record) then
            Some (EWrap ErrInvalidTransition
                    [Txt "execution "; Quoted (ex_id record); Txt " is "; Txt (phase_name (ex_phase record))])
          else None
        end).

Definition session_open (executionID : string) (peerKey : bytes) : M (result gerror nat) :=
  a ← get;
  match Open (al_tunnels a) executionID peerKey with
  | Err e => mret (Err e)
  | Ok (h, r) => put (set_tunnels a r);; mret (Ok h)
  end.

Definition session_recheck (executionID : string) (h : nat) : M (result gerror nat) :=
  a ← get;
  let live := match al_executions a !! executionID with
              | Some record => negb (Terminal (ex_phase record))
              | None => false
              end in
  if live then mret (Ok h)
  else put (set_tunnels a (CloseSession (al_tunnels a) executionID));; mret (Err (not_live executionID)).

(** [OpenTunnelSession] *)
Definition OpenTunnelSession (executionID : string) (peerKey : bytes) : M (result gerror nat) :=
  refused ← session_check executionID;
  match refused with
  | Some e => mret (Err e)
  | None =>
    opened ← session_open executionID peerKey;
    match opened with
    | Err e => mret (Err e)
    | Ok h => session_recheck executionID h
    end
  end.

(** [CloseTunnel] *)
Definition CloseTunnel (h : nat) : M unit := modify (fun a => set_tunnels a (Release (al_tunnels a) h)).

(** The checks of [DialTunnelTarget] under the lock; the execution to dial. *)
Definition dial_check (session : option nat) (port : Z) : M (result gerror string) :=
  a ← get;
  if negb (Active (al_tunnels a) session) then mret (Err (ESentinel ErrUnauthorized))
  else match session ≫= fun h => reg_sessions (al_tunnels a) !! h with
  | None => mret (Err (ESentinel ErrUnauthorized))
  | Some s =>
    match al_executions a !! s_ExecutionID s with
    | None => mret (Err (ESentinel ErrInvalidTransition))
    | Some record =>
      if Terminal (ex_phase record) || bool_decide (ex_phase record = PHASE_CANCELLING)
      then mret (Err (ESentinel ErrInvalidTransition))
      else match ResolveTarget s port with
      | None => mret (Err (ESentinel ErrUnauthorized))
      | Some _ => mret (Ok (s_ExecutionID s))
      end
    end
  end.

(** After the dial: the connection is handed out only while the session is
    active. *)
Definition dial_finish (session : option nat) (id : string) (port : Z) : M (result gerror unit) :=
  a ← get;
  if negb (Active (al_tunnels a) session)
  then emit (EvCloseConn id port);; mret (Err (ESentinel ErrInvalidTransition))
  else mret (Ok tt).

(** [DialTunnelTarget] *)
Definition DialTunnelTarget (session : option nat) (port : Z) : M (result gerror unit) :=
  checked ← dial_check session port;
  match checked with
  | Err e => mret (Err e)
  | Ok id =>
    if negb (p_dialer p) then mret (Err (ESentinel RtErrTunnelUnsupported))
    else
      dialErr ← runtime_Dial id port;
      match dialErr with
      | Some e => mret (Err e)
      | None => dial_finish session id port
      end
  end.

(** ** Replay (replay.go) *)

(** [beginReplay] *)
Definition beginReplay (key : string) (envelope : Envelope) (t : time) : M (result gerror (option replayEntry)) :=
  _ ← expireOffersLocked t;
  a ← get;
  match begin (al_replay a) key envelope t with
  | BeginError c e => put (set_replay a c);; mret (Err e)
  | BeginDuplicate c entry => put (set_replay a c);; mret (Ok (Some entry))
  | BeginFresh c =>
    put (set_replay a c);;
    persistErr ← persistLocked p;
    match persistErr with
    | Some e =>
      modify (fun a => set_replay a (with_entries (al_replay a) (delete key (rc_entries (al_replay a)))));;
      mret (Err e)
    | None => mret (Ok None)
    end
  end.

(** [finishReplay] *)
Definition finishReplay (key : string) (responses : list Envelope) (err : error) : M error :=
  modify (fun a => set_replay a (finish (al_replay a) key responses err));;
  persistLocked p.

(** ** Dispatch (dispatch.go) *)

(** The commands that go through the replay cache. *)
Definition replayed_command (e : Envelope) : bool :=
  match env_payload e with
  | Some (P_ExecutionRequest _) | Some (P_ExecutionAssign _) | Some (P_ExecutionCancel _)
  | Some (P_ExecutionInspect _) | Some (P_ExecutionOfferRelease _) | Some (P_ExecutionLeaseRenew _)
  | Some (P_ExecutionTunnelOpen _) => true
  | _ => false
  end.

Definition replay_key (e : Envelope) : string := authorityKey (env_sender e) (env_message_id e).

(** The handler of a command.  [ValidateEnvelope] rejects an envelope whose
    payload is a nil message. *)
Definition run_handler (e : Envelope) : M reply :=
  match env_payload e with
  | Some (P_ExecutionRequest (Some m)) => handleRequest e m
  | Some (P_ExecutionAssign (Some m)) => handleAssign e m
  | Some (P_ExecutionCancel (Some m)) => handleCancel e m
  | Some (P_ExecutionInspect (Some m)) => handleInspect e m
  | Some (P_ExecutionOfferRelease (Some m)) => handleOfferRelease e m
  | Some (P_ExecutionLeaseRenew (Some m)) => handleLeaseRenew e m
  | Some (P_ExecutionTunnelOpen (Some m)) => handleTunnelOpen e m
  | _ => panic;; mret ([], None)
  end.

(** The end of [Handle]: answer an error, record the outcome for replay. *)
Definition finish_command (e : Envelope) (r : reply) : M reply :=
  responses ← (match r with
               | ([], Some err) => reply_error p e err
               | (rs, _) => mret rs
               end);
  persistErr ← finishReplay (replay_key e) responses r.2;
  mret (responses, match persistErr with Some _ => join_errors [r.2; persistErr] | None => r.2 end).

(** The deferred observations of [Handle]. *)
Definition observed (name : string) (m : M (option reply)) : M (option reply) :=
  r ← m;
  match r with
  | None => mret None
  | Some rep =>
    from_option (fun err => observe p (ObserveRejection (rejection_code err))) (mret tt) rep.2;;
    observe p (ObserveDispatchLatency name);;
    mret (Some rep)
  end.

(** The answer to a duplicate: the recorded one once the first delivery is
    finished, the context's error if that comes first; [None] is still waiting. *)
Definition answer_duplicate (entry : replayEntry) : M (option reply) :=
  cancelled ← ctx_Err;
  mret (match cancelled with
        | Some err => Some ([], Some err)
        | None => if replayDone entry then Some (re_responses entry, re_err entry) else None
        end).

(** [Handle], the body. *)
Definition handle_body (envelope : option Envelope) : M (option reply) :=
  match ValidateEnvelope envelope, envelope with
  | Err err, _ => mret (Some (fails err))
  | Ok _, None => mret (Some (fails (ESentinel ErrInvalidEnvelope)))
  | Ok _, Some e =>
    stale ← checkFreshness e;
    match stale with
    | Some err => responses ← reply_error p e err; mret (Some (responses, Some err))
    | None =>
      match get_logs e with
      | Some q => r ← handleLogs e q; mret (Some r)
      | None =>
        if negb (replayed_command e) then mret (Some (fails (ESentinel ErrUnsupportedMessage)))
        else
          t ← now;
          begun ← beginReplay (replay_key e) e t;
          match begun with
          | Err err => responses ← reply_error p e err; mret (Some (responses, Some err))
          | Ok (Some entry) => answer_duplicate entry
          | Ok None => r ← run_handler e; r' ← finish_command e r; mret (Some r')
          end
      end
    end
  end.

(** [Handle] *)
Definition Handle (envelope : option Envelope) : M (option reply) :=
  observed (from_option commandName "unknown" envelope) (handle_body envelope).

(** ** Views (views.go) *)

(** [SweepExpired] *)
Definition SweepExpired : M Z :=
  t ← now;
  expired ← expireOffersLocked t;
  if 0 <? expired then _ ← persistLocked p; syncMetricsLocked p;; mret expired else mret expired.

(** [Available] *)
Definition Available (class : string) : M Z :=
  t ← now; _ ← expireOffersLocked t; a ← get; mret (available (al_capacity a) class).

(** [Offer] *)
Definition Offer (id : string) : M (option offerRecord) :=
  t ← now; _ ← expireOffersLocked t; a ← get; mret (al_offers a !! id).

(** [Execution] *)
Definition Execution (id : string) : M (option (executionRecord * ExecutionState)) :=
  a ← get;
  mret (match al_executions a !! id with Some r => Some (r, stateFromRecord r) | None => None end).
End commands.
