(* ===== verification/Maintenance.v ===== *)
(** * Maintenance (internal/allocator: eviction.go, retention.go, recovery.go)

    Lease eviction, the retention sweep and recovery after a restart.  Each is
    cut where the code gives up the mutex: the locked segments are definitions
    of their own, which the interleaved machine of Threads.v runs one by one. *)

From S2P Require Import Prelude GoStrings Ordering Wire Errors Protocol Feedback Capacity Admission Replay Registry.
From S2P Require Import Utf8 AllocTypes Snapshot AllocOps Commands.
From stdpp Require Import pretty.
Open Scope Z_scope.

Section maintenance.
Context `{Externals, Codec, Env} (p : Settings).

(** ** Lease eviction (eviction.go) *)

Definition lease_expired (now : time) (record : executionRecord) : bool :=
  negb (Terminal (ex_phase record)) && negb (bool_decide (ex_phase record = PHASE_CANCELLING))
  && negb (is_zero (ex_leaseUntil record)) && negb (after (ex_leaseUntil record) now).

(** [nextExpiredLeaseLocked] *)
Definition nextExpiredLeaseLocked (a : Allocator) (now : time) : string * ExecutionPhase :=
  match List.find (fun kv => lease_expired now kv.2) (map_to_list (al_executions a)) with
  | Some (id, record) => (id, ex_phase record)
  | None => ("", PHASE_UNSPECIFIED)
  end.

(** [beginEvictionLocked]; the record is the one [nextExpiredLeaseLocked] found. *)
Definition beginEvictionLocked (id : string) (t : time) : M (string * error) :=
  a ← get;
  match al_executions a !! id with
  | None => panic;; mret ("", None)
  | Some record =>
    persistErr ← commit_cancelling p id record LeaseExpiredDetail t;
    mret (ex_detail record, persistErr)
  end.

(** The locked part of one turn of [EvictExpiredLeases]: stop with a result, or
    go on with the execution to stop. *)
Definition evict_scan (allErr : error) : M (error + stopping) :=
  t ← effectiveNowLocked;
  a ← get;
  let '(expiredID, expiredPhase) := nextExpiredLeaseLocked a t in
  if bool_decide (expiredID = "") then mret (inl allErr)
  else
    ctxErr ← ctx_Err;
    match ctxErr with
    | Some e => mret (inl (join_errors [allErr; Some e]))
    | None =>
      begun ← beginEvictionLocked expiredID t;
      match begun.2 with
      | Some e => mret (inl (join_errors [allErr; Some e]))
      | None => mret (inr (mkStopping expiredID expiredPhase begun.1))
      end
    end.

(** Commit the terminal state of an evicted execution. *)
Definition evict_commit (id : string) (record : executionRecord) (t : time) : M error :=
  finished ← (if negb (Terminal (ex_phase record))
              then finishLocked p id record PHASE_FAILED LeaseExpiredDetail None t;; mret true
              else mret false);
  persistErr ← persistLocked p;
  a ← get;
  (if negb (from_option (fun _ => true) false persistErr) && finished
   then from_option (observeFinishedMetricsLocked p) (mret tt) (al_executions a !! id) else mret tt);;
  syncMetricsLocked p;;
  mret persistErr.

(** [completeEviction] after the runtime returned. *)
Definition evict_finish (s : stopping) (stopErr : error) : M error :=
  a ← get;
  let id := sp_id s in
  match al_executions a !! id with
  | None => mret None
  | Some record =>
    t ← now;
    match stopErr with
    | Some e =>
      if negb (is_err RtErrExecutionMissing e) then
        (if decide (ex_phase record = PHASE_CANCELLING) then modify (restore_phase id s t record) else mret tt);;
        persistErr ← persistLocked p;
        mret (join_errors [Some (ESentinel ErrRuntimeStop); stopErr; persistErr])
      else evict_commit id record t
    | None => evict_commit id record t
    end
  end.

(** [completeEviction] *)
Definition completeEviction (s : stopping) : M error :=
  stopErr ← runtime_Stop (sp_id s);
  evict_finish s stopErr.

(** The loop of [EvictExpiredLeases]. *)
Fixpoint evict_loop (fuel : nat) (allErr : error) : M error :=
  match fuel with
  | O => mret allErr
  | S fuel' =>
    scan ← evict_scan allErr;
    match scan with
    | inl result => mret result
    | inr s =>
      evictErr ← completeEviction s;
      let allErr' := join_errors [allErr; evictErr] in
      match evictErr with
      | Some _ => mret allErr'
      | None => evict_loop fuel' allErr'
      end
    end
  end.

(** [EvictExpiredLeases].  Every turn that goes on makes one more execution
    terminal, so one turn per execution and one more is enough fuel
    ([Upholds.evict_loop_more]). *)
Definition EvictExpiredLeases : M error :=
  a ← get; evict_loop (S (size (al_executions a))) None.

(** ** The retention sweep (retention.go) *)

(** The request keys of the commands in progress. *)
Definition entry_busy (a : Allocator) (entry : replayEntry) : list string :=
  if replayDone entry then []
  else
    let e := re_envelope entry in
    match env_payload e with
    | Some (P_ExecutionRequest (Some q)) => [authorityKey (env_sender e) (er_request_id q)]
    | Some (P_ExecutionAssign (Some q)) => [authorityKey (env_sender e) (ea_request_id q)]
    | Some (P_ExecutionCancel (Some q)) =>
      match al_executions a !! ec_execution_id q with
      | Some r => [authorityKey (ex_client r) (er_request_id (ex_request r))]
      | None => []
      end
    | _ => []
    end.

Definition busy_keys (a : Allocator) : list string :=
  flat_map (fun kv => entry_busy a kv.2) (map_to_list (rc_entries (al_replay a))).

(** Whether an offer that is not busy is collected. *)
Definition collectable (a : Allocator) (now : time) (offer : offerRecord) : bool :=
  match of_status offer with
  | offerExpired | offerReleased => true
  | offerAssigned =>
    match al_executions a !! of_execution offer with
    | Some r => Terminal (ex_phase r) && negb (after (ex_retainUntil r) now)
    | None => false
    end
  | offerOutstanding => false
  end.

Definition bury (now : time) (id : string) (offer : offerRecord) : tombstone :=
  mkTombstone (of_client offer) (eo_request_id (of_offer offer)) id (of_execution offer) (now + CommandHorizon)
    (negb (bool_decide (of_execution offer = ""))).

(** One turn of the collection loop over the offers. *)
Definition collect_one (busy : list string) (now : time) (a : Allocator) (kv : string * offerRecord) : Allocator :=
  let '(id, offer) := kv in
  let key := offer_key offer in
  if str_contains busy key then a
  else if negb (collectable a now offer) then a
  else
    mkAllocator (al_highWater a) (<[id := bury now id offer]> (al_tombstones a)) (al_capacity a)
      (delete id (al_offers a)) (delete key (al_requests a)) (delete (of_execution offer) (al_executions a))
      (al_replay a) (al_tunnels a).

Definition collect_offers (busy : list string) (now : time) (a : Allocator) : Allocator :=
  fold_left (collect_one busy now) (map_to_list (al_offers a)) a.

Definition retired_keys (a : Allocator) : list string :=
  map (fun kv => authorityKey (tb_Client kv.2) (tb_RequestID kv.2)) (map_to_list (al_tombstones a)).

Definition tombstone_kept (now : time) (d : tombstone) : bool :=
  negb (negb (tb_CleanupPending d) && negb (after (tb_ExpiresAt d) now)).

(** Whether a finished replay entry is dropped with the records it is about. *)
Definition entry_dropped (retired : list string) (a : Allocator) (entry : replayEntry) : bool :=
  let e := re_envelope entry in
  let gone id := match al_executions a !! id with Some _ => false | None => true end in
  replayDone entry &&
  match env_payload e with
  | Some (P_ExecutionRequest (Some q)) => str_contains retired (authorityKey (env_sender e) (er_request_id q))
  | Some (P_ExecutionAssign (Some q)) => str_contains retired (authorityKey (env_sender e) (ea_request_id q))
  | Some (P_ExecutionCancel (Some q)) => gone (ec_execution_id q)
  | Some (P_ExecutionInspect (Some q)) => gone (ei_execution_id q)
  | Some (P_ExecutionLeaseRenew (Some q)) => gone (ln_execution_id q)
  | Some (P_ExecutionTunnelOpen (Some q)) => gone (to_execution_id q)
  | _ => false
  end.

(** The collection pass of [Sweep], after the clock reading. *)
Definition sweep_pass (now : time) (a : Allocator) : Allocator :=
  let a1 := (expire_offers now a).1 in
  let a2 := set_replay a1 (prune (al_replay a1) now) in
  let a3 := collect_offers (busy_keys a2) now a2 in
  let retired := retired_keys a3 in
  let a4 := set_tombstones a3 (filter (fun kv => tombstone_kept now kv.2 = true) (al_tombstones a3)) in
  set_replay a4 (with_entries (al_replay a4)
    (filter (fun kv => entry_dropped retired a4 kv.2 = false) (rc_entries (al_replay a4)))).

(** The locked part of [Sweep]: commit the collection or put everything back;
    the tombstones whose files are still to be removed. *)
Definition sweep_collect : M (error * list tombstone) :=
  old ← get;
  t ← effectiveNowLocked;
  modify (sweep_pass t);;
  persistErr ← persistLocked p;
  match persistErr with
  | Some e =>
    modify (fun a => mkAllocator (al_highWater old) (al_tombstones old)
                       (restore (al_capacity a) (snapshot (al_capacity old))) (al_offers old) (al_requests old)
                       (al_executions old) (al_replay old) (al_tunnels a));;
    mret (Some e, [])
  | None =>
    a ← get;
    syncMetricsLocked p;;
    mret (None, List.filter tb_CleanupPending (map_to_list (al_tombstones a)).*2)
  end.

Definition zero_tombstone : tombstone := mkTombstone [] "" "" "" zero_time false.

(** The runtime and log cleanup of one tombstone. *)
Definition cleanup_files (dead : tombstone) : M error :=
  err ← (if p_forgetter p then runtime_Forget (tb_ExecutionID dead) else mret None);
  match err with
  | Some e => mret (Some e)
  | None => if p_logs p then logs_Remove (tb_ExecutionID dead) else mret None
  end.

Definition cleanup_done (d : tombstone) : tombstone :=
  mkTombstone (tb_Client d) (tb_RequestID d) (tb_OfferID d) (tb_ExecutionID d) (tb_ExpiresAt d) false.

(** Commit that the cleanup of one tombstone is done. *)
Definition cleanup_commit (dead : tombstone) : M error :=
  modify (fun a => set_tombstones a
            (<[tb_OfferID dead := cleanup_done (mget zero_tombstone (al_tombstones a) (tb_OfferID dead))]> (al_tombstones a)));;
  persistErr ← persistLocked p;
  match persistErr with
  | Some e => modify (fun a => set_tombstones a (<[tb_OfferID dead := dead]> (al_tombstones a)));; mret (Some e)
  | None => mret None
  end.

Definition cleanup_one (allErr : error) (dead : tombstone) : M error :=
  err ← cleanup_files dead;
  match err with
  | Some e => mret (join_errors [allErr; Some e])
  | None =>
    commitErr ← cleanup_commit dead;
    match commitErr with
    | Some e => mret (join_errors [allErr; Some e])
    | None => mret allErr
    end
  end.

Fixpoint cleanup_all (allErr : error) (pending : list tombstone) : M error :=
  match pending with
  | [] => mret allErr
  | dead :: rest => allErr' ← cleanup_one allErr dead; cleanup_all allErr' rest
  end.

(** [Sweep] *)
Definition Sweep : M error :=
  evictErr ← EvictExpiredLeases;
  collected ← sweep_collect;
  match collected.1 with
  | Some e => mret (join_errors [evictErr; Some e])
  | None => allErr ← cleanup_all None collected.2; mret (join_errors [allErr; evictErr])
  end.

(** ** Recovery (recovery.go) *)

Definition live_ids (a : Allocator) : list string :=
  omap (fun kv => if Terminal (ex_phase kv.2) then None else Some kv.1) (map_to_list (al_executions a)).

(** What the locked look at one execution decides. *)
Inductive recovery_plan :=
| RP_skip
| RP_stop (phase : ExecutionPhase) (detail : string)
| RP_recover (request : StartRequest).

Definition recover_plan (id : string) : M recovery_plan :=
  a ← get;
  match al_executions a !! id with
  | None => mret RP_skip
  | Some record =>
    if Terminal (ex_phase record) then mret RP_skip
    else if decide (ex_phase record = PHASE_CANCELLING) then
      mret (RP_stop (if bool_decide (ex_detail record = LeaseExpiredDetail) then PHASE_FAILED else PHASE_CANCELLED)
              (ex_detail record))
    else if is_zero (ex_leaseUntil record) then mret (RP_recover (startRequestLocked record))
    else
      t ← now;
      mret (if negb (after (ex_leaseUntil record) t) then RP_stop PHASE_FAILED LeaseExpiredDetail
            else RP_recover (startRequestLocked record))
  end.

(** Finish the execution if it is still live, and commit. *)
Definition recover_terminal (id : string) (phase : ExecutionPhase) (detail : string) : M error :=
  a ← get;
  finished ← (match al_executions a !! id with
              | Some current =>
                if negb (Terminal (ex_phase current)) then
                  t ← now; finishLocked p id current phase detail None t;; mret true
                else mret false
              | None => mret false
              end);
  err ← persistLocked p;
  a1 ← get;
  (if negb (from_option (fun _ => true) false err) && finished
   then from_option (observeFinishedMetricsLocked p) (mret tt) (al_executions a1 !! id) else mret tt);;
  syncMetricsLocked p;;
  mret err.

(** A stop during recovery that does not find the execution is a success. *)
Definition stop_failed (stopErr : error) : error :=
  match stopErr with
  | Some e => if is_err RtErrExecutionMissing e then None else join_errors [Some (ESentinel ErrRuntimeStop); Some e]
  | None => None
  end.

(** The locked part after the runtime tried to reattach. *)
Definition recover_finish (id : string) (recoverErr : error) : M error :=
  match recoverErr with
  | None =>
    a ← get;
    (match al_executions a !! id with
     | Some current =>
       if decide (ex_phase current = PHASE_STARTING) then
         t ← now;
         modify (fun a => put_execution a id
                   (set_phase current PHASE_RUNNING (ex_detail current) t (u64 (ex_revision current + 1))))
       else mret tt
     | None => mret tt
     end);;
    persistErr ← persistLocked p;
    syncMetricsLocked p;;
    mret persistErr
  | Some e =>
    if is_err RtErrExecutionMissing e || is_err RtErrExecutionConflict e
    then recover_terminal id PHASE_FAILED (error_text e)
    else mret (join_errors [Some (ESentinel ErrRuntimeStart); Some e])
  end.

(** One turn of the loop of [Recover]. *)
Definition recover_one (id : string) : M error :=
  ctxErr ← ctx_Err;
  match ctxErr with
  | Some e => mret (Some e)
  | None =>
    plan ← recover_plan id;
    match plan with
    | RP_skip => mret None
    | RP_stop phase detail =>
      stopErr ← runtime_Stop id;
      match stop_failed stopErr with
      | Some e => mret (Some e)
      | None => recover_terminal id phase detail
      end
    | RP_recover request =>
      recoverErr ← runtime_Recover request;
      recover_finish id recoverErr
    end
  end.

Fixpoint recover_all (ids : list string) : M error :=
  match ids with
  | [] => mret None
  | id :: rest =>
    err ← recover_one id;
    match err with Some e => mret (Some e) | None => recover_all rest end
  end.

(** [Recover] *)
Definition Recover : M error :=
  a ← get;
  if negb (p_recoverer p) then
    mret (match live_ids a with [] => None | _ => Some (ESentinel ErrRecoveryUnsupported) end)
  else recover_all (sort_strings (live_ids a)).
End maintenance.
