(* ===== verification/Loading.v ===== *)
(** * Construction and loading (internal/allocator: allocator.go New, state.go
      loadLocked, state_bytes.go) *)

From S2P Require Import Prelude GoStrings Ordering Wire Errors Protocol Feedback Capacity Admission Replay Registry.
From S2P Require Import Utf8 AllocTypes Snapshot AllocOps Commands.
From stdpp Require Import pretty.
Open Scope Z_scope.

(** [firstBytes] *)
Definition firstBytes (primary fallback : bytes) : bytes :=
  if negb (zlen primary =? 0) then primary else fallback.

(** The admission policy after the copy through JSON. *)
Definition copy_policy (policy : AdmissionPolicy) : AdmissionPolicy :=
  mkPolicyA (list_to_map (map (fun '(k, r) => (json_string k, r)) (map_to_list (Profiles policy))))
    (option_map (map json_string) (AllowedClients policy)) (DefaultQuota policy)
    (list_to_map (map (fun '(k, q) => (json_string k, q)) (map_to_list (ClientQuotas policy)))).

(** What the store and the JSON decoder give for the saved state. *)
Inductive stored `{Codec} :=
| LoadFails (e : gerror)
| NothingSaved
| Undecodable (problem : string)
| Saved (s : persistedState).

Section loading.
Context `{Externals, Codec, Env}.

Definition or_default (x d : Z) : Z := if x =? 0 then d else x.

(** The checks and defaults of [New], and the allocator before its state is
    loaded. *)
Definition configure (config : Config) : result gerror (Settings * Allocator) :=
  fail_if zlen (cf_Identity config) =? 0 with EWrap ErrInvalidConfig [Txt "identity is required"];
  fail_if negb (cf_runtime config) with EWrap ErrInvalidConfig [Txt "runtime is required"];
  try capacity ← newCapacityLedger (cf_Capacity config);
  let offerTTL := or_default (cf_OfferTTL config) defaultOfferTTL in
  let replayTTL := or_default (cf_ReplayTTL config) defaultReplayTTL in
  let replayCapacity := or_default (cf_ReplayCapacity config) defaultReplayCapacity in
  let leaseTTL := or_default (cf_LeaseTTL config) defaultLeaseTTL in
  fail_if (offerTTL <? 0) || (leaseTTL <? 0) || (replayTTL <? 0) || (replayCapacity <? 0)
    with EWrap ErrInvalidConfig [Txt "TTLs and replay capacity must be positive"];
  match validate_policy (cf_Admission config) (limits capacity) with
  | Err e => Err (EWrap ErrInvalidConfig [Txt (error_text e)])
  | Ok _ =>
    match ValidateCapabilities (cf_Node config) with
    | Err e => Err (EWrap ErrInvalidConfig [Txt (error_text e)])
    | Ok _ =>
      let maxRecords := or_default (cf_MaxRecords config) DefaultMaxRecords in
      fail_if maxRecords <? 2 with ESentinel ErrInvalidConfig;
      let kept := or_default (cf_Retention config) DefaultRetention in
      fail_if kept <? 0 with ESentinel ErrInvalidConfig;
      Ok (mkSettings maxRecords (cf_Identity config) offerTTL leaseTTL (retention kept)
            (copy_policy (cf_Admission config)) (cf_Node config) (cf_Tunnel config) (cf_Store config)
            (cf_Logs config) (cf_Metrics config) (cf_Recoverer config) (cf_Forgetter config) (cf_PortDialer config),
          mkAllocator zero_time ∅ capacity ∅ ∅ ∅ (newReplayCache replayTTL replayCapacity) NewRegistry)
    end
  end.

Section load.
Variable p : Settings.

Definition store_error (parts : list part) : gerror := EWrap ErrStore parts.

(** One saved offer. *)
Definition load_offer (a : Allocator) (saved : persistedOffer) : result gerror Allocator :=
  match unmarshal_offer (po_Offer saved) with
  | Err e => Err (store_error [Txt "decode offer: "; Txt (error_text e)])
  | Ok offer =>
    match unmarshal_request (po_Request saved) with
    | Err e => Err (store_error [Txt "decode offer request: "; Txt (error_text e)])
    | Ok request =>
      fail_if bool_decide (eo_offer_id offer = "") || bool_decide (er_request_id request = "")
              || negb (bool_decide (eo_request_id offer = er_request_id request))
        with store_error [Txt "invalid durable offer"];
      match al_offers a !! eo_offer_id offer with
      | Some _ => Err (store_error [Txt "duplicate durable offer "; Quoted (eo_offer_id offer)])
      | None =>
        let client := firstBytes (po_Client saved) (po_LegacySender saved) in
        match status_of_number (po_Status saved) with
        | None => Err (store_error [Txt "invalid durable offer status"])
        | Some status =>
          let record := mkOfferRecord offer request client status (po_Execution saved) (po_Resources saved) in
          let requestKey := authorityKey client (er_request_id request) in
          match al_requests a !! requestKey with
          | Some _ => Err (store_error [Txt "duplicate durable request "; Quoted (er_request_id request)])
          | None =>
            Ok (set_requests (put_offer a (eo_offer_id offer) record)
                  (<[requestKey := eo_offer_id offer]> (al_requests a)))
          end
        end
      end
    end
  end.

Fixpoint load_offers (a : Allocator) (l : list persistedOffer) : result gerror Allocator :=
  match l with
  | [] => Ok a
  | saved :: l' => try a' ← load_offer a saved; load_offers a' l'
  end.

Definition known_durable_phase (ph : ExecutionPhase) : bool :=
  negb ((phase_number ph <? phase_number PHASE_STARTING) || (phase_number PHASE_FAILED <? phase_number ph)).

(** One saved execution.  A live one without a lease is given a fresh one, which
    reads the clock. *)
Definition load_execution (saved : persistedExecution) : M error :=
  a ← get;
  match unmarshal_request (pe_Request saved) with
  | Err e => mret (Some (store_error [Txt "decode execution request: "; Txt (error_text e)]))
  | Ok request =>
    if bool_decide (pe_ID saved = "") || bool_decide (pe_OfferID saved = "")
       || bool_decide (pe_ResourceClass saved = "") || bool_decide (er_request_id request = "")
    then mret (Some (store_error [Txt "invalid durable execution"]))
    else match al_executions a !! pe_ID saved with
    | Some _ => mret (Some (store_error [Txt "duplicate durable execution "; Quoted (pe_ID saved)]))
    | None =>
      if negb (known_durable_phase (pe_Phase saved)) then mret (Some (store_error [Txt "invalid durable execution phase"]))
      else if is_zero (pe_StartedAt saved) || is_zero (pe_OccurredAt saved)
              || negb (Bool.eqb (Terminal (pe_Phase saved)) (pe_Released saved))
      then mret (Some (store_error [Txt "inconsistent durable execution "; Quoted (pe_ID saved)]))
      else
        let record := mkExecution (pe_ID saved) (pe_OfferID saved)
              (firstBytes (pe_Client saved) (pe_LegacySender saved)) (pe_ResourceClass saved) request
              (pe_Phase saved) (pe_Detail saved) (pe_ExitCode saved) (pe_OccurredAt saved) (pe_StartedAt saved)
              (pe_Released saved) (pe_RetainUntil saved) (pe_LeaseUntil saved) (Z.max 1 (pe_Revision saved))
              (pe_Resources saved) in
        let record1 := if Terminal (pe_Phase saved) && is_zero (pe_RetainUntil saved)
                       then set_retain record (pe_OccurredAt saved + p_retention p) else record in
        record2 ← (if negb (Terminal (pe_Phase saved)) && is_zero (pe_LeaseUntil saved)
                   then t ← now; mret (set_lease record1 (t + p_leaseTTL p)) else mret record1);
        put (put_execution a (pe_ID saved) record2);; mret None
    end
  end.

Fixpoint load_executions (l : list persistedExecution) : M error :=
  match l with
  | [] => mret None
  | saved :: l' =>
    err ← load_execution saved;
    match err with Some e => mret (Some e) | None => load_executions l' end
  end.

(** One saved replay entry; incomplete ones are dropped. *)
Definition load_replay_entry (m : replay_map) (saved : persistedReplay) : result gerror replay_map :=
  if negb (pr_Complete saved) || bool_decide (pr_Key saved = "") then Ok m
  else match unmarshal_envelope (pr_Envelope saved) with
  | Err e => Err (store_error [Txt "decode replay envelope: "; Txt (error_text e)])
  | Ok envelope =>
    match try_map unmarshal_envelope (pr_Responses saved) with
    | Err e => Err (store_error [Txt "decode replay response: "; Txt (error_text e)])
    | Ok responses =>
      let err := if bool_decide (pr_Error saved = "") then None
                 else Some (restoreError (pr_ErrorCode saved) (pr_Error saved)) in
      Ok (<[pr_Key saved := mkReplayEntry (pr_SeenAt saved) true envelope responses err]> m)
    end
  end.

Fixpoint load_replay (m : replay_map) (l : list persistedReplay) : result gerror replay_map :=
  match l with
  | [] => Ok m
  | saved :: l' => try m' ← load_replay_entry m saved; load_replay m' l'
  end.

(** The slot one loaded offer holds. *)
Definition load_slot (a : Allocator) (offer : offerRecord) : result gerror Allocator :=
  let assigned := bool_decide (of_status offer = offerAssigned) in
  let class := eo_resource_class (of_offer offer) in
  let execution := al_executions a !! of_execution offer in
  fail_if assigned && negb (match execution with
                            | Some e => bool_decide (ex_offerID e = eo_offer_id (of_offer offer))
                                        && bool_decide (ex_resourceClass e = class)
                            | None => false
                            end)
    with store_error [Txt "assigned offer "; Quoted (eo_offer_id (of_offer offer)); Txt " has no matching execution"];
  if bool_decide (of_status offer = offerOutstanding)
     || assigned && negb (from_option ex_released false execution)
  then match reserve (al_capacity a) class with
       | Ok cap => Ok (set_capacity a cap)
       | Err _ => Err (EWrap ErrInvalidConfig [Txt "durable state exceeds configured capacity for class "; Quoted class])
       end
  else Ok a.

Fixpoint load_slots (a : Allocator) (l : list offerRecord) : result gerror Allocator :=
  match l with
  | [] => Ok a
  | offer :: l' => try a' ← load_slot a offer; load_slots a' l'
  end.

(** The part of [loadLocked] after the snapshot is decoded. *)
Definition load_state (state : persistedState) : M error :=
  if negb (ps_Version state =? 1) && negb (ps_Version state =? stateVersion)
  then mret (Some (store_error [Txt "unsupported allocator state version "; Txt (pretty (ps_Version state))]))
  else if negb (bool_decide (ps_Identity state = p_identity p))
  then mret (Some (store_error [Txt "state belongs to a different allocator identity"]))
  else
    modify (fun a => set_tombstones (set_highWater a (ps_HighWater state)) (ps_Tombstones state));;
    a ← get;
    match load_offers a (ps_Offers state) with
    | Err e => mret (Some e)
    | Ok a1 =>
      put a1;;
      err ← load_executions (ps_Executions state);
      match err with
      | Some e => mret (Some e)
      | None =>
        a2 ← get;
        match load_replay (rc_entries (al_replay a2)) (ps_Replay state) with
        | Err e => mret (Some e)
        | Ok entries =>
          put (set_replay a2 (with_entries (al_replay a2) entries));;
          t ← now;
          _ ← expireOffersLocked t;
          a3 ← get;
          match load_slots a3 (map_to_list (al_offers a3)).*2 with
          | Err e => mret (Some e)
          | Ok a4 => put a4;; mret None
          end
        end
      end
    end.

(** [loadLocked] *)
Definition loadLocked (saved : stored) : M error :=
  if negb (p_store p) then mret None
  else match saved with
  | LoadFails e => mret (Some (EJoin [ESentinel ErrStore; e]))
  | NothingSaved => mret None
  | Undecodable problem => mret (Some (store_error [Txt "decode allocator state: "; Txt problem]))
  | Saved s => load_state s
  end.
End load.

(** [New] *)
Definition New (config : Config) (saved : stored) : M (result gerror Settings) :=
  match configure config with
  | Err e => mret (Err e)
  | Ok (p, a) =>
    put a;;
    err ← loadLocked p saved;
    syncMetricsLocked p;;
    mret (match err with Some e => Err e | None => Ok p end)
  end.
End loading.
