(* ===== verification/Threads.v ===== *)
(** * Threads (internal/allocator: dispatch.go, retention.go, recovery.go)

    The allocator's mutex is released around every call of the runtime, so the
    handlers of several messages, the retention sweep, recovery and the
    runtime's completion callbacks interleave.  A program counter names the
    point a thread has reached between two locked segments; [step_thread] and
    [step_sweeper] run one segment, and [sys_step] lets the environment pick who
    runs next.  [run_thread_Handle] relates the machine to [Handle]. *)

From S2P Require Import Prelude GoStrings Ordering Wire Errors Protocol Feedback Capacity Admission Replay Registry.
From S2P Require Import Utf8 AllocTypes Snapshot AllocOps Commands Maintenance.

(** ** Program counters *)

Inductive thread :=
(* Handle *)
| T_Check (e : Envelope)
| T_Logs (e : Envelope) (q : ExecutionLogsRequest)
| T_Begin (e : Envelope)
| T_Wait (e : Envelope)
| T_Run (e : Envelope)
| T_Start (e : Envelope) (m : ExecutionAssign) (r : StartRequest)
| T_Started (e : Envelope) (m : ExecutionAssign) (id : string) (startErr : error)
| T_Stop (e : Envelope) (m : ExecutionCancel) (s : stopping)
| T_Stopped (e : Envelope) (m : ExecutionCancel) (s : stopping) (stopErr : error)
| T_Bind (e : Envelope) (m : ExecutionTunnelOpen) (t : time)
| T_Finish (e : Envelope) (r : reply)
| T_Done (r : reply)
(* Recover *)
| T_Recover (ids : list string)
| T_RecoverStop (id : string) (phase : ExecutionPhase) (detail : string) (rest : list string)
| T_RecoverStopped (id : string) (phase : ExecutionPhase) (detail : string) (rest : list string)
| T_Reattach (id : string) (r : StartRequest) (rest : list string)
| T_Reattached (id : string) (recoverErr : error) (rest : list string)
| T_Recovered (err : error).

Inductive sweeper :=
| S_Idle
| S_Scan (allErr : error)
| S_Stop (allErr : error) (s : stopping)
| S_Stopped (allErr : error) (s : stopping) (stopErr : error)
| S_Collect (evictErr : error)
| S_Clean (evictErr allErr : error) (pending : list tombstone)
| S_Commit (evictErr allErr : error) (dead : tombstone) (rest : list tombstone).

(** The command whose replay entry a thread has created and not yet finished. *)
Definition holds (t : thread) : option Envelope :=
  match t with
  | T_Run e | T_Start e _ _ | T_Started e _ _ _ | T_Stop e _ _ | T_Stopped e _ _ _ | T_Bind e _ _ | T_Finish e _ => Some e
  | _ => None
  end.

Section threads.
Context `{Externals, Codec, Env} (p : Settings).

(** The first segment of a handler. *)
Definition run_first (e : Envelope) : M thread :=
  match env_payload e with
  | Some (P_ExecutionRequest (Some m)) => r ← handleRequest p e m; mret (T_Finish e r)
  | Some (P_ExecutionAssign (Some m)) =>
    begun ← assign_begin p e m;
    mret (match begun with inl r => T_Finish e r | inr request => T_Start e m request end)
  | Some (P_ExecutionCancel (Some m)) =>
    begun ← cancel_begin p e m;
    mret (match begun with inl r => T_Finish e r | inr s => T_Stop e m s end)
  | Some (P_ExecutionInspect (Some m)) => r ← handleInspect p e m; mret (T_Finish e r)
  | Some (P_ExecutionOfferRelease (Some m)) => r ← handleOfferRelease p e m; mret (T_Finish e r)
  | Some (P_ExecutionLeaseRenew (Some m)) => r ← handleLeaseRenew p e m; mret (T_Finish e r)
  | Some (P_ExecutionTunnelOpen (Some m)) =>
    checked ← tunnel_open_check e m;
    mret (match checked with inl r => T_Finish e r | inr t => T_Bind e m t end)
  | _ => panic;; mret (T_Finish e ([], None))
  end.

(** The end of one turn of the loop of [Recover]. *)
Definition recover_next (err : error) (rest : list string) : thread :=
  match err with Some e => T_Recovered (Some e) | None => T_Recover rest end.

Definition step_thread (th : thread) : M thread :=
  match th with
  | T_Check e =>
    stale ← checkFreshness e;
    match stale with
    | Some err => responses ← reply_error p e err; mret (T_Done (responses, Some err))
    | None =>
      mret (match get_logs e with
            | Some q => T_Logs e q
            | None => if negb (replayed_command e) then T_Done (fails (ESentinel ErrUnsupportedMessage)) else T_Begin e
            end)
    end
  | T_Logs e q => r ← handleLogs p e q; mret (T_Done r)
  | T_Begin e =>
    t ← now;
    begun ← beginReplay p (replay_key e) e t;
    match begun with
    | Err err => responses ← reply_error p e err; mret (T_Done (responses, Some err))
    | Ok (Some entry) => answer ← answer_duplicate entry; mret (from_option T_Done (T_Wait e) answer)
    | Ok None => mret (T_Run e)
    end
  | T_Wait e =>
    cancelled ← ctx_Err;
    mret (match cancelled with Some err => T_Done ([], Some err) | None => T_Wait e end)
  | T_Run e => run_first e
  | T_Start e m r => startErr ← runtime_Start r; mret (T_Started e m (st_ExecutionID r) startErr)
  | T_Started e m id startErr => r ← assign_finish p e id startErr; mret (T_Finish e r)
  | T_Stop e m s => stopErr ← runtime_Stop (sp_id s); mret (T_Stopped e m s stopErr)
  | T_Stopped e m s stopErr => r ← cancel_finish p e m s stopErr; mret (T_Finish e r)
  | T_Bind e m t => r ← tunnel_open_bind p e m t; mret (T_Finish e r)
  | T_Finish e r => r' ← finish_command p e r; mret (T_Done r')
  | T_Done r => mret (T_Done r)
  | T_Recover [] => mret (T_Recovered None)
  | T_Recover (id :: rest) =>
    ctxErr ← ctx_Err;
    match ctxErr with
    | Some e => mret (T_Recovered (Some e))
    | None =>
      plan ← recover_plan id;
      mret (match plan with
            | RP_skip => T_Recover rest
            | RP_stop phase detail => T_RecoverStop id phase detail rest
            | RP_recover r => T_Reattach id r rest
            end)
    end
  | T_RecoverStop id phase detail rest =>
    stopErr ← runtime_Stop id;
    mret (match stop_failed stopErr with
          | Some e => T_Recovered (Some e)
          | None => T_RecoverStopped id phase detail rest
          end)
  | T_RecoverStopped id phase detail rest =>
    err ← recover_terminal p id phase detail; mret (recover_next err rest)
  | T_Reattach id r rest => recoverErr ← runtime_Recover r; mret (T_Reattached id recoverErr rest)
  | T_Reattached id recoverErr rest => err ← recover_finish p id recoverErr; mret (recover_next err rest)
  | T_Recovered err => mret (T_Recovered err)
  end.

(** A duplicate that waits on the entry of a finished command gets its outcome. *)
Definition wake (key : string) (r : reply) (th : thread) : thread :=
  match th with
  | T_Wait e => if bool_decide (replay_key e = key) then T_Done r else th
  | _ => th
  end.

(** Finishing the command of [th] closes its entry: the responses sent and the
    handler's own error are what its duplicates are answered. *)
Definition notify (th th' : thread) (ts : gmap nat thread) : gmap nat thread :=
  match th, th' with
  | T_Finish e r, T_Done r' => wake (replay_key e) (r'.1, r.2) <$> ts
  | _, _ => ts
  end.

Definition step_sweeper (sw : sweeper) : M sweeper :=
  match sw with
  | S_Idle => mret (S_Scan None)
  | S_Scan allErr =>
    scan ← evict_scan p allErr;
    mret (match scan with inl result => S_Collect result | inr s => S_Stop allErr s end)
  | S_Stop allErr s => stopErr ← runtime_Stop (sp_id s); mret (S_Stopped allErr s stopErr)
  | S_Stopped allErr s stopErr =>
    evictErr ← evict_finish p s stopErr;
    let allErr' := join_errors [allErr; evictErr] in
    mret (match evictErr with Some _ => S_Collect allErr' | None => S_Scan allErr' end)
  | S_Collect evictErr =>
    collected ← sweep_collect p;
    mret (match collected.1 with Some _ => S_Idle | None => S_Clean evictErr None collected.2 end)
  | S_Clean evictErr allErr [] => mret S_Idle
  | S_Clean evictErr allErr (dead :: rest) =>
    err ← cleanup_files p dead;
    mret (match err with
          | Some e => S_Clean evictErr (join_errors [allErr; Some e]) rest
          | None => S_Commit evictErr allErr dead rest
          end)
  | S_Commit evictErr allErr dead rest =>
    commitErr ← cleanup_commit p dead;
    mret (S_Clean evictErr (match commitErr with Some e => join_errors [allErr; Some e] | None => allErr end) rest)
  end.

(** The operations of one segment: the callback of the runtime, the registry
    operations of tunnel sessions and the views that expire offers. *)
Inductive operation :=
| Op_Report (executionID : string) (completion : Completion)
| Op_OpenSession (executionID : string) (peerKey : bytes)
| Op_Recheck (executionID : string) (h : nat)
| Op_CloseTunnel (h : nat)
| Op_SweepExpired
| Op_Available (class : string).

Definition operate (op : operation) : M unit :=
  match op with
  | Op_Report id completion => _ ← completionReporter p id completion; mret tt
  | Op_OpenSession id key => _ ← session_open id key; mret tt
  | Op_Recheck id h => _ ← session_recheck id h; mret tt
  | Op_CloseTunnel h => CloseTunnel h
  | Op_SweepExpired => _ ← SweepExpired p; mret tt
  | Op_Available class => _ ← Available class; mret tt
  end.

(** ** The system *)

Record system := mkSystem { sy_world : World; sy_threads : gmap nat thread; sy_sweeper : sweeper }.

(** The point at which a thread may appear: a delivered envelope that passed
    [ValidateEnvelope] (another one is refused at once), or recovery. *)
Definition entry_point (w : World) (th : thread) : Prop :=
  match th with
  | T_Check e => ValidateEnvelope (Some e) = Ok tt
  | T_Recover ids => p_recoverer p = true ∧ ids = sort_strings (live_ids (w_alloc w))
  | _ => False
  end.

Inductive sys_step : system → system → Prop :=
| sys_spawn w ts sw i th :
    ts !! i = None → entry_point w th → sys_step (mkSystem w ts sw) (mkSystem w (<[i := th]> ts) sw)
| sys_thread w ts sw i th th' w' :
    ts !! i = Some th → step_thread th w = (th', w') →
    sys_step (mkSystem w ts sw) (mkSystem w' (<[i := th']> (notify th th' ts)) sw)
| sys_sweep w ts sw sw' w' :
    step_sweeper sw w = (sw', w') → sys_step (mkSystem w ts sw) (mkSystem w' ts sw')
| sys_operate w ts sw op :
    sys_step (mkSystem w ts sw) (mkSystem (operate op w).2 ts sw).

(** A thread run alone, for at most [fuel] segments. *)
Fixpoint run_thread (fuel : nat) (th : thread) : M thread :=
  match fuel with
  | O => mret th
  | S fuel' => th' ← step_thread th; run_thread fuel' th'
  end.

(** ** Schedules

    An executable form of [sys_step]: who runs next, given as a list. *)
Inductive action :=
| A_Deliver (i : nat) (e : Envelope)
| A_Recover (i : nat)
| A_Thread (i : nat)
| A_Sweep
| A_Operate (op : operation).

Definition perform (act : action) (s : system) : option system :=
  let '(mkSystem w ts sw) := s in
  match act with
  | A_Deliver i e =>
    match ts !! i, ValidateEnvelope (Some e) with
    | None, Ok _ => Some (mkSystem w (<[i := T_Check e]> ts) sw)
    | _, _ => None
    end
  | A_Recover i =>
    match ts !! i, p_recoverer p with
    | None, true => Some (mkSystem w (<[i := T_Recover (sort_strings (live_ids (w_alloc w)))]> ts) sw)
    | _, _ => None
    end
  | A_Thread i =>
    match ts !! i with
    | Some th => let '(th', w') := step_thread th w in Some (mkSystem w' (<[i := th']> (notify th th' ts)) sw)
    | None => None
    end
  | A_Sweep => let '(sw', w') := step_sweeper sw w in Some (mkSystem w' ts sw')
  | A_Operate op => Some (mkSystem (operate op w).2 ts sw)
  end.

Fixpoint schedule (acts : list action) (s : system) : option system :=
  match acts with
  | [] => Some s
  | act :: acts' => match perform act s with Some s' => schedule acts' s' | None => None end
  end.

Lemma perform_step act s s' : perform act s = Some s' → sys_step s s'.
Proof.
  destruct s as [w ts sw]. destruct act as [i e|i|i| |op]; cbn [perform].
  - destruct (ts !! i) eqn:Hi; [intros [=]|]. destruct (ValidateEnvelope (Some e)) as [[]|] eqn:Hv; [|intros [=]].
    intros [= <-]. by apply sys_spawn.
  - destruct (ts !! i) eqn:Hi; [intros [=]|]. destruct (p_recoverer p) eqn:Hp; [|intros [=]].
    intros [= <-]. by apply sys_spawn.
  - destruct (ts !! i) as [th|] eqn:Hi; [|intros [=]]. destruct (step_thread th w) as [th' w'] eqn:Hst.
    intros [= <-]. by apply sys_thread.
  - destruct (step_sweeper sw w) as [sw' w'] eqn:Hst. intros [= <-]. by apply sys_sweep.
  - intros [= <-]. apply sys_operate.
Qed.

Lemma schedule_steps acts s s' : schedule acts s = Some s' → rtc sys_step s s'.
Proof.
  revert s. induction acts as [|act acts IH]; intros s; simpl; [intros [= <-]; apply rtc_refl|].
  destruct (perform act s) as [s1|] eqn:Hp; [|intros [=]]. intros Hs.
  eapply rtc_l; [exact (perform_step act s s1 Hp)|exact (IH s1 Hs)].
Qed.

(** ** The machine runs [Handle] *)

Lemma run_done fuel r w : run_thread fuel (T_Done r) w = (T_Done r, w).
Proof. by induction fuel. Qed.

(** Finishing, from the point where the handler has answered. *)
Lemma run_finish fuel e r w :
  run_thread (S fuel) (T_Finish e r) w = (let '(r', w') := finish_command p e r w in (T_Done r', w')).
Proof.
  cbn [run_thread step_thread]. unfold mbind, M_bind, mret, M_ret.
  destruct (finish_command p e r w) as [r' w']. apply run_done.
Qed.

Lemma run_unfold fuel th w :
  run_thread (S fuel) th w = (let '(th', w') := step_thread th w in run_thread fuel th' w').
Proof. done. Qed.

(** A handler of one segment. *)
Lemma run_simple fuel e (m : M reply) w :
  (let '(th, w') := (m ≫= fun r => mret (T_Finish e r)) w in run_thread (S fuel) th w') =
  (let '(r, w1) := m w in let '(r', w2) := finish_command p e r w1 in (T_Done r', w2)).
Proof. unfold mbind, M_bind, mret, M_ret. destruct (m w) as [r w1]. apply run_finish. Qed.

Lemma run_assign e m w :
  (let '(th, w') := (begun ← assign_begin p e m;
     mret (match begun with inl r => T_Finish e r | inr request => T_Start e m request end)) w in run_thread 3 th w') =
  (let '(r, w1) := handleAssign p e m w in let '(r', w2) := finish_command p e r w1 in (T_Done r', w2)).
Proof.
  unfold handleAssign, mbind, M_bind, mret, M_ret. destruct (assign_begin p e m w) as [[r|request] w1]; [apply run_finish|].
  rewrite run_unfold. cbn [step_thread]. unfold mbind, M_bind, mret, M_ret.
  destruct (runtime_Start request w1) as [startErr w2]. rewrite run_unfold. cbn [step_thread].
  apply run_simple.
Qed.

Lemma run_cancel e m w :
  (let '(th, w') := (begun ← cancel_begin p e m;
     mret (match begun with inl r => T_Finish e r | inr s => T_Stop e m s end)) w in run_thread 3 th w') =
  (let '(r, w1) := handleCancel p e m w in let '(r', w2) := finish_command p e r w1 in (T_Done r', w2)).
Proof.
  unfold handleCancel, mbind, M_bind, mret, M_ret. destruct (cancel_begin p e m w) as [[r|s] w1]; [apply run_finish|].
  rewrite run_unfold. cbn [step_thread]. unfold mbind, M_bind, mret, M_ret.
  destruct (runtime_Stop (sp_id s) w1) as [stopErr w2]. rewrite run_unfold. cbn [step_thread].
  apply run_simple.
Qed.

Lemma run_tunnel e m w :
  (let '(th, w') := (checked ← tunnel_open_check e m;
     mret (match checked with inl r => T_Finish e r | inr t => T_Bind e m t end)) w in run_thread 3 th w') =
  (let '(r, w1) := handleTunnelOpen p e m w in let '(r', w2) := finish_command p e r w1 in (T_Done r', w2)).
Proof.
  unfold handleTunnelOpen, mbind, M_bind, mret, M_ret. destruct (tunnel_open_check e m w) as [[r|t] w1]; [apply run_finish|].
  rewrite run_unfold. cbn [step_thread]. apply run_simple.
Qed.

Lemma run_handler_thread e w :
  run_thread 4 (T_Run e) w =
  (let '(r, w1) := run_handler p e w in let '(r', w2) := finish_command p e r w1 in (T_Done r', w2)).
Proof.
  rewrite run_unfold. cbn [step_thread]. unfold run_handler, run_first.
  assert ((let '(th, w') := (panic;; mret (T_Finish e ([], None))) w in run_thread 3 th w') =
    (let '(r, w1) := (panic;; mret ([], None)) w in
     let '(r', w2) := finish_command p e r w1 in (T_Done r', w2))) as Hpanic
    by (exact (run_simple 2 e (panic;; mret ([], None)) w)).
  destruct (env_payload e) as [pl|]; [|exact Hpanic].
  destruct pl as [[|]|?|[|]|[|]|?|[|]|[|]|?|?|?|?|[|]|?|[|]|?]; try exact Hpanic;
    first [apply run_simple|apply run_assign|apply run_cancel|apply run_tunnel].
Qed.

End threads.
