(* ===== verification/Logic.v ===== *)
(** * Reasoning about the handlers

    A predicate transformer over what the theorems observe of a world: the
    allocator, the disk, the calls to the runtime and whether a panic happened.
    The environment and the metrics are abstracted: [wp m Q c] says that [m],
    run in any world that looks like [c] under the fixed environment, ends in a
    result and a world of which [Q] holds. *)

From S2P Require Import Prelude GoStrings Ordering Wire Errors Protocol Feedback Capacity Admission Replay Registry.
From S2P Require Import Utf8 AllocTypes Snapshot AllocOps.

(** What is observed of a world. *)
Record core `{Codec} := mkCore {
  c_alloc : Allocator;
  c_disk : option persistedState;
  c_calls : list event;
  c_panicked : bool
}.

Definition is_call (e : event) : bool := match e with EvMetric _ => false | _ => true end.

Section logic.
Context `{Externals, Codec, Env}.

Definition core_of (w : World) : core :=
  mkCore _ (w_alloc w) (w_disk w) (List.filter is_call (w_trace w)) (w_panicked w).

Definition c_update (c : core) (f : Allocator → Allocator) : core :=
  mkCore _ (f (c_alloc c)) (c_disk c) (c_calls c) (c_panicked c).
Definition c_save (c : core) (s : persistedState) : core :=
  mkCore _ (c_alloc c) (Some s) (c_calls c) (c_panicked c).
Definition c_call (c : core) (e : event) : core :=
  mkCore _ (c_alloc c) (c_disk c) (c_calls c ++ [e]) (c_panicked c).
Definition c_panic (c : core) : core :=
  mkCore _ (c_alloc c) (c_disk c) (c_calls c) true.

Definition wp {A} (m : M A) (Q : A → core → Prop) (c : core) : Prop :=
  ∀ w, core_of w = c → Q (m w).1 (core_of (m w).2).

Lemma wp_run {A} (m : M A) Q w : wp m Q (core_of w) → Q (m w).1 (core_of (m w).2).
Proof. intros Hm. by apply Hm. Qed.

Lemma wp_mono {A} (m : M A) (Q Q' : A → core → Prop) c :
  wp m Q c → (∀ a c', Q a c' → Q' a c') → wp m Q' c.
Proof. intros Hm HQ w Hw. apply HQ, Hm, Hw. Qed.

Lemma wp_and {A} (m : M A) (Q Q' : A → core → Prop) c : wp m Q c → wp m Q' c → wp m (fun a c' => Q a c' ∧ Q' a c') c.
Proof. intros H2 H3 w Hw. split; [by apply H2|by apply H3]. Qed.

Lemma wp_ret {A} (a : A) Q c : Q a c → wp (mret a) Q c.
Proof. intros HQ w <-. done. Qed.

Lemma wp_bind {A B} (m : M A) (f : A → M B) Q c :
  wp m (fun a c' => wp (f a) Q c') c → wp (m ≫= f) Q c.
Proof.
  intros Hm w Hw. specialize (Hm w Hw). unfold mbind, M_bind.
  destruct (m w) as [a w']. simpl in *. by apply Hm.
Qed.

Lemma wp_get Q c : Q (c_alloc c) c → wp get Q c.
Proof. intros HQ w <-. done. Qed.

Lemma wp_modify f Q c : Q tt (c_update c f) → wp (modify f) Q c.
Proof. intros HQ w <-. done. Qed.

Lemma wp_put a Q c : Q tt (c_update c (fun _ => a)) → wp (put a) Q c.
Proof. apply wp_modify. Qed.

Lemma wp_ask {A} (f : nat → A) (Q : A → core → Prop) c : (∀ n, Q (f n) c) → wp (ask f) Q c.
Proof. intros HQ w <-. apply HQ. Qed.

Lemma wp_emit e Q c : is_call e = true → Q tt (c_call c e) → wp (emit e) Q c.
Proof.
  intros He HQ w <-. unfold emit, core_of, c_call in *. simpl in *.
  by rewrite List.filter_app /= He.
Qed.

Lemma wp_emit_metric m Q c : Q tt c → wp (emit (EvMetric m)) Q c.
Proof.
  intros HQ w <-. unfold emit, core_of in *. simpl in *. by rewrite List.filter_app /= app_nil_r.
Qed.

Lemma wp_panic Q c : Q tt (c_panic c) → wp panic Q c.
Proof. intros HQ w <-. done. Qed.

Lemma wp_now (Q : time → core → Prop) c : (∀ t, Q t c) → wp now Q c.
Proof. intros HQ. by apply wp_ask. Qed.
Lemma wp_newID (Q : string → core → Prop) c : (∀ i, Q i c) → wp newID Q c.
Proof. intros HQ. by apply wp_ask. Qed.
Lemma wp_randomID (Q : string → core → Prop) c : (∀ i, Q i c) → wp randomID Q c.
Proof. intros HQ. by apply wp_ask. Qed.
Lemma wp_ctx_Err (Q : error → core → Prop) c : (∀ i, Q i c) → wp ctx_Err Q c.
Proof. intros HQ. by apply wp_ask. Qed.
Lemma wp_logs_Read (Q : result gerror LogChunk → core → Prop) c : (∀ i, Q i c) → wp logs_Read Q c.
Proof. intros HQ. by apply wp_ask. Qed.

Lemma wp_call (e : event) (f : nat → error) (Q : error → core → Prop) c :
  is_call e = true → (∀ r, Q r (c_call c e)) → wp (emit e;; ask f) Q c.
Proof. intros He HQ. apply wp_bind, wp_emit; [done|]. by apply wp_ask. Qed.

Variable p : Settings.

Lemma wp_observe m Q c : Q tt c → wp (observe p m) Q c.
Proof. intros HQ. unfold observe. destruct (p_metrics p); [by apply wp_emit_metric|by apply wp_ret]. Qed.

Lemma wp_observe_all l Q c : Q tt c → wp (observe_all p l) Q c.
Proof.
  revert Q. induction l as [|m l IH]; intros Q HQ; simpl; [by apply wp_ret|].
  apply wp_bind, wp_observe. by apply IH.
Qed.

Lemma wp_syncMetricsLocked Q c : Q tt c → wp (syncMetricsLocked p) Q c.
Proof. intros HQ. apply wp_bind, wp_get. by apply wp_observe_all. Qed.

Lemma wp_observeFinished r Q c : Q tt c → wp (observeFinishedMetricsLocked p r) Q c.
Proof. intros HQ. apply wp_bind, wp_get. by apply wp_observe_all. Qed.

Lemma wp_observeFinished_opt o Q c :
  Q tt c → wp (from_option (observeFinishedMetricsLocked p) (mret tt) o) Q c.
Proof. intros HQ. destruct o; [by apply wp_observeFinished|by apply wp_ret]. Qed.

(** A commit either fails, with an [ErrStore] error and nothing changed, or the
    disk holds the snapshot of the current state. *)
Definition saves (c c' : core) : Prop :=
  if p_store p then ∃ s, encode_state (p_identity p) (c_alloc c) = Ok s ∧ c' = c_save c s else c' = c.

Lemma wp_persistLocked (Q : error → core → Prop) c :
  (∀ e, is_err ErrStore e = true → Q (Some e) c) → (∀ c', saves c c' → Q None c') →
  wp (persistLocked p) Q c.
Proof.
  intros Hfail Hok. unfold persistLocked, saves in *. destruct (p_store p); simpl.
  2: by apply wp_ret, Hok.
  apply wp_bind, wp_get. destruct (encode_state _ _) as [s|e] eqn:Hs.
  - apply wp_bind, wp_ask. intros n. destruct (save_result n).
    + by apply wp_ret, Hfail.
    + apply wp_bind. intros w <-. simpl. apply wp_ret. apply Hok. by exists s.
  - by apply wp_ret, Hfail.
Qed.

Lemma saves_alloc c c' : saves c c' → c_alloc c' = c_alloc c.
Proof. unfold saves. destruct (p_store p); [by intros (s & _ & ->)|by intros ->]. Qed.
Lemma saves_calls c c' : saves c c' → c_calls c' = c_calls c.
Proof. unfold saves. destruct (p_store p); [by intros (s & _ & ->)|by intros ->]. Qed.
Lemma saves_panicked c c' : saves c c' → c_panicked c' = c_panicked c.
Proof. unfold saves. destruct (p_store p); [by intros (s & _ & ->)|by intros ->]. Qed.

Lemma wp_expireOffersLocked t (Q : Z → core → Prop) c :
  (∀ n, Q n (c_update c (fun a => (expire_offers t a).1))) → wp (expireOffersLocked t) Q c.
Proof.
  intros HQ. unfold expireOffersLocked. apply wp_bind, wp_get.
  destruct (expire_offers t (c_alloc c)) as [a' n] eqn:He. apply wp_bind, wp_put, wp_ret.
  specialize (HQ n). unfold c_update in *. by rewrite He in HQ.
Qed.

Definition advance (t : time) (a : Allocator) : Allocator :=
  if after t (al_highWater a) then set_highWater a t else a.

Lemma wp_effectiveNowLocked (Q : time → core → Prop) c :
  (∀ t, Q (al_highWater (advance t (c_alloc c))) (c_update c (advance t))) → wp effectiveNowLocked Q c.
Proof.
  intros HQ. unfold effectiveNowLocked. apply wp_bind, wp_now. intros t.
  apply wp_bind, wp_modify, wp_bind, wp_get, wp_ret, HQ.
Qed.

Lemma wp_respond corr t payload (Q : result gerror Envelope → core → Prop) c :
  (∀ e, Q (Err e) c) →
  (∀ mid, mid ≠ "" → Q (Ok (mkEnvelope mid (p_identity p) corr (Some (ts_new t)) (Some payload))) c) →
  wp (respond p corr t payload) Q c.
Proof.
  intros He Hok. unfold respond. apply wp_bind, wp_newID. intros mid. apply wp_ret.
  destruct (bool_decide (mid = "")) eqn:Hm; [apply He|]. apply Hok. by apply bool_decide_eq_false in Hm.
Qed.

Lemma wp_reply_error command err (Q : list Envelope → core → Prop) c :
  (∀ mid t, Q (errorResponse (p_identity p) mid t command err) c) → wp (reply_error p command err) Q c.
Proof. intros HQ. apply wp_bind, wp_randomID. intros mid. apply wp_bind, wp_now. intros t. by apply wp_ret. Qed.
End logic.
