(* ===== verification/Invariant.v ===== *)
(** * The allocator's abstract transitions and its invariant

    [transition] is what the allocator promises about its state: every handler,
    whatever the environment does, changes the state by a sequence of these
    steps (proved in [Refinement]).  [alloc_ok] is the invariant they preserve:
    the slots in use are exactly those held by outstanding offers and live
    executions, offers and executions are linked one to one, the request index
    is exact, and every bounded collection is within its bound. *)

From S2P Require Import Prelude GoStrings Ordering Wire Errors Protocol Feedback Capacity Admission Replay Registry.
From S2P Require Import Utf8 AllocTypes Snapshot AllocOps Commands Maintenance Logic.

(** ** Slot accounting *)

Definition outstanding_in (c : string) (o : offerRecord) : bool :=
  bool_decide (of_status o = offerOutstanding) && bool_decide (eo_resource_class (of_offer o) = c).

Definition active_in (c : string) (e : executionRecord) : bool :=
  negb (ex_released e) && bool_decide (ex_resourceClass e = c).

(** The slots of a class that offers and executions hold. *)
Definition demand (a : Allocator) (c : string) : Z :=
  mcount (outstanding_in c) (al_offers a) + mcount (active_in c) (al_executions a).

(** ** The invariant *)

Record offer_ok (id : string) (o : offerRecord) : Prop := {
  oo_id : id ≠ "";
  oo_offer_id : eo_offer_id (of_offer o) = id;
  oo_request : eo_request_id (of_offer o) = er_request_id (of_request o);
  oo_request_id : er_request_id (of_request o) ≠ "";
  oo_class : eo_resource_class (of_offer o) = er_resource_class (of_request o);
  oo_execution : of_status o ≠ offerAssigned → of_execution o = ""
}.

Record exec_ok (id : string) (e : executionRecord) : Prop := {
  eo_id : id ≠ "";
  eo_ex_id : ex_id e = id;
  eo_phase : known_phase (ex_phase e) = true;
  eo_released : ex_released e = Terminal (ex_phase e)
}.

(** The execution and the offer it was assigned from agree. *)
Record linked (id : string) (e : executionRecord) (o : offerRecord) : Prop := {
  li_status : of_status o = offerAssigned;
  li_execution : of_execution o = id;
  li_client : of_client o = ex_client e;
  li_request : of_request o = ex_request e;
  li_class : eo_resource_class (of_offer o) = ex_resourceClass e
}.

Record alloc_ok (p : Settings) (a : Allocator) : Prop := {
  ak_ledger : ledger_ok (al_capacity a);
  ak_used c : mget 0 (used (al_capacity a)) c = demand a c;
  ak_offer id o : al_offers a !! id = Some o → offer_ok id o;
  ak_exec id e : al_executions a !! id = Some e → exec_ok id e;
  ak_assigned id o : al_offers a !! id = Some o → of_status o = offerAssigned →
    ∃ e, al_executions a !! of_execution o = Some e ∧ ex_offerID e = id;
  ak_linked id e : al_executions a !! id = Some e →
    ∃ o, al_offers a !! ex_offerID e = Some o ∧ linked id e o;
  ak_requests id o : al_offers a !! id = Some o → al_requests a !! offer_key o = Some id;
  ak_indexed k id : al_requests a !! k = Some id → ∃ o, al_offers a !! id = Some o ∧ offer_key o = k;
  ak_budget : 2 * Z.of_nat (size (al_offers a)) + Z.of_nat (size (al_tombstones a)) ≤ p_maxRecords p;
  ak_tombstone id d : al_tombstones a !! id = Some d → tb_OfferID d = id;
  ak_replay : replay_ok (al_replay a);
  ak_tunnels : registry_ok (al_tunnels a)
}.

(** ** Abstract transitions *)

(** A command in progress is not forgotten. *)
Definition keeps_undone (c c' : replayCache) : Prop :=
  ∀ k e, rc_entries c !! k = Some e → re_done e = false → rc_entries c' !! k = Some e.

(** Two records of the same execution. *)
Definition same_execution (e e' : executionRecord) : Prop :=
  ex_id e' = ex_id e ∧ ex_offerID e' = ex_offerID e ∧ ex_client e' = ex_client e ∧
  ex_resourceClass e' = ex_resourceClass e ∧ ex_request e' = ex_request e ∧
  ex_released e' = ex_released e ∧ ex_startedAt e' = ex_startedAt e ∧ ex_resources e' = ex_resources e.

Section transitions.
Variable p : Settings.

(** Quota left for one more offer, or one more execution, of a client. *)
Definition offer_quota_left (a : Allocator) (owner : bytes) : Prop :=
  let q := quota_Offers (client_quota (p_admission p) owner) in
  client_allowed (p_admission p) owner = true ∧ (0 < q → u32 (mcount (owned_outstanding owner) (al_offers a)) < q).

Definition execution_quota_left (a : Allocator) (owner : bytes) : Prop :=
  let q := quota_Executions (client_quota (p_admission p) owner) in
  client_allowed (p_admission p) owner = true ∧ (0 < q → u32 (mcount (owned_live owner) (al_executions a)) < q).

(** A step labelled [false] may be taken by any thread, one labelled [true] by
    the retention sweep only. *)
Inductive transition : bool → Allocator → Allocator → Prop :=
(** the clock's high-water mark advances *)
| tr_clock s0 a t : transition s0 a (advance t a)
(** counters are rewritten without a change *)
| tr_used s0 a cap :
    limits cap = limits (al_capacity a) →
    (∀ c, mget 0 (used cap) c = mget 0 (used (al_capacity a)) c) →
    transition s0 a (set_capacity a cap)
(** the replay cache changes, keeping commands in progress *)
| tr_replay s0 a c :
    replay_ok c → rc_ttl c = rc_ttl (al_replay a) → rc_capacity c = rc_capacity (al_replay a) →
    keeps_undone (al_replay a) c → transition s0 a (set_replay a c)
(** bindings and sessions change *)
| tr_tunnels s0 a r : registry_ok r → transition s0 a (set_tunnels a r)
(** an offer is made and takes a slot *)
| tr_offer s0 a id o cap :
    al_offers a !! id = None → al_requests a !! offer_key o = None → offer_ok id o →
    of_status o = offerOutstanding →
    Z.of_nat (size (al_offers a)) * 2 + Z.of_nat (size (al_tombstones a)) + 2 ≤ p_maxRecords p →
    offer_quota_left a (of_client o) →
    PlacementMatches (er_constraints (of_request o)) (p_node p) = true →
    reserve (al_capacity a) (eo_resource_class (of_offer o)) = Ok cap →
    transition s0 a (set_capacity (set_requests (put_offer a id o) (<[offer_key o := id]> (al_requests a))) cap)
(** an outstanding offer gives its slot back *)
| tr_release s0 a id o s :
    al_offers a !! id = Some o → of_status o = offerOutstanding → s = offerExpired ∨ s = offerReleased →
    transition s0 a (set_capacity (put_offer a id (set_status o s))
                    (release (al_capacity a) (eo_resource_class (of_offer o))))
(** an outstanding offer is assigned, and its slot passes to the execution *)
| tr_assign s0 a id o e :
    al_offers a !! id = Some o → of_status o = offerOutstanding → al_executions a !! ex_id e = None →
    exec_ok (ex_id e) e → ex_phase e = PHASE_STARTING → ex_offerID e = id →
    linked (ex_id e) e (set_assignment o offerAssigned (ex_id e)) →
    execution_quota_left a (of_client o) →
    PlacementMatches (er_constraints (of_request o)) (p_node p) = true →
    transition s0 a (put_execution (put_offer a id (set_assignment o offerAssigned (ex_id e))) (ex_id e) e)
(** a live execution changes phase and stays live *)
| tr_phase s0 a id e e' :
    al_executions a !! id = Some e → Terminal (ex_phase e) = false → Terminal (ex_phase e') = false →
    known_phase (ex_phase e') = true → same_execution e e' → ex_leaseUntil e' = ex_leaseUntil e →
    ex_revision e' = u64 (ex_revision e + 1) → transition s0 a (put_execution a id e')
(** the lease of a live execution moves *)
| tr_lease s0 a id e until :
    al_executions a !! id = Some e → Terminal (ex_phase e) = false → ex_phase e ≠ PHASE_CANCELLING →
    transition s0 a (put_execution a id (set_lease e until))
(** a live execution ends and gives its slot back *)
| tr_finish s0 a id e phase detail code t :
    al_executions a !! id = Some e → Terminal (ex_phase e) = false → Terminal phase = true →
    transition s0 a (finish_record p id e phase detail code t a)
(** a finished offer that no command in progress refers to is collected *)
| tr_collect a id o t :
    al_offers a !! id = Some o → str_contains (busy_keys a) (offer_key o) = false → collectable a t o = true →
    transition true a (mkAllocator (al_highWater a) (<[id := bury t id o]> (al_tombstones a)) (al_capacity a)
      (delete id (al_offers a)) (delete (offer_key o) (al_requests a)) (delete (of_execution o) (al_executions a))
      (al_replay a) (al_tunnels a))
(** tombstones are updated in place or removed *)
| tr_tombstones a m :
    (size m ≤ size (al_tombstones a))%nat → (∀ id d, m !! id = Some d → tb_OfferID d = id) →
    transition true a (set_tombstones a m).
End transitions.

(** ** The transitions preserve the invariant *)

(** Case analysis on a lookup in an updated map. *)
Ltac split_lookup H :=
  first [ apply lookup_insert_Some in H as [[<- <-]|[? H]] | apply lookup_delete_Some in H as [? H] ]; simpl in *.

Lemma mcount_insert_Some {V} (f : V → bool) m k v v' :
  m !! k = Some v → mcount f (<[k:=v']> m) = mcount f m - Z.b2z (f v) + Z.b2z (f v').
Proof. apply (msum_insert_Some (fun v => Z.b2z (f v))). Qed.

Lemma mcount_insert_None {V} (f : V → bool) m k v :
  m !! k = None → mcount f (<[k:=v]> m) = Z.b2z (f v) + mcount f m.
Proof. apply (msum_insert_None (fun v => Z.b2z (f v))). Qed.

Lemma mcount_delete {V} (f : V → bool) m k v :
  m !! k = Some v → mcount f (delete k m) = mcount f m - Z.b2z (f v).
Proof. intros Hk. unfold mcount. rewrite (msum_delete (fun v => Z.b2z (f v)) m k v Hk). lia. Qed.

Lemma active_terminal e c : ex_released e = Terminal (ex_phase e) → Terminal (ex_phase e) = true → active_in c e = false.
Proof. unfold active_in. intros -> ->. done. Qed.

Lemma active_finished c e ph d x t r : active_in c (set_finished e ph d x t r) = false.
Proof. done. Qed.

Lemma outstanding_status c o s :
  outstanding_in c (set_status o s) = bool_decide (s = offerOutstanding) && bool_decide (eo_resource_class (of_offer o) = c).
Proof. done. Qed.

Section preservation.
Variable p : Settings.

(** Replacing the record of an execution by another record of it that holds the
    same slot. *)
Lemma replace_execution_ok a id e e' :
  alloc_ok p a → al_executions a !! id = Some e → same_execution e e' → exec_ok id e' →
  alloc_ok p (put_execution a id e').
Proof.
  intros Hok He (H1 & H2 & H3 & H4 & H5 & H6 & _) Hok'. destruct Hok. split; simpl; try done.
  - intros c. rewrite ak_used0. unfold demand. simpl. rewrite (mcount_insert_Some _ _ _ e) //.
    unfold active_in. rewrite H4 H6. lia.
  - intros id' e0 H0. split_lookup H0; eauto.
  - intros id' o Ho Hs. destruct (ak_assigned0 id' o Ho Hs) as (e0 & He0 & Hid).
    destruct (decide (id = of_execution o)) as [->|].
    + exists e'. rewrite lookup_insert_eq. split; [done|]. congruence.
    + exists e0. by rewrite lookup_insert_ne.
  - intros id' e0 H0. split_lookup H0; [|eauto].
    destruct (ak_linked0 id e He) as (o & Ho & []). exists o. rewrite H2. split; [done|].
    split; congruence.
Qed.

Lemma phase_ok a id e e' :
  alloc_ok p a → al_executions a !! id = Some e → Terminal (ex_phase e) = false →
  Terminal (ex_phase e') = false → known_phase (ex_phase e') = true → same_execution e e' →
  alloc_ok p (put_execution a id e').
Proof.
  intros Hok He Ht Ht' Hk Hsame. apply (replace_execution_ok a id e); [done..|].
  destruct (ak_exec _ _ Hok id e He) as [? ? ? Hrel]. destruct Hsame as (H1 & _ & _ & _ & _ & H6 & _).
  split; congruence.
Qed.

Lemma finish_ok' a id e phase detail code t :
  alloc_ok p a → al_executions a !! id = Some e → Terminal (ex_phase e) = false → Terminal phase = true →
  alloc_ok p (finish_record p id e phase detail code t a).
Proof.
  intros Hok He Ht Hp. destruct (ak_exec _ _ Hok id e He) as [Hne Hid Hkn Hrel].
  assert (ex_released e = false) as Hr by congruence.
  assert (active_in (ex_resourceClass e) e = true) as Hact
    by (unfold active_in; rewrite Hr bool_decide_eq_true_2 //).
  assert (0 < mget 0 (used (al_capacity a)) (ex_resourceClass e)) as Hpos.
  { rewrite (ak_used _ _ Hok). unfold demand.
    pose proof (mcount_pos _ _ id e He Hact).
    pose proof (mcount_nonneg (outstanding_in (ex_resourceClass e)) (al_offers a)). lia. }
  destruct (release_used (al_capacity a) (ex_resourceClass e) (ak_ledger _ _ Hok) Hpos) as [Hlim Hused].
  unfold finish_record. rewrite Hr. destruct Hok. split; simpl; try done.
  - split; rewrite Hlim; [apply ak_ledger0|]. intros c. rewrite Hused.
    pose proof (lk_used _ ak_ledger0 c). counters.
  - intros c. rewrite Hused ak_used0. unfold demand. simpl. rewrite (mcount_insert_Some _ _ _ e) //.
    assert (active_in c e = bool_decide (ex_resourceClass e = c)) as -> by (unfold active_in; by rewrite Hr).
    rewrite active_finished /=. lia.
  - intros id' e0 H0. split_lookup H0; [|by eauto]. split; simpl; try done. by destruct phase.
  - intros id' o Ho Hs. destruct (ak_assigned0 id' o Ho Hs) as (e0 & He0 & Hid').
    destruct (decide (id = of_execution o)) as [->|].
    + rewrite lookup_insert_eq. eexists. split; [done|]. simpl. congruence.
    + exists e0. by rewrite lookup_insert_ne.
  - intros id' e0 H0. split_lookup H0; [|by eauto].
    destruct (ak_linked0 id e He) as (o & Ho & []). exists o. split; [done|]. by split.
  - by apply Invalidate_ok.
Qed.

Lemma release_ok a id o s :
  alloc_ok p a → al_offers a !! id = Some o → of_status o = offerOutstanding →
  s = offerExpired ∨ s = offerReleased →
  alloc_ok p (set_capacity (put_offer a id (set_status o s))
                (release (al_capacity a) (eo_resource_class (of_offer o)))).
Proof.
  intros Hok Ho Hs Hs'. pose proof (ak_offer _ _ Hok id o Ho) as [].
  set (cl := eo_resource_class (of_offer o)).
  assert (outstanding_in cl o = true) as Hout by (unfold outstanding_in; rewrite !bool_decide_eq_true_2 //).
  assert (0 < mget 0 (used (al_capacity a)) cl) as Hpos.
  { rewrite (ak_used _ _ Hok). unfold demand. pose proof (mcount_pos _ _ id o Ho Hout).
    pose proof (mcount_nonneg (active_in cl) (al_executions a)). lia. }
  destruct (release_used (al_capacity a) cl (ak_ledger _ _ Hok) Hpos) as [Hlim Hused].
  assert (s ≠ offerOutstanding ∧ s ≠ offerAssigned) as [Hso Hsa] by (by destruct Hs' as [-> | ->]).
  destruct Hok. split; simpl; try done.
  - split; rewrite Hlim; [apply ak_ledger0|]. intros c. rewrite Hused.
    pose proof (lk_used _ ak_ledger0 c). counters.
  - intros c. rewrite Hused ak_used0. unfold demand. simpl. rewrite (mcount_insert_Some _ _ _ o) //.
    assert (outstanding_in c o = bool_decide (cl = c)) as ->
      by (unfold outstanding_in; by rewrite Hs bool_decide_eq_true_2).
    rewrite outstanding_status (bool_decide_eq_false_2 (s = offerOutstanding)) //=. lia.
  - intros id' o' H'. split_lookup H'; [|by eauto]. split; simpl; try done. intros _. apply oo_execution0. congruence.
  - intros id' o' H'. split_lookup H'; [done|by eauto].
  - intros id' e He. destruct (ak_linked0 id' e He) as (o' & Ho' & Hl).
    exists o'. split; [|done]. rewrite lookup_insert_ne //. intros ->. destruct Hl. congruence.
  - intros id' o' H'. split_lookup H'; [by apply (ak_requests0 id o)|by eauto].
  - intros k id' Hk. destruct (ak_indexed0 k id' Hk) as (o' & Ho' & Hk').
    destruct (decide (id = id')) as [->|].
    + rewrite lookup_insert_eq. eexists. split; [done|]. rewrite Ho in Ho'. by injection Ho' as <-.
    + exists o'. by rewrite lookup_insert_ne.
  - rewrite map_size_insert_Some; [by rewrite Ho|done].
Qed.
Lemma offer_made_ok a id o cap :
  alloc_ok p a → al_offers a !! id = None → al_requests a !! offer_key o = None → offer_ok id o →
  of_status o = offerOutstanding →
  Z.of_nat (size (al_offers a)) * 2 + Z.of_nat (size (al_tombstones a)) + 2 ≤ p_maxRecords p →
  reserve (al_capacity a) (eo_resource_class (of_offer o)) = Ok cap →
  alloc_ok p (set_capacity (set_requests (put_offer a id o) (<[offer_key o := id]> (al_requests a))) cap).
Proof.
  intros Hok Hid Hkey Ho Hs Hb Hr. pose proof (reserve_used _ _ _ (ak_ledger _ _ Hok) Hr) as (Hlim & Hlt & Hused).
  destruct Hok. split; simpl; try done.
  - split; rewrite Hlim; [apply ak_ledger0|]. intros c. rewrite Hused.
    pose proof (lk_used _ ak_ledger0 c). counters.
  - intros c. rewrite Hused ak_used0. unfold demand. simpl. rewrite mcount_insert_None //.
    assert (outstanding_in c o = bool_decide (eo_resource_class (of_offer o) = c)) as ->; [|lia].
    unfold outstanding_in. by rewrite Hs bool_decide_eq_true_2.
  - intros id' o' H'. split_lookup H'; [done|by eauto].
  - intros id' o' H'. split_lookup H'; [congruence|by eauto].
  - intros id' e He. destruct (ak_linked0 id' e He) as (o' & Ho' & Hl). exists o'. split; [|done].
    rewrite lookup_insert_ne //. congruence.
  - intros id' o' H'. split_lookup H'; [apply lookup_insert_eq|].
    pose proof (ak_requests0 _ _ H'). rewrite lookup_insert_ne //. congruence.
  - intros k id' H'. split_lookup H'; [exists o; by rewrite lookup_insert_eq|].
    destruct (ak_indexed0 k id' H') as (o' & Ho' & Hk'). exists o'. split; [|done].
    rewrite lookup_insert_ne //. congruence.
  - rewrite map_size_insert_None //. lia.
Qed.

Lemma assigned_ok a id o e :
  alloc_ok p a → al_offers a !! id = Some o → of_status o = offerOutstanding →
  al_executions a !! ex_id e = None → exec_ok (ex_id e) e → ex_phase e = PHASE_STARTING → ex_offerID e = id →
  linked (ex_id e) e (set_assignment o offerAssigned (ex_id e)) →
  alloc_ok p (put_execution (put_offer a id (set_assignment o offerAssigned (ex_id e))) (ex_id e) e).
Proof.
  intros Hok Ho Hs Hnone He Hph Hid Hl. pose proof (ak_offer _ _ Hok id o Ho) as [].
  destruct He as [Hne _ Hkn Hrel]. destruct Hl as [_ _ Hcl Hrq Hclass]. simpl in *.
  destruct Hok. split; simpl; try done.
  - intros c. rewrite ak_used0. unfold demand. simpl.
    rewrite (mcount_insert_Some _ _ _ o) // mcount_insert_None //.
    assert (outstanding_in c (set_assignment o offerAssigned (ex_id e)) = false) as -> by done.
    assert (outstanding_in c o = active_in c e) as ->; [|lia].
    unfold outstanding_in, active_in. by rewrite Hs Hrel Hph Hclass.
  - intros id' o' H'. split_lookup H'; [by split|by eauto].
  - intros id' e' H'. split_lookup H'; [by split|by eauto].
  - intros id' o' H' Hs'. split_lookup H'; [exists e; by rewrite lookup_insert_eq|].
    destruct (ak_assigned0 _ _ H' Hs') as (e' & He' & Hid'). exists e'. split; [|done].
    rewrite lookup_insert_ne //. congruence.
  - intros id' e' H'. split_lookup H'.
    + exists (set_assignment o offerAssigned (ex_id e)). rewrite Hid lookup_insert_eq. split; [done|]. by split.
    + destruct (ak_linked0 _ _ H') as (o' & Ho' & Hl'). exists o'. split; [|done].
      rewrite lookup_insert_ne //. intros E. destruct Hl'. congruence.
  - intros id' o' H'. split_lookup H'; [by apply (ak_requests0 _ o)|by eauto].
  - intros k id' H'. destruct (ak_indexed0 k id' H') as (o' & Ho' & Hk').
    destruct (decide (id = id')) as [<-|].
    + rewrite lookup_insert_eq. eexists. split; [done|]. rewrite Ho in Ho'. by injection Ho' as <-.
    + exists o'. by rewrite lookup_insert_ne.
  - rewrite map_size_insert_Some; [by rewrite Ho|done].
Qed.

(** Two offers with the same request key are the same offer. *)
Lemma offer_key_unique a id id' o o' :
  alloc_ok p a → al_offers a !! id = Some o → al_offers a !! id' = Some o' →
  offer_key o = offer_key o' → id = id'.
Proof.
  intros Hok Ho Ho' Hk. pose proof (ak_requests _ _ Hok _ _ Ho) as H1.
  pose proof (ak_requests _ _ Hok _ _ Ho') as H2. congruence.
Qed.

(** The slot of a collected offer was given back before. *)
Lemma collectable_idle a id o t :
  alloc_ok p a → al_offers a !! id = Some o → collectable a t o = true →
  of_status o ≠ offerOutstanding ∧
  ∀ e, al_executions a !! of_execution o = Some e → of_status o = offerAssigned ∧ ex_offerID e = id ∧ ex_released e = true.
Proof.
  intros Hok Ho Hc. unfold collectable in Hc. destruct (of_status o) eqn:Hs; try done; (split; [done|]); intros e He.
  - destruct (ak_assigned _ _ Hok _ _ Ho Hs) as (e' & He' & Hid). rewrite He in He'. injection He' as <-.
    rewrite He in Hc. rewrite (eo_released _ _ (ak_exec _ _ Hok _ _ He)).
    apply andb_true_iff in Hc as [-> _]. done.
  - rewrite (oo_execution _ _ (ak_offer _ _ Hok _ _ Ho)) in He; [congruence|].
    by destruct (eo_id _ _ (ak_exec _ _ Hok _ _ He)).
  - rewrite (oo_execution _ _ (ak_offer _ _ Hok _ _ Ho)) in He; [congruence|].
    by destruct (eo_id _ _ (ak_exec _ _ Hok _ _ He)).
Qed.

Lemma collected_ok a id o t :
  alloc_ok p a → al_offers a !! id = Some o → collectable a t o = true →
  alloc_ok p (mkAllocator (al_highWater a) (<[id := bury t id o]> (al_tombstones a)) (al_capacity a)
      (delete id (al_offers a)) (delete (offer_key o) (al_requests a)) (delete (of_execution o) (al_executions a))
      (al_replay a) (al_tunnels a)).
Proof.
  intros Hok Ho Hc. pose proof (collectable_idle a id o t Hok Ho Hc) as [Hs Hex].
  pose proof (offer_key_unique a) as Huniq. pose proof Hok as Hok0. destruct Hok. split; simpl; try done.
  - intros c. rewrite ak_used0. unfold demand. simpl. rewrite (mcount_delete _ _ _ o) //.
    assert (outstanding_in c o = false) as -> by (unfold outstanding_in; by rewrite bool_decide_eq_false_2).
    destruct (al_executions a !! of_execution o) as [e|] eqn:He; [|rewrite delete_id //=; lia].
    rewrite (mcount_delete _ _ _ e) //. destruct (Hex e eq_refl) as (_ & _ & Hr).
    assert (active_in c e = false) as -> by (unfold active_in; by rewrite Hr). simpl. lia.
  - intros id' o' H'. split_lookup H'. by eauto.
  - intros id' e' H'. split_lookup H'. by eauto.
  - intros id' o' H' Hs'. split_lookup H'. destruct (ak_assigned0 _ _ H' Hs') as (e' & He' & Hid').
    exists e'. split; [|done]. rewrite lookup_delete_ne //. intros E. rewrite -E in He'.
    destruct (Hex _ He') as (_ & ? & _). congruence.
  - intros id' e' H'. split_lookup H'. destruct (ak_linked0 _ _ H') as (o' & Ho' & Hl').
    exists o'. split; [|done]. rewrite lookup_delete_ne //. intros E. destruct Hl'. congruence.
  - intros id' o' H'. split_lookup H'. rewrite lookup_delete_ne; [|by eauto]. intros E.
    by pose proof (Huniq _ _ _ _ Hok0 Ho H' E).
  - intros k id' H'. split_lookup H'. destruct (ak_indexed0 k id' H') as (o' & Ho' & Hk').
    exists o'. split; [|done]. rewrite lookup_delete_ne //. congruence.
  - rewrite map_size_delete_Some; [by rewrite Ho|].
    assert (size (al_offers a) ≠ 0%nat) by (apply map_size_non_empty_iff; intros E; by rewrite E lookup_empty in Ho).
    rewrite map_size_insert. case_match; unfold Datatypes.id; lia.
  - intros id' d H'. split_lookup H'; [done|by eauto].
Qed.

Lemma transition_ok s a a' : transition p s a a' → alloc_ok p a → alloc_ok p a'.
Proof.
  intros Ht Hok. destruct Ht.
  - unfold advance. case_match; [|done]. by destruct Hok.
  - destruct Hok. split; simpl; try done; [|intros c; by rewrite H0 ak_used0].
    split; rewrite H; [apply ak_ledger0|]. intros c. rewrite H0. apply (lk_used _ ak_ledger0).
  - by destruct Hok.
  - by destruct Hok.
  - by apply offer_made_ok.
  - by apply release_ok.
  - by apply assigned_ok.
  - by apply (phase_ok a id e).
  - apply (phase_ok a id e); try done. by destruct (ak_exec _ _ Hok _ _ H).
  - by apply finish_ok'.
  - by apply collected_ok.
  - destruct Hok. split; simpl; try done. lia.
Qed.

Lemma replay_finish_ok a key responses err :
  alloc_ok p a → alloc_ok p (set_replay a (finish (al_replay a) key responses err)).
Proof. intros []. split; simpl; try done. by apply finish_ok. Qed.

Lemma transitions_ok s a a' : rtc (transition p s) a a' → alloc_ok p a → alloc_ok p a'.
Proof. induction 1; eauto using transition_ok. Qed.
End preservation.
