(* ===== verification/Refinement.v ===== *)
(** * The handlers implement the abstract transitions

    For every locked segment of every handler: from a state that satisfies the
    invariant, whatever the environment answers, the state moves by abstract
    transitions only, the disk holds the snapshot of a state that satisfies the
    invariant, and nothing panics. *)

From S2P Require Import Prelude GoStrings Ordering Wire Errors Protocol Feedback Capacity Admission Replay Registry.
From S2P Require Import Utf8 AllocTypes Snapshot AllocOps Commands Maintenance Logic Invariant.

Section refinement.
Context `{Externals, Codec, Env} (p : Settings) (sweeper : bool).

(** The disk holds the snapshot of a state that satisfies the invariant. *)
Definition disk_ok (c : core) : Prop :=
  ∀ s, c_disk c = Some s → ∃ a, alloc_ok p a ∧ encode_state (p_identity p) a = Ok s.

Record good (c : core) : Prop := {
  gd_alloc : alloc_ok p (c_alloc c);
  gd_disk : disk_ok c;
  gd_panicked : c_panicked c = false
}.

(** The disk is unchanged, or holds the snapshot of a state passed through. *)
Definition disk_moves (c c' : core) : Prop :=
  c_disk c' = c_disk c ∨
  ∃ a s, rtc (transition p sweeper) (c_alloc c) a ∧ encode_state (p_identity p) a = Ok s ∧ c_disk c' = Some s.

(** One segment: the invariant holds at its end, the state moved by abstract
    transitions, and so did the disk. *)
Definition goes (c c' : core) : Prop :=
  good c' ∧ rtc (transition p sweeper) (c_alloc c) (c_alloc c') ∧ disk_moves c c'.

Lemma goes_refl c : good c → goes c c.
Proof. intros Hg. split; [done|]. split; [apply rtc_refl|by left]. Qed.

Lemma goes_trans c1 c2 c3 : goes c1 c2 → goes c2 c3 → goes c1 c3.
Proof.
  intros (_ & H12 & D12) (Hg & H23 & D23). split; [done|]. split; [etrans; [exact H12|exact H23]|].
  destruct D23 as [E|(a & s & Ha & Hs & Hd)]; [by rewrite /disk_moves E|].
  right. exists a, s. split; [etrans; [exact H12|exact Ha]|done].
Qed.

Lemma goes_good c c' : goes c c' → good c'.
Proof. by intros [? _]. Qed.

(** A change of the allocator alone. *)
Lemma goes_core c c' :
  good c → c_disk c' = c_disk c → c_panicked c' = c_panicked c →
  rtc (transition p sweeper) (c_alloc c) (c_alloc c') → goes c c'.
Proof.
  intros [Ha Hd Hp] Hd' Hp' Ht. split; [|split; [done|by left]]. split.
  - exact (transitions_ok _ _ _ _ Ht Ha).
  - intros s. rewrite Hd'. apply Hd.
  - congruence.
Qed.

Lemma goes_update c f :
  good c → rtc (transition p sweeper) (c_alloc c) (f (c_alloc c)) → goes c (c_update c f).
Proof. intros Hg Ht. by apply goes_core. Qed.

(** A change that is undone. *)
Lemma goes_undo c f g :
  good c → g (f (c_alloc c)) = c_alloc c → goes c (c_update (c_update c f) g).
Proof. intros Hg Ht. apply goes_core; [done..|]. simpl. rewrite Ht. apply rtc_refl. Qed.

Lemma goes_saves c c' : good c → saves p c c' → goes c c'.
Proof.
  intros [Ha Hd Hp]. unfold saves. destruct (p_store p); [|by intros ->; apply goes_refl].
  intros (s & Hs & ->). split; [|split; [apply rtc_refl|]].
  - split; simpl; [done| |done]. intros s' [= <-]. by exists (c_alloc c).
  - right. exists (c_alloc c), s. split; [apply rtc_refl|done].
Qed.

Lemma wp_goes_persist c0 c (Q : error → core → Prop) :
  goes c0 c → (∀ e, is_err ErrStore e = true → Q (Some e) c) →
  (∀ c', goes c0 c' → saves p c c' → Q None c') → wp (persistLocked p) Q c.
Proof.
  intros Hg He Hok. apply wp_persistLocked; [done|]. intros c' Hs. apply Hok; [|done].
  apply (goes_trans c0 c); [done|]. apply goes_saves; [exact (goes_good _ _ Hg)|done].
Qed.

(** ** Offer expiry *)

Lemma expire_fold t l acc :
  NoDup l.*1 → (∀ k o, (k, o) ∈ l → al_offers acc.1 !! k = Some o) →
  rtc (transition p sweeper) acc.1 (fold_left (expire_one t) l acc).1.
Proof.
  revert acc. induction l as [|[k o] l IH]; intros [a n] Hnd Hin; simpl; [apply rtc_refl|].
  apply NoDup_cons in Hnd as [Hk Hnd]. simpl in *.
  assert (al_offers a !! k = Some o) as Ho by (apply Hin; apply elem_of_cons; by left).
  assert (∀ k' o', (k', o') ∈ l → al_offers a !! k' = Some o' ∧ k' ≠ k) as Hrest.
  { intros k' o' Hl. split; [apply Hin; apply elem_of_cons; by right|]. intros ->.
    apply Hk. apply list_elem_of_fmap. by exists (k, o'). }
  destruct (offer_lapsed o t) eqn:Hl.
  - eapply rtc_l; [|apply IH; [done|]].
    + apply (tr_release p sweeper a k o offerExpired); [done| |by left].
      unfold offer_lapsed in Hl. apply andb_true_iff in Hl as [Hl _]. by apply bool_decide_eq_true in Hl.
    + simpl. intros k' o' Hl'. destruct (Hrest k' o' Hl') as [? ?]. rewrite lookup_insert_ne //; congruence.
  - apply (IH (a, n)); [done|]. simpl. intros k' o' Hl'. by apply Hrest.
Qed.

Lemma expire_transitions t a : rtc (transition p sweeper) a (expire_offers t a).1.
Proof.
  apply (expire_fold t _ (a, 0)); [apply NoDup_fst_map_to_list|].
  intros k o. by rewrite elem_of_map_to_list.
Qed.

Lemma wp_goes_expire c0 c t (Q : Z → core → Prop) :
  goes c0 c → (∀ n c', goes c0 c' → Q n c') → wp (expireOffersLocked t) Q c.
Proof.
  intros Hg HQ. apply wp_expireOffersLocked. intros n. apply HQ. apply (goes_trans c0 c); [done|].
  apply goes_update; [exact (goes_good _ _ Hg)|]. apply expire_transitions.
Qed.

Lemma wp_goes_clock c0 c (Q : time → core → Prop) :
  goes c0 c → (∀ t c', goes c0 c' → t = al_highWater (c_alloc c') → Q t c') → wp effectiveNowLocked Q c.
Proof.
  intros Hg HQ. apply wp_effectiveNowLocked. intros t. apply HQ; [|done]. apply (goes_trans c0 c); [done|].
  apply goes_update; [exact (goes_good _ _ Hg)|]. apply rtc_once, tr_clock.
Qed.

(** What a built response carries. *)
Definition answers (corr : string) (t : time) (payload : Payload) (r : result gerror Envelope) : Prop :=
  ∀ e, r = Ok e → env_payload e = Some payload ∧ env_correlation_id e = corr ∧ env_sender e = p_identity p ∧
    env_sent_at e = Some (ts_new t) ∧ env_message_id e ≠ "".

Lemma wp_answer_respond corr t payload (Q : result gerror Envelope → core → Prop) c :
  (∀ r, answers corr t payload r → Q r c) → wp (respond p corr t payload) Q c.
Proof.
  intros HQ. apply wp_respond; [intros e; by apply HQ|].
  intros mid Hmid. apply HQ. by intros e [= <-].
Qed.

Lemma wp_answer_state r corr t (Q : result gerror Envelope → core → Prop) c :
  (∀ res, (∀ e, res = Ok e → is_Some r) →
     (∀ rec, r = Some rec → answers corr t (P_ExecutionState (Some (stateFromRecord rec))) res) → Q res c) →
  wp (stateEnvelopeLocked p r corr t) Q c.
Proof.
  intros HQ. destruct r as [rec|]; simpl.
  - apply wp_answer_respond. intros res Hr. apply HQ; [by eauto|]. by intros ? [= <-].
  - apply wp_ret, HQ; done.
Qed.
End refinement.

#[export] Hint Resolve goes_refl goes_good : r1s.

(** Symbolic execution of a handler under [wp]: one rule per head. *)
Ltac wp_step :=
  lazymatch goal with
  | |- wp (mret _) _ _ => apply wp_ret
  | |- wp (_ ≫= _) _ _ => apply wp_bind
  | |- wp get _ _ => apply wp_get
  | |- wp (modify _) _ _ => apply wp_modify
  | |- wp (put _) _ _ => apply wp_put
  | |- wp now _ _ => apply wp_now; intros ?
  | |- wp newID _ _ => apply wp_newID; intros ?
  | |- wp randomID _ _ => apply wp_randomID; intros ?
  | |- wp ctx_Err _ _ => apply wp_ctx_Err; intros ?
  | |- wp logs_Read _ _ => apply wp_logs_Read; intros ?
  | |- wp panic _ _ => apply wp_panic
  | |- wp (finishLocked _ _ _ _ _ _ _) _ _ => apply wp_modify
  | |- wp (observe _ _) _ _ => apply wp_observe
  | |- wp (observe_all _ _) _ _ => apply wp_observe_all
  | |- wp (syncMetricsLocked _) _ _ => apply wp_syncMetricsLocked
  | |- wp (observeFinishedMetricsLocked _ _) _ _ => apply wp_observeFinished
  | |- wp (from_option (observeFinishedMetricsLocked _) _ _) _ _ => apply wp_observeFinished_opt
  | |- wp (reply_error _ _ _) _ _ => apply wp_reply_error; intros ? ?
  | |- wp (respond _ _ _ _) _ _ => apply wp_answer_respond; intros ? ?
  | |- wp (offerEnvelopeLocked _ _ _ _) _ _ => apply wp_answer_respond; intros ? ?
  | |- wp (stateEnvelopeLocked _ _ _ _) _ _ => apply wp_answer_state; intros ? ? ?
  | |- wp (if ?b then _ else _) _ _ => destruct b eqn:?
  | |- wp (match ?x with _ => _ end) _ _ => destruct x eqn:?
  | |- wp (let _ := _ in _) _ _ => cbv zeta
  end.
Ltac wp_steps := repeat (wp_step; cbv beta zeta).

(** The result of a handler that answers with a built response. *)
Lemma reply_with_ok (r : result gerror Envelope) : (reply_with r).2 = None → ∃ e, r = Ok e ∧ (reply_with r).1 = [e].
Proof. destruct r as [e|]; [|done]. by exists e. Qed.
