(* ===== verification/Handlers.v ===== *)
(** * The command handlers refine the abstract transitions *)

From S2P Require Import Prelude GoStrings Ordering Wire Errors Protocol Feedback Capacity Admission Replay Registry.
From S2P Require Import Utf8 AllocTypes Snapshot AllocOps Commands Maintenance Logic Invariant Refinement.

Section handlers.
Context `{Externals, Codec, Env} (p : Settings).
Abbreviation goes := (Refinement.goes p false).
Abbreviation good := (Refinement.good p).

(** ** Admission *)

Lemma admit_offer a owner :
  admitLocked (p_admission p) a owner false = None → offer_quota_left p a owner.
Proof.
  unfold admitLocked, offer_quota_left. destruct (client_allowed _ _); [|done]. simpl.
  destruct (_ && _) eqn:Hq; [done|]. intros _. split; [done|]. lia.
Qed.

Lemma admit_execution a owner :
  admitLocked (p_admission p) a owner true = None → execution_quota_left p a owner.
Proof.
  unfold admitLocked, execution_quota_left. destruct (client_allowed _ _); [|done]. simpl.
  destruct (_ && _) eqn:Hq; [done|]. intros _. split; [done|]. lia.
Qed.

(** What a request that is not refused has passed. *)
Lemma request_accepted a sender request :
  request_refused p a sender request = None →
  Z.of_nat (size (al_offers a)) * 2 + Z.of_nat (size (al_tombstones a)) + 2 ≤ p_maxRecords p ∧
  offer_quota_left p a sender ∧ available (al_capacity a) (er_resource_class request) ≠ 0 ∧
  PlacementMatches (er_constraints request) (p_node p) = true.
Proof.
  unfold request_refused. case_match; [done|]. case_match eqn:Hb; [done|].
  destruct (admitLocked _ _ _ _) eqn:Ha; [done|]. case_match eqn:Hav; [done|].
  destruct (PlacementMatches _ _) eqn:Hp; [|done]. intros _.
  split_and!; [lia|by apply admit_offer|lia|done].
Qed.

Lemma requested_offer_None a key :
  alloc_ok p a → requested_offer a key = None → al_requests a !! key = None.
Proof.
  intros Hok. unfold requested_offer. destruct (al_requests a !! key) as [id|] eqn:Hk; [|done].
  destruct (ak_indexed _ _ Hok _ _ Hk) as (o & -> & _). done.
Qed.

(** ** Requests *)

(** Two ledgers that count the same slots. *)
Definition same_slots (l l' : capacityLedger) : Prop :=
  limits l' = limits l ∧ ∀ c, mget 0 (used l') c = mget 0 (used l) c.

Lemma transition_same_slots a cap : same_slots (al_capacity a) cap → transition p false a (set_capacity a cap).
Proof. intros [Hl Hu]. by apply tr_used. Qed.

(** Dropping a fresh offer and its slot again. *)
Lemma undo_offer a key id o cap :
  alloc_ok p a → al_offers a !! id = None → al_requests a !! key = None →
  reserve (al_capacity a) (eo_resource_class (of_offer o)) = Ok cap →
  let a1 := set_capacity (set_requests (put_offer a id o) (<[key := id]> (al_requests a))) cap in
  let a2 := drop_offer key id a1 in
  ∃ cap', set_capacity a2 (release (al_capacity a2) (eo_resource_class (of_offer o))) = set_capacity a cap' ∧
    same_slots (al_capacity a) cap'.
Proof.
  intros Hok Hid Hkey Hr a1 a2. destruct a as [hw tomb cap0 offers requests execs replay tunnels].
  unfold a2, a1, drop_offer, put_offer, set_capacity, set_requests, set_offers in *. simpl in *.
  rewrite !delete_insert_id //.
  pose proof (reserve_used _ _ _ (ak_ledger _ _ Hok) Hr) as (Hlim & Hlt & Hused). simpl in *.
  pose proof (ak_ledger _ _ Hok) as Hl. simpl in Hl.
  assert (ledger_ok cap) as Hcap.
  { split; rewrite Hlim; [apply Hl|]. intros c. rewrite Hused. pose proof (lk_used _ Hl c).
    counters. }
  pose proof (lk_used _ Hl (eo_resource_class (of_offer o))).
  destruct (release_used cap (eo_resource_class (of_offer o)) Hcap) as [Hlim' Hused'].
  { rewrite Hused bool_decide_eq_true_2 //=. lia. }
  eexists. split; [done|]. split; [congruence|]. intros c. rewrite Hused' Hused. lia.
Qed.

Lemma commit_offer_goes c id o response :
  good c → al_offers (c_alloc c) !! id = None → al_requests (c_alloc c) !! offer_key o = None → offer_ok id o →
  of_status o = offerOutstanding →
  Z.of_nat (size (al_offers (c_alloc c))) * 2 + Z.of_nat (size (al_tombstones (c_alloc c))) + 2 ≤ p_maxRecords p →
  offer_quota_left p (c_alloc c) (of_client o) →
  PlacementMatches (er_constraints (of_request o)) (p_node p) = true →
  wp (commit_offer p (offer_key o) id o response)
     (fun r c' => goes c c' ∧ (r.2 = None → r.1 = [response] ∧ al_offers (c_alloc c') !! id = Some o ∧
                    ∃ c1, saves p c1 c' ∧ c_alloc c1 = c_alloc c')) c.
Proof.
  intros Hg Hid Hkey Ho Hs Hb Hq Hp. unfold commit_offer. wp_steps.
  - simpl in *. match goal with H : reserve _ _ = Ok ?cap |- _ => rename H into Hr, cap into cap' end.
    set (al := c_alloc c) in *.
    set (a1 := set_capacity (set_requests (put_offer al id o) (<[offer_key o := id]> (al_requests al))) cap').
    assert (rtc (transition p false) al a1) as Ht by (by apply rtc_once, tr_offer).
    set (c1 := c_update _ _).
    assert (c_alloc c1 = a1) as Ha1 by done.
    assert (goes c c1) as Hg1 by (apply goes_core; try done; by rewrite Ha1).
    apply (wp_goes_persist p false c c1); [done|..].
    + intros e He. wp_steps. split; [|done]. apply goes_core; [done..|].
      destruct (undo_offer al (offer_key o) id o cap') as (cap2 & Heq & Hsame); [apply Hg|done..|].
      apply rtc_once. simpl in *. rewrite Heq. by apply transition_same_slots.
    + intros c2 Hg2 Hs2. wp_steps. split; [done|]. intros _. split; [done|].
      pose proof (saves_alloc _ _ _ Hs2) as Hc2. split; [|by exists c1].
      rewrite Hc2 Ha1. apply lookup_insert_eq.
  - split; [|done]. apply goes_core; [done..|]. simpl. destruct (c_alloc c) as []. simpl in *.
    unfold drop_offer, set_offers, set_requests. simpl. rewrite !delete_insert_id //. apply rtc_refl.
Qed.
(** An offer response, and the stored record it answers with. *)
Definition offered (envelope : Envelope) (request : ExecutionRequest) (rs : list Envelope) (a : Allocator) : Prop :=
  ∃ o e, rs = [e] ∧ env_payload e = Some (P_ExecutionOffer (Some (of_offer o))) ∧
    env_correlation_id e = env_message_id envelope ∧ env_sender e = p_identity p ∧
    al_offers a !! eo_offer_id (of_offer o) = Some o ∧ of_client o = env_sender envelope ∧ of_request o = request.

Lemma offer_lookup a id o : alloc_ok p a → al_offers a !! id = Some o → al_offers a !! eo_offer_id (of_offer o) = Some o.
Proof. intros Hok Ho. by rewrite (oo_offer_id _ _ (ak_offer _ _ Hok _ _ Ho)). Qed.

Lemma authorityKey_offer o : offer_key o = authorityKey (of_client o) (eo_request_id (of_offer o)).
Proof. done. Qed.

(** The record a repeated request finds, when the sender is its client. *)
Lemma repeat_goes c0 c envelope request o t :
  goes c0 c → requested_offer (c_alloc c) (authorityKey (env_sender envelope) (er_request_id request)) = Some o →
  wp (repeat_request p envelope request o t) (fun r c' =>
    goes c0 c' ∧ (r.2 = None → of_request o = request ∧
      ∃ e, r.1 = [e] ∧ env_payload e = Some (P_ExecutionOffer (Some (of_offer o))) ∧
        env_correlation_id e = env_message_id envelope ∧ env_sender e = p_identity p)) c.
Proof.
  intros Hg Ho. unfold repeat_request. wp_steps; [done|done|done|]. guards.
  split; [done|]. intros (e & He & ->)%reply_with_ok. split; [done|]. exists e. unfold answers in *. naive_solver.
Qed.

Lemma handleRequest_goes c envelope request :
  good c → er_request_id request ≠ "" →
  wp (handleRequest p envelope request) (fun _ c' => goes c c') c.
Proof.
  intros Hg Hne. unfold handleRequest. apply wp_bind, wp_now. intros t.
  apply wp_bind, (wp_goes_expire p false c c); [by apply goes_refl|]. intros n c1 Hg1.
  pose proof (gd_alloc _ _ (goes_good _ _ _ _ Hg1)) as Hok.
  apply wp_bind, wp_get, wp_bind, wp_observe. cbv zeta.
  destruct (requested_offer _ _) as [o|] eqn:Hreq.
  { eapply wp_mono; [by apply (repeat_goes c c1)|]. by intros r c' [? _]. }
  destruct (request_refused _ _ _ _) eqn:Href; [by apply wp_ret|].
  apply request_accepted in Href as (Hb & Hq & Hav & Hp).
  apply wp_bind, wp_newID. intros id. destruct (bool_decide (id = "")) eqn:Hid; [by apply wp_ret|].
  apply bool_decide_eq_false in Hid. destruct (al_offers (c_alloc c1) !! id) eqn:Hnone; [by apply wp_ret|].
  apply wp_bind, wp_answer_respond. intros [response|e] _; [|by apply wp_ret].
  set (o := fresh_offer_record _ _ _ _).
  change (authorityKey (env_sender envelope) (er_request_id request)) with (offer_key o).
  eapply wp_mono; [apply commit_offer_goes; try done|].
  - eauto with r1s.
  - by apply requested_offer_None.
  - intros r c' [Hg' _]. exact (goes_trans _ _ _ _ _ Hg1 Hg').
Qed.

(** ** Inspection *)

Lemma handleInspect_pure c envelope inspect :
  wp (handleInspect p envelope inspect) (fun r c' => c' = c ∧ (r.2 = None →
    ∃ record e, al_executions (c_alloc c) !! ei_execution_id inspect = Some record ∧
      ex_client record = env_sender envelope ∧ r.1 = [e] ∧
      env_payload e = Some (P_ExecutionState (Some (stateFromRecord record))))) c.
Proof.
  unfold handleInspect. wp_steps; [done| |done]. guards.
  split; [done|]. intros (e' & He & ->)%reply_with_ok. eexists _, e'. unfold answers in *. naive_solver.
Qed.
(** ** Assignment *)

(** What is on the disk is the current state. *)
Definition committed (c : core) : Prop := ∃ c0, saves p c0 c ∧ c_alloc c0 = c_alloc c.

(** A committed new execution, ready to be started. *)
Definition starting (envelope : Envelope) (assign : ExecutionAssign) (request : StartRequest) (a : Allocator) : Prop :=
  ∃ record, al_executions a !! ea_execution_id assign = Some record ∧ request = startRequestLocked record ∧
    ex_phase record = PHASE_STARTING ∧ ex_client record = env_sender envelope ∧
    er_request_id (ex_request record) = ea_request_id assign ∧ ex_offerID record = ea_offer_id assign.

Lemma fresh_execution_linked offer id t : linked id (fresh_execution p offer id t) (set_assignment offer offerAssigned id).
Proof. by split. Qed.

Lemma undo_assignment a offerID offer id record :
  al_offers a !! offerID = Some offer → of_status offer = offerOutstanding → of_execution offer = "" →
  al_executions a !! id = None →
  let a1 := put_execution (put_offer a offerID (set_assignment offer offerAssigned id)) id record in
  put_offer (set_executions a1 (delete id (al_executions a1))) offerID (set_assignment offer offerOutstanding "") = a.
Proof.
  intros Ho Hs He Hnone. destruct a as [hw tomb cap offers requests execs replay tunnels].
  unfold put_execution, put_offer, set_offers, set_executions in *. simpl in *.
  rewrite delete_insert_id // insert_insert_eq.
  assert (set_assignment offer offerOutstanding "" = offer) as ->
    by (destruct offer; unfold set_assignment; simpl in *; congruence).
  by rewrite insert_id.
Qed.

Lemma commit_assignment_goes c envelope assign offer t :
  good c → al_offers (c_alloc c) !! ea_offer_id assign = Some offer → of_status offer = offerOutstanding →
  of_client offer = env_sender envelope → eo_request_id (of_offer offer) = ea_request_id assign →
  ea_execution_id assign ≠ "" → al_executions (c_alloc c) !! ea_execution_id assign = None →
  execution_quota_left p (c_alloc c) (of_client offer) →
  PlacementMatches (er_constraints (of_request offer)) (p_node p) = true →
  wp (commit_assignment p (ea_offer_id assign) offer (fresh_execution p offer (ea_execution_id assign) t))
     (fun r c' => goes c c' ∧ match r with
                              | inl rep => rep.2 ≠ None
                              | inr request => starting envelope assign request (c_alloc c') ∧ committed c'
                              end) c.
Proof.
  intros Hg Ho Hs Hcl Hreq Hne Hnone Hq Hp. pose proof (gd_alloc _ _ Hg) as Hok.
  pose proof (ak_offer _ _ Hok _ _ Ho) as [].
  unfold commit_assignment. apply wp_bind, wp_modify. set (c1 := c_update _ _).
  assert (goes c c1) as Hg1.
  { apply goes_core; [done..|]. apply rtc_once.
    apply (tr_assign p false (c_alloc c) (ea_offer_id assign) offer (fresh_execution p offer (ea_execution_id assign) t));
      try done; by apply fresh_execution_linked. }
  apply wp_bind, (wp_goes_persist p false c c1); [done|..].
  - intros e He. wp_steps. split; [|done]. apply goes_core; [done..|].
    change (c_alloc (c_update c1 _)) with
      (let a1 := c_alloc c1 in put_offer (set_executions a1 (delete (ea_execution_id assign) (al_executions a1)))
                                 (ea_offer_id assign) (set_assignment offer offerOutstanding "")).
    unfold c1. simpl c_alloc. cbv zeta. rewrite undo_assignment //; [|apply rtc_refl].
    apply oo_execution. congruence.
  - intros c2 Hg2 Hs2. wp_steps. split; [done|].
    pose proof (saves_alloc _ _ _ Hs2) as Hc2. split; [|by exists c1].
    exists (fresh_execution p offer (ea_execution_id assign) t). rewrite Hc2. simpl.
    rewrite lookup_insert_eq. split_and!; try done; congruence.
Qed.

(** The part of [handleAssign] before the runtime call. *)
Lemma assign_begin_goes c envelope assign :
  good c → ea_execution_id assign ≠ "" →
  wp (assign_begin p envelope assign)
     (fun r c' => goes c c' ∧ match r with
                              | inl rep => rep.2 = None → ∃ e, rep.1 = [e]
                              | inr request => starting envelope assign request (c_alloc c') ∧ committed c'
                              end) c.
Proof.
  intros Hg Hne. unfold assign_begin. apply wp_bind, wp_now. intros t.
  apply wp_bind, (wp_goes_expire p false c c); [by apply goes_refl|]. intros n c1 Hg1.
  pose proof (gd_alloc _ _ (goes_good _ _ _ _ Hg1)) as Hok.
  apply wp_bind, wp_get. cbv zeta. wp_steps; guards; try done.
  - exfalso. match goal with H : al_executions _ !! _ = Some _ |- _ => rename H into Hex end.
    match goal with H : al_offers _ !! _ = Some ?o |- _ => pose proof (offer_lookup _ _ _ Hok H) as Hself end.
    destruct (ak_linked _ _ Hok _ _ Hex) as (o' & Ho' & Hl).
    match goal with H : ex_offerID _ = _ |- _ => rewrite H in Ho' end.
    rewrite Hself in Ho'. injection Ho' as <-. destruct Hl. congruence.
  - eapply wp_mono; [apply (commit_assignment_goes c1 envelope assign); try done|].
    + eauto with r1s.
    + match goal with H : of_client _ = _ |- _ => rewrite H end. by apply admit_execution.
    + intros [rep|request] c' [Hg' Hpost]; (split; [exact (goes_trans _ _ _ _ _ Hg1 Hg')|]); [|done].
      intros Hnone. by destruct Hpost.
  - split; [done|]. intros (e & He & ->)%reply_with_ok. by exists e.
Qed.
(** ** Phase changes *)

Lemma goes_finish c0 c id e phase detail code t :
  goes c0 c → al_executions (c_alloc c) !! id = Some e → Terminal (ex_phase e) = false → Terminal phase = true →
  goes c0 (c_update c (finish_record p id e phase detail code t)).
Proof.
  intros Hg He Ht Hp. apply (goes_trans p false c0 c); [done|]. apply goes_update; [eauto with r1s|].
  by apply rtc_once, tr_finish.
Qed.

Lemma goes_phase c0 c id e phase detail t :
  goes c0 c → al_executions (c_alloc c) !! id = Some e → Terminal (ex_phase e) = false →
  Terminal phase = false → known_phase phase = true →
  goes c0 (c_update c (fun a => put_execution a id (set_phase e phase detail t (u64 (ex_revision e + 1))))).
Proof.
  intros Hg He Ht Hp Hk. apply (goes_trans p false c0 c); [done|]. apply goes_update; [eauto with r1s|].
  apply rtc_once, (tr_phase p false _ id e); done.
Qed.

Lemma put_execution_undo a id e e' : al_executions a !! id = Some e → put_execution (put_execution a id e') id e = a.
Proof.
  intros He. destruct a. unfold put_execution, set_executions in *. simpl in *.
  by rewrite insert_insert_eq insert_id.
Qed.

Lemma put_execution_lookup a id e : al_executions (put_execution a id e) !! id = Some e.
Proof. apply lookup_insert_eq. Qed.

Lemma finish_record_lookup a id e phase detail code t :
  ∃ e', al_executions (finish_record p id e phase detail code t a) !! id = Some e' ∧ ex_phase e' = phase.
Proof.
  unfold finish_record. destruct (ex_released e); simpl; rewrite lookup_insert_eq; by eexists.
Qed.

Lemma running_starting e : ex_phase e = PHASE_STARTING → Terminal (ex_phase e) = false.
Proof. by intros ->. Qed.
Lemma running_cancelling e : ex_phase e = PHASE_CANCELLING → Terminal (ex_phase e) = false.
Proof. by intros ->. Qed.

Lemma commit_state_goes c0 c envelope id finished :
  goes c0 c → wp (commit_state p envelope id finished) (fun _ c' => goes c0 c') c.
Proof.
  intros Hg. unfold commit_state. wp_steps. apply (wp_goes_persist p false c0 c); [done|..].
  - intros e He. wp_steps; done.
  - intros c' Hg' _. wp_steps; done.
Qed.

(** The part of [handleAssign] after the runtime call. *)
Lemma assign_finish_goes c envelope id startErr :
  good c → is_Some (al_executions (c_alloc c) !! id) →
  wp (assign_finish p envelope id startErr)
     (fun r c' => goes c c' ∧ (r.2 = None → ∃ e, r.1 = [e])) c.
Proof.
  intros Hg [current Hc]. unfold assign_finish. apply wp_bind, wp_get. rewrite Hc.
  eapply wp_bind, (wp_mono _ (fun _ c' => goes c c')).
  - destruct startErr as [e|]; (destruct (decide _) as [Hs|]; [|by apply wp_ret, goes_refl]); wp_steps.
    + apply goes_finish; [by apply goes_refl|done|by apply running_starting|done].
    + apply goes_phase; [by apply goes_refl|done|by apply running_starting|done..].
  - intros finished c1 Hg1. eapply wp_bind, wp_mono; [by apply (commit_state_goes c)|].
    intros [[r|e] [pe|]] c2 Hg2; wp_steps; (split; [done|]); try done; destruct startErr; intros _; by exists r.
Qed.

(** ** Cancellation *)

Lemma commit_cancelling_goes c id e detail t :
  good c → al_executions (c_alloc c) !! id = Some e → Terminal (ex_phase e) = false →
  wp (commit_cancelling p id e detail t)
     (fun r c' => goes c c' ∧
        match r with
        | None => c_alloc c' = put_execution (c_alloc c) id (set_phase e PHASE_CANCELLING detail t (u64 (ex_revision e + 1)))
                  ∧ committed c'
        | Some _ => c_alloc c' = c_alloc c
        end) c.
Proof.
  intros Hg He Ht. unfold commit_cancelling. apply wp_bind, wp_modify. set (c1 := c_update _ _).
  assert (goes c c1) as Hg1 by (apply goes_phase; try done; by apply goes_refl).
  apply wp_bind, (wp_goes_persist p false c c1); [done|..].
  - intros err Herr. wp_steps.
    assert (put_execution (c_alloc c1) id e = c_alloc c) as Hundo by (by apply put_execution_undo).
    split; [|done]. apply goes_core; [done..|]. cbn. cbn in Hundo. rewrite Hundo. apply rtc_refl.
  - intros c2 Hg2 Hs2. wp_steps. split; [done|]. pose proof (saves_alloc _ _ _ Hs2) as Hc2.
    split; [by rewrite Hc2|by exists c1].
Qed.

Lemma cancel_begin_goes c envelope cancel :
  good c →
  wp (cancel_begin p envelope cancel)
     (fun r c' => goes c c' ∧
        match r with
        | inl rep => rep.2 = None → ∃ e, rep.1 = [e]
        | inr s => ∃ record, al_executions (c_alloc c') !! sp_id s = Some record ∧ ex_phase record = PHASE_CANCELLING ∧
            sp_id s = ec_execution_id cancel ∧ ex_client record = env_sender envelope ∧ committed c' ∧
            Terminal (sp_previousPhase s) = false ∧ known_phase (sp_previousPhase s) = true
        end) c.
Proof.
  intros Hg. pose proof (gd_alloc _ _ Hg) as Hok. unfold cancel_begin. wp_steps; guards.
  - split; [by apply goes_refl|done].
  - split; [by apply goes_refl|]. intros (e' & He & ->)%reply_with_ok. by exists e'.
  - match goal with H : al_executions _ !! _ = Some ?r |- _ => rename H into He, r into record end.
    eapply wp_mono; [by apply commit_cancelling_goes|].
    intros [err|] c1 [Hg1 Hpost]; wp_steps; (split; [done|]); [done|]. simpl.
    destruct (ak_exec _ _ Hok _ _ He) as []. destruct Hpost as [Hl Hc]. rewrite eo_ex_id Hl.
    eexists. split; [apply put_execution_lookup|]. by split_and!.
  - split; [by apply goes_refl|done].
Qed.

Lemma cancel_finish_goes c envelope cancel s stopErr :
  good c → is_Some (al_executions (c_alloc c) !! sp_id s) →
  Terminal (sp_previousPhase s) = false → known_phase (sp_previousPhase s) = true →
  wp (cancel_finish p envelope cancel s stopErr)
     (fun r c' => goes c c' ∧ (r.2 = None → ∃ e, r.1 = [e])) c.
Proof.
  intros Hg [current Hc] Hpt Hpk. unfold cancel_finish. apply wp_bind, wp_get. cbv zeta. rewrite Hc.
  destruct stopErr as [se|].
  - eapply wp_bind, (wp_mono _ (fun _ c' => goes c c')).
    + destruct (decide _); wp_steps; [|by apply goes_refl].
      apply goes_phase; [by apply goes_refl|done|by apply running_cancelling|done..].
    + intros [] c1 Hg1. apply wp_bind, (wp_goes_persist p false c c1); [done|..]; intros; wp_steps; done.
  - eapply wp_bind, (wp_mono _ (fun _ c' => goes c c')).
    + destruct (Terminal (ex_phase current)) eqn:Ht; simpl; wp_steps; [by apply goes_refl|].
      apply goes_finish; [by apply goes_refl|done..].
    + intros finished c1 Hg1. eapply wp_bind, wp_mono; [by apply (commit_state_goes c)|].
      intros [[r|e] pe] c2 Hg2; wp_steps; (split; [done|]); [|done]. intros _. by exists r.
Qed.
(** ** Releases and leases *)

Lemma undo_release a id o s :
  alloc_ok p a → al_offers a !! id = Some o → of_status o = offerOutstanding →
  let cl := eo_resource_class (of_offer o) in
  let a1 := set_capacity (put_offer a id (set_status o s)) (release (al_capacity a) cl) in
  let a2 := put_offer a1 id o in
  ∃ cap, match reserve (al_capacity a2) cl with Ok cap => set_capacity a2 cap | Err _ => a2 end = set_capacity a cap ∧
    same_slots (al_capacity a) cap.
Proof.
  intros Hok Ho Hs cl a1 a2. pose proof (ak_ledger _ _ Hok) as Hl.
  assert (0 < mget 0 (used (al_capacity a)) cl) as Hpos.
  { rewrite (ak_used _ _ Hok). unfold demand.
    assert (outstanding_in cl o = true) as Hout by (unfold outstanding_in; rewrite !bool_decide_eq_true_2 //).
    pose proof (mcount_pos _ _ id o Ho Hout). pose proof (mcount_nonneg (active_in cl) (al_executions a)). lia. }
  destruct (release_used _ cl Hl Hpos) as [Hlim Hused].
  assert (ledger_ok (release (al_capacity a) cl)) as Hl'.
  { split; rewrite Hlim; [apply Hl|]. intros c. rewrite Hused. pose proof (lk_used _ Hl c).
    counters. }
  destruct (reserve_available (release (al_capacity a) cl) cl Hl') as [cap Hcap].
  { rewrite available_spec // Hlim Hused bool_decide_eq_true_2 //=. pose proof (lk_used _ Hl cl). lia. }
  destruct (reserve_used _ _ _ Hl' Hcap) as (Hlim2 & _ & Hused2).
  change (al_capacity a2) with (release (al_capacity a) cl). rewrite Hcap. exists cap.
  split; [|split; [congruence|]; intros c; rewrite Hused2 Hused; lia].
  unfold a2, a1. destruct a. unfold put_offer, set_offers, set_capacity in *. simpl in *.
  by rewrite insert_insert_eq insert_id.
Qed.

Lemma release_status_changed o t :
  of_status o ≠ release_status o t →
  of_status o = offerOutstanding ∧ (release_status o t = offerExpired ∨ release_status o t = offerReleased).
Proof. unfold release_status. destruct (of_status o); try done. intros _. split; [done|]. case_match; auto. Qed.

Lemma handleOfferRelease_goes c envelope rel :
  good c →
  wp (handleOfferRelease p envelope rel) (fun r c' => goes c c' ∧ (r.2 = None → ∃ e, r.1 = [e])) c.
Proof.
  intros Hg. pose proof (gd_alloc _ _ Hg) as Hok. unfold handleOfferRelease.
  apply wp_bind, wp_get. destruct (released_offer _ _) as [o|] eqn:Hro; [|by apply wp_ret; split; [apply goes_refl|]].
  wp_steps; try (split; [by apply goes_refl|done]); [split; [by apply goes_refl|]; intros _; by eexists|].
  match goal with |- wp _ _ (c_update c ?f) => set (c1 := c_update c f) end.
  match goal with H : of_status o ≠ _ |- _ => destruct (release_status_changed _ _ H) as [Hout Hnew] end.
  assert (al_offers (c_alloc c) !! or_offer_id rel = Some o) as Ho.
  { unfold released_offer in Hro. destruct (al_offers (c_alloc c) !! or_offer_id rel); [congruence|].
    destruct (al_tombstones _ !! _); [|done]. injection Hro as <-. done. }
  assert (goes c c1) as Hg1.
  { apply goes_update; [done|]. by apply rtc_once, tr_release. }
  apply (wp_goes_persist p false c c1); [done|..].
  - intros e He. wp_steps. split; [|done]. apply goes_core; [done..|].
    destruct (undo_release (c_alloc c) (or_offer_id rel) o (release_status o t)) as (cap & Heq & Hsame); [done..|].
    apply rtc_once. simpl in *. rewrite Heq. by apply transition_same_slots.
  - intros c2 Hg2 _. wp_steps. split; [done|]. intros _. by eexists.
Qed.

Lemma handleLeaseRenew_goes c envelope renew :
  good c →
  wp (handleLeaseRenew p envelope renew) (fun r c' => goes c c' ∧ (r.2 = None → ∃ e, r.1 = [e])) c.
Proof.
  intros Hg. unfold handleLeaseRenew.
  wp_steps; try (split; [by apply goes_refl|done]).
  match goal with |- wp _ _ (c_update c ?f) => set (c1 := c_update c f) end.
  match goal with H : al_executions _ !! _ = Some ?r |- _ => rename H into He, r into record end.
  assert (goes c c1) as Hg1 by (apply goes_update; [done|]; by apply rtc_once, tr_lease).
  apply (wp_goes_persist p false c c1); [done|..].
  - intros err Herr. wp_steps. split; [|done]. apply goes_undo; [done|]. by apply put_execution_undo.
  - intros c2 Hg2 _. wp_steps. split; [done|]. intros (e & _ & ->)%reply_with_ok. by exists e.
Qed.

Lemma handleLogs_pure c envelope q :
  wp (handleLogs p envelope q) (fun r c' => c' = c ∧ (r.2 = None →
     logs_authorized (c_alloc c) (env_sender envelope) (lq_execution_id q) = true)) c.
Proof. unfold handleLogs. wp_steps; guards; split; done. Qed.

(** ** Completions *)

Lemma undo_finish a id e phase detail code t :
  alloc_ok p a → al_executions a !! id = Some e → Terminal (ex_phase e) = false →
  let a1 := finish_record p id e phase detail code t a in
  transition p false a (set_capacity (put_execution a1 id e) (restore (al_capacity a1) (snapshot (al_capacity a)))).
Proof.
  intros Hok He Ht a1. destruct (ak_exec _ _ Hok _ _ He) as [].
  assert (ex_released e = false) as Hr by congruence.
  assert (set_capacity (put_execution a1 id e) (restore (al_capacity a1) (snapshot (al_capacity a)))
          = set_tunnels a (Invalidate (al_tunnels a) (ex_id e))) as ->.
  { unfold a1, finish_record. rewrite Hr. destruct a as [hw tomb cap offers requests execs replay tunnels].
    unfold put_execution, set_executions, set_capacity, set_tunnels, restore, with_used, snapshot in *. simpl in *.
    rewrite insert_insert_eq insert_id // release_limits. by destruct cap. }
  apply tr_tunnels, Invalidate_ok, Hok.
Qed.

Lemma RuntimeCompleted_goes c completion :
  good c → wp (RuntimeCompleted p completion) (fun _ c' => goes c c') c.
Proof.
  intros Hg. unfold RuntimeCompleted. wp_steps; try (by apply goes_refl).
  match goal with |- wp _ _ (c_update c ?f) => set (c1 := c_update c f) end.
  match goal with H : al_executions _ !! _ = Some ?r |- _ => rename H into He, r into record end.
  assert (goes c c1) as Hg1 by (apply goes_finish; try done; [by apply goes_refl|by destruct (cm_Err completion)]).
  apply (wp_goes_persist p false c c1); [done|..].
  - intros err Herr. wp_steps. apply goes_core; [done..|]. apply rtc_once, undo_finish; try done. apply Hg.
  - intros c2 Hg2 _. wp_steps. done.
Qed.

Lemma completionReporter_goes c id completion :
  good c → wp (completionReporter p id completion) (fun _ c' => goes c c') c.
Proof.
  intros Hg. unfold completionReporter. cbv zeta. case_match; [by apply wp_ret, goes_refl|].
  by apply RuntimeCompleted_goes.
Qed.

(** ** Tunnels *)

Lemma goes_tunnels c0 c r :
  goes c0 c → registry_ok r → goes c0 (c_update c (fun _ => set_tunnels (c_alloc c) r)).
Proof.
  intros Hg Hr. apply (goes_trans p false c0 c); [done|]. apply goes_update; [eauto with r1s|].
  by apply rtc_once, tr_tunnels.
Qed.

Lemma tunnel_open_check_pure c envelope open :
  wp (tunnel_open_check envelope open) (fun r c' => c' = c ∧ match r with
     | inl rep => rep.2 ≠ None
     | inr _ => ∃ record, al_executions (c_alloc c) !! to_execution_id open = Some record ∧
                  ex_client record = env_sender envelope ∧ Terminal (ex_phase record) = false end) c.
Proof. unfold tunnel_open_check. wp_steps; guards; split; try done. by eexists. Qed.

Lemma tunnel_open_bind_goes c envelope open t :
  good c → wp (tunnel_open_bind p envelope open t) (fun r c' => goes c c' ∧ (r.2 = None → ∃ e, r.1 = [e])) c.
Proof.
  intros Hg. unfold tunnel_open_bind. wp_steps; try (split; [by apply goes_refl|done]).
  split.
  - apply goes_tunnels; [by apply goes_refl|]. match goal with H : Bind _ _ _ _ _ = Ok _ |- _ => apply (Bind_ok _ _ _ _ _ _ (ak_tunnels _ _ (gd_alloc _ _ Hg)) H) end.
  - intros (e & _ & ->)%reply_with_ok. by exists e.
Qed.

Lemma session_open_goes c id key : good c → wp (session_open id key) (fun _ c' => goes c c') c.
Proof.
  intros Hg. unfold session_open. wp_steps; [|by apply goes_refl].
  apply goes_tunnels; [by apply goes_refl|]. match goal with H : Open _ _ _ = Ok _ |- _ => apply (Open_ok _ _ _ _ _ (ak_tunnels _ _ (gd_alloc _ _ Hg)) H) end.
Qed.

Lemma session_recheck_goes c id h : good c → wp (session_recheck id h) (fun _ c' => goes c c') c.
Proof.
  intros Hg. unfold session_recheck. wp_steps; try (by apply goes_refl);
    (apply goes_tunnels; [by apply goes_refl|apply CloseSession_ok, Hg]).
Qed.

Lemma CloseTunnel_goes c h : good c → wp (CloseTunnel h) (fun _ c' => goes c c') c.
Proof. intros Hg. apply wp_modify. apply goes_update; [done|]. apply rtc_once, tr_tunnels, Release_ok, Hg. Qed.
End handlers.
