(* ===== verification/Upkeep.v ===== *)
(** * Replay, eviction, sweeping and recovery refine the abstract transitions *)

From S2P Require Import Prelude GoStrings Ordering Wire Errors Protocol Feedback Capacity Admission Replay Registry.
From S2P Require Import Utf8 AllocTypes Snapshot AllocOps Commands Maintenance Logic Invariant Refinement.
From S2P Require Import Handlers.

(** ** What expiry leaves alone *)

Record same_frame (a a' : Allocator) : Prop := {
  sf_executions : al_executions a' = al_executions a;
  sf_requests : al_requests a' = al_requests a;
  sf_tombstones : al_tombstones a' = al_tombstones a;
  sf_replay : al_replay a' = al_replay a;
  sf_tunnels : al_tunnels a' = al_tunnels a;
  sf_highWater : al_highWater a' = al_highWater a
}.

Lemma expire_fold_frame `{Externals} t l acc : same_frame acc.1 (fold_left (expire_one t) l acc).1.
Proof.
  revert acc. induction l as [|[k o] l IH]; intros [a n]; simpl; [by split|].
  specialize (IH (expire_one t (a, n) (k, o))). unfold expire_one in *. simpl in *.
  case_match; [|done]. destruct IH; by split.
Qed.

Lemma expire_frame `{Externals} t a : same_frame a (expire_offers t a).1.
Proof. apply (expire_fold_frame t _ (a, 0)). Qed.

Lemma authorityKey_nonempty identity id : authorityKey identity id ≠ "".
Proof. unfold authorityKey, nul. by destruct (go_string identity). Qed.

Section upkeep.
Context `{Externals, Codec, Env} (p : Settings).
Abbreviation goes := (Refinement.goes p false).
Abbreviation sweeps := (Refinement.goes p true).
Abbreviation good := (Refinement.good p).

Lemma transition_weaken s a a' : transition p s a a' → transition p true a a'.
Proof.
  intros Ht. destruct Ht; [apply tr_clock|by apply tr_used|by apply tr_replay|by apply tr_tunnels|by apply tr_offer
    |by apply tr_release|by apply tr_assign|by apply (tr_phase p true a id e)|by apply tr_lease|by apply tr_finish
    |by apply tr_collect|by apply tr_tombstones].
Qed.

Lemma goes_sweeps c c' : goes c c' → sweeps c c'.
Proof.
  assert (∀ a a', rtc (transition p false) a a' → rtc (transition p true) a a') as Hw.
  { induction 1 as [|x y z Hxy _ IH]; [apply rtc_refl|]. eapply rtc_l; [exact (transition_weaken _ _ _ Hxy)|done]. }
  intros (Hg & Ht & Hd). split; [done|]. split; [by apply Hw|].
  destruct Hd as [?|(a & s & Ha & ?)]; [by left|right]. exists a, s. split; [by apply Hw|done].
Qed.

(** ** The replay cache *)

Lemma begin_params c key envelope t :
  rc_ttl (begin_cache (begin c key envelope t)) = rc_ttl c ∧
  rc_capacity (begin_cache (begin c key envelope t)) = rc_capacity c.
Proof. unfold begin. by repeat case_match. Qed.

Lemma goes_replay c0 c cache :
  goes c0 c → replay_ok cache → rc_ttl cache = rc_ttl (al_replay (c_alloc c)) →
  rc_capacity cache = rc_capacity (al_replay (c_alloc c)) → keeps_undone (al_replay (c_alloc c)) cache →
  goes c0 (c_update c (fun _ => set_replay (c_alloc c) cache)).
Proof.
  intros Hg Hok Ht Hc Hk. apply (goes_trans p false c0 c); [done|].
  apply goes_update; [eauto with r1s|]. by apply rtc_once, tr_replay.
Qed.

(** What beginning a command establishes. *)
Definition begun (key : string) (envelope : Envelope) (t : time) (c c' : core)
    (r : result gerror (option replayEntry)) : Prop :=
  match r with
  | Ok None => rc_entries (al_replay (c_alloc c')) !! key = Some (new_entry envelope t) ∧
      (∀ e, rc_entries (al_replay (c_alloc c)) !! key = Some e → re_done e = true) ∧ committed p c'
  | Ok (Some e) => re_envelope e = envelope ∧ rc_entries (al_replay (c_alloc c')) !! key = Some e
  | Err _ => True
  end.

Lemma beginReplay_goes c key envelope t :
  good c → key ≠ "" →
  wp (beginReplay p key envelope t) (fun r c' => goes c c' ∧ begun key envelope t c c' r) c.
Proof.
  intros Hg Hkey. unfold beginReplay. apply wp_bind, wp_expireOffersLocked. intros n.
  set (c1 := c_update c _). apply wp_bind, wp_get.
  assert (goes c c1) as Hg1 by (apply goes_update; [done|apply expire_transitions]).
  assert (al_replay (c_alloc c1) = al_replay (c_alloc c)) as Hrep by apply expire_frame.
  pose proof (gd_alloc _ _ (goes_good _ _ _ _ Hg1)) as Hok1.
  destruct (begin_spec (al_replay (c_alloc c1)) key envelope t Hkey (ak_replay _ _ Hok1)) as (Hok & Hund & Hcase).
  destruct (begin_params (al_replay (c_alloc c1)) key envelope t) as [Hp1 Hp2].
  destruct (begin _ _ _ _) as [cache|cache entry|cache err]; simpl in *.
  - apply wp_bind, wp_put. set (c2 := c_update c1 _).
    assert (goes c c2) as Hg2 by (by apply goes_replay).
    apply wp_bind, (wp_goes_persist p false c c2); [done|..].
    + intros e He. wp_steps. split; [|done]. apply goes_core; [exact Hg| | |]; try done.
      etrans; [apply Hg1|]. apply rtc_once.
      change (transition p false (c_alloc c1) (set_replay (c_alloc c1) (with_entries cache (delete key (rc_entries cache))))).
      apply tr_replay; try done.
      * apply replay_ok_sub; [done|apply delete_subseteq].
      * intros k e0 Hk Hd. simpl. rewrite lookup_delete_ne; [|by apply Hund].
        intros ->. destruct Hcase as [_ Hdone]. destruct (Hdone _ Hk) as [? _]. congruence.
    + intros c3 Hg3 Hs3. wp_steps. split; [done|]. pose proof (saves_alloc _ _ _ Hs3) as Hc3.
      destruct Hcase as [Hnew Hdone]. split_and!; [by rewrite Hc3| |by exists c2].
      intros e He. rewrite -Hrep in He. by destruct (Hdone _ He).
  - wp_steps. destruct Hcase as (_ & ? & ?). split; [by apply goes_replay|]. by split.
  - wp_steps. split; [by apply goes_replay|done].
Qed.

(** Finishing a command marks its entry and nothing else; the disk keeps its
    snapshot or gets the new one. *)
Lemma finishReplay_good c key responses err :
  good c →
  wp (finishReplay p key responses err)
     (fun _ c' => good c' ∧ c_alloc c' = set_replay (c_alloc c) (finish (al_replay (c_alloc c)) key responses err) ∧
        (c_disk c' = c_disk c ∨ ∃ s, encode_state (p_identity p) (c_alloc c') = Ok s ∧ c_disk c' = Some s)) c.
Proof.
  intros Hg. unfold finishReplay. apply wp_bind, wp_modify. set (c1 := c_update c _).
  assert (good c1) as Hg1.
  { destruct Hg. split; [|done|done]. by apply replay_finish_ok. }
  apply wp_persistLocked; [intros _ _; split_and!; [done|done|by left]|].
  intros c' Hs. split_and!; [by apply (goes_saves p false c1)|by rewrite (saves_alloc _ _ _ Hs)|].
  unfold saves in Hs. destruct (p_store p); [|subst; by left].
  destruct Hs as (s & Henc & ->). right. by exists s.
Qed.

(** ** Lease eviction *)

Lemma nextExpired_spec a t id ph :
  nextExpiredLeaseLocked a t = (id, ph) → id ≠ "" →
  ∃ record, al_executions a !! id = Some record ∧ ex_phase record = ph ∧ lease_expired t record = true.
Proof.
  unfold nextExpiredLeaseLocked. destruct (List.find _ _) as [[i r]|] eqn:Hf; [|by intros [= <- <-]].
  intros [= <- <-] _. apply List.find_some in Hf as [Hin Hl].
  exists r. split; [|done]. by apply elem_of_map_to_list, list_elem_of_In.
Qed.

(** What an eviction in progress has established. *)
Definition stopping_ok (s : stopping) : Prop :=
  Terminal (sp_previousPhase s) = false ∧ known_phase (sp_previousPhase s) = true.

(** The executions an eviction may still stop: the loop's measure. *)
Definition may_evict (e : executionRecord) : bool :=
  negb (Terminal (ex_phase e)) && negb (bool_decide (ex_phase e = PHASE_CANCELLING)).
Definition evictable (a : Allocator) : Z := mcount may_evict (al_executions a).

Lemma advance_executions t a : al_executions (advance t a) = al_executions a.
Proof. unfold advance. by case_match. Qed.

Lemma evict_scan_goes c allErr :
  good c →
  wp (evict_scan p allErr) (fun r c' => goes c c' ∧ match r with
     | inl _ => True
     | inr s => stopping_ok s ∧ committed p c' ∧ evictable (c_alloc c') < evictable (c_alloc c) ∧
         ∃ record, al_executions (c_alloc c') !! sp_id s = Some record ∧
           ex_phase record = PHASE_CANCELLING ∧ ex_detail record = LeaseExpiredDetail
     end) c.
Proof.
  intros Hg. unfold evict_scan. apply wp_bind, wp_effectiveNowLocked. intros t. set (c1 := c_update c _).
  assert (goes c c1) as Hg1 by (apply goes_update; [done|]; apply rtc_once, tr_clock).
  pose proof (goes_good _ _ _ _ Hg1) as Hgood1. pose proof (gd_alloc _ _ Hgood1) as Hok.
  assert (al_executions (c_alloc c1) = al_executions (c_alloc c)) as Hex by apply advance_executions.
  apply wp_bind, wp_get. destruct (nextExpiredLeaseLocked _ _) as [id ph] eqn:Hnext.
  destruct (bool_decide (id = "")) eqn:Hid; [by wp_steps|]. apply bool_decide_eq_false in Hid.
  destruct (nextExpired_spec _ _ _ _ Hnext Hid) as (record & Hrec & <- & Hexp).
  unfold lease_expired in Hexp. apply andb_true_iff in Hexp as [Hexp _]. apply andb_true_iff in Hexp as [Hexp _].
  apply andb_true_iff in Hexp as [Hterm Hcan]. apply negb_true_iff in Hterm.
  apply wp_bind, wp_ctx_Err. intros [e|]; [by wp_steps|].
  unfold beginEvictionLocked. apply wp_bind, wp_bind, wp_get. rewrite Hrec.
  eapply wp_bind, wp_mono; [by apply commit_cancelling_goes|].
  intros [err|] c2 [Hg2 Hpost]; apply wp_ret; simpl; wp_steps; (split; [exact (goes_trans _ _ _ _ _ Hg1 Hg2)|]); [done|].
  destruct Hpost as [Hl Hc]. destruct (ak_exec _ _ Hok _ _ Hrec) as [].
  split; [by split|]. split; [done|]. rewrite Hl. split; [|eexists; split; [apply put_execution_lookup|done]].
  unfold evictable. simpl. rewrite -Hex (mcount_insert_Some _ _ _ record) //.
  unfold may_evict at 2 3. rewrite Hterm Hcan. simpl. unfold may_evict. lia.
Qed.

Lemma evictable_finish a id e phase detail code t :
  al_executions a !! id = Some e → Terminal phase = true →
  evictable (finish_record p id e phase detail code t a) ≤ evictable a.
Proof.
  intros He Hp. unfold evictable, finish_record.
  assert (∀ r, mcount may_evict (<[id := set_finished e phase detail code t r]> (al_executions a))
               ≤ mcount may_evict (al_executions a)) as Hle.
  { intros r. rewrite (mcount_insert_Some _ _ _ e) //.
    assert (may_evict (set_finished e phase detail code t r) = false) as -> by (unfold may_evict; simpl; by rewrite Hp).
    destruct (may_evict e); simpl; lia. }
  destruct (ex_released e); simpl; apply Hle.
Qed.

(** What one completed eviction leaves: the execution is terminal and no more
    evictions are possible than before. *)
Definition evicted_ok (id : string) (c c' : core) : Prop :=
  evictable (c_alloc c') ≤ evictable (c_alloc c) ∧
  (is_Some (al_executions (c_alloc c) !! id) →
   ∃ e, al_executions (c_alloc c') !! id = Some e ∧ Terminal (ex_phase e) = true).

Lemma evict_commit_goes c id record t :
  good c → al_executions (c_alloc c) !! id = Some record →
  wp (evict_commit p id record t) (fun r c' => goes c c' ∧ (r = None → evicted_ok id c c')) c.
Proof.
  intros Hg He. unfold evict_commit.
  eapply wp_bind, (wp_mono _ (fun _ c' => goes c c' ∧ evicted_ok id c c')).
  - destruct (Terminal (ex_phase record)) eqn:Ht; simpl; wp_steps.
    + split; [by apply goes_refl|]. split; [lia|]. intros _. by exists record.
    + split; [by apply goes_finish; [apply goes_refl|..]|]. split; [by apply evictable_finish|]. intros _.
      destruct (finish_record_lookup p (c_alloc c) id record PHASE_FAILED LeaseExpiredDetail None t) as (e & He' & Hph).
      exists e. split; [exact He'|]. by rewrite Hph.
  - intros finished c1 [Hg1 Hev]. apply wp_bind, (wp_goes_persist p false c c1); [done|..].
    + intros err Herr. wp_steps; done.
    + intros c2 Hg2 Hs2. unfold evicted_ok in *. rewrite -(saves_alloc _ _ _ Hs2) in Hev. wp_steps; done.
Qed.

Lemma evict_finish_goes c s stopErr :
  good c → stopping_ok s →
  wp (evict_finish p s stopErr) (fun r c' => goes c c' ∧ (r = None → evicted_ok (sp_id s) c c')) c.
Proof.
  intros Hg [Hpt Hpk]. unfold evict_finish. apply wp_bind, wp_get. cbv zeta.
  destruct (al_executions _ !! _) as [record|] eqn:Hrec.
  2:{ apply wp_ret. split; [by apply goes_refl|]. split; [lia|]. rewrite Hrec. by intros [? ?]. }
  apply wp_bind, wp_now. intros t. pose proof (evict_commit_goes c (sp_id s) record t Hg Hrec) as Hcommit.
  destruct stopErr as [e|]; [|done]. destruct (negb _); [|done].
  eapply wp_bind, (wp_mono _ (fun _ c' => goes c c')).
  - destruct (decide _) as [Hc|]; wp_steps; [|by apply goes_refl].
    apply goes_phase; [by apply goes_refl|done|by apply running_cancelling|done..].
  - intros [] c1 Hg1. apply wp_bind, (wp_goes_persist p false c c1); [done|..]; intros; wp_steps; done.
Qed.

(** The scan ends the loop without an error only when no lease has expired. *)
Lemma nextExpired_none a t ph :
  alloc_ok p a → nextExpiredLeaseLocked a t = ("", ph) →
  ∀ id e, al_executions a !! id = Some e → lease_expired t e = false.
Proof.
  intros Hok. unfold nextExpiredLeaseLocked. destruct (List.find _ _) as [[i r]|] eqn:Hf.
  - intros [= -> <-]. apply List.find_some in Hf as [Hin _]. apply list_elem_of_In, elem_of_map_to_list in Hin.
    by destruct (eo_id _ _ (ak_exec _ _ Hok _ _ Hin)).
  - intros _ id e He. apply (List.find_none _ _ Hf (id, e)). by apply list_elem_of_In, elem_of_map_to_list.
Qed.

Definition no_expired_lease (a : Allocator) : Prop :=
  ∀ id e, al_executions a !! id = Some e → lease_expired (al_highWater a) e = false.

Lemma evict_scan_done c :
  good c → wp (evict_scan p None) (fun r c' => r = inl None → no_expired_lease (c_alloc c')) c.
Proof.
  intros Hg. unfold evict_scan. apply wp_bind, wp_effectiveNowLocked. intros t. set (c1 := c_update c _).
  assert (goes c c1) as Hg1 by (apply goes_update; [done|]; apply rtc_once, tr_clock).
  apply wp_bind, wp_get. destruct (nextExpiredLeaseLocked _ _) as [id ph] eqn:Hnext.
  destruct (bool_decide (id = "")) eqn:Hid.
  - apply bool_decide_eq_true in Hid as ->. wp_steps. intros _.
    exact (nextExpired_none _ _ _ (gd_alloc _ _ (goes_good _ _ _ _ Hg1)) Hnext).
  - apply wp_bind, wp_ctx_Err. intros [e|]; [by wp_steps|].
    eapply wp_bind, (wp_mono _ (fun _ _ => True)); [by intros ? ?|]. intros [d [e|]] c2 _; by wp_steps.
Qed.

(** The eviction loop with enough fuel. *)
Lemma evict_loop_goes fuel c :
  good c → evictable (c_alloc c) < Z.of_nat fuel →
  wp (evict_loop p fuel None) (fun r c' => goes c c' ∧ (r = None → no_expired_lease (c_alloc c'))) c.
Proof.
  revert c. induction fuel as [|fuel IH]; intros c Hg Hf.
  { pose proof (mcount_nonneg may_evict (al_executions (c_alloc c))). unfold evictable in Hf. lia. }
  simpl. eapply wp_bind, wp_mono; [apply wp_and; [by apply evict_scan_goes|by apply evict_scan_done]|].
  intros [r|s] c1 [[Hg1 Hpost] Hdone]; [wp_steps; split; [done|]; intros ->; by apply Hdone|].
  destruct Hpost as (Hs & _ & Hlt & _). unfold completeEviction. apply wp_bind, wp_bind.
  apply wp_call; [done|]. intros stopErr. set (c2 := c_call c1 _).
  assert (goes c c2) as Hg2.
  { apply (goes_trans _ _ _ _ _ Hg1). apply goes_core; [eauto with r1s|done..|apply rtc_refl]. }
  eapply wp_mono; [by apply evict_finish_goes; [eauto with r1s|]|].
  intros [e|] c3 [Hg3 Hev]; [wp_steps; split; [exact (goes_trans _ _ _ _ _ Hg2 Hg3)|done]|].
  destruct (Hev eq_refl) as [Hle _]. simpl. cbv zeta.
  eapply wp_mono; [apply IH; [eauto with r1s|simpl in *; lia]|].
  intros r c4 [Hg4 Hd]. split; [|done].
  exact (goes_trans _ _ _ _ _ (goes_trans _ _ _ _ _ Hg2 Hg3) Hg4).
Qed.

Lemma EvictExpiredLeases_goes c :
  good c → wp (EvictExpiredLeases p) (fun r c' => goes c c' ∧ (r = None → no_expired_lease (c_alloc c'))) c.
Proof.
  intros Hg. unfold EvictExpiredLeases. apply wp_bind, wp_get, evict_loop_goes; [done|].
  unfold evictable. pose proof (mcount_size may_evict (al_executions (c_alloc c))). lia.
Qed.

(** ** The retention sweep *)

Lemma busy_keys_mono a a' key :
  al_replay a' = al_replay a → (∀ id e, al_executions a' !! id = Some e → al_executions a !! id = Some e) →
  key ∈ busy_keys a' → key ∈ busy_keys a.
Proof.
  intros Hr He. unfold busy_keys. rewrite Hr.
  rewrite !list_elem_of_In !in_flat_map. intros ([k e] & Hin & Hk). exists (k, e). split; [done|].
  simpl in *. unfold entry_busy in *. destruct (replayDone e); [done|].
  destruct (env_payload (re_envelope e)) as [[]|]; try done. destruct m as [q|]; [|done].
  destruct (al_executions a' !! _) as [r|] eqn:Hr'; [|done]. by rewrite (He _ _ Hr').
Qed.

Lemma collect_fold busy t l a :
  NoDup l.*1 → (∀ k o, (k, o) ∈ l → al_offers a !! k = Some o) →
  (∀ key, key ∈ busy_keys a → key ∈ busy) →
  rtc (transition p true) a (fold_left (collect_one busy t) l a).
Proof.
  revert a. induction l as [|[k o] l IH]; intros a Hnd Hin Hbusy; [apply rtc_refl|].
  apply NoDup_cons in Hnd as [Hk Hnd]. simpl in *.
  assert (al_offers a !! k = Some o) as Ho by (apply Hin; apply elem_of_cons; by left).
  assert (∀ k' o', (k', o') ∈ l → al_offers a !! k' = Some o' ∧ k ≠ k') as Hrest.
  { intros k' o' Hl. split; [apply Hin; apply elem_of_cons; by right|]. intros ->.
    apply Hk. apply list_elem_of_fmap. by exists (k', o'). }
  destruct (str_contains busy (offer_key o)) eqn:Hb; [apply IH; try done; intros; by apply Hrest|].
  destruct (collectable a t o) eqn:Hc; simpl; [|apply IH; try done; intros; by apply Hrest].
  assert (str_contains (busy_keys a) (offer_key o) = false) as Hb'.
  { destruct (str_contains (busy_keys a) _) eqn:E; [|done]. apply str_contains_spec, Hbusy, str_contains_spec in E.
    congruence. }
  eapply rtc_l; [by apply (tr_collect p a k o t)|]. apply IH; [done| |]; simpl.
  - intros k' o' Hl. destruct (Hrest k' o' Hl) as [? ?]. by rewrite lookup_delete_ne.
  - intros key Hkey. apply Hbusy. revert Hkey. apply busy_keys_mono; [done|]. simpl.
    intros id e Hid. by apply lookup_delete_Some in Hid as [_ ?].
Qed.

Lemma filter_tombstones (P : tombstone → bool) a :
  alloc_ok p a → transition p true a (set_tombstones a (filter (fun kv => P kv.2 = true) (al_tombstones a))).
Proof.
  intros Hok. apply tr_tombstones; [apply map_subseteq_size, map_filter_subseteq|].
  intros id d Hd. apply map_lookup_filter_Some in Hd as [Hd _]. by apply (ak_tombstone _ _ Hok).
Qed.

Lemma filter_replay a (m : replay_map) s :
  alloc_ok p a → m ⊆ rc_entries (al_replay a) →
  (∀ k e, rc_entries (al_replay a) !! k = Some e → re_done e = false → m !! k = Some e) →
  transition p s a (set_replay a (with_entries (al_replay a) m)).
Proof. intros Hok Hs Hk. apply tr_replay; try done. apply replay_ok_sub; [apply Hok|done]. Qed.

Lemma sweep_pass_transitions t a : alloc_ok p a → rtc (transition p true) a (sweep_pass t a).
Proof.
  intros Hok. unfold sweep_pass.
  pose proof (expire_transitions p true t a) as T1. set (a1 := (expire_offers t a).1) in *. cbv zeta.
  pose proof (transitions_ok _ _ _ _ T1 Hok) as Hok1.
  assert (transition p true a1 (set_replay a1 (prune (al_replay a1) t))) as T2.
  { apply (filter_replay a1); [done|apply prune_sub|]. intros k e. apply prune_undone. }
  set (a2 := set_replay a1 _) in *. pose proof (transition_ok _ _ _ _ T2 Hok1) as Hok2.
  assert (rtc (transition p true) a2 (collect_offers (busy_keys a2) t a2)) as T3.
  { apply collect_fold; [apply NoDup_fst_map_to_list| |done]. intros k o. by rewrite elem_of_map_to_list. }
  set (a3 := collect_offers _ _ _) in *. pose proof (transitions_ok _ _ _ _ T3 Hok2) as Hok3.
  pose proof (filter_tombstones (tombstone_kept t) a3 Hok3) as T4. set (a4 := set_tombstones a3 _) in *.
  pose proof (transition_ok _ _ _ _ T4 Hok3) as Hok4.
  etrans; [exact T1|]. eapply rtc_l; [exact T2|]. etrans; [exact T3|]. eapply rtc_l; [exact T4|].
  apply rtc_once, filter_replay; [done|apply map_filter_subseteq|].
  intros k e He Hd. apply map_lookup_filter_Some. split; [done|]. simpl. unfold entry_dropped, replayDone.
  by rewrite Hd.
Qed.

Lemma transition_limits s a a' : transition p s a a' → limits (al_capacity a') = limits (al_capacity a).
Proof.
  intros Ht. destruct Ht; simpl; try done.
  - unfold advance. by case_match.
  - match goal with Hr : reserve _ _ = Ok _ |- _ => exact (reserve_limits _ _ _ Hr) end.
  - apply release_limits.
  - unfold finish_record. case_match; simpl; [done|]. apply release_limits.
Qed.

Lemma transitions_limits s a a' : rtc (transition p s) a a' → limits (al_capacity a') = limits (al_capacity a).
Proof. induction 1 as [|x y z Ht _ IH]; [done|]. by rewrite IH (transition_limits _ _ _ Ht). Qed.

Lemma transition_tunnels_sweep t a : al_tunnels (sweep_pass t a) = al_tunnels a.
Proof.
  unfold sweep_pass. simpl.
  assert (∀ busy l b, al_tunnels (fold_left (collect_one busy t) l b) = al_tunnels b) as Hc.
  { intros busy l. induction l as [|[k o] l IH]; intros b; simpl; [done|]. rewrite IH. by repeat case_match. }
  unfold collect_offers. rewrite Hc. simpl. apply expire_frame.
Qed.

(** A tombstone that waits for its files is stored under its offer. *)
Definition pending_ok (a : Allocator) (d : tombstone) : Prop := is_Some (al_tombstones a !! tb_OfferID d).

Lemma sweep_collect_sweeps c :
  good c →
  wp (sweep_collect p) (fun r c' => sweeps c c' ∧
     (r.1 = None → committed p c' ∧ Forall (pending_ok (c_alloc c')) r.2) ∧
     (r.1 ≠ None → c_alloc c' = c_alloc c)) c.
Proof.
  intros Hg. pose proof (gd_alloc _ _ Hg) as Hok. unfold sweep_collect. apply wp_bind, wp_get.
  apply wp_bind, wp_effectiveNowLocked. intros t. apply wp_bind, wp_modify.
  set (hw := al_highWater (advance t (c_alloc c))). set (c1 := c_update (c_update c _) _).
  assert (transition p true (c_alloc c) (advance t (c_alloc c))) as Hclock by apply tr_clock.
  pose proof (sweep_pass_transitions hw _ (transition_ok _ _ _ _ Hclock Hok)) as Hpass.
  assert (rtc (transition p true) (c_alloc c) (c_alloc c1)) as Htr by (eapply rtc_l; [exact Hclock|exact Hpass]).
  assert (sweeps c c1) as Hg1 by (by apply goes_core).
  assert (al_tunnels (c_alloc c1) = al_tunnels (c_alloc c)) as Htun.
  { unfold c1. cbn [c_alloc c_update]. rewrite transition_tunnels_sweep. unfold advance. by case_match. }
  assert (c_disk c1 = c_disk c ∧ c_panicked c1 = c_panicked c) as [Hd1 Hp1] by done.
  apply wp_bind, (wp_goes_persist p true c c1); [done|..].
  - intros e He. wp_steps.
    match goal with |- sweeps c ?c' ∧ _ => assert (c_alloc c' = c_alloc c) as Hback end.
    { clearbody c1. unfold c_update, restore, with_used, snapshot. cbn [c_alloc].
      rewrite (transitions_limits _ _ _ Htr) Htun.
      destruct (c_alloc c) as [? ? [] ? ? ? ? ?]. done. }
    split; [|done]. apply goes_core; [done..|]. rewrite Hback. apply rtc_refl.
  - intros c2 Hg2 Hs2. wp_steps. split; [done|]. split; [|done]. intros _. split.
    + exists c1. split; [done|]. by rewrite (saves_alloc _ _ _ Hs2).
    + simpl. apply Forall_forall. intros d Hd. apply list_elem_of_In, List.filter_In in Hd as [Hd _].
      apply list_elem_of_In, list_elem_of_fmap in Hd as ([id d'] & -> & Hd). apply elem_of_map_to_list in Hd.
      pose proof (ak_tombstone _ _ (gd_alloc _ _ (goes_good _ _ _ _ Hg2)) _ _ Hd) as Hid. simpl in *.
      unfold pending_ok. rewrite Hid Hd. by eexists.
Qed.

Lemma cleanup_commit_sweeps c d :
  good c → pending_ok (c_alloc c) d →
  wp (cleanup_commit p d) (fun _ c' => sweeps c c' ∧
     ∀ d', pending_ok (c_alloc c) d' → pending_ok (c_alloc c') d') c.
Proof.
  intros Hg [d0 Hd0]. pose proof (gd_alloc _ _ Hg) as Hok. unfold cleanup_commit.
  pose proof (ak_tombstone _ _ Hok _ _ Hd0) as Hid.
  assert (∀ x a, al_tombstones a = al_tombstones (c_alloc c) → tb_OfferID x = tb_OfferID d →
     transition p true a (set_tombstones a (<[tb_OfferID d := x]> (al_tombstones a)))) as Hstep.
  { intros x a Ha Hx. apply tr_tombstones; rewrite Ha.
    - rewrite map_size_insert_Some; [by rewrite Hd0|done].
    - intros id d'. rewrite lookup_insert_Some. intros [[<- <-]|[_ Hl]]; [done|]. by apply (ak_tombstone _ _ Hok). }
  apply wp_bind, wp_modify. set (c1 := c_update c _).
  assert (mget zero_tombstone (al_tombstones (c_alloc c)) (tb_OfferID d) = d0) as Hm by (unfold mget; by rewrite Hd0).
  assert (sweeps c c1) as Hg1.
  { apply goes_update; [done|]. apply rtc_once, Hstep; [done|]. by rewrite Hm. }
  assert (∀ d', pending_ok (c_alloc c) d' → pending_ok (c_alloc c1) d') as Hpend.
  { intros d' [x Hx]. unfold pending_ok. simpl. rewrite lookup_insert_is_Some.
    destruct (decide (tb_OfferID d = tb_OfferID d')); [by left|]. right. split; [done|]. by exists x. }
  apply wp_bind, (wp_goes_persist p true c c1); [done|..].
  - intros e He. wp_steps. split.
    + apply goes_core; [done..|]. simpl. rewrite insert_insert_eq. apply rtc_once. by apply (Hstep d (c_alloc c)).
    + intros d' Hd'. apply Hpend in Hd' as [x Hx]. unfold pending_ok in *. simpl in *.
      rewrite lookup_insert_is_Some.
      destruct (decide (tb_OfferID d = tb_OfferID d')); [by left|]. right. split; [done|]. by exists x.
  - intros c2 Hg2 Hs2. wp_steps. split; [done|]. intros d' Hd'. rewrite (saves_alloc _ _ _ Hs2). by apply Hpend.
Qed.
(** A call leaves the state alone. *)
Lemma sweeps_call c0 c e : sweeps c0 c → sweeps c0 (c_call c e).
Proof.
  intros Hg. apply (goes_trans _ _ _ _ _ Hg).
  apply goes_core; [eauto with r1s|done..|apply rtc_refl].
Qed.

Lemma goes_call c0 c e : goes c0 c → goes c0 (c_call c e).
Proof.
  intros Hg. apply (goes_trans _ _ _ _ _ Hg).
  apply goes_core; [eauto with r1s|done..|apply rtc_refl].
Qed.

Lemma cleanup_files_quiet c d :
  good c → wp (cleanup_files p d) (fun _ c' => sweeps c c' ∧ c_alloc c' = c_alloc c) c.
Proof.
  intros Hg. unfold cleanup_files. pose proof (goes_refl p true c Hg) as Hr.
  destruct (p_forgetter p).
  - apply wp_bind, wp_call; [done|]. intros [e|]; [wp_steps; split; [by apply sweeps_call|done]|].
    destruct (p_logs p); [|wp_steps; split; [by apply sweeps_call|done]].
    apply wp_call; [done|]. intros e. split; [by apply sweeps_call, sweeps_call|done].
  - apply wp_bind, wp_ret. destruct (p_logs p); [|by wp_steps].
    apply wp_call; [done|]. intros e. split; [by apply sweeps_call|done].
Qed.

Lemma cleanup_one_sweeps c allErr d :
  good c → pending_ok (c_alloc c) d →
  wp (cleanup_one p allErr d) (fun _ c' => sweeps c c' ∧ ∀ d', pending_ok (c_alloc c) d' → pending_ok (c_alloc c') d') c.
Proof.
  intros Hg Hd. unfold cleanup_one. eapply wp_bind, wp_mono; [by apply cleanup_files_quiet|].
  intros [e|] c1 [Hg1 Hc1]; [wp_steps; split; [done|by rewrite Hc1]|].
  eapply wp_bind, wp_mono; [apply cleanup_commit_sweeps; [eauto with r1s|by rewrite Hc1]|].
  intros r c2 [Hg2 Hp2]. rewrite Hc1 in Hp2. pose proof (goes_trans _ _ _ _ _ Hg1 Hg2). by wp_steps.
Qed.

Lemma cleanup_all_sweeps c allErr l :
  good c → Forall (pending_ok (c_alloc c)) l → wp (cleanup_all p allErr l) (fun _ c' => sweeps c c') c.
Proof.
  revert c allErr. induction l as [|d l IH]; intros c allErr Hg Hl; simpl; [by apply wp_ret, goes_refl|].
  apply Forall_cons in Hl as [Hd Hl]. eapply wp_bind, wp_mono; [by apply cleanup_one_sweeps|].
  intros r c1 [Hg1 Hp1]. eapply wp_mono; [apply IH; [eauto with r1s|]|].
  - eapply Forall_impl; [exact Hl|]. intros d' Hd'. by apply Hp1.
  - intros r' c2 Hg2. exact (goes_trans _ _ _ _ _ Hg1 Hg2).
Qed.

Lemma Sweep_sweeps c : good c → wp (Sweep p) (fun _ c' => sweeps c c') c.
Proof.
  intros Hg. unfold Sweep. eapply wp_bind, wp_mono; [by apply EvictExpiredLeases_goes|].
  intros evictErr c1 [Hg1%goes_sweeps _].
  eapply wp_bind, wp_mono; [by apply sweep_collect_sweeps, (goes_good _ _ _ _ Hg1)|].
  intros [err pending] c2 (Hg2 & Hpend & _). pose proof (goes_trans _ _ _ _ _ Hg1 Hg2) as Hg12. simpl in *.
  destruct err as [e|]; [by wp_steps|]. destruct (Hpend eq_refl) as [_ Hl].
  eapply wp_bind, wp_mono; [by apply cleanup_all_sweeps; [eauto with r1s|]|].
  intros allErr c3 Hg3. wp_steps. exact (goes_trans _ _ _ _ _ Hg12 Hg3).
Qed.

(** ** Recovery *)

Lemma recover_terminal_goes c id phase detail :
  good c → Terminal phase = true →
  wp (recover_terminal p id phase detail) (fun r c' => goes c c' ∧ (r = None →
     ∀ e, al_executions (c_alloc c') !! id = Some e → Terminal (ex_phase e) = true)) c.
Proof.
  intros Hg Hp. unfold recover_terminal. apply wp_bind, wp_get.
  eapply wp_bind, (wp_mono _ (fun _ c' => goes c c' ∧
     ∀ e, al_executions (c_alloc c') !! id = Some e → Terminal (ex_phase e) = true)).
  - destruct (al_executions (c_alloc c) !! id) as [current|] eqn:Hc.
    2:{ apply wp_ret. split; [by apply goes_refl|]. by rewrite Hc. }
    destruct (Terminal (ex_phase current)) eqn:Ht; simpl.
    + apply wp_ret. split; [by apply goes_refl|]. rewrite Hc. by intros e [= <-].
    + wp_steps. split; [by apply goes_finish; [apply goes_refl|..]|].
      match goal with |- ∀ e, al_executions (c_alloc (c_update c (finish_record p id current phase detail None ?t))) !! id = _ → _ =>
        destruct (finish_record_lookup p (c_alloc c) id current phase detail None t) as (e' & He' & Hph) end.
      intros e He. simpl in He. rewrite He' in He. injection He as <-. by rewrite Hph.
  - intros finished c1 [Hg1 Hterm]. apply wp_bind, (wp_goes_persist p false c c1); [done|..].
    + intros e He. wp_steps; done.
    + intros c2 Hg2 Hs2. rewrite -(saves_alloc _ _ _ Hs2) in Hterm. wp_steps; done.
Qed.

Lemma recover_finish_goes c id recoverErr :
  good c → wp (recover_finish p id recoverErr) (fun _ c' => goes c c') c.
Proof.
  intros Hg. unfold recover_finish. destruct recoverErr as [e|].
  - case_match; [|by apply wp_ret, goes_refl].
    eapply wp_mono; [by apply recover_terminal_goes|]. by intros r c' [? _].
  - apply wp_bind, wp_get. eapply wp_bind, (wp_mono _ (fun _ c' => goes c c')).
    + destruct (al_executions (c_alloc c) !! id) as [current|] eqn:Hc; [|by apply wp_ret, goes_refl].
      destruct (decide _); [|by apply wp_ret, goes_refl]. wp_steps.
      apply goes_phase; [by apply goes_refl|done|by apply running_starting|done..].
    + intros [] c1 Hg1. apply wp_bind, (wp_goes_persist p false c c1); [done|..]; intros; wp_steps; done.
Qed.

(** What recovery plans for an execution. *)
Lemma recover_plan_pure c id :
  wp (recover_plan id) (fun r c' => c' = c ∧ match r with RP_stop phase _ => Terminal phase = true | _ => True end) c.
Proof. unfold recover_plan. wp_steps; (split; [done|]); repeat case_match; try done; by simplify_eq. Qed.

Lemma recover_one_goes c id : good c → wp (recover_one p id) (fun _ c' => goes c c') c.
Proof.
  intros Hg. pose proof (goes_refl p false c Hg) as Hr. unfold recover_one.
  apply wp_bind, wp_ctx_Err. intros [e|]; [by wp_steps|].
  eapply wp_bind, wp_mono; [apply recover_plan_pure|]. intros [|phase detail|request] c1 [-> Hplan]; [by wp_steps|..].
  - apply wp_bind, wp_call; [done|]. intros stopErr. pose proof (goes_call c c (EvStop id) Hr) as Hg1.
    destruct (stop_failed stopErr); [by wp_steps|].
    eapply wp_mono; [by apply recover_terminal_goes; [eauto with r1s|]|].
    intros r c' [Hg' _]. exact (goes_trans _ _ _ _ _ Hg1 Hg').
  - apply wp_bind, wp_call; [done|]. intros recoverErr. pose proof (goes_call c c (EvRecover request) Hr) as Hg1.
    eapply wp_mono; [apply recover_finish_goes; eauto with r1s|].
    intros r c' Hg'. exact (goes_trans _ _ _ _ _ Hg1 Hg').
Qed.

Lemma recover_all_goes c ids : good c → wp (recover_all p ids) (fun _ c' => goes c c') c.
Proof.
  revert c. induction ids as [|id ids IH]; intros c Hg; simpl; [by apply wp_ret, goes_refl|].
  eapply wp_bind, wp_mono; [by apply recover_one_goes|]. intros [e|] c1 Hg1; [by wp_steps|].
  eapply wp_mono; [apply IH, (goes_good _ _ _ _ Hg1)|]. intros r c2 Hg2. exact (goes_trans _ _ _ _ _ Hg1 Hg2).
Qed.

Lemma Recover_goes c : good c → wp (Recover p) (fun _ c' => goes c c') c.
Proof.
  intros Hg. unfold Recover. apply wp_bind, wp_get. destruct (negb _); [|by apply recover_all_goes].
  by apply wp_ret, goes_refl.
Qed.
End upkeep.
