(* ===== verification/System.v ===== *)
(** * Every interleaving keeps the invariant

    The invariant of the system: the allocator satisfies [alloc_ok], the disk
    holds the snapshot of such a state, nothing panicked; every command in
    progress has its replay entry, no two threads work on one entry, the
    execution a thread left the lock for is still there, and an execution about
    to be started is on disk. *)

From S2P Require Import Prelude GoStrings Ordering Wire Errors Protocol Feedback Capacity Admission Replay Registry.
From S2P Require Import Utf8 AllocTypes Snapshot AllocOps Commands Maintenance Threads Logic Invariant.
From S2P Require Import Refinement Handlers Upkeep.

(** ** What pins an execution *)

(** The replay entry of a command in progress. *)
Definition in_progress (a : Allocator) (e : Envelope) : Prop :=
  ∃ en, rc_entries (al_replay a) !! replay_key e = Some en ∧ re_done en = false ∧ re_envelope en = e.

(** The execution under [id] belongs to the request of the command [e]. *)
Definition pins (e : Envelope) (id : string) (a : Allocator) : Prop :=
  ∃ record, al_executions a !! id = Some record ∧
    match env_payload e with
    | Some (P_ExecutionAssign (Some m)) =>
      ex_client record = env_sender e ∧ er_request_id (ex_request record) = ea_request_id m
    | Some (P_ExecutionCancel (Some m)) => ec_execution_id m = id ∧ ex_client record = env_sender e
    | _ => False
    end.

Section pinned.
Context (p : Settings).

Lemma in_progress_busy a e id :
  in_progress a e → pins e id a →
  ∃ record, al_executions a !! id = Some record ∧
    authorityKey (ex_client record) (er_request_id (ex_request record)) ∈ busy_keys a.
Proof.
  intros (en & Hen & Hd & He) (record & Hr & Hp). exists record. split; [done|].
  unfold busy_keys. apply list_elem_of_In, in_flat_map. exists (replay_key e, en). split.
  { by apply list_elem_of_In, elem_of_map_to_list. }
  apply list_elem_of_In. unfold entry_busy, replayDone. simpl. rewrite Hd He.
  destruct (env_payload e) as [[| |[m|]|[m|]| | | | | | | | | | |]|]; try done.
  - destruct Hp as [-> ->]. by apply list_elem_of_singleton.
  - destruct Hp as [-> _]. rewrite Hr. by apply list_elem_of_singleton.
Qed.

Lemma transition_keeps s a a' : transition p s a a' → keeps_undone (al_replay a) (al_replay a').
Proof.
  intros Ht. destruct Ht; try done; intros k e0 ? ?; try done.
  all: unfold advance, finish_record; simpl; by case_match.
Qed.

Lemma in_progress_transition s a a' e : transition p s a a' → in_progress a e → in_progress a' e.
Proof.
  intros Ht (en & Hen & Hd & He). exists en. split; [|done]. by apply (transition_keeps _ _ _ Ht).
Qed.

Definition same_owner (r r' : executionRecord) : Prop := ex_client r' = ex_client r ∧ ex_request r' = ex_request r.

(** An execution whose request is busy survives every transition. *)
Lemma busy_execution s a a' id record :
  alloc_ok p a → transition p s a a' → al_executions a !! id = Some record →
  authorityKey (ex_client record) (er_request_id (ex_request record)) ∈ busy_keys a →
  ∃ record', al_executions a' !! id = Some record' ∧ same_owner record record'.
Proof.
  intros Hok Ht Hr Hb.
  assert (∀ m : gmap string executionRecord, ∀ id' e e', al_executions a !! id' = Some e → m = <[id' := e']> (al_executions a) →
    same_owner e e' → ∃ record', m !! id = Some record' ∧ same_owner record record') as Hins.
  { intros m id' e e' He -> Hs. destruct (decide (id' = id)) as [->|Hne].
    - exists e'. rewrite lookup_insert_eq. split; [done|]. congruence.
    - exists record. rewrite lookup_insert_ne //. }
  destruct Ht; simpl in *; try (by exists record).
  - exists record. unfold advance. by case_match.
  - exists record. rewrite lookup_insert_ne //. congruence.
  - destruct H3 as (_ & _ & ? & _ & ? & _). by apply (Hins _ _ _ e' H).
  - by apply (Hins _ _ _ (set_lease e until) H).
  - unfold finish_record. simpl. destruct (ex_released e); (eapply (Hins _ _ _ _ H); [reflexivity|by split]).
  - exists record. rewrite lookup_delete_ne; [|done]. intros <-.
    destruct (collectable_idle p a id0 o t Hok H H1) as [_ Hcol]. destruct (Hcol _ Hr) as (_ & Hoid & _).
    destruct (ak_linked _ _ Hok _ _ Hr) as (o' & Ho' & [_ _ Hcl Hrq _]). rewrite Hoid H in Ho'. injection Ho' as <-.
    assert (offer_key o = authorityKey (ex_client record) (er_request_id (ex_request record))) as Hk.
    { unfold offer_key. rewrite (oo_request _ _ (ak_offer _ _ Hok _ _ H)). by rewrite Hcl Hrq. }
    rewrite -Hk in Hb. apply str_contains_spec in Hb. congruence.
Qed.

Lemma pins_transition s a a' e id :
  alloc_ok p a → transition p s a a' → in_progress a e → pins e id a → pins e id a'.
Proof.
  intros Hok Ht Hin Hp. destruct (in_progress_busy _ _ _ Hin Hp) as (record & Hr & Hb).
  destruct (busy_execution _ _ _ _ _ Hok Ht Hr Hb) as (record' & Hr' & Hcl & Hrq).
  destruct Hp as (r0 & Hr0 & Hp). rewrite Hr in Hr0. injection Hr0 as <-.
  exists record'. split; [done|]. by rewrite Hcl Hrq.
Qed.

(** A command in progress and the execution it works on survive every run. *)
Lemma pinned_transitions s a a' e :
  rtc (transition p s) a a' → alloc_ok p a → in_progress a e →
  in_progress a' e ∧ ∀ id, pins e id a → pins e id a'.
Proof.
  induction 1 as [|a1 a2 a3 Ht _ IH]; intros Hok Hin; [done|].
  destruct IH as [Hin' Hp']; [by apply (transition_ok _ _ _ _ Ht)|by apply (in_progress_transition _ _ _ _ Ht)|].
  split; [done|]. intros id Hp. apply Hp'. by apply (pins_transition _ _ _ _ _ Hok Ht).
Qed.
End pinned.

(** ** Write-ahead *)

Section logged.
Context `{Externals, Codec} (p : Settings).

(** The snapshot on disk lists the execution. *)
Definition listed (id : string) (s : persistedState) : Prop :=
  ∃ pe, pe ∈ ps_Executions s ∧ pe_ID pe = json_string id.

Definition logged (id : string) (c : core) : Prop :=
  p_store p = true → ∃ s, c_disk c = Some s ∧ listed id s.

Lemma encode_listed a s id :
  alloc_ok p a → encode_state (p_identity p) a = Ok s → is_Some (al_executions a !! id) → listed id s.
Proof.
  intros Hok Hs [record Hr]. unfold encode_state in Hs.
  apply result_bind_ok in Hs as (offers & _ & Hs). apply result_bind_ok in Hs as (execs & Hx & Hs).
  apply result_bind_ok in Hs as (replay & _ & Hs). unfold json_state in Hs. simpl in Hs.
  case_match; [|done]. injection Hs as <-. apply try_map_ok in Hx.
  assert (record ∈ (map_to_list (al_executions a)).*2) as Hin.
  { apply list_elem_of_fmap. exists (id, record). split; [done|]. by apply elem_of_map_to_list. }
  apply list_elem_of_lookup_1 in Hin as [i Hi].
  destruct (Forall2_lookup_l _ _ _ _ _ Hx Hi) as (pe & Hpe & He).
  unfold encode_execution in He. apply result_bind_ok in He as (b & _ & [= <-]).
  eexists. split; [simpl; apply list_elem_of_In, in_map, list_elem_of_In; exact (list_elem_of_lookup_2 _ _ _ Hpe)|].
  simpl. by rewrite (eo_ex_id _ _ (ak_exec _ _ Hok _ _ Hr)).
Qed.

Lemma saves_logged c c' id :
  alloc_ok p (c_alloc c) → saves p c c' → is_Some (al_executions (c_alloc c) !! id) → logged id c'.
Proof.
  intros Hok Hs Hid Hst. unfold saves in Hs. rewrite Hst in Hs. destruct Hs as (s & Hs & ->).
  exists s. split; [done|]. by apply (encode_listed (c_alloc c)).
Qed.

(** A committed execution stays on disk while it is pinned. *)
Lemma logged_goes sw c c' e id :
  good p c → goes p sw c c' → in_progress (c_alloc c) e → pins e id (c_alloc c) → logged id c → logged id c'.
Proof.
  intros Hg (_ & _ & Hd) Hin Hp Hl Hst. destruct Hd as [->|(a & s & Ht & Hs & ->)]; [by apply Hl|].
  exists s. split; [done|]. pose proof (gd_alloc _ _ Hg) as Hok.
  apply (encode_listed a); [by apply (transitions_ok _ _ _ _ Ht)|done|].
  destruct (pinned_transitions _ _ _ _ _ Ht Hok Hin) as [_ Hp']. destruct (Hp' id Hp) as (record & -> & _). done.
Qed.
End logged.

(** ** The invariant of a thread *)

Section invariant.
Context `{Externals, Codec, Env} (p : Settings).
Abbreviation goes := (Refinement.goes p).
Abbreviation good := (Refinement.good p).

Definition thread_ok (c : core) (t : thread) : Prop :=
  (∀ e, holds t = Some e → in_progress (c_alloc c) e) ∧
  match t with
  | T_Check e => ValidateEnvelope (Some e) = Ok tt
  | T_Begin e | T_Run e => ValidateEnvelope (Some e) = Ok tt ∧ replayed_command e = true
  | T_Start e m r =>
    env_payload e = Some (P_ExecutionAssign (Some m)) ∧ pins e (st_ExecutionID r) (c_alloc c) ∧ st_ExecutionID r = ea_execution_id m ∧ st_Client r = env_sender e ∧
    logged p (st_ExecutionID r) c
  | T_Started e m id _ => env_payload e = Some (P_ExecutionAssign (Some m)) ∧ pins e id (c_alloc c)
  | T_Stop e _ s | T_Stopped e _ s _ => stopping_ok s ∧ pins e (sp_id s) (c_alloc c)
  | T_RecoverStop _ phase _ _ | T_RecoverStopped _ phase _ _ => Terminal phase = true
  | _ => True
  end.

Definition sweeper_ok (c : core) (sw : sweeper) : Prop :=
  match sw with
  | S_Stop _ s | S_Stopped _ s _ => stopping_ok s
  | S_Clean _ _ pending => Forall (pending_ok (c_alloc c)) pending
  | S_Commit _ _ dead rest => Forall (pending_ok (c_alloc c)) (dead :: rest)
  | _ => True
  end.

(** What one thread does leaves the others' invariants alone. *)
Lemma thread_ok_goes sw c c' t : good c → goes sw c c' → thread_ok c t → thread_ok c' t.
Proof.
  intros Hg Hgo [Hin Ht]. pose proof (gd_alloc _ _ Hg) as Hok. pose proof Hgo as (_ & Htr & _).
  assert (∀ e, holds t = Some e → in_progress (c_alloc c') e ∧ ∀ id, pins e id (c_alloc c) → pins e id (c_alloc c')) as Hk
    by (intros e He; by apply (pinned_transitions _ _ _ _ _ Htr Hok); auto).
  split; [intros e He; by apply Hk|]. destruct t; try done; simpl in *; try (destruct (Hk _ eq_refl) as [_ Hp]).
  - destruct Ht as (H0' & H1' & H2' & H3' & H4'). split_and!; auto. by apply (logged_goes p sw c c' e); auto.
  - destruct Ht. auto.
  - destruct Ht. auto.
  - destruct Ht. auto.
Qed.

Lemma transition_tombstones a a' : transition p false a a' → al_tombstones a' = al_tombstones a.
Proof.
  inversion 1; subst; try done; [by unfold advance; case_match|unfold finish_record; simpl; by case_match].
Qed.

Lemma sweeper_ok_goes c c' sw : goes false c c' → sweeper_ok c sw → sweeper_ok c' sw.
Proof.
  intros (_ & Ht & _).
  assert (al_tombstones (c_alloc c') = al_tombstones (c_alloc c)) as E
    by (induction Ht as [|? ? ? Hs _ IH]; [done|]; rewrite IH; by apply transition_tombstones).
  destruct sw; try done; simpl; unfold pending_ok; by rewrite E.
Qed.

(** The end of the command [e]. *)
Definition finishes (e : Envelope) (c c' : core) : Prop :=
  good c' ∧ (∃ responses err, c_alloc c' = set_replay (c_alloc c) (finish (al_replay (c_alloc c)) (replay_key e) responses err)) ∧
  (c_disk c' = c_disk c ∨ ∃ s, encode_state (p_identity p) (c_alloc c') = Ok s ∧ c_disk c' = Some s).

Lemma thread_ok_finishes e c c' t :
  good c → in_progress (c_alloc c) e → finishes e c c' →
  (∀ e', holds t = Some e' → replay_key e' ≠ replay_key e) → thread_ok c t → thread_ok c' t.
Proof.
  intros Hg (en & Hen & _) (Hg' & (rs & err & Hal) & Hd) Hne [Hin Ht].
  assert (al_executions (c_alloc c') = al_executions (c_alloc c)) as Hx by (by rewrite Hal).
  assert (∀ e id, pins e id (c_alloc c) → pins e id (c_alloc c')) as Hp by (intros ? ?; unfold pins; by rewrite Hx).
  split.
  { intros e' He'. destruct (Hin e' He') as (en' & Hen' & ?). exists en'. split; [|done]. rewrite Hal. simpl.
    rewrite (finish_entries _ _ en _ _ (ak_replay _ _ (gd_alloc _ _ Hg)) Hen).
    rewrite lookup_insert_ne //. intros E. by apply (Hne e' He'). }
  destruct t; try done; simpl in *.
  - destruct Ht as (H0' & (record & Hr & Hpin) & H2' & H3' & H4'). split_and!; auto; [apply Hp; by exists record|].
    intros Hst. destruct Hd as [->|(s & Hs & ->)]; [by apply H4'|]. exists s. split; [done|].
    apply (encode_listed p (c_alloc c')); [by apply gd_alloc|done|]. by rewrite Hx Hr.
  - destruct Ht. auto.
  - destruct Ht. auto.
  - destruct Ht. auto.
Qed.

(** ** One segment of a thread *)

Lemma required_nonempty s field : required s field = Ok tt → s ≠ "".
Proof. by intros Hr ->. Qed.

(** What dispatch relies on: the validated command and its identifiers. *)
Lemma valid_command e :
  ValidateEnvelope (Some e) = Ok tt → replayed_command e = true →
  match env_payload e with
  | Some (P_ExecutionRequest (Some m)) => er_request_id m ≠ ""
  | Some (P_ExecutionAssign (Some m)) => ea_execution_id m ≠ ""
  | Some (P_ExecutionCancel (Some _)) | Some (P_ExecutionInspect (Some _)) | Some (P_ExecutionOfferRelease (Some _))
  | Some (P_ExecutionLeaseRenew (Some _)) | Some (P_ExecutionTunnelOpen (Some _)) => True
  | _ => False
  end.
Proof.
  unfold ValidateEnvelope, replayed_command. intros Hv Hc. ok_steps. unfold validatePayload in Hv.
  destruct (env_payload e) as [[[m|]| |[m|]|[m|]| |[m|]|[m|]| | | | |[m|]| |[m|]|]|]; try done; simpl in Hv; ok_steps;
    try done; eauto using required_nonempty.
Qed.

(** How the entry a thread holds changes. *)
Definition holding (c : core) (t t' : thread) : Prop :=
  holds t' = holds t ∨ holds t' = None ∨
  ∃ e, t = T_Begin e ∧ holds t' = Some e ∧
    ∀ en, rc_entries (al_replay (c_alloc c)) !! replay_key e = Some en → re_done en = true.

Definition stepped (c : core) (t t' : thread) (c' : core) : Prop :=
  thread_ok c' t' ∧
  match t with
  | T_Finish e _ => finishes e c c' ∧ ∃ r, t' = T_Done r
  | _ => goes false c c' ∧ holding c t t'
  end.

(** A segment that ends by answering keeps the entry for the last segment. *)
Lemma kept_in_progress c c' e : good c → goes false c c' → in_progress (c_alloc c) e → in_progress (c_alloc c') e.
Proof. intros Hg (_ & Ht & _) Hin. by apply (pinned_transitions _ _ _ _ _ Ht (gd_alloc _ _ Hg) Hin). Qed.

Lemma finish_ready c c' e r :
  good c → goes false c c' → in_progress (c_alloc c) e → thread_ok c' (T_Finish e r).
Proof. intros Hg Hgo Hin. split; [|done]. intros e' [= <-]. by apply (kept_in_progress c). Qed.

Lemma wp_finish_command c e r :
  good c → wp (finish_command p e r) (fun _ c' => finishes e c c') c.
Proof.
  intros Hg. unfold finish_command.
  apply wp_bind, (wp_mono _ (fun _ c' => c' = c)).
  { destruct r as [[|x l] [err|]]; simpl; wp_steps; done. }
  intros responses c' ->. apply wp_bind. eapply wp_mono; [by apply finishReplay_good|].
  intros err c' (Hg' & Hal & Hd). apply wp_ret. split_and!; eauto.
Qed.

Lemma run_first_ok c e :
  good c → thread_ok c (T_Run e) → wp (run_first p e) (stepped c (T_Run e)) c.
Proof.
  intros Hg [Hin [Hv Hc]]. specialize (Hin e eq_refl). pose proof (valid_command e Hv Hc) as Hm. unfold run_first.
  assert (∀ r c', goes false c c' → stepped c (T_Run e) (T_Finish e r) c') as Hfin.
  { intros r c' Hgo. split; [by apply (finish_ready c)|]. split; [done|by left]. }
  destruct (env_payload e) as [[[m|]| |[m|]|[m|]| |[m|]|[m|]| | | | |[m|]| |[m|]|]|] eqn:Hpl; try done; apply wp_bind.
  - eapply wp_mono; [by apply handleRequest_goes|]. intros r c' Hgo. by apply wp_ret, Hfin.
  - eapply wp_mono; [by apply assign_begin_goes|]. intros [r|q] c' [Hgo Hq]; apply wp_ret; [by apply Hfin|].
    destruct Hq as [(record & Hr & -> & _ & Hcl & Hrq & _) (c0 & Hs & Hc0)].
    pose proof (gd_alloc _ _ (goes_good _ _ _ _ Hgo)) as Hok.
    assert (ex_id record = ea_execution_id m) as Hid by apply (eo_ex_id _ _ (ak_exec _ _ Hok _ _ Hr)).
    split; [split; [intros e' [= <-]; by apply (kept_in_progress c)|]|split; [done|by left]]. simpl. rewrite Hid.
    split_and!; [done| |done|done|]; [exists record; split; [done|]; by rewrite Hpl|].
    apply (saves_logged p c0); [by rewrite Hc0|done|by rewrite Hc0 Hr].
  - eapply wp_mono; [by apply cancel_begin_goes|]. intros [r|s] c' [Hgo Hq]; apply wp_ret; [by apply Hfin|].
    destruct Hq as (record & Hr & _ & Hid & Hcl & _ & Ht & Hk).
    split; [split; [intros e' [= <-]; by apply (kept_in_progress c)|]|split; [done|by left]].
    split; [done|]. exists record. split; [done|]. by rewrite Hpl.
  - eapply wp_mono; [by apply handleInspect_pure|]. intros r c' [-> _]. by apply wp_ret, Hfin, goes_refl.
  - eapply wp_mono; [by apply handleOfferRelease_goes|]. intros r c' [Hgo _]. by apply wp_ret, Hfin.
  - eapply wp_mono; [by apply handleLeaseRenew_goes|]. intros r c' [Hgo _]. by apply wp_ret, Hfin.
  - eapply wp_mono; [by apply tunnel_open_check_pure|]. intros [r|t] c' [-> _]; apply wp_ret; [by apply Hfin, goes_refl|].
    split; [split; [by intros e' [= <-]|done]|]. split; [by apply goes_refl|by left].
Qed.

(** A segment that changes nothing but what was asked of the environment. *)
Lemma stepped_quiet c c' t t' :
  good c → goes false c c' → match t with T_Finish _ _ => False | _ => True end →
  holds t' = None ∨ holds t' = holds t →
  thread_ok c' t' → stepped c t t' c'.
Proof.
  intros Hg Hgo Ht Hh Ht'. split; [done|]. destruct t; try done; (split; [done|]); unfold holding; tauto.
Qed.

Lemma answered_ok c c' e (r : option reply) :
  good c → goes false c c' → stepped c (T_Begin e) (from_option T_Done (T_Wait e) r) c'.
Proof. intros Hg Hgo. apply stepped_quiet; try done; destruct r; simpl; auto; by split. Qed.

Lemma checkFreshness_goes c e : good c → wp (checkFreshness e) (fun _ c' => goes false c c') c.
Proof.
  intros Hg. unfold checkFreshness. apply wp_bind, (wp_goes_clock p false c c); [by apply goes_refl|].
  intros t c' Hgo _. wp_steps. done.
Qed.

Lemma begin_ok c e :
  good c → thread_ok c (T_Begin e) → wp (step_thread p (T_Begin e)) (stepped c (T_Begin e)) c.
Proof.
  intros Hg [_ [Hv Hc]]. cbn [step_thread]. apply wp_bind, wp_now. intros t. apply wp_bind.
  eapply wp_mono; [apply beginReplay_goes; [done|apply authorityKey_nonempty]|].
  intros [[entry|]|err] c' [Hgo Hb].
  - apply wp_bind. unfold answer_duplicate. wp_steps. by apply (answered_ok c c' e).
  - apply wp_ret. destruct Hb as (Hnew & Hold & _). split.
    + split; [|done]. intros e' [= <-]. eexists; split; [exact Hnew|done].
    + split; [done|]. right; right. by exists e.
  - wp_steps. apply stepped_quiet; try done. by left.
Qed.

Lemma recover_next_ok c c' t err rest :
  good c → goes false c c' → holds t = None → match t with T_Finish _ _ => False | _ => True end →
  stepped c t (recover_next err rest) c'.
Proof. intros Hg Hgo Hh Ht. apply stepped_quiet; try done; destruct err; simpl; auto; by split. Qed.

Lemma step_thread_ok c t : good c → thread_ok c t → wp (step_thread p t) (stepped c t) c.
Proof.
  intros Hg Ht. pose proof (goes_refl p false c Hg) as Hr.
  destruct t; try (by apply begin_ok); try (by apply run_first_ok); cbn [step_thread].
  - apply wp_bind. eapply wp_mono; [by apply checkFreshness_goes|]. intros [err|] c' Hgo.
    { wp_steps. apply stepped_quiet; try done. by left. }
    apply wp_ret. apply stepped_quiet; try done; destruct (get_logs e); simpl; auto; try done;
      destruct (replayed_command e) eqn:Hc; simpl; auto; split; try done. split; [apply Ht|done].
  - apply wp_bind. eapply wp_mono; [apply handleLogs_pure|]. intros r c' [-> _]. apply wp_ret.
    apply stepped_quiet; try done. by left.
  - wp_steps. apply stepped_quiet; try done; [left|]; by case_match.
  - apply wp_bind, wp_call; [done|]. intros err. apply wp_ret. destruct Ht as (Hin & Hpl & Hp & _).
    apply stepped_quiet; [done|by apply goes_call|done|by right|]. by split.
  - apply wp_bind. destruct Ht as (Hin & _ & Hp). eapply wp_mono; [apply assign_finish_goes; [done|]|].
    { destruct Hp as (record & Hp & _). by rewrite Hp. }
    intros r c' [Hgo _]. apply wp_ret. apply stepped_quiet; [done..|by right|]. apply (finish_ready c); auto.
  - apply wp_bind, wp_call; [done|]. intros err. apply wp_ret. 
    apply stepped_quiet; [done|by apply goes_call|done|by right|]. done.
  - apply wp_bind. destruct Ht as (Hin & Hs & Hp). eapply wp_mono; [apply cancel_finish_goes; [done| |apply Hs|apply Hs]|].
    { destruct Hp as (record & Hp & _). by rewrite Hp. }
    intros r c' [Hgo _]. apply wp_ret. apply stepped_quiet; [done..|by right|]. apply (finish_ready c); auto.
  - apply wp_bind. destruct Ht as (Hin & _). eapply wp_mono; [by apply tunnel_open_bind_goes|].
    intros r c' [Hgo _]. apply wp_ret. apply stepped_quiet; [done..|by right|]. apply (finish_ready c); auto.
  - apply wp_bind. eapply wp_mono; [by apply wp_finish_command|]. intros r' c' Hf. apply wp_ret.
    split; [done|]. split; [done|]. by eexists.
  - apply wp_ret. apply stepped_quiet; try done. by left.
  - destruct ids as [|id rest]; [apply wp_ret; apply stepped_quiet; try done; by left|].
    apply wp_bind, wp_ctx_Err. intros [err|]; [apply wp_ret; apply stepped_quiet; try done; by left|].
    apply wp_bind. eapply wp_mono; [apply recover_plan_pure|]. intros plan c' [-> Hpl]. apply wp_ret.
    apply stepped_quiet; try done; destruct plan; simpl; auto; by split.
  - apply wp_bind, wp_call; [done|]. intros err. apply wp_ret.
    apply stepped_quiet; [done|by apply goes_call|done|left; by case_match|]. case_match; [done|]. split; [done|apply Ht].
  - apply wp_bind. eapply wp_mono; [apply recover_terminal_goes; [done|apply Ht]|]. intros err c' [Hgo _].
    by apply wp_ret, recover_next_ok.
  - apply wp_bind, wp_call; [done|]. intros err. apply wp_ret.
    apply stepped_quiet; [done|by apply goes_call|done|by left|]. done.
  - apply wp_bind. eapply wp_mono; [by apply recover_finish_goes|]. intros err c' Hgo.
    by apply wp_ret, recover_next_ok.
  - apply wp_ret. apply stepped_quiet; try done. by left.
Qed.

(** ** One segment of the sweeper, and the other operations *)

Lemma step_sweeper_ok c sw :
  good c → sweeper_ok c sw → wp (step_sweeper p sw) (fun sw' c' => goes true c c' ∧ sweeper_ok c' sw') c.
Proof.
  intros Hg Hs. pose proof (goes_refl p true c Hg) as Hr. destruct sw; cbn [step_sweeper].
  - by apply wp_ret.
  - apply wp_bind. eapply wp_mono; [by apply evict_scan_goes|]. intros [r|s] c' [Hgo Hq]; apply wp_ret.
    + split; [by apply goes_sweeps|done].
    + split; [by apply goes_sweeps|apply Hq].
  - apply wp_bind, wp_call; [done|]. intros err. apply wp_ret. split; [by apply sweeps_call|done].
  - apply wp_bind. eapply wp_mono; [by apply evict_finish_goes|]. intros err c' [Hgo _]. apply wp_ret.
    split; [by apply goes_sweeps|by case_match].
  - apply wp_bind. eapply wp_mono; [by apply sweep_collect_sweeps|]. intros [err pending] c' (Hgo & Hok & _).
    apply wp_ret. split; [done|]. simpl in *. destruct err; [done|]. by apply Hok.
  - destruct pending as [|dead rest]; [by apply wp_ret|]. apply wp_bind.
    eapply wp_mono; [by apply cleanup_files_quiet|]. intros err c' [Hgo Hal]. apply wp_ret. split; [done|].
    simpl in Hs. apply Forall_cons in Hs as [Hd Hrest]. destruct err; simpl; rewrite Hal; [done|by constructor].
  - simpl in Hs. apply Forall_cons in Hs as [Hd Hrest]. apply wp_bind.
    eapply wp_mono; [by apply cleanup_commit_sweeps|]. intros err c' [Hgo Hk]. apply wp_ret. split; [done|].
    simpl. eapply Forall_impl; [exact Hrest|exact Hk].
Qed.

Lemma operate_ok c op : good c → wp (operate p op) (fun _ c' => goes false c c') c.
Proof.
  intros Hg. pose proof (goes_refl p false c Hg) as Hr. destruct op; cbn [operate].
  - apply wp_bind. eapply wp_mono; [by apply completionReporter_goes|]. intros r c' Hgo. by apply wp_ret.
  - apply wp_bind. eapply wp_mono; [apply (session_open_goes p); done|]. intros r c' Hgo. by apply wp_ret.
  - apply wp_bind. eapply wp_mono; [apply (session_recheck_goes p); done|]. intros r c' Hgo. by apply wp_ret.
  - by apply CloseTunnel_goes.
  - apply wp_bind. unfold SweepExpired. apply wp_bind, wp_now. intros t.
    apply wp_bind, (wp_goes_expire p false c c); [done|]. intros n c' Hgo. destruct (0 <? n); [|by wp_steps].
    apply wp_bind, (wp_goes_persist p false c c'); [done|intros; by wp_steps|]. intros c2 Hgo2 _. by wp_steps.
  - apply wp_bind. unfold Available. apply wp_bind, wp_now. intros t.
    apply wp_bind, (wp_goes_expire p false c c); [done|]. intros n c' Hgo. by wp_steps.
Qed.

(** ** The invariant of the system *)

Definition distinct_keys (ts : gmap nat thread) : Prop :=
  ∀ i j t t' e e', ts !! i = Some t → ts !! j = Some t' → holds t = Some e → holds t' = Some e' →
    replay_key e = replay_key e' → i = j.

Record sys_ok (s : system) : Prop := {
  so_good : good (core_of (sy_world s));
  so_threads i t : sy_threads s !! i = Some t → thread_ok (core_of (sy_world s)) t;
  so_distinct : distinct_keys (sy_threads s);
  so_sweeper : sweeper_ok (core_of (sy_world s)) (sy_sweeper s)
}.

Lemma wake_holds key r t : holds (wake key r t) = holds t.
Proof. unfold wake. destruct t; try done. by case_bool_decide. Qed.

Lemma wake_ok c key r t : thread_ok c t → thread_ok c (wake key r t).
Proof. unfold wake. destruct t; try done. by case_bool_decide. Qed.

Lemma notify_lookup th th' ts j t :
  notify th th' ts !! j = Some t →
  ∃ t0, ts !! j = Some t0 ∧ holds t = holds t0 ∧ ∀ c, thread_ok c t0 → thread_ok c t.
Proof.
  unfold notify. intros Hl. destruct th; try by exists t. destruct th'; try by exists t.
  rewrite lookup_fmap fmap_Some in Hl. destruct Hl as (t0 & Ht0 & ->). exists t0.
  split; [done|]. split; [apply wake_holds|]. intros c. apply wake_ok.
Qed.

Lemma distinct_insert i t t' ts ts' :
  distinct_keys ts → ts !! i = Some t →
  (∀ j u, ts' !! j = Some u → ∃ u0, ts !! j = Some u0 ∧ holds u = holds u0) →
  (∀ e, holds t' = Some e → holds t = Some e ∨
     ∀ j u e', j ≠ i → ts !! j = Some u → holds u = Some e' → replay_key e' ≠ replay_key e) →
  distinct_keys (<[i := t']> ts').
Proof.
  intros Hd Hi Hts Hnew. unfold distinct_keys in *.
  assert (∀ j u e e', j ≠ i → ts' !! j = Some u → holds t' = Some e → holds u = Some e' → replay_key e ≠ replay_key e') as Hx.
  { intros j u e e' Hne Hu He He' E. destruct (Hts j u Hu) as (u0 & Hu0 & Hh). rewrite Hh in He'.
    destruct (Hnew e He) as [Hold|Hfree]; [|by apply (Hfree j u0 e')].
    apply Hne. symmetry. by apply (Hd i j t u0 e e'). }
  intros j k u u' e e' Hu Hu' He He' E.
  apply lookup_insert_Some in Hu as [[<- <-]|[Hj Hu]]; apply lookup_insert_Some in Hu' as [[<- <-]|[Hk Hu']]; try done.
  - exfalso. apply (Hx k u' e e'); congruence.
  - exfalso. apply (Hx j u e' e); congruence.
  - destruct (Hts j u Hu) as (u0 & Hu0 & Hh). destruct (Hts k u' Hu') as (u0' & Hu0' & Hh').
    apply (Hd j k u0 u0' e e'); congruence.
Qed.

Lemma threads_goes sw c c' (ts : gmap nat thread) :
  good c → goes sw c c' → (∀ i t, ts !! i = Some t → thread_ok c t) → ∀ i t, ts !! i = Some t → thread_ok c' t.
Proof. intros Hg Hgo Hts i t Hi. by apply (thread_ok_goes sw c); eauto. Qed.

Lemma sys_spawn_ok w ts sw i th :
  sys_ok (mkSystem w ts sw) → ts !! i = None → entry_point p w th → sys_ok (mkSystem w (<[i := th]> ts) sw).
Proof.
  intros [Hg Hts Hd Hsw] Hi He. assert (holds th = None) as Hh by (by destruct th).
  split; simpl in *; [done| | |done].
  - intros j t Hj. apply lookup_insert_Some in Hj as [[<- <-]|[_ Hj]]; [|by apply (Hts j)].
    split; [by rewrite Hh|]. by destruct th.
  - intros j k t t' e e' Hj Hk Ht Ht' E.
    apply lookup_insert_Some in Hj as [[<- <-]|[_ Hj]]; [congruence|].
    apply lookup_insert_Some in Hk as [[<- <-]|[_ Hk]]; [congruence|]. by apply (Hd j k t t' e e').
Qed.

(** The other threads after a step of the thread under [i]. *)
Lemma others_ok c c' (ts : gmap nat thread) i t t' j u :
  good c → (∀ i t, ts !! i = Some t → thread_ok c t) → distinct_keys ts → ts !! i = Some t →
  stepped c t t' c' → j ≠ i → ts !! j = Some u → thread_ok c' u.
Proof.
  intros Hg Hts Hd Hi [_ Hst] Hne Hj.
  assert ((∃ e r, t = T_Finish e r) ∨ goes false c c') as [(e & r & ->)|Hgo].
  { destruct t; try (right; apply Hst). left. by eauto. }
  - destruct Hst as [Hf _]. apply (thread_ok_finishes e c c'); [done| |done| |by apply (Hts j)].
    + by apply (Hts i _ Hi).
    + intros e' He' E. apply Hne. by apply (Hd j i u (T_Finish e r) e' e).
  - by apply (thread_ok_goes false c); eauto.
Qed.

(** A thread that comes to hold an entry is alone with it. *)
Lemma fresh_entry c t t' c' (ts : gmap nat thread) i e :
  (∀ i t, ts !! i = Some t → thread_ok c t) → stepped c t t' c' → holds t' = Some e →
  holds t = Some e ∨ ∀ j u e', j ≠ i → ts !! j = Some u → holds u = Some e' → replay_key e' ≠ replay_key e.
Proof.
  intros Hts [_ Hst] He.
  assert (holding c t t') as [Hh|[Hh|(e0 & -> & Hh & Hold)]].
  { destruct t; try apply Hst. destruct Hst as [_ [r0 ->]]. done. }
  - left. congruence.
  - congruence.
  - right. intros j u e' _ Hj Hu E. rewrite He in Hh. injection Hh as ->.
    destruct (Hts j u Hj) as [Hin _]. destruct (Hin e' Hu) as (en & Hen & Hdn & _). rewrite E in Hen.
    by rewrite (Hold en Hen) in Hdn.
Qed.

Lemma stepped_good c t t' c' : stepped c t t' c' → good c'.
Proof. intros [_ Hst]. destruct t; try (by destruct Hst as [[? _] _]). Qed.

Lemma stepped_sweeper c t t' c' sw : stepped c t t' c' → sweeper_ok c sw → sweeper_ok c' sw.
Proof.
  intros [_ Hst] Hs. destruct t; try (destruct Hst as [Hgo _]; by apply (sweeper_ok_goes c)).
  destruct Hst as [(_ & (rs & err & Hal) & _) _]. destruct sw; try done; simpl in *; unfold pending_ok in *; by rewrite Hal.
Qed.

Lemma sys_step_ok s s' : sys_ok s → sys_step p s s' → sys_ok s'.
Proof.
  intros Hok Hst. destruct Hst as [w ts sw i th Hi He|w ts sw i th th' w' Hi Hrun|w ts sw sw' w' Hrun|w ts sw op].
  - by apply sys_spawn_ok.
  - destruct Hok as [Hg Hts Hd Hsw]. simpl in *.
    pose proof (wp_run _ _ w (step_thread_ok _ _ Hg (Hts _ _ Hi))) as Hs. rewrite Hrun in Hs. simpl in Hs.
    split; simpl; [exact (stepped_good _ _ _ _ Hs)| | |exact (stepped_sweeper _ _ _ _ _ Hs Hsw)].
    + intros j u Hj. apply lookup_insert_Some in Hj as [[<- <-]|[Hne Hj]]; [apply Hs|].
      destruct (notify_lookup _ _ _ _ _ Hj) as (u0 & Hu0 & _ & Hk). apply Hk.
      apply (others_ok (core_of w) _ ts i th th' j); try done; congruence.
    + apply (distinct_insert i th th' ts); [done|done| |].
      * intros j u Hj. destruct (notify_lookup _ _ _ _ _ Hj) as (u0 & Hu0 & Hh & _). by exists u0.
      * intros e He. by apply (fresh_entry (core_of w) th th' (core_of w') ts i e).
  - destruct Hok as [Hg Hts Hd Hsw]. simpl in *.
    pose proof (wp_run _ _ w (step_sweeper_ok _ _ Hg Hsw)) as Hs. rewrite Hrun in Hs. destruct Hs as [Hgo Hsw'].
    split; simpl; [eauto with r1s| |done|done]. by apply (threads_goes true (core_of w)).
  - destruct Hok as [Hg Hts Hd Hsw]. simpl in *. pose proof (wp_run _ _ w (operate_ok _ op Hg)) as Hgo.
    split; simpl; [exact (goes_good _ _ _ _ Hgo)| |done|by apply (sweeper_ok_goes (core_of w))].
    by apply (threads_goes false (core_of w)).
Qed.

Lemma sys_steps_ok s s' : rtc (sys_step p) s s' → sys_ok s → sys_ok s'.
Proof. induction 1; eauto using sys_step_ok. Qed.

(** A freshly started process. *)
Definition started (w : World) : system := mkSystem w ∅ S_Idle.

Lemma started_ok w : good (core_of w) → sys_ok (started w).
Proof. intros Hg. split; simpl; [done| | |done]; [intros i t|intros i j t t' e e']; by rewrite lookup_empty. Qed.
End invariant.
