(* ===== verification/Lifecycle.v ===== *)
(** * What the transitions promise about records, quotas and the clock

    Consequences of the abstract transitions, and so of every handler: an
    execution keeps its identity, a terminal execution never changes again, a
    live one never disappears, quotas are respected, the clock's high-water mark
    never goes back. *)

From S2P Require Import Prelude GoStrings Ordering Wire Errors Protocol Feedback Capacity Admission Replay Registry.
From S2P Require Import Utf8 AllocTypes Snapshot AllocOps Commands Maintenance Logic Invariant Refinement.
From S2P Require Import Handlers Upkeep.

(** ** The life of an execution *)

(** The record of an execution before and after: a terminal one is unchanged, a
    live one is still there, of the same owner, request, offer and resources. *)
Definition evolves (r r' : executionRecord) : Prop :=
  if Terminal (ex_phase r) then r' = r
  else ex_id r' = ex_id r ∧ ex_offerID r' = ex_offerID r ∧ ex_client r' = ex_client r ∧
       ex_request r' = ex_request r ∧ ex_resourceClass r' = ex_resourceClass r ∧
       ex_resources r' = ex_resources r ∧ ex_startedAt r' = ex_startedAt r.

Lemma evolves_refl r : evolves r r.
Proof. unfold evolves. by case_match. Qed.

Lemma evolves_trans r1 r2 r3 : evolves r1 r2 → evolves r2 r3 → evolves r1 r3.
Proof.
  unfold evolves. destruct (Terminal (ex_phase r1)) eqn:H1; [intros ->; by rewrite H1|].
  intros H12. destruct (Terminal (ex_phase r2)); [by intros ->|].
  intuition congruence.
Qed.

(** Every record either evolves or, if the sweep took the step, was collected
    as a terminal one. *)
Definition executions_evolve (a a' : Allocator) : Prop :=
  ∀ id r, al_executions a !! id = Some r → ∃ r', al_executions a' !! id = Some r' ∧ evolves r r'.

Lemma executions_evolve_insert a a' id e e' :
  al_executions a !! id = Some e → al_executions a' = <[id := e']> (al_executions a) → evolves e e' →
  executions_evolve a a'.
Proof.
  intros He E Hev id' r Hr. rewrite E. destruct (decide (id = id')) as [<-|Hne].
  - exists e'. rewrite lookup_insert_eq. split; [done|]. congruence.
  - exists r. rewrite lookup_insert_ne //. split; [done|apply evolves_refl].
Qed.

Section lifecycle.
Context (p : Settings).

Lemma transition_evolves a a' : transition p false a a' → executions_evolve a a'.
Proof.
  assert (∀ a' : Allocator, al_executions a' = al_executions a → executions_evolve a a') as Hsame.
  { intros a1 E id r Hr. exists r. rewrite E. split; [done|apply evolves_refl]. }
  inversion 1; subst; try (by apply Hsame).
  - apply Hsame. unfold advance. by case_match.
  - intros id' r Hr. exists r. simpl. rewrite lookup_insert_ne; [congruence|]. split; [done|apply evolves_refl].
  - apply (executions_evolve_insert _ _ id e e'); [done|done|]. unfold evolves. rewrite H1.
    unfold same_execution in *. tauto.
  - apply (executions_evolve_insert _ _ id e (set_lease e until)); [done|done|]. unfold evolves. by rewrite H1.
  - unfold finish_record. destruct (ex_released e).
    all: eapply (executions_evolve_insert _ _ id e); [done|reflexivity|]; unfold evolves; by rewrite H1.
Qed.

Lemma transitions_evolve a a' : rtc (transition p false) a a' → executions_evolve a a'.
Proof.
  induction 1 as [a|a1 a2 a3 H12 _ IH]; [intros id r Hr; exists r; split; [done|apply evolves_refl]|].
  intros id r Hr. destruct (transition_evolves _ _ H12 id r Hr) as (r2 & Hr2 & He2).
  destruct (IH id r2 Hr2) as (r3 & Hr3 & He3). exists r3. split; [done|]. exact (evolves_trans _ _ _ He2 He3).
Qed.

(** ** The clock *)

Lemma transition_highWater s a a' : transition p s a a' → al_highWater a ≤ al_highWater a'.
Proof.
  destruct 1; simpl; try lia; [unfold advance, after; case_match; simpl; lia|].
  unfold finish_record. simpl. destruct (ex_released _); simpl; lia.
Qed.

Lemma transitions_highWater s a a' : rtc (transition p s) a a' → al_highWater a ≤ al_highWater a'.
Proof. induction 1 as [|? ? ? Ht _ IH]; [lia|]. pose proof (transition_highWater _ _ _ Ht). lia. Qed.

(** ** Quotas *)

Definition offers_of (a : Allocator) (owner : bytes) : Z := mcount (owned_outstanding owner) (al_offers a).
Definition executions_of (a : Allocator) (owner : bytes) : Z := mcount (owned_live owner) (al_executions a).

Definition quota_ok (a : Allocator) : Prop :=
  ∀ owner, let q := client_quota (p_admission p) owner in
    (0 < quota_Offers q → offers_of a owner ≤ quota_Offers q) ∧
    (0 < quota_Executions q → executions_of a owner ≤ quota_Executions q).

(** Each execution is linked to an offer of its own. *)
Lemma executions_le_offers a : alloc_ok p a → (size (al_executions a) ≤ size (al_offers a))%nat.
Proof.
  intros Hok. rewrite -!length_map_to_list -(length_fmap (fun kv => ex_offerID kv.2)) -(length_fmap fst (map_to_list (al_offers a))).
  apply submseteq_length, NoDup_submseteq.
  - apply NoDup_fmap_2_strong; [|apply NoDup_map_to_list].
    intros [i r] [j r'] Hi%elem_of_map_to_list Hj%elem_of_map_to_list E. simpl in E.
    destruct (ak_linked _ _ Hok _ _ Hi) as (o & Ho & []). destruct (ak_linked _ _ Hok _ _ Hj) as (o' & Ho' & []).
    assert (i = j) by congruence. subst. congruence.
  - intros k Hk. apply list_elem_of_fmap in Hk as ([i r] & -> & Hi%elem_of_map_to_list).
    destruct (ak_linked _ _ Hok _ _ Hi) as (o & Ho & _). apply list_elem_of_fmap. exists (ex_offerID r, o).
    split; [done|]. by apply elem_of_map_to_list.
Qed.

Lemma counts_small a f g :
  alloc_ok p a → p_maxRecords p < 2 ^ 32 →
  u32 (mcount f (al_offers a)) = mcount f (al_offers a) ∧ u32 (mcount g (al_executions a)) = mcount g (al_executions a).
Proof.
  intros Hok Hmax. pose proof (executions_le_offers a Hok). pose proof (ak_budget _ _ Hok).
  pose proof (mcount_size f (al_offers a)). pose proof (mcount_size g (al_executions a)).
  pose proof (mcount_nonneg f (al_offers a)). pose proof (mcount_nonneg g (al_executions a)).
  split; apply u32_small; lia.
Qed.

(** A step that does not raise the counts keeps the quotas. *)
Lemma quota_le a a' :
  quota_ok a → (∀ owner, offers_of a' owner ≤ offers_of a owner) → (∀ owner, executions_of a' owner ≤ executions_of a owner) →
  quota_ok a'.
Proof.
  intros Hq Ho Hx owner. specialize (Hq owner). specialize (Ho owner). specialize (Hx owner). simpl in *. lia.
Qed.

Lemma mcount_delete_le {V} (f : V → bool) (m : gmap string V) k : mcount f (delete k m) ≤ mcount f m.
Proof.
  destruct (m !! k) as [v|] eqn:Hk; [rewrite (mcount_delete _ _ _ v) //|rewrite delete_id //; lia].
  destruct (f v); simpl; lia.
Qed.

Lemma insert_offer_counts a m owner id o o' :
  al_offers a !! id = Some o → m = <[id := o']> (al_offers a) →
  (owned_outstanding owner o' = true → owned_outstanding owner o = true) →
  mcount (owned_outstanding owner) m ≤ offers_of a owner.
Proof.
  intros Ho -> Hle. unfold offers_of. rewrite (mcount_insert_Some _ _ _ o) //.
  destruct (owned_outstanding owner o'); [rewrite Hle //|]; destruct (owned_outstanding owner o); simpl; lia.
Qed.

Lemma insert_execution_counts a m owner id e e' :
  al_executions a !! id = Some e → m = <[id := e']> (al_executions a) →
  (owned_live owner e' = true → owned_live owner e = true) →
  mcount (owned_live owner) m ≤ executions_of a owner.
Proof.
  intros He -> Hle. unfold executions_of. rewrite (mcount_insert_Some _ _ _ e) //.
  destruct (owned_live owner e'); [rewrite Hle //|]; destruct (owned_live owner e); simpl; lia.
Qed.

Lemma transition_quota s a a' :
  p_maxRecords p < 2 ^ 32 → alloc_ok p a → transition p s a a' → quota_ok a → quota_ok a'.
Proof.
  intros Hmax Hok Ht Hq. destruct Ht; try (apply (quota_le a); [done| |]; intros owner; by apply Z.le_refl).
  - apply (quota_le a); [done| |]; intros owner; unfold advance; case_match; by apply Z.le_refl.
  - intros owner. specialize (Hq owner). destruct H4 as [_ Hleft]. destruct Hq as [Hqo Hqx]. split; [|done].
    intros Hpos. unfold offers_of. simpl. rewrite mcount_insert_None //.
    destruct (counts_small a (owned_outstanding (of_client o)) (fun _ => true) Hok Hmax) as [Hu _]. rewrite Hu in Hleft.
    unfold owned_outstanding at 1. rewrite H2 bool_decide_eq_true_2 //=.
    case_bool_decide as Hcl; simpl; [subst owner; specialize (Hleft Hpos); unfold offers_of; lia|by apply Hqo].
  - apply (quota_le a); [done| |]; intros owner; [|by apply Z.le_refl].
    eapply (insert_offer_counts _ _ _ id o); [done|reflexivity|]. unfold owned_outstanding. rewrite H0. simpl.
    by destruct H1 as [-> | ->].
  - intros owner. specialize (Hq owner). destruct H6 as [_ Hleft]. destruct Hq as [Hqo Hqx]. split.
    + intros Hpos. etrans; [|by apply Hqo].
      by eapply (insert_offer_counts _ _ _ id o); [done|reflexivity|].
    + intros Hpos. unfold executions_of. simpl. rewrite mcount_insert_None //.
      destruct (counts_small a (fun _ => true) (owned_live (of_client o)) Hok Hmax) as [_ Hu]. rewrite Hu in Hleft.
      destruct H5 as [_ _ Hcl _ _]. simpl in Hcl.
      unfold owned_live at 1. rewrite H3 -Hcl /=.
      case_bool_decide as Ho; simpl; [subst owner; specialize (Hleft Hpos); unfold executions_of; lia|by apply Hqx].
  - apply (quota_le a); [done|intros owner; by apply Z.le_refl|]. intros owner.
    destruct H3 as (_ & _ & Hcl & _).
    eapply (insert_execution_counts _ _ _ id e); [done|reflexivity|]. unfold owned_live. by rewrite H0 H1 Hcl.
  - apply (quota_le a); [done|intros owner; by apply Z.le_refl|]. intros owner.
    by eapply (insert_execution_counts _ _ _ id e); [done|reflexivity|].
  - apply (quota_le a); [done| |]; intros owner; unfold finish_record; destruct (ex_released e); try by apply Z.le_refl.
    all: eapply (insert_execution_counts _ _ _ id e); [done|reflexivity|]; unfold owned_live; simpl; by rewrite H1.
  - apply (quota_le a); [done| |]; intros owner; apply mcount_delete_le.
Qed.

Lemma transitions_quota s a a' :
  p_maxRecords p < 2 ^ 32 → rtc (transition p s) a a' → alloc_ok p a → quota_ok a → quota_ok a'.
Proof.
  intros Hmax. induction 1 as [|a1 a2 a3 Ht _ IH]; [done|]. intros Hok Hq.
  apply IH; [by apply (transition_ok _ _ _ _ Ht)|by apply (transition_quota s a1)].
Qed.

(** ** Collection *)

(** The sweep leaves an execution as it is, or removes a terminal one. *)
Definition executions_collected (a a' : Allocator) : Prop :=
  ∀ id r, al_executions a !! id = Some r →
    al_executions a' !! id = Some r ∨ (al_executions a' !! id = None ∧ Terminal (ex_phase r) = true).

Lemma collected_none (a a' : Allocator) id :
  al_executions a' ⊆ al_executions a → al_executions a !! id = None → al_executions a' !! id = None.
Proof. intros Hs Hn. exact (lookup_weaken_None _ _ _ Hn Hs). Qed.

(** One turn of the collection loop, over an offer still in the map. *)
Lemma collect_one_executions busy t a k o :
  alloc_ok p a → al_offers a !! k = Some o →
  let a' := collect_one busy t a (k, o) in
  alloc_ok p a' ∧ al_executions a' ⊆ al_executions a ∧ executions_collected a a' ∧
  ∀ k', k' ≠ k → al_offers a' !! k' = al_offers a !! k'.
Proof.
  intros Hok Ho. unfold collect_one. assert (executions_collected a a) as Hrefl by (intros id r; by left).
  destruct (str_contains busy (offer_key o)); [done|]. destruct (collectable a t o) eqn:Hc; [|done]. cbn [negb].
  destruct (collectable_idle p a k o t Hok Ho Hc) as [_ Hidle]. split_and!; simpl.
  - by apply collected_ok.
  - apply delete_subseteq.
  - intros id r Hr. destruct (decide (of_execution o = id)) as [<-|Hne].
    + right. simpl. rewrite lookup_delete_eq. split; [done|]. destruct (Hidle r Hr) as (_ & _ & Hrel).
      by rewrite (eo_released _ _ (ak_exec _ _ Hok _ _ Hr)) in Hrel.
    + left. simpl. by rewrite lookup_delete_ne.
  - intros k' Hk. rewrite lookup_delete_ne //. congruence.
Qed.

Lemma collect_executions busy t l a :
  alloc_ok p a → NoDup l.*1 → (∀ k o, (k, o) ∈ l → al_offers a !! k = Some o) →
  al_executions (fold_left (collect_one busy t) l a) ⊆ al_executions a ∧
  executions_collected a (fold_left (collect_one busy t) l a).
Proof.
  revert a. induction l as [|[k o] l IH]; intros a Hok Hnd Hin; [split; [done|by left]|].
  apply NoDup_cons in Hnd as [Hk Hnd]. cbn [fold_left].
  destruct (collect_one_executions busy t a k o Hok) as (Hok1 & Hs1 & Hc1 & Hoff1);
    [apply Hin; apply elem_of_cons; by left|].
  destruct (IH (collect_one busy t a (k, o)) Hok1 Hnd) as [Hs2 Hc2].
  { intros k' o' Hl. rewrite Hoff1; [|apply Hin; apply elem_of_cons; by right]. intros ->. apply Hk.
    apply list_elem_of_fmap. by exists (k, o'). }
  split; [exact (transitivity Hs2 Hs1)|]. intros id r Hr. destruct (Hc1 id r Hr) as [Hr1|[Hn Ht]]; [by apply Hc2|].
  right. split; [|done]. by apply (collected_none _ _ _ Hs2).
Qed.
End lifecycle.

Section sweep.
Context `{Externals, Codec, Env} (p : Settings).

Lemma sweep_pass_executions t a :
  alloc_ok p a → executions_collected a (sweep_pass t a).
Proof.
  intros Hok id r Hr. unfold sweep_pass. cbv zeta. simpl.
  set (a2 := set_replay _ _). assert (al_executions a2 = al_executions a) as Hx by apply expire_frame.
  assert (alloc_ok p a2) as Hok2.
  { apply (transition_ok p true (expire_offers t a).1);
      [|exact (transitions_ok _ _ _ _ (expire_transitions p true t a) Hok)].
    pose proof (transitions_ok _ _ _ _ (expire_transitions p true t a) Hok) as Hok1.
    apply (filter_replay p); [done|apply prune_sub|]. intros k e. apply prune_undone. }
  destruct (collect_executions p (busy_keys a2) t (map_to_list (al_offers a2)) a2) as [_ Hc];
    [done|apply NoDup_fst_map_to_list|intros k o; by rewrite elem_of_map_to_list|].
  apply Hc. by rewrite Hx.
Qed.

Lemma sweep_collect_executions c :
  good p c → wp (sweep_collect p) (fun _ c' => executions_collected (c_alloc c) (c_alloc c')) c.
Proof.
  intros Hg. pose proof (gd_alloc _ _ Hg) as Hok. unfold sweep_collect. apply wp_bind, wp_get.
  apply wp_bind, wp_effectiveNowLocked. intros t. apply wp_bind, wp_modify. apply wp_bind, wp_persistLocked.
  - intros e He. wp_steps. simpl. by left.
  - intros c' Hs. wp_steps. rewrite (saves_alloc _ _ _ Hs). simpl.
    assert (alloc_ok p (advance t (c_alloc c))) as Hok1 by (by apply (transition_ok p true (c_alloc c)); [apply tr_clock|]).
    intros id r Hr. apply (sweep_pass_executions _ _ Hok1). by rewrite advance_executions.
Qed.

Lemma cleanup_commit_executions c d :
  wp (cleanup_commit p d) (fun _ c' => al_executions (c_alloc c') = al_executions (c_alloc c)) c.
Proof.
  unfold cleanup_commit. apply wp_bind, wp_modify. apply wp_bind, wp_persistLocked.
  - intros e He. wp_steps. done.
  - intros c' Hs. wp_steps. by rewrite (saves_alloc _ _ _ Hs).
Qed.
End sweep.
