(* ===== verification/Start.v ===== *)
(** * A constructed allocator, and a running example

    [configure] yields a state that satisfies the invariant.  The rest of the
    file is one concrete allocator with a concrete environment, used to evaluate
    the theorems about the running system. *)

From S2P Require Import Prelude GoStrings Ordering Wire Errors Protocol Feedback Capacity Admission Replay Registry.
From S2P Require Import Utf8 AllocTypes Snapshot AllocOps Commands Maintenance Loading Threads Logic Invariant.
From S2P Require Import Refinement Handlers Upkeep System Lifecycle.
From stdpp Require Import pretty.
Open Scope Z_scope.

(** The counters are 32-bit in [Config]. *)
Definition config_ok (config : Config) : Prop := limits_ok (cf_Capacity config).

(** A state without records. *)
Definition no_records (a : Allocator) : Prop :=
  al_offers a = ∅ ∧ al_executions a = ∅ ∧ al_tombstones a = ∅ ∧ al_requests a = ∅ ∧
  rc_entries (al_replay a) = ∅ ∧ al_tunnels a = NewRegistry ∧ used (al_capacity a) = ∅.

Section construct.
Context `{Externals}.

Lemma configure_fields config p a :
  config_ok config → configure config = Ok (p, a) →
  no_records a ∧ ledger_ok (al_capacity a) ∧ 0 ≤ rc_capacity (al_replay a) ∧ 2 ≤ p_maxRecords p ∧
  limits (al_capacity a) = cf_Capacity config ∧ p_retention p ≤ CommandHorizon.
Proof.
  intros Hcfg. unfold configure. do 2 (case_match; [done|]). rewrite result_bind_ok. intros (l & Hl & Hc).
  apply newCapacityLedger_ok in Hl as Hledger; [|done]. destruct Hledger as [Hledger Hlim].
  revert Hc. case_match eqn:Hneg; [done|]. repeat (case_match; [|done]). repeat (case_match; [done|]). intros [= <- <-].
  apply orb_false_iff in Hneg as [_ Hneg].
  unfold newCapacityLedger in Hl. do 2 (case_match; [done|]). injection Hl as <-.
  split_and!; try done; simpl; try lia.
  unfold retention. lia.
Qed.

Lemma no_records_ok p a :
  no_records a → ledger_ok (al_capacity a) → 0 ≤ rc_capacity (al_replay a) → 0 ≤ p_maxRecords p → alloc_ok p a.
Proof.
  intros (Ho & Hx & Ht & Hr & Hre & Hreg & Hu) Hl Hc Hm. split; try done.
  - intros c. unfold demand. rewrite Ho Hx Hu. unfold mcount. rewrite !msum_empty. unfold mget. by rewrite lookup_empty.
  - intros id o. by rewrite Ho lookup_empty.
  - intros id e. by rewrite Hx lookup_empty.
  - intros id o. by rewrite Ho lookup_empty.
  - intros id e. by rewrite Hx lookup_empty.
  - intros id o. by rewrite Ho lookup_empty.
  - intros k id. by rewrite Hr lookup_empty.
  - by rewrite Ho Ht !map_size_empty.
  - intros id d. by rewrite Ht lookup_empty.
  - split; [by rewrite /keys_ok Hre lookup_empty|]. by rewrite Hre map_size_empty.
  - rewrite Hreg. apply NewRegistry_ok.
Qed.

Lemma configure_ok config p a : config_ok config → configure config = Ok (p, a) → alloc_ok p a.
Proof.
  intros Hcfg Hc. destruct (configure_fields _ _ _ Hcfg Hc) as (Hn & Hl & Hcap & Hmax & _).
  apply no_records_ok; [done..|lia].
Qed.

Lemma no_records_quota p a : no_records a → quota_ok p a.
Proof.
  intros (Ho & Hx & _) owner. unfold offers_of, executions_of, mcount. rewrite Ho Hx !msum_empty. simpl. lia.
Qed.
End construct.

(** ** A running example *)

Definition demo_time : time := 1800000000 * Second.

(** A clock that stands still, fresh identifiers, and a store and runtime that
    never fail. *)
Definition demo_env : Env := {|
  clock _ := demo_time;
  new_id n := String.append "id-" (pretty n);
  random_id n := String.append "rnd-" (pretty n);
  save_result _ := None;
  start_result _ := None;
  stop_result _ := None;
  recover_result _ := None;
  forget_result _ := None;
  remove_logs_result _ := None;
  read_logs _ := Err (EOpaque "no logs");
  dial_result _ := None;
  context_err _ := None
|}.

Definition demo_client : bytes := replicate 16 Byte.x41.

Definition demo_config : Config :=
  let capacity : gmap string Z := {["small" := 2]} in
  mkConfig 0 0 (replicate 16 Byte.x42) capacity 0 0 0 0 (default_policy capacity)
    (mkTunnelConfig false (mkEndpoint [] [])) None true true false false true true false.

(** The settings and first state [configure] computes for it. *)
Definition demo_settings : Settings :=
  mkSettings DefaultMaxRecords (replicate 16 Byte.x42) defaultOfferTTL defaultLeaseTTL DefaultRetention
    (default_policy {["small" := 2]}) None (mkTunnelConfig false (mkEndpoint [] [])) true false false true true false.

Definition demo_allocator : Allocator :=
  mkAllocator zero_time ∅ (mkLedger {["small" := 2]} ∅) ∅ ∅ ∅ (newReplayCache defaultReplayTTL defaultReplayCapacity) NewRegistry.

#[export] Existing Instance concrete_externals.
#[export] Existing Instance concrete_codec.
#[export] Existing Instance demo_env.

Lemma demo_configured : configure demo_config = Ok (demo_settings, demo_allocator).
Proof. vm_compute. reflexivity. Qed.

Definition demo_world : World := mkWorld _ demo_allocator None [] 0 false.

Definition demo_request : Envelope :=
  mkEnvelope "m1" demo_client "" (Some (ts_new demo_time)) (Some (P_ExecutionRequest (Some
    (mkRequest "r1" (Some (mkWorkload "image" [] [] ∅ "")) (Some mkPolicy) "small" None "0123456789abcdef0123456789abcdef" 1)))).

(** Deliver the request and run it to its end: an offer is made. *)
Definition demo_offered : list action := [A_Deliver 0 demo_request; A_Thread 0; A_Thread 0; A_Thread 0; A_Thread 0].

Definition demo_run (acts : list action) : system := default (started demo_world) (schedule demo_settings acts (started demo_world)).

Definition demo_assign : Envelope :=
  mkEnvelope "m2" demo_client "" (Some (ts_new demo_time)) (Some (P_ExecutionAssign (Some (mkAssign "r1" "id-4" "e1")))).

(** The assignment up to the point where the runtime is about to be called. *)
Definition demo_starting : list action :=
  demo_offered ++ [A_Deliver 1 demo_assign; A_Thread 1; A_Thread 1; A_Thread 1].

(** The execution runs. *)
Definition demo_running : list action := demo_starting ++ [A_Thread 1; A_Thread 1; A_Thread 1].

(** The workload ends. *)
Definition demo_completed : list action :=
  demo_running ++ [A_Operate (Op_Report "e1" (mkCompletion "e1" None "done" (Some 0)))].

Lemma demo_good : good demo_settings (core_of demo_world).
Proof.
  split; [|done|done]. apply (configure_ok demo_config); [|apply demo_configured].
  intros c. simpl. unfold mget. destruct (decide (c = "small")) as [->|Hne].
  - by rewrite lookup_singleton_eq.
  - by rewrite lookup_singleton_ne.
Qed.

(** A schedule that can be performed reaches its state. *)
Lemma demo_reached acts :
  match schedule demo_settings acts (started demo_world) with Some _ => true | None => false end = true →
  rtc (sys_step demo_settings) (started demo_world) (demo_run acts).
Proof.
  unfold demo_run. destruct (schedule _ _ _) as [s|] eqn:Hs; [|intros [=]]. intros _. by apply (schedule_steps _ acts).
Qed.

