(* ===== verification/Safety.v ===== *)
(** * Safety of the running allocator

    What holds in every state the allocator can reach, whatever messages are
    delivered, however threads interleave and whatever the store, the runtime
    and the clock answer. *)

From S2P Require Import Prelude GoStrings Ordering Wire Errors Protocol Feedback Capacity Admission Replay Registry.
From S2P Require Import Utf8 AllocTypes Snapshot AllocOps Commands Maintenance Loading Threads Logic Invariant.
From S2P Require Import Refinement Handlers Upkeep System Lifecycle Start.

Section safety.
Context `{Externals, Codec, Env} (p : Settings).

(** What one step of the system does to the observed state. *)
Lemma sys_step_moves s s' :
  sys_ok p s → sys_step p s s' →
  (∃ sw, goes p sw (core_of (sy_world s)) (core_of (sy_world s'))) ∨
  (∃ e, finishes p e (core_of (sy_world s)) (core_of (sy_world s'))).
Proof.
  intros [Hg Hts Hd Hsw] Hst. destruct Hst as [w ts sw i th Hi He|w ts sw i th th' w' Hi Hrun|w ts sw sw' w' Hrun|w ts sw op]; simpl in *.
  - left. exists false. by apply goes_refl.
  - pose proof (wp_run _ _ w (step_thread_ok p _ _ Hg (Hts _ _ Hi))) as Hs. rewrite Hrun in Hs. destruct Hs as [_ Hs].
    destruct th; try (left; exists false; apply Hs). right. eexists. apply Hs.
  - pose proof (wp_run _ _ w (step_sweeper_ok p _ _ Hg Hsw)) as Hs. rewrite Hrun in Hs. left. exists true. apply Hs.
  - left. exists false. exact (wp_run _ _ w (operate_ok p _ op Hg)).
Qed.

(** A relation that transitions and the end of a command respect relates every
    state to every later one. *)
Lemma sys_preserves (R : Allocator → Allocator → Prop) s s' :
  (∀ a, R a a) → (∀ a b c, R a b → R b c → R a c) →
  (∀ sw a a', alloc_ok p a → transition p sw a a' → R a a') → (∀ a k rs err, R a (set_replay a (finish (al_replay a) k rs err))) →
  sys_ok p s → rtc (sys_step p) s s' → R (w_alloc (sy_world s)) (w_alloc (sy_world s')).
Proof.
  intros Hrefl Htrans Htr Hrep Hok Hr. revert Hok. induction Hr as [s|s1 s2 s3 H12 _ IH]; intros Hok; [apply Hrefl|].
  eapply Htrans; [|apply IH; by apply (sys_step_ok p s1)].
  destruct (sys_step_moves _ _ Hok H12) as [(sw & _ & Ht & _)|(e & _ & (rs & err & Hal) & _)]; simpl in *.
  - assert (alloc_ok p (w_alloc (sy_world s1))) as Ha by apply (gd_alloc _ _ (so_good _ _ Hok)).
    clear -Hrefl Htrans Htr Ha Ht. induction Ht as [|a1 a2 a3 Ht12 _ IH]; [apply Hrefl|].
    eapply Htrans; [exact (Htr sw _ _ Ha Ht12)|]. apply IH. by apply (transition_ok _ _ _ _ Ht12).
  - rewrite Hal. apply Hrep.
Qed.

Lemma reached_good w s :
  good p (core_of w) → rtc (sys_step p) (started w) s → good p (core_of (sy_world s)).
Proof. intros Hg Hr. apply so_good. apply (sys_steps_ok p _ _ Hr). by apply started_ok. Qed.

Lemma transition_replay_capacity sw a a' :
  transition p sw a a' → rc_capacity (al_replay a') = rc_capacity (al_replay a).
Proof.
  destruct 1; simpl; try done; [unfold advance|unfold finish_record]; simpl; by case_match.
Qed.

Lemma finish_capacity (a : Allocator) k rs err :
  rc_capacity (al_replay (set_replay a (finish (al_replay a) k rs err))) = rc_capacity (al_replay a).
Proof. simpl. unfold finish. by case_match. Qed.

(** C1 No overcommitment: in every reachable state the slots marked used of a
    class are exactly those held by outstanding offers and live executions, and
    they are within the limit configured for the class. *)
Theorem capacity_exact w s class :
  good p (core_of w) → rtc (sys_step p) (started w) s →
  let a := w_alloc (sy_world s) in
  mget 0 (used (al_capacity a)) class = demand a class ∧
  0 ≤ demand a class ≤ mget 0 (limits (al_capacity (w_alloc w))) class.
Proof.
  intros Hg Hr a. destruct (reached_good _ _ Hg Hr) as [Hok _ _]. simpl in Hok.
  assert (limits (al_capacity a) = limits (al_capacity (w_alloc w))) as Hlim.
  { apply (sys_preserves (fun a a' => limits (al_capacity a') = limits (al_capacity a)) (started w) s);
      [done|intros; congruence|intros sw a1 a2 _; apply transition_limits|done|by apply started_ok|done]. }
  rewrite -Hlim -(ak_used _ _ Hok). split; [done|]. apply (lk_used _ (ak_ledger _ _ Hok)).
Qed.


(** C2 Write-ahead: whenever a thread is about to ask the runtime to start an
    execution, the durable snapshot already lists that execution, and the start
    request carries the identity of the client that assigned it. *)
Theorem write_ahead w s i e m r :
  good p (core_of w) → rtc (sys_step p) (started w) s → p_store p = true →
  sy_threads s !! i = Some (T_Start e m r) →
  st_ExecutionID r = ea_execution_id m ∧ st_Client r = env_sender e ∧
  ∃ snap pe, w_disk (sy_world s) = Some snap ∧ pe ∈ ps_Executions snap ∧ pe_ID pe = json_string (st_ExecutionID r).
Proof.
  intros Hg Hr Hst Hi. pose proof (sys_steps_ok p _ _ Hr (started_ok p w Hg)) as Hok.
  destruct (so_threads _ _ Hok _ _ Hi) as (_ & _ & _ & Hid & Hcl & Hlog). destruct (Hlog Hst) as (snap & Hd & pe & Hpe & Hpid).
  split_and!; [done|done|]. by exists snap, pe.
Qed.

(** C7 At most one thread works on a command: two threads that run handlers of
    commands with the same sender and message ID are the same thread, and the
    replay cache holds the unfinished entry of that very envelope, so a further
    delivery is coalesced with it. *)
Theorem one_runner w s i j t t' e e' :
  good p (core_of w) → rtc (sys_step p) (started w) s →
  sy_threads s !! i = Some t → sy_threads s !! j = Some t' → holds t = Some e → holds t' = Some e' →
  env_sender e = env_sender e' → env_message_id e = env_message_id e' →
  i = j ∧ ∃ en, rc_entries (al_replay (w_alloc (sy_world s))) !! replay_key e = Some en ∧
    re_done en = false ∧ re_envelope en = e.
Proof.
  intros Hg Hr Hi Hj Ht Ht' Hs Hm. pose proof (sys_steps_ok p _ _ Hr (started_ok p w Hg)) as Hok. split.
  - apply (so_distinct _ _ Hok i j t t' e e'); try done. unfold replay_key. by rewrite Hs Hm.
  - destruct (so_threads _ _ Hok _ _ Hi) as [Hin _]. exact (Hin e Ht).
Qed.

(** C28 Quotas hold in every reachable state: no client has more outstanding
    offers or live executions than its positive quota allows. *)
Theorem quotas_respected w s owner :
  good p (core_of w) → quota_ok p (w_alloc w) → p_maxRecords p < 2 ^ 32 → rtc (sys_step p) (started w) s →
  let q := client_quota (p_admission p) owner in
  (0 < quota_Offers q → offers_of (w_alloc (sy_world s)) owner ≤ quota_Offers q) ∧
  (0 < quota_Executions q → executions_of (w_alloc (sy_world s)) owner ≤ quota_Executions q).
Proof.
  intros Hg Hq Hmax Hr.
  apply (sys_preserves (fun a a' => quota_ok p a → quota_ok p a') (started w) s);
    [done|auto|intros sw a a' Ha Ht; by apply (transition_quota p sw)|done|by apply started_ok|done|done].
Qed.

(** Bounded state: in every reachable state offers and tombstones are within
    the record budget, each execution has an offer of its own, and the replay
    cache is within the capacity it was created with. *)
Theorem records_bounded w s :
  good p (core_of w) → rtc (sys_step p) (started w) s →
  let a := w_alloc (sy_world s) in
  2 * Z.of_nat (size (al_offers a)) + Z.of_nat (size (al_tombstones a)) ≤ p_maxRecords p ∧
  (size (al_executions a) ≤ size (al_offers a))%nat ∧
  Z.of_nat (size (rc_entries (al_replay a))) ≤ rc_capacity (al_replay (w_alloc w)).
Proof.
  intros Hg Hr a. destruct (reached_good _ _ Hg Hr) as [Hok _ _]. simpl in Hok.
  split_and!; [apply (ak_budget _ _ Hok)|by apply (executions_le_offers p)|].
  assert (rc_capacity (al_replay a) = rc_capacity (al_replay (w_alloc w))) as <-.
  { apply (sys_preserves (fun a a' => rc_capacity (al_replay a') = rc_capacity (al_replay a)) (started w) s);
      [done|intros; congruence|intros sw a1 a2 _; apply transition_replay_capacity|apply finish_capacity|by apply started_ok|done]. }
  apply (rk_bound _ (ak_replay _ _ Hok)).
Qed.

(** The clock's high-water mark never goes back, whatever the clock reads, so
    a command judged too old stays too old. *)
Theorem highWater_monotone w s1 s2 :
  good p (core_of w) → rtc (sys_step p) (started w) s1 → rtc (sys_step p) s1 s2 →
  al_highWater (w_alloc (sy_world s1)) ≤ al_highWater (w_alloc (sy_world s2)).
Proof.
  intros Hg Hr Hr2. apply (sys_preserves (fun a a' => al_highWater a ≤ al_highWater a') s1 s2);
    [intros; lia|intros; lia|intros sw a a' _; apply transition_highWater|intros; simpl; lia| |done].
  apply (sys_steps_ok p _ _ Hr). by apply started_ok.
Qed.

Lemma executions_same a a' : al_executions a' = al_executions a → executions_evolve a a'.
Proof. intros E id r Hr. exists r. rewrite E. split; [done|apply evolves_refl]. Qed.

Lemma goes_evolve c c' : goes p false c c' → executions_evolve (c_alloc c) (c_alloc c').
Proof. intros (_ & Ht & _). by apply (transitions_evolve p). Qed.

Lemma step_sweeper_executions c sw :
  good p c → sweeper_ok c sw →
  wp (step_sweeper p sw) (fun _ c' => match sw with
    | S_Collect _ => executions_collected (c_alloc c) (c_alloc c')
    | _ => executions_evolve (c_alloc c) (c_alloc c')
    end) c.
Proof.
  intros Hg Hs. destruct sw as [|allErr|allErr s|allErr s err|evictErr|evictErr allErr [|dead rest]|evictErr allErr dead rest];
    cbn [step_sweeper].
  - by apply wp_ret, executions_same.
  - apply wp_bind. eapply wp_mono; [by apply evict_scan_goes|]. intros x c' [Hgo _]. by apply wp_ret, goes_evolve.
  - apply wp_bind, wp_call; [done|]. intros err. by apply wp_ret, executions_same.
  - apply wp_bind. eapply wp_mono; [by apply evict_finish_goes|]. intros x c' [Hgo _]. by apply wp_ret, goes_evolve.
  - apply wp_bind. eapply wp_mono; [by apply sweep_collect_executions|]. intros x c' Hc. by apply wp_ret.
  - by apply wp_ret, executions_same.
  - apply wp_bind. eapply wp_mono; [by apply cleanup_files_quiet|]. intros x c' [_ E].
    apply wp_ret, executions_same. by rewrite E.
  - apply wp_bind. eapply wp_mono; [apply cleanup_commit_executions|]. intros x c' E. by apply wp_ret, executions_same.
Qed.

(** C6 The life of an execution: in one step of the system its record either
    stays that of the same execution (same owner, request, offer, resources, and
    nothing at all changed once it is terminal), or the collection pass of the
    sweep removed it, which happens to terminal executions only. *)
Theorem execution_lifecycle w s s' id r :
  good p (core_of w) → rtc (sys_step p) (started w) s → sys_step p s s' →
  al_executions (w_alloc (sy_world s)) !! id = Some r →
  (∃ r', al_executions (w_alloc (sy_world s')) !! id = Some r' ∧ evolves r r') ∨
  (al_executions (w_alloc (sy_world s')) !! id = None ∧ Terminal (ex_phase r) = true ∧
   ∃ err, sy_sweeper s = S_Collect err).
Proof.
  intros Hg Hr Hst Hid. pose proof (sys_steps_ok p _ _ Hr (started_ok p w Hg)) as [Hg' Hts _ Hsw].
  destruct Hst as [w1 ts sw i th Hi He|w1 ts sw i th th' w' Hi Hrun|w1 ts sw sw' w' Hrun|w1 ts sw op]; simpl in *.
  - left. exists r. split; [done|apply evolves_refl].
  - left. pose proof (wp_run _ _ w1 (step_thread_ok p _ _ Hg' (Hts _ _ Hi))) as Hs. rewrite Hrun in Hs. destruct Hs as [_ Hs].
    assert (executions_evolve (w_alloc w1) (w_alloc w')) as Hev; [|by apply Hev].
    destruct th; try (exact (goes_evolve _ _ (proj1 Hs))).
    destruct Hs as [(_ & (rs & err & Hal) & _) _]. apply executions_same. simpl in Hal. by rewrite Hal.
  - pose proof (wp_run _ _ w1 (step_sweeper_executions _ _ Hg' Hsw)) as Hs. rewrite Hrun in Hs.
    destruct sw; simpl in Hs; try (left; by apply Hs).
    destruct (Hs id r Hid) as [Hk|[Hn Ht]]; [left; exists r; split; [done|apply evolves_refl]|right; eauto].
  - left. by apply (goes_evolve _ _ (wp_run _ _ w1 (operate_ok p _ op Hg'))).
Qed.
End safety.

(** ** Witnesses *)

Lemma capacity_exact_witness :
  let a := w_alloc (sy_world (demo_run demo_starting)) in
  mget 0 (used (al_capacity a)) "small" = 1 ∧ mget 0 (used (al_capacity a)) "small" = demand a "small".
Proof.
  intros a. split; [vm_compute; reflexivity|].
  apply (capacity_exact demo_settings demo_world (demo_run demo_starting) "small" demo_good).
  apply demo_reached. vm_compute. reflexivity.
Defined.

Definition demo_assign_message : ExecutionAssign := mkAssign "r1" "id-4" "e1".


Definition demo_start_request : StartRequest :=
  mkStart "e1" "0123456789abcdef0123456789abcdef" 1 demo_client (Some (mkWorkload "image" [] [] ∅ "")) (Some mkPolicy)
    default_profile demo_time.

Lemma write_ahead_witness :
  let s := demo_run demo_starting in
  ∃ snap pe, w_disk (sy_world s) = Some snap ∧ pe ∈ ps_Executions snap ∧ pe_ID pe = json_string "e1".
Proof.
  apply (write_ahead demo_settings demo_world (demo_run demo_starting) 1 demo_assign demo_assign_message
    demo_start_request demo_good); [apply demo_reached|..]; vm_compute; reflexivity.
Defined.

Lemma one_runner_witness :
  ∃ en, rc_entries (al_replay (w_alloc (sy_world (demo_run demo_starting)))) !! replay_key demo_assign = Some en ∧
    re_done en = false ∧ re_envelope en = demo_assign.
Proof.
  apply (one_runner demo_settings demo_world (demo_run demo_starting) 1 1
    (T_Start demo_assign demo_assign_message demo_start_request) (T_Start demo_assign demo_assign_message demo_start_request)
    demo_assign demo_assign demo_good); [apply demo_reached|..]; vm_compute; reflexivity.
Defined.

Lemma quotas_respected_witness :
  executions_of (w_alloc (sy_world (demo_run demo_running))) demo_client = 1 ∧
  executions_of (w_alloc (sy_world (demo_run demo_running))) demo_client ≤ 2.
Proof.
  split; [vm_compute; reflexivity|].
  apply (quotas_respected demo_settings demo_world (demo_run demo_running) demo_client demo_good);
    [apply no_records_quota; by vm_compute|reflexivity|apply demo_reached; vm_compute; reflexivity|reflexivity].
Defined.

Lemma records_bounded_witness :
  let a := w_alloc (sy_world (demo_run demo_running)) in
  size (al_executions a) = 1%nat ∧ Z.of_nat (size (rc_entries (al_replay a))) ≤ 4096.
Proof.
  intros a. split; [vm_compute; reflexivity|].
  apply (records_bounded demo_settings demo_world (demo_run demo_running) demo_good).
  apply demo_reached. vm_compute. reflexivity.
Defined.

Lemma highWater_monotone_witness :
  al_highWater demo_allocator = zero_time ∧
  al_highWater demo_allocator ≤ al_highWater (w_alloc (sy_world (demo_run demo_offered))).
Proof.
  split; [reflexivity|].
  apply (highWater_monotone demo_settings demo_world (started demo_world) (demo_run demo_offered) demo_good);
    [apply rtc_refl|apply demo_reached; vm_compute; reflexivity].
Defined.

(** A completed execution does not change when its cancellation is delivered. *)
Definition demo_cancel : Envelope :=
  mkEnvelope "m3" demo_client "" (Some (ts_new demo_time)) (Some (P_ExecutionCancel (Some (mkCancel "e1" "stop")))).
Definition demo_cancelling : list action := demo_completed ++ [A_Deliver 2 demo_cancel; A_Thread 2; A_Thread 2].
Definition demo_record (s : system) : option executionRecord := al_executions (w_alloc (sy_world s)) !! "e1".

Lemma execution_lifecycle_witness :
  option_map ex_phase (demo_record (demo_run demo_cancelling)) = Some PHASE_COMPLETED ∧
  ∀ r, demo_record (demo_run demo_cancelling) = Some r →
    ∃ r', demo_record (demo_run (demo_cancelling ++ [A_Thread 2])) = Some r' ∧ evolves r r'.
Proof.
  split; [vm_compute; reflexivity|]. intros r Hr.
  destruct (execution_lifecycle demo_settings demo_world (demo_run demo_cancelling)
    (demo_run (demo_cancelling ++ [A_Thread 2])) "e1" r demo_good) as [Hk|(_ & _ & err & Hsw)].
  - apply demo_reached. vm_compute. reflexivity.
  - apply (perform_step demo_settings (A_Thread 2)). vm_compute. reflexivity.
  - exact Hr.
  - exact Hk.
  - vm_compute in Hsw. discriminate Hsw.
Defined.
