(* ===== verification/Upholds.v ===== *)
(** * What maintenance achieves

    Lease eviction terminates and leaves no expired lease, a failed sweep leaves
    the state as it was, and recovery leaves no execution between phases. *)

From S2P Require Import Prelude GoStrings Ordering Wire Errors Protocol Feedback Capacity Admission Replay Registry.
From S2P Require Import Utf8 AllocTypes Snapshot AllocOps Commands Maintenance Loading Threads Logic Invariant.
From S2P Require Import Refinement Handlers Upkeep System Lifecycle.

Section eviction.
Context `{Externals, Codec, Env} (p : Settings).

(** One turn of the loop that goes on has made one execution less evictable. *)
Lemma evict_turn w allErr s w1 w2 :
  good p (core_of w) → evict_scan p allErr w = (inr s, w1) → completeEviction p s w1 = (None, w2) →
  good p (core_of w2) ∧ evictable (w_alloc w2) < evictable (w_alloc w).
Proof.
  intros Hg Hscan Hev. pose proof (wp_run _ _ w (evict_scan_goes p _ allErr Hg)) as Hs. rewrite Hscan in Hs.
  destruct Hs as (Hg1 & Hst & _ & Hlt & _). simpl in *.
  assert (wp (completeEviction p s) (fun r c' => good p c' ∧ (r = None → evictable (c_alloc c') ≤ evictable (w_alloc w1)))
            (core_of w1)) as Hwp.
  { unfold completeEviction. apply wp_bind, wp_call; [done|]. intros err.
    eapply wp_mono; [apply evict_finish_goes; [|done]|].
    - exact (goes_good _ _ _ _ (goes_call p _ _ _ (goes_refl p false _ (goes_good _ _ _ _ Hg1)))).
    - intros r c' [Hgo Hr]. split; [eauto with r1s|]. intros Hnone. by destruct (Hr Hnone). }
  pose proof (wp_run _ _ w1 Hwp) as [Hg2 Hle]. rewrite Hev in Hg2, Hle. simpl in *. split; [done|]. specialize (Hle eq_refl). lia.
Qed.

Lemma evict_loop_more fuel fuel' allErr w :
  good p (core_of w) → evictable (w_alloc w) < Z.of_nat fuel → (fuel ≤ fuel')%nat →
  evict_loop p fuel' allErr w = evict_loop p fuel allErr w.
Proof.
  revert fuel' allErr w. pose proof (mcount_nonneg may_evict) as Hnn.
  induction fuel as [|fuel IH]; intros fuel' allErr w Hg Hf Hle.
  { specialize (Hnn (al_executions (w_alloc w))). unfold evictable in Hf. lia. }
  destruct fuel' as [|fuel']; [lia|].
  cbn [evict_loop]. unfold mbind, M_bind. destruct (evict_scan p allErr w) as [[r|s] w1] eqn:Hscan; simpl; [reflexivity|].
  destruct (completeEviction p s w1) as [[err|] w2] eqn:Hev; [reflexivity|].
  destruct (evict_turn w allErr s w1 w2) as [Hg2 Hlt]; [done..|]. apply IH; [done|lia|lia].
Qed.


(** A sweep whose commit fails changes nothing: offers, executions, requests,
    tombstones, replay entries, used slots and the clock are all put back. *)
Theorem sweep_rolls_back w e pending w' :
  good p (core_of w) → sweep_collect p w = ((Some e, pending), w') → w_alloc w' = w_alloc w.
Proof.
  intros Hg Hs. pose proof (wp_run _ _ w (sweep_collect_sweeps p _ Hg)) as (_ & _ & Hback). rewrite Hs in Hback.
  by apply Hback.
Qed.
End eviction.

(** ** Recovery *)

(** An execution between phases is starting or cancelling. *)
Definition settled (e : executionRecord) : Prop := ex_phase e = PHASE_RUNNING ∨ Terminal (ex_phase e) = true.

Lemma settled_phase e : known_phase (ex_phase e) = true → ex_phase e ≠ PHASE_CANCELLING →
  ex_phase e = PHASE_STARTING ∨ settled e.
Proof. unfold settled. destruct (ex_phase e); naive_solver. Qed.

Section recovery.
Context `{Externals, Codec, Env} (p : Settings).

(** One execution is settled and the others are as they were. *)
Definition settles (id : string) (c c' : core) : Prop :=
  (∀ e, al_executions (c_alloc c') !! id = Some e → settled e) ∧
  ∀ id', id' ≠ id → al_executions (c_alloc c') !! id' = al_executions (c_alloc c) !! id'.

Lemma recover_terminal_settles c id phase detail :
  Terminal phase = true → wp (recover_terminal p id phase detail) (fun r c' => r = None → settles id c c') c.
Proof.
  intros Hp. unfold recover_terminal. apply wp_bind, wp_get.
  eapply wp_bind, (wp_mono _ (fun _ => settles id c)).
  - destruct (al_executions (c_alloc c) !! id) as [e|] eqn:He.
    2:{ apply wp_ret. split; [by rewrite He|done]. }
    destruct (Terminal (ex_phase e)) eqn:Ht; cbn [negb].
    + apply wp_ret. split; [|done]. rewrite He. intros ? [= <-]. by right.
    + apply wp_bind, wp_now. intros t. apply wp_bind, wp_modify, wp_ret. split.
      * destruct (finish_record_lookup p (c_alloc c) id e phase detail None t) as (e' & He' & Hph).
        intros e1. simpl. rewrite He'. intros [= <-]. right. by rewrite Hph.
      * intros id' Hne. simpl. unfold finish_record. destruct (ex_released e); simpl; apply lookup_insert_ne; congruence.
  - intros finished c1 Hs. apply wp_bind, wp_persistLocked.
    + intros e He. wp_steps; done.
    + intros c2 Hs2. unfold settles in *. rewrite -(saves_alloc _ _ _ Hs2) in Hs. wp_steps; done.
Qed.

Lemma recover_finish_settles c id recoverErr :
  (∀ e, al_executions (c_alloc c) !! id = Some e → ex_phase e = PHASE_STARTING ∨ settled e) →
  wp (recover_finish p id recoverErr) (fun r c' => r = None → settles id c c') c.
Proof.
  intros Hid. unfold recover_finish. destruct recoverErr as [err|].
  { destruct (_ || _); [by apply recover_terminal_settles|]. by apply wp_ret. }
  apply wp_bind, wp_get. eapply wp_bind, (wp_mono _ (fun _ => settles id c)).
  - destruct (al_executions (c_alloc c) !! id) as [e|] eqn:He.
    2:{ apply wp_ret. split; [by rewrite He|done]. }
    destruct (decide (ex_phase e = PHASE_STARTING)) as [Hst|Hst].
    + apply wp_bind, wp_now. intros t. apply wp_modify. split; simpl.
      * intros e'. rewrite lookup_insert_eq. intros [= <-]. by left.
      * intros id' Hne. apply lookup_insert_ne; congruence.
    + apply wp_ret. split; [|done]. rewrite He. intros ? [= <-]. by destruct (Hid e).
  - intros [] c1 Hs. apply wp_bind, wp_persistLocked.
    + intros e He. wp_steps; done.
    + intros c2 Hs2. unfold settles in *. rewrite -(saves_alloc _ _ _ Hs2) in Hs. wp_steps; done.
Qed.

Lemma recover_plan_settles c id :
  good p c → wp (recover_plan id) (fun r c' => c' = c ∧ match r with
     | RP_skip => settles id c c
     | RP_stop phase _ => Terminal phase = true
     | RP_recover _ => ∀ e, al_executions (c_alloc c) !! id = Some e → ex_phase e = PHASE_STARTING ∨ settled e
     end) c.
Proof.
  intros Hg. unfold recover_plan. apply wp_bind, wp_get.
  destruct (al_executions (c_alloc c) !! id) as [e|] eqn:He.
  2:{ apply wp_ret. split; [done|]. split; [by rewrite He|done]. }
  pose proof (eo_phase _ _ (ak_exec _ _ (gd_alloc _ _ Hg) _ _ He)) as Hk.
  destruct (Terminal (ex_phase e)) eqn:Ht.
  { apply wp_ret. split; [done|]. split; [|done]. rewrite He. intros ? [= <-]. by right. }
  destruct (decide (ex_phase e = PHASE_CANCELLING)) as [Hc|Hc].
  { apply wp_ret. split; [done|]. by case_bool_decide. }
  pose proof (settled_phase e Hk Hc) as Hs.
  destruct (is_zero _); wp_steps; (split; [done|]); try (destruct (negb _); [done|]); by intros ? [= <-].
Qed.

Lemma recover_one_settles c id : good p c → wp (recover_one p id) (fun r c' => r = None → settles id c c') c.
Proof.
  intros Hg. unfold recover_one. apply wp_bind, wp_ctx_Err. intros [e|]; [by apply wp_ret|].
  eapply wp_bind, wp_mono; [by apply recover_plan_settles|]. intros [|phase detail|request] c1 [-> Hplan].
  - by apply wp_ret.
  - apply wp_bind, wp_call; [done|]. intros stopErr. destruct (stop_failed stopErr); [by apply wp_ret|].
    exact (recover_terminal_settles (c_call c (EvStop id)) id phase detail Hplan).
  - apply wp_bind, wp_call; [done|]. intros recoverErr.
    exact (recover_finish_settles (c_call c (EvRecover request)) id recoverErr Hplan).
Qed.

Lemma recover_all_settles c ids :
  good p c → wp (recover_all p ids) (fun r c' => r = None → ∀ id,
    (id ∈ ids → ∀ e, al_executions (c_alloc c') !! id = Some e → settled e) ∧
    (id ∉ ids → al_executions (c_alloc c') !! id = al_executions (c_alloc c) !! id)) c.
Proof.
  revert c. induction ids as [|i ids IH]; intros c Hg; simpl.
  { apply wp_ret. intros _ id. split; [by rewrite elem_of_nil|done]. }
  eapply wp_bind, wp_mono; [by apply wp_and; [apply recover_one_goes|apply recover_one_settles]|].
  intros [err|] c1 [Hg1 Hs1]; [by apply wp_ret|]. destruct (Hs1 eq_refl) as [Hi Hothers].
  eapply wp_mono; [apply IH, (goes_good _ _ _ _ Hg1)|]. intros r c2 Hr Hnone id.
  destruct (Hr Hnone id) as [Hin Hout]. destruct (decide (id ∈ ids)) as [Hd|Hd]; [set_solver|].
  specialize (Hout Hd). destruct (decide (id = i)) as [->|Hne]; [rewrite Hout; set_solver|].
  rewrite (Hothers id Hne) in Hout. set_solver.
Qed.

Lemma elem_of_live a id : id ∈ live_ids a ↔ ∃ e, al_executions a !! id = Some e ∧ Terminal (ex_phase e) = false.
Proof.
  unfold live_ids. rewrite list_elem_of_omap. split.
  - intros ([k e] & Hin & He). apply elem_of_map_to_list in Hin. simpl in He.
    destruct (Terminal (ex_phase e)) eqn:Ht; simplify_eq. by exists e.
  - intros (e & He & Ht). exists (id, e). by rewrite elem_of_map_to_list /= Ht.
Qed.

(** C10 Recovery that reports no error leaves no execution between phases: every
    execution is running or terminal, whatever it was doing when the allocator
    went down, and the executions that were terminal are as they were. *)
Theorem recovery_settles w w' :
  good p (core_of w) → Recover p w = (None, w') →
  ∀ id, (∀ e, al_executions (w_alloc w') !! id = Some e → settled e) ∧
    (∀ e, al_executions (w_alloc w) !! id = Some e → Terminal (ex_phase e) = true →
       al_executions (w_alloc w') !! id = Some e).
Proof.
  intros Hg Hrec id. assert (wp (Recover p) (fun r c' => r = None → ∀ id,
    (id ∈ live_ids (w_alloc w) → ∀ e, al_executions (c_alloc c') !! id = Some e → settled e) ∧
    (id ∉ live_ids (w_alloc w) → al_executions (c_alloc c') !! id = al_executions (w_alloc w) !! id)) (core_of w)) as Hwp.
  { unfold Recover. apply wp_bind, wp_get. destruct (negb _).
    - apply wp_ret. simpl. intros Hr i. destruct (live_ids (w_alloc w)); [|done]. split; [by rewrite elem_of_nil|done].
    - eapply wp_mono; [by apply recover_all_settles|]. intros r c' Hr Hn i. specialize (Hr Hn i).
      by rewrite elem_of_sort_strings in Hr. }
  apply wp_run in Hwp. rewrite Hrec in Hwp. destruct (Hwp eq_refl id) as [Hin Hout]. simpl in *.
  destruct (decide (id ∈ live_ids (w_alloc w))) as [Hd|Hd].
  - split; [by apply Hin|]. apply elem_of_live in Hd as (e & He & Ht). intros e' He' Ht'. congruence.
  - rewrite (Hout Hd). split; [|done]. intros e He. right. destruct (Terminal (ex_phase e)) eqn:Ht; [done|].
    exfalso. apply Hd, elem_of_live. eauto.
Qed.
End recovery.

From S2P Require Import Start Safety.

(** The clock has moved on. *)
Definition later (t : time) (w : World) : World :=
  mkWorld _ (advance t (w_alloc w)) (w_disk w) (w_trace w) (w_tick w) (w_panicked w).

Lemma later_good p t w : good p (core_of w) → good p (core_of (later t w)).
Proof.
  intros Hg. split; [|apply (gd_disk _ _ Hg)|apply (gd_panicked _ _ Hg)].
  apply (transition_ok p true _ _ (tr_clock _ _ _ _)), (gd_alloc _ _ Hg).
Qed.

(** The running execution of the example once its lease has ended. *)
Definition late_world : World := later (demo_time + 2 * defaultLeaseTTL) (sy_world (demo_run demo_running)).

Lemma late_good : good demo_settings (core_of late_world).
Proof.
  apply later_good, (reached_good _ demo_world); [apply demo_good|]. apply demo_reached. vm_compute. reflexivity.
Qed.


Lemma recovery_settles_witness :
  let w := sy_world (demo_run demo_starting) in
  let r := Recover demo_settings w in
  ex_phase <$> (al_executions (w_alloc w) !! "e1") = Some PHASE_STARTING ∧
  ex_phase <$> (al_executions (w_alloc r.2) !! "e1") = Some PHASE_RUNNING ∧
  ∀ e, al_executions (w_alloc r.2) !! "e1" = Some e → settled e.
Proof.
  intros w r. split; [vm_compute; reflexivity|]. split; [vm_compute; reflexivity|].
  apply (recovery_settles demo_settings w r.2).
  - apply (reached_good _ demo_world); [apply demo_good|]. apply demo_reached. vm_compute. reflexivity.
  - apply pair_fst. vm_compute. reflexivity.
Defined.

(** A store that fails every commit. *)
Definition broken_env : Env := {|
  clock _ := demo_time + 1000 * DefaultRetention;
  new_id := @new_id demo_env;
  random_id := @random_id demo_env;
  save_result _ := Some (EOpaque "disk full");
  start_result _ := None;
  stop_result _ := None;
  recover_result _ := None;
  forget_result _ := None;
  remove_logs_result _ := None;
  read_logs := @read_logs demo_env;
  dial_result _ := None;
  context_err _ := None
|}.

Lemma sweep_rolls_back_witness :
  let w := sy_world (demo_run demo_completed) in
  size (al_executions (sweep_pass (demo_time + 1000 * DefaultRetention) (w_alloc w))) = 0%nat ∧
  w_alloc (@sweep_collect _ _ broken_env demo_settings w).2 = w_alloc w.
Proof.
  intros w. split; [vm_compute; reflexivity|].
  apply (@sweep_rolls_back _ _ broken_env demo_settings w (EJoin [ESentinel ErrStore; EOpaque "disk full"]) []).
  - apply (reached_good _ demo_world); [apply demo_good|]. apply demo_reached. vm_compute. reflexivity.
  - apply pair_fst. vm_compute. reflexivity.
Defined.
