(* ===== verification/Outcomes.v ===== *)
(** * What the commands promise their clients (internal/allocator: offers.go,
      assign.go, release.go, cancel.go, lease.go)

    A command that is refused, or whose commit fails, leaves every record and
    every slot as it was; a successful one is durable before it is answered. *)

From S2P Require Import Prelude GoStrings Ordering Wire Errors Protocol Feedback Capacity Admission Replay Registry.
From S2P Require Import Utf8 AllocTypes Snapshot AllocOps Commands Maintenance Loading Threads Logic Invariant.
From S2P Require Import Refinement Handlers.

(** The same state, up to how the ledger's counters are stored. *)
Definition unchanged (a a' : Allocator) : Prop :=
  ∃ cap, a' = set_capacity a cap ∧ same_slots (al_capacity a) cap.

Lemma unchanged_refl a : unchanged a a.
Proof. exists (al_capacity a). split; [by destruct a|done]. Qed.

(** The key of a request determines the sender once the request ID is known. *)
Lemma append_cancel_r (s1 s2 t : string) : String.append s1 t = String.append s2 t → s1 = s2.
Proof.
  revert s2. induction s1 as [|c s1 IH]; intros [|c' s2] Heq.
  - done.
  - apply (f_equal String.length) in Heq. rewrite !string_length_app /= in Heq. lia.
  - apply (f_equal String.length) in Heq. rewrite !string_length_app /= in Heq. lia.
  - injection Heq as -> Heq. by rewrite (IH s2).
Qed.

Lemma authorityKey_identity i1 i2 id : authorityKey i1 id = authorityKey i2 id → i1 = i2.
Proof.
  unfold authorityKey. intros Heq%append_cancel_r%append_cancel_r. unfold go_string in Heq.
  rewrite -(String.list_byte_of_string_of_list_byte i1) -(String.list_byte_of_string_of_list_byte i2). by rewrite Heq.
Qed.

Section outcomes.
Context `{Externals, Codec, Env} (p : Settings).

(** ** Refusals *)

Lemma commit_offer_refused c id o response :
  good p c → al_offers (c_alloc c) !! id = None → al_requests (c_alloc c) !! offer_key o = None →
  wp (commit_offer p (offer_key o) id o response) (fun r c' => r.2 ≠ None → unchanged (c_alloc c) (c_alloc c')) c.
Proof.
  intros Hg Hid Hkey. unfold commit_offer. apply wp_bind, wp_modify, wp_bind, wp_get.
  destruct (reserve _ _) as [cap|e] eqn:Hr.
  - apply wp_bind, wp_put, wp_bind, wp_persistLocked.
    + intros err _. apply wp_bind, wp_modify, wp_ret. intros _. simpl in *.
      exact (undo_offer p (c_alloc c) (offer_key o) id o cap (gd_alloc _ _ Hg) Hid Hkey Hr).
    + intros c' _. wp_steps. done.
  - apply wp_bind, wp_modify, wp_ret. intros _. simpl. destruct (c_alloc c) as []. simpl in *.
    unfold drop_offer, set_offers, set_requests. simpl. rewrite !delete_insert_id //. apply unchanged_refl.
Qed.

Lemma handleRequest_refused c envelope request :
  good p c → wp (handleRequest p envelope request) (fun r c' => r.2 ≠ None →
    ∃ t, unchanged (expire_offers t (c_alloc c)).1 (c_alloc c')) c.
Proof.
  intros Hg. unfold handleRequest. apply wp_bind, wp_now. intros t. apply wp_bind.
  eapply wp_mono; [apply wp_and; [apply (wp_goes_expire p false c c); [by apply goes_refl|]|]|].
  - intros n c1 Hg1. exact Hg1.
  - apply (wp_expireOffersLocked t (fun _ c1 => c_alloc c1 = (expire_offers t (c_alloc c)).1)). done.
  - intros n c1 [Hg1 Ha1]. pose proof (gd_alloc _ _ (goes_good _ _ _ _ Hg1)) as Hok.
    apply wp_bind, wp_get, wp_bind, wp_observe. cbv zeta.
    eapply wp_mono; [|intros r c' Hr Hne; exists t; rewrite -Ha1; exact (Hr Hne)]. simpl.
    pose proof (unchanged_refl (c_alloc c1)) as Hsame.
    destruct (requested_offer _ _) as [o|] eqn:Hreq; [unfold repeat_request; wp_steps; done|].
    destruct (request_refused _ _ _ _); [by apply wp_ret|].
    apply wp_bind, wp_newID. intros id. destruct (bool_decide (id = "")); [by apply wp_ret|].
    destruct (al_offers (c_alloc c1) !! id) eqn:Hnone; [by apply wp_ret|].
    apply wp_bind, wp_answer_respond. intros [response|e] _; [|by apply wp_ret].
    apply (commit_offer_refused c1 id); [eauto with r1s|done|]. by apply (requested_offer_None p).
Qed.
Lemma assign_begin_refused c envelope assign :
  good p c → wp (assign_begin p envelope assign) (fun r c' => ∀ rs err, r = inl (rs, Some err) →
    ∃ t, unchanged (expire_offers t (c_alloc c)).1 (c_alloc c')) c.
Proof.
  intros Hg. unfold assign_begin. apply wp_bind, wp_now. intros t.
  eapply wp_bind, wp_mono; [apply wp_and; [apply (wp_goes_expire p false c c); [by apply goes_refl|]|]|].
  { intros n c1 Hg1. exact Hg1. }
  { apply (wp_expireOffersLocked t (fun _ c1 => c_alloc c1 = (expire_offers t (c_alloc c)).1)). done. }
  intros n c1 [Hg1 Ha1]. apply wp_bind, wp_get. cbv zeta.
  eapply wp_mono; [|intros r c' Hr rs err He; exists t; rewrite -Ha1; exact (Hr rs err He)]. simpl.
  pose proof (unchanged_refl (c_alloc c1)) as Hsame. wp_steps; guards; try done.
  match goal with H : al_offers _ !! _ = Some ?o |- _ => rename H into Ho, o into offer end.
  unfold commit_assignment. apply wp_bind, wp_modify, wp_bind, wp_persistLocked; [|intros; by wp_steps].
  intros err _. apply wp_bind, wp_modify, wp_ret. intros rs err' _. simpl.
  pose proof (ak_offer _ _ (gd_alloc _ _ (goes_good _ _ _ _ Hg1)) _ _ Ho) as [].
  rewrite (undo_assignment (c_alloc c1) (ea_offer_id assign) offer (ea_execution_id assign)) //.
  apply oo_execution. congruence.
Qed.

Lemma cancel_begin_refused c envelope cancel :
  good p c → wp (cancel_begin p envelope cancel) (fun r c' => ∀ rs err, r = inl (rs, Some err) →
    unchanged (c_alloc c) (c_alloc c')) c.
Proof.
  intros Hg. pose proof (unchanged_refl (c_alloc c)) as Hsame. unfold cancel_begin. wp_steps; try done. guards.
  eapply wp_mono; [by apply (commit_cancelling_goes p)|]. intros [err|] c1 [_ Hpost]; apply wp_ret; [|done].
  intros ? ? _. by rewrite Hpost.
Qed.

Lemma handleOfferRelease_refused c envelope rel :
  good p c → wp (handleOfferRelease p envelope rel) (fun r c' => r.2 ≠ None → unchanged (c_alloc c) (c_alloc c')) c.
Proof.
  intros Hg. pose proof (unchanged_refl (c_alloc c)) as Hsame. unfold handleOfferRelease.
  apply wp_bind, wp_get. destruct (released_offer _ _) as [o|] eqn:Hro; [|by apply wp_ret]. wp_steps; try done.
  match goal with H : of_status o ≠ _ |- _ => destruct (release_status_changed _ _ H) as [Hout _] end.
  apply wp_persistLocked; [|intros; by wp_steps]. intros e _. wp_steps. intros _. simpl.
  assert (al_offers (c_alloc c) !! or_offer_id rel = Some o) as Ho.
  { unfold released_offer in Hro. destruct (al_offers (c_alloc c) !! or_offer_id rel); [congruence|].
    destruct (al_tombstones _ !! _); [|done]. injection Hro as <-. done. }
  apply (undo_release p); [apply Hg|done..].
Qed.

Lemma handleLeaseRenew_refused c envelope renew :
  wp (handleLeaseRenew p envelope renew) (fun r c' => ∀ err, r.2 = Some err → is_err ErrInvalidConfig err = false →
    unchanged (c_alloc c) (c_alloc c')) c.
Proof.
  pose proof (unchanged_refl (c_alloc c)) as Hsame. unfold handleLeaseRenew. wp_steps; try done.
  apply wp_persistLocked.
  - intros err _. wp_steps. intros _ _ _. simpl. by rewrite put_execution_undo.
  - intros c2 _. unfold respond. apply wp_bind, wp_bind, wp_newID. intros i. apply wp_ret, wp_ret.
    intros err Herr Hcfg. destruct (bool_decide (i = "")); [by injection Herr as <-|done].
Qed.


(** ** Successes *)

(** A repeated request is answered with the offer it got before. *)
Lemma repeat_request_offers c envelope request o t :
  alloc_ok p (c_alloc c) →
  requested_offer (c_alloc c) (authorityKey (env_sender envelope) (er_request_id request)) = Some o →
  wp (repeat_request p envelope request o t) (fun r c' =>
    c' = c ∧ (r.2 = None → offered p envelope request r.1 (c_alloc c))) c.
Proof.
  intros Hok Hreq. unfold requested_offer in Hreq.
  destruct (al_requests (c_alloc c) !! _) as [id|] eqn:Hkey; [|done].
  destruct (ak_indexed _ _ Hok _ _ Hkey) as (o' & Ho & Hk). rewrite Hreq in Ho. injection Ho as <-.
  unfold repeat_request. wp_steps; try done. guards. split; [done|].
  intros (e & He & ->)%reply_with_ok. exists o, e.
  match goal with H : answers _ _ _ _ _ |- _ => destruct (H e He) as (? & ? & ? & _) end.
  split_and!; try done; [by apply (offer_lookup p _ id)|].
  destruct (ak_offer _ _ Hok _ _ Hreq) as []. unfold offer_key in Hk.
  apply (authorityKey_identity _ _ (er_request_id request)). congruence.
Qed.

Lemma handleRequest_offers c envelope request :
  good p c → er_request_id request ≠ "" →
  wp (handleRequest p envelope request) (fun r c' => r.2 = None →
    offered p envelope request r.1 (c_alloc c') ∧
    (committed p c' ∨ ∃ t, c_alloc c' = (expire_offers t (c_alloc c)).1)) c.
Proof.
  intros Hg Hne. unfold handleRequest. apply wp_bind, wp_now. intros t.
  eapply wp_bind, wp_mono; [apply wp_and; [apply (wp_goes_expire p false c c); [by apply goes_refl|]|]|].
  { intros n c1 Hg1. exact Hg1. }
  { apply (wp_expireOffersLocked t (fun _ c1 => c_alloc c1 = (expire_offers t (c_alloc c)).1)). done. }
  intros n c1 [Hg1 Ha1]. pose proof (gd_alloc _ _ (goes_good _ _ _ _ Hg1)) as Hok.
  apply wp_bind, wp_get, wp_bind, wp_observe. cbv zeta.
  destruct (requested_offer _ _) as [o|] eqn:Hreq.
  { eapply wp_mono; [apply (repeat_request_offers c1 envelope request o t); done|].
    intros r c' [-> Hr] Hnone. split; [by apply Hr|]. right. by exists t. }
  destruct (request_refused _ _ _ _) eqn:Href; [by apply wp_ret|].
  apply request_accepted in Href as (Hb & Hq & Hav & Hp).
  apply wp_bind, wp_newID. intros id. destruct (bool_decide (id = "")) eqn:Hid; [by apply wp_ret|].
  apply bool_decide_eq_false in Hid. destruct (al_offers (c_alloc c1) !! id) eqn:Hnone; [by apply wp_ret|].
  apply wp_bind, wp_answer_respond. intros [response|e] Hresp; [|by apply wp_ret].
  set (o := fresh_offer_record _ _ _ _).
  change (authorityKey (env_sender envelope) (er_request_id request)) with (offer_key o).
  eapply wp_mono; [apply (commit_offer_goes p); try done|].
  - eauto with r1s.
  - by apply (requested_offer_None p).
  - intros r c' [_ Hr] Hn. destruct (Hr Hn) as (-> & Ho & Hcommit). split; [|by left].
    destruct (Hresp response eq_refl) as (? & ? & ? & _). by exists o, response.
Qed.
(** The disk holds the snapshot of the state. *)
Definition durable (w : World) : Prop :=
  p_store p = true → ∃ s, w_disk w = Some s ∧ encode_state (p_identity p) (w_alloc w) = Ok s.

Lemma committed_durable w : committed p (core_of w) → durable w.
Proof.
  intros (c0 & Hs & Ha) Hstore. unfold saves in Hs. rewrite Hstore in Hs. destruct Hs as (s & He & Hc).
  exists s. rewrite Ha in He. split; [|done]. exact (f_equal (@c_disk _) Hc).
Qed.

(** A request that succeeds is answered with one offer that the allocator
    holds for exactly this client and request, and the offer is on disk before
    the answer leaves, unless the answer repeats an offer made earlier and
    changes nothing but due expiries. *)
Theorem request_offered w envelope request rs w' :
  good p (core_of w) → er_request_id request ≠ "" → handleRequest p envelope request w = ((rs, None), w') →
  offered p envelope request rs (w_alloc w') ∧
  (durable w' ∨ ∃ t, w_alloc w' = (expire_offers t (w_alloc w)).1).
Proof.
  intros Hg Hne Hrun. pose proof (wp_run _ _ w (handleRequest_offers _ envelope request Hg Hne)) as Hr.
  rewrite Hrun in Hr. destruct (Hr eq_refl) as [Ho [Hc|Ht]]; (split; [done|]); [|by right].
  left. by apply committed_durable.
Qed.

Lemma handleLeaseRenew_renews c envelope renew :
  wp (handleLeaseRenew p envelope renew) (fun r c' => r.2 = None →
    ∃ record t ack, al_executions (c_alloc c) !! ln_execution_id renew = Some record ∧
      ex_client record = env_sender envelope ∧ Terminal (ex_phase record) = false ∧ ex_phase record ≠ PHASE_CANCELLING ∧
      as_duration (ln_lease_duration renew) ≤ maxLeaseTTL ∧
      c_alloc c' = put_execution (c_alloc c) (ln_execution_id renew)
                     (set_lease record (t + as_duration (ln_lease_duration renew))) ∧
      committed p c' ∧ r.1 = [ack] ∧ env_sent_at ack = Some (ts_new t) ∧
      env_payload ack = Some (P_ExecutionLeaseRenewAck (Some (mkLeaseRenewAck (ex_id record)
        (Some (ts_new (t + as_duration (ln_lease_duration renew)))))))) c.
Proof.
  unfold handleLeaseRenew. wp_steps; try done. guards. apply wp_persistLocked.
  - intros err _. by wp_steps.
  - intros c2 Hs. wp_steps. intros (ack & He & ->)%reply_with_ok.
    match goal with H : answers _ _ _ _ _ |- _ => destruct (H ack He) as (? & _ & _ & ? & _) end.
    match goal with Hr : al_executions _ !! _ = Some ?r, Ht : env_sent_at ack = Some (ts_new ?t) |- _ =>
      exists r, t, ack end. split_and!; try done; [lia|exact (saves_alloc _ _ _ Hs)|].
    eexists. split; [exact Hs|]. by rewrite (saves_alloc _ _ _ Hs).
Qed.

(** A lease renewal is acknowledged only to the owner of a live execution that
    is not being cancelled, for at most seven days from the time of the answer;
    the acknowledged expiry is the one stored, it is on disk before the answer
    leaves, and nothing else changes. *)
Theorem lease_renewed w envelope renew rs w' :
  handleLeaseRenew p envelope renew w = ((rs, None), w') →
  let d := as_duration (ln_lease_duration renew) in
  let id := ln_execution_id renew in
  ∃ record t ack, al_executions (w_alloc w) !! id = Some record ∧ ex_client record = env_sender envelope ∧
    Terminal (ex_phase record) = false ∧ ex_phase record ≠ PHASE_CANCELLING ∧ d ≤ maxLeaseTTL ∧
    w_alloc w' = put_execution (w_alloc w) id (set_lease record (t + d)) ∧ durable w' ∧
    rs = [ack] ∧ env_sent_at ack = Some (ts_new t) ∧
    env_payload ack = Some (P_ExecutionLeaseRenewAck (Some (mkLeaseRenewAck (ex_id record) (Some (ts_new (t + d)))))).
Proof.
  intros Hrun d id. pose proof (wp_run _ _ w (handleLeaseRenew_renews _ envelope renew)) as Hr. rewrite Hrun in Hr.
  destruct (Hr eq_refl) as (record & t & ack & ? & ? & ? & ? & ? & ? & Hc & ? & ? & ?).
  exists record, t, ack. split_and!; try done. by apply committed_durable.
Qed.
End outcomes.

From S2P Require Import Upkeep System Lifecycle Start Safety.

Definition request_message : ExecutionRequest :=
  mkRequest "r1" (Some (mkWorkload "image" [] [] ∅ "")) (Some mkPolicy) "small" None "0123456789abcdef0123456789abcdef" 1.

Lemma request_offered_witness :
  let r := handleRequest demo_settings demo_request request_message demo_world in
  offered demo_settings demo_request request_message r.1.1 (w_alloc r.2).
Proof.
  intros r. apply (request_offered demo_settings demo_world demo_request request_message r.1.1 r.2 demo_good); [done|].
  apply pair_fst. vm_compute. reflexivity.
Defined.

(** The running execution's owner asks for ten more minutes. *)
Definition demo_renew : ExecutionLeaseRenew := mkLeaseRenew "e1" (Some (mkDuration 600 0)).
Definition demo_renewal : Envelope :=
  mkEnvelope "m3" demo_client "" (Some (ts_new demo_time)) (Some (P_ExecutionLeaseRenew (Some demo_renew))).

Lemma lease_renewed_witness :
  let w := sy_world (demo_run demo_running) in
  let r := handleLeaseRenew demo_settings demo_renewal demo_renew w in
  ∃ record, al_executions (w_alloc w) !! "e1" = Some record ∧ ex_client record = demo_client ∧
    durable demo_settings r.2.
Proof.
  intros w r. destruct (lease_renewed demo_settings w demo_renewal demo_renew r.1.1 r.2) as (record & t & ack & Hl & Hc & Hr).
  - apply pair_fst. vm_compute. reflexivity.
  - exists record. split; [exact Hl|]. split; [exact Hc|]. apply Hr.
Defined.

