(* ===== verification/Isolation.v ===== *)
(** * Clients are isolated from each other

    A command changes only records of the client that sent it: every offer and
    every execution of another client is as before, except that an outstanding
    offer whose time is over may be marked expired. *)

From S2P Require Import Prelude GoStrings Ordering Wire Errors Protocol Feedback Capacity Admission Replay Registry.
From S2P Require Import Utf8 AllocTypes Snapshot AllocOps Commands Maintenance Loading Threads Logic Invariant.
From S2P Require Import Refinement Handlers Upkeep System Lifecycle Start.

(** An offer of somebody else may lapse, nothing more. *)
Definition offer_kept (o o' : offerRecord) : Prop :=
  o' = o ∨ (of_status o = offerOutstanding ∧ o' = set_status o offerExpired).

Record keeps_others (owner : bytes) (a a' : Allocator) : Prop := {
  ko_execution id r : al_executions a !! id = Some r → ex_client r ≠ owner → al_executions a' !! id = Some r;
  ko_offer id o : al_offers a !! id = Some o → of_client o ≠ owner →
    ∃ o', al_offers a' !! id = Some o' ∧ offer_kept o o'
}.

Lemma keeps_refl owner a : keeps_others owner a a.
Proof. split; [done|]. intros id o Ho _. exists o. split; [done|by left]. Qed.

Lemma keeps_trans owner a1 a2 a3 : keeps_others owner a1 a2 → keeps_others owner a2 a3 → keeps_others owner a1 a3.
Proof.
  intros [X12 O12] [X23 O23]. split; [eauto|]. intros id o Ho Hne.
  destruct (O12 id o Ho Hne) as (o2 & Ho2 & Hk2).
  destruct (O23 id o2 Ho2) as (o3 & Ho3 & Hk3); [by destruct Hk2 as [-> |[_ ->]]|].
  exists o3. split; [done|]. destruct Hk2 as [-> |[Hs ->]]; [done|]. destruct Hk3 as [-> |[Hs' _]]; [by right|done].
Qed.

(** Only the records matter. *)
Lemma keeps_same owner a a' :
  al_executions a' = al_executions a → al_offers a' = al_offers a → keeps_others owner a a'.
Proof. intros Hx Ho. split; [by rewrite Hx|]. rewrite Ho. apply keeps_refl. Qed.

Lemma keeps_execution owner a a' id m :
  al_executions a' = m → al_offers a' = al_offers a →
  (∀ id', id' ≠ id → m !! id' = al_executions a !! id') →
  (∀ r, al_executions a !! id = Some r → ex_client r = owner) → keeps_others owner a a'.
Proof.
  intros Hx Ho Hm Hown. split.
  - intros id' r Hr Hne. rewrite Hx. destruct (decide (id' = id)) as [->|Hd]; [|by rewrite Hm].
    by destruct Hne; apply Hown.
  - rewrite Ho. apply keeps_refl.
Qed.

Lemma keeps_offer owner a a' id m :
  al_offers a' = m → al_executions a' = al_executions a →
  (∀ id', id' ≠ id → m !! id' = al_offers a !! id') →
  (∀ o, al_offers a !! id = Some o → of_client o = owner) → keeps_others owner a a'.
Proof.
  intros Ho Hx Hm Hown. split; [by rewrite Hx|].
  intros id' o Hid Hne. rewrite Ho. destruct (decide (id' = id)) as [->|Hd]; [by destruct Hne; apply Hown|].
  exists o. rewrite Hm //. split; [done|by left].
Qed.

Section isolation.
Context `{Externals, Codec, Env} (p : Settings).

Lemma expire_fold_other t l acc id :
  (∀ o, (id, o) ∈ l → False) → al_offers (fold_left (expire_one t) l acc).1 !! id = al_offers acc.1 !! id.
Proof.
  revert acc. induction l as [|[k o] l IH]; intros [a n] Hn; [done|]. cbn [fold_left].
  rewrite IH; [intros o' Ho'; apply (Hn o'); apply elem_of_cons; by right|].
  unfold expire_one. case_match; [|done]. simpl. rewrite lookup_insert_ne //. intros ->.
  apply (Hn o). apply elem_of_cons. by left.
Qed.

Lemma keeps_expire owner t a : keeps_others owner a (expire_offers t a).1.
Proof.
  unfold expire_offers. split; [intros id r Hr _; by rewrite (sf_executions _ _ (expire_fold_frame t _ (a, 0)))|].
  intros id o Ho _.
  assert (∀ l acc, NoDup l.*1 → (∀ k o, (k, o) ∈ l → al_offers acc.1 !! k = Some o) →
    ∀ id o, al_offers acc.1 !! id = Some o →
    ∃ o', al_offers (fold_left (expire_one t) l acc).1 !! id = Some o' ∧ offer_kept o o') as Hfold.
  { clear. induction l as [|[k o] l IH]; intros [a n] Hnd Hin id x Hx; [exists x; split; [done|by left]|].
    apply NoDup_cons in Hnd as [Hk Hnd]. cbn [fold_left].
    assert (al_offers a !! k = Some o) as Hko by (apply Hin; apply elem_of_cons; by left). simpl in Hx, Hk.
    assert (∀ k' o', (k', o') ∈ l → al_offers a !! k' = Some o' ∧ k ≠ k') as Hrest.
    { intros k' o' Hl. split; [apply Hin; apply elem_of_cons; by right|]. intros ->.
      apply Hk. apply list_elem_of_fmap. by exists (k', o'). }
    unfold expire_one at 2. cbn [fst snd]. destruct (offer_lapsed o t) eqn:Hl.
    2: { apply IH; [done| |done]. intros k' o' Hl'. by apply Hrest. }
    destruct (decide (k = id)) as [->|Hne].
    - rewrite Hko in Hx. injection Hx as <-. exists (set_status o offerExpired). split.
      + rewrite expire_fold_other; [by intros o' Hl'; apply Hrest in Hl' as [_ ?]|]. simpl. apply lookup_insert_eq.
      + right. unfold offer_lapsed in Hl. apply andb_true_iff in Hl as [Hl _]. by apply bool_decide_eq_true in Hl.
    - apply (IH (_, n + 1)); [done| |]; simpl.
      + intros k' o' Hl'. destruct (Hrest k' o' Hl') as [? ?]. by rewrite lookup_insert_ne.
      + by rewrite lookup_insert_ne. }
  apply (Hfold _ (a, 0)); [apply NoDup_fst_map_to_list| |done]. intros k o'. by rewrite elem_of_map_to_list.
Qed.

Lemma wp_persist_any (Q : error → core → Prop) c :
  (∀ r c', c_alloc c' = c_alloc c → Q r c') → wp (persistLocked p) Q c.
Proof.
  intros HQ. apply wp_persistLocked; [intros e _; by apply HQ|]. intros c' Hs. apply HQ. exact (saves_alloc _ _ _ Hs).
Qed.

(** Every way a segment ends keeps the others' records. *)
Definition isolated (owner : bytes) (c : core) {A} (_ : A) (c' : core) : Prop :=
  keeps_others owner (c_alloc c) (c_alloc c').

Lemma commit_offer_isolated c e key id o response :
  al_offers (c_alloc c) !! id = None →
  wp (commit_offer p key id o response) (isolated (env_sender e) c) c.
Proof.
  intros Hid. unfold commit_offer. apply wp_bind, wp_modify, wp_bind, wp_get.
  assert (∀ x, al_offers (c_alloc c) !! id = Some x → of_client x = env_sender e) as Hown by congruence.
  destruct (reserve _ _) as [cap|err].
  - apply wp_bind, wp_put, wp_bind, wp_persist_any. intros [err|] c' Hc'; wp_steps; unfold isolated; simpl; rewrite Hc'.
    + apply keeps_same; simpl; [done|]. by rewrite delete_insert_id.
    + eapply (keeps_offer _ _ _ id); [reflexivity|done| |done]. intros id' Hne. simpl. rewrite lookup_insert_ne //; congruence.
  - wp_steps. apply keeps_same; simpl; [done|]. by rewrite delete_insert_id.
Qed.

Lemma handleRequest_isolated c e m : wp (handleRequest p e m) (isolated (env_sender e) c) c.
Proof.
  unfold handleRequest. apply wp_bind, wp_now. intros t. apply wp_bind, wp_expireOffersLocked. intros n.
  set (c1 := c_update c _).
  assert (keeps_others (env_sender e) (c_alloc c) (c_alloc c1)) as Hk by apply keeps_expire.
  apply wp_bind, wp_get, wp_bind, wp_observe. cbv zeta. destruct (requested_offer _ _) as [o|].
  { unfold repeat_request. wp_steps; exact Hk. }
  destruct (request_refused _ _ _ _); [by apply wp_ret|]. apply wp_bind, wp_newID. intros id.
  destruct (bool_decide (id = "")); [by apply wp_ret|]. destruct (al_offers (c_alloc c1) !! id) eqn:Hid; [by apply wp_ret|].
  apply wp_bind, wp_answer_respond. intros [response|err] _; [|by apply wp_ret].
  eapply wp_mono; [by apply commit_offer_isolated|]. intros r c' Hk'. exact (keeps_trans _ _ _ _ Hk Hk').
Qed.

Lemma assign_begin_isolated c e m :
  wp (assign_begin p e m) (isolated (env_sender e) c) c.
Proof.
  unfold assign_begin. apply wp_bind, wp_now. intros t. apply wp_bind, wp_expireOffersLocked. intros n.
  set (c1 := c_update c _).
  assert (keeps_others (env_sender e) (c_alloc c) (c_alloc c1)) as Hk by apply keeps_expire.
  apply wp_bind, wp_get. cbv zeta. destruct (al_offers (c_alloc c1) !! _) as [o|] eqn:Ho; [|by apply wp_ret].
  destruct (negb (bool_decide (of_client o = _))) eqn:Hcl; [by apply wp_ret|]. guards.
  destruct (negb _); [by apply wp_ret|]. destruct (of_status o) eqn:Hs; try by apply wp_ret.
  2: { destruct (negb _); [by apply wp_ret|]. wp_steps. exact Hk. }
  destruct (al_executions (c_alloc c1) !! _) as [x|] eqn:Hx; [wp_steps; exact Hk|].
  destruct (negb _); [by apply wp_ret|]. destruct (admitLocked _ _ _ _); [by apply wp_ret|].
  unfold commit_assignment. apply wp_bind, wp_modify, wp_bind, wp_persist_any.
  assert (∀ a', (∀ id', id' ≠ ea_offer_id m → al_offers a' !! id' = al_offers (c_alloc c1) !! id') →
    (∀ id', id' ≠ ea_execution_id m → al_executions a' !! id' = al_executions (c_alloc c1) !! id') →
    keeps_others (env_sender e) (c_alloc c1) a') as Hframe.
  { intros a' Hoff Hex. split.
    - intros id r Hr Hne. rewrite Hex //. congruence.
    - intros id x Hid Hne. exists x. split; [|by left]. rewrite Hoff //. congruence. }
  intros [err|] c' Hc'; wp_steps; unfold isolated; simpl; rewrite Hc'; apply (keeps_trans _ _ _ _ Hk), Hframe; simpl; intros id' Hne.
  - rewrite !lookup_insert_ne //; congruence.
  - by rewrite delete_insert_id.
  - rewrite lookup_insert_ne //; congruence.
  - rewrite lookup_insert_ne //; congruence.
Qed.

(** Replacing the record of an own execution. *)
Lemma keeps_own owner a id r f :
  al_executions a !! id = Some r → ex_client r = owner →
  (∀ id', id' ≠ id → al_executions (f a) !! id' = al_executions a !! id') → al_offers (f a) = al_offers a →
  keeps_others owner a (f a).
Proof.
  intros Hr Hown Hm Ho. eapply (keeps_execution _ _ _ id); [reflexivity|done|done|]. intros r' Hr'. congruence.
Qed.

Lemma keeps_put owner a id r r' :
  al_executions a !! id = Some r → ex_client r = owner → keeps_others owner a (put_execution a id r').
Proof.
  intros Hr Hown. apply (keeps_own _ _ id r (fun a => put_execution a id r')); [done|done| |done].
  intros id' Hne. simpl. rewrite lookup_insert_ne //; congruence.
Qed.

Lemma keeps_finish owner a id r phase detail code t :
  al_executions a !! id = Some r → ex_client r = owner →
  keeps_others owner a (finish_record p id r phase detail code t a).
Proof.
  intros Hr Hown. apply (keeps_own _ _ id r (finish_record p id r phase detail code t)); [done|done| |].
  - intros id' Hne. unfold finish_record. destruct (ex_released r); simpl; rewrite lookup_insert_ne //; congruence.
  - unfold finish_record. by destruct (ex_released r).
Qed.

Lemma commit_state_isolated owner c0 c e id finished :
  keeps_others owner (c_alloc c0) (c_alloc c) → wp (commit_state p e id finished) (isolated owner c0) c.
Proof.
  intros Hk. unfold commit_state. apply wp_bind, wp_now. intros t. apply wp_bind, wp_get, wp_bind, wp_answer_state.
  intros res _ _. apply wp_bind, wp_persist_any. intros err c' Hc'. wp_steps; unfold isolated; by rewrite Hc'.
Qed.

Lemma assign_finish_isolated c e id startErr r :
  al_executions (c_alloc c) !! id = Some r → ex_client r = env_sender e →
  wp (assign_finish p e id startErr) (isolated (env_sender e) c) c.
Proof.
  intros Hr Hown. unfold assign_finish. apply wp_bind, wp_get. rewrite Hr.
  apply wp_bind, (wp_mono _ (isolated (env_sender e) c)).
  { pose proof (keeps_refl (env_sender e) (c_alloc c)). destruct startErr; wp_steps; unfold isolated; simpl; try done.
    - by apply (keeps_finish _ _ id r).
    - by apply (keeps_put _ _ id r). }
  intros finished c1 Hk. apply wp_bind. apply (wp_mono _ (isolated (env_sender e) c)); [by apply commit_state_isolated|].
  intros [res err] c' Hk'. by apply wp_ret.
Qed.

Lemma cancel_begin_isolated c e m : wp (cancel_begin p e m) (isolated (env_sender e) c) c.
Proof.
  pose proof (keeps_refl (env_sender e) (c_alloc c)) as Hrefl.
  unfold cancel_begin. apply wp_bind, wp_now. intros t. apply wp_bind, wp_get. cbv zeta.
  destruct (al_executions (c_alloc c) !! _) as [r|] eqn:Hr; [|by apply wp_ret].
  destruct (negb _) eqn:Hcl; [by apply wp_ret|]. guards. destruct (_ || _); [by wp_steps|].
  unfold commit_cancelling. apply wp_bind, wp_bind, wp_modify, wp_bind, wp_persist_any.
  intros [err|] c' Hc'; wp_steps; unfold isolated; simpl; rewrite Hc'; simpl.
  - apply keeps_same; [|done]. simpl. rewrite insert_insert_eq. by rewrite insert_id.
  - by apply (keeps_put _ _ _ r).
Qed.

Lemma cancel_finish_isolated c e m s stopErr r :
  al_executions (c_alloc c) !! sp_id s = Some r → ex_client r = env_sender e →
  wp (cancel_finish p e m s stopErr) (isolated (env_sender e) c) c.
Proof.
  intros Hr Hown. pose proof (keeps_refl (env_sender e) (c_alloc c)) as Hrefl.
  unfold cancel_finish. apply wp_bind, wp_get. cbv zeta. rewrite Hr. destruct stopErr as [err|].
  - apply wp_bind, (wp_mono _ (isolated (env_sender e) c)).
    { wp_steps; unfold isolated; simpl; [by apply (keeps_put _ _ _ r)|done]. }
    intros ? c1 Hk. apply wp_bind, wp_persist_any. intros r' c' Hc'. apply wp_ret. unfold isolated. by rewrite Hc'.
  - apply wp_bind, (wp_mono _ (isolated (env_sender e) c)).
    { wp_steps; unfold isolated; simpl; [by apply (keeps_finish _ _ _ r)|done]. }
    intros finished c1 Hk. apply wp_bind. apply (wp_mono _ (isolated (env_sender e) c)); [by apply commit_state_isolated|].
    intros [res err] c' Hk'. by apply wp_ret.
Qed.

Lemma handleOfferRelease_isolated c e m : wp (handleOfferRelease p e m) (isolated (env_sender e) c) c.
Proof.
  pose proof (keeps_refl (env_sender e) (c_alloc c)) as Hrefl.
  unfold handleOfferRelease. apply wp_bind, wp_get. destruct (released_offer _ _) as [o|] eqn:Ho; [|by apply wp_ret].
  destruct (negb (bool_decide (of_client o = _))) eqn:Hcl; [by apply wp_ret|]. guards.
  destruct (negb _); [by apply wp_ret|]. apply wp_bind, wp_newID. intros mid. destruct (bool_decide _); [by apply wp_ret|].
  apply wp_bind, wp_now. intros t. cbv zeta. destruct (decide _) as [|Hch]; [by apply wp_ret|].
  destruct (release_status_changed _ _ Hch) as [Hs _].
  assert (∀ x, al_offers (c_alloc c) !! or_offer_id m = Some x → of_client x = env_sender e) as Hown.
  { intros x Hx. unfold released_offer in Ho. rewrite Hx in Ho. congruence. }
  apply wp_bind, wp_modify, wp_bind, wp_persist_any. intros [err|] c' Hc'; wp_steps; unfold isolated; simpl; rewrite Hc'; simpl.
  - eapply (keeps_offer _ _ _ (or_offer_id m)); [reflexivity|by case_match| |done].
    intros id' Hne. case_match; simpl; rewrite !lookup_insert_ne //; congruence.
  - eapply (keeps_offer _ _ _ (or_offer_id m)); [reflexivity|done| |done].
    intros id' Hne. simpl. rewrite lookup_insert_ne //; congruence.
Qed.

Lemma handleLeaseRenew_isolated c e m : wp (handleLeaseRenew p e m) (isolated (env_sender e) c) c.
Proof.
  pose proof (keeps_refl (env_sender e) (c_alloc c)) as Hrefl.
  unfold handleLeaseRenew. apply wp_bind, wp_now. intros t. apply wp_bind, wp_get. cbv zeta.
  destruct (al_executions (c_alloc c) !! _) as [r|] eqn:Hr; [|by apply wp_ret].
  destruct (negb _) eqn:Hcl; [by apply wp_ret|]. guards. destruct (Terminal _); [by apply wp_ret|].
  destruct (decide _); [by apply wp_ret|]. destruct (_ <? _); [by apply wp_ret|].
  apply wp_bind, wp_modify, wp_bind, wp_persist_any. intros [err|] c' Hc'; wp_steps; unfold isolated; simpl; rewrite Hc'; simpl.
  - apply keeps_same; [|done]. simpl. rewrite insert_insert_eq. by rewrite insert_id.
  - by apply (keeps_put _ _ _ r).
Qed.

Lemma tunnel_open_bind_isolated c e m t : wp (tunnel_open_bind p e m t) (isolated (env_sender e) c) c.
Proof.
  pose proof (keeps_refl (env_sender e) (c_alloc c)) as Hrefl. unfold tunnel_open_bind.
  wp_steps; unfold isolated; simpl; try done. by apply keeps_same.
Qed.

(** The envelope a thread works for. *)
Definition works_for (t : thread) : option Envelope :=
  match t with
  | T_Check e | T_Logs e _ | T_Begin e | T_Wait e => Some e
  | _ => holds t
  end.

Lemma beginReplay_isolated c e t :
  wp (beginReplay p (replay_key e) e t) (isolated (env_sender e) c) c.
Proof.
  unfold beginReplay. apply wp_bind, wp_expireOffersLocked. intros n. set (c1 := c_update c _).
  assert (keeps_others (env_sender e) (c_alloc c) (c_alloc c1)) as Hk by apply keeps_expire.
  assert (∀ a', al_executions a' = al_executions (c_alloc c1) → al_offers a' = al_offers (c_alloc c1) →
    keeps_others (env_sender e) (c_alloc c) a') as Hsame.
  { intros a' Hx Ho. apply (keeps_trans _ _ _ _ Hk). by apply keeps_same. }
  apply wp_bind, wp_get. destruct (begin _ _ _ _) as [cache|cache en|cache err]; apply wp_bind, wp_put.
  - apply wp_bind, wp_persist_any. intros [err|] c' Hc'; wp_steps; apply Hsame; simpl; by rewrite Hc'.
  - apply wp_ret. by apply Hsame.
  - apply wp_ret. by apply Hsame.
Qed.

Lemma run_first_isolated c e : wp (run_first p e) (isolated (env_sender e) c) c.
Proof.
  pose proof (keeps_refl (env_sender e) (c_alloc c)) as Hrefl. unfold run_first.
  assert (∀ A (m : M A) (f : A → thread), wp m (isolated (env_sender e) c) c →
    wp (x ← m; mret (f x)) (isolated (env_sender e) c) c) as Hlift.
  { intros A m f Hm. apply wp_bind. eapply wp_mono; [exact Hm|]. intros x c' Hk. by apply wp_ret. }
  destruct (env_payload e) as [[[m|]| |[m|]|[m|]| |[m|]|[m|]| | | | |[m|]| |[m|]|]|];
    try (apply wp_bind, wp_panic, wp_ret; exact Hrefl); apply Hlift.
  - apply handleRequest_isolated.
  - apply assign_begin_isolated.
  - apply cancel_begin_isolated.
  - eapply wp_mono; [apply handleInspect_pure|]. intros r c' [-> _]. exact Hrefl.
  - apply handleOfferRelease_isolated.
  - apply handleLeaseRenew_isolated.
  - eapply wp_mono; [apply tunnel_open_check_pure|]. intros r c' [-> _]. exact Hrefl.
Qed.

Lemma checkFreshness_isolated c e : wp (checkFreshness e) (isolated (env_sender e) c) c.
Proof.
  unfold checkFreshness. apply wp_bind, wp_effectiveNowLocked. intros t. wp_steps. apply keeps_same; simpl; unfold advance; by case_match.
Qed.

Lemma finish_isolated c e r : wp (finish_command p e r) (isolated (env_sender e) c) c.
Proof.
  unfold finish_command. apply wp_bind, (wp_mono _ (fun _ c' => c' = c)).
  { destruct r as [[|x l] [err|]]; simpl; wp_steps; done. }
  intros rs c' ->. apply wp_bind. unfold finishReplay. apply wp_bind, wp_modify, wp_persist_any.
  intros err c' Hc'. apply wp_ret. apply keeps_same; by rewrite Hc'.
Qed.

Lemma step_thread_isolated c t e :
  good p c → thread_ok p c t → works_for t = Some e → wp (step_thread p t) (isolated (env_sender e) c) c.
Proof.
  intros Hg Ht He. pose proof (keeps_refl (env_sender e) (c_alloc c)) as Hrefl.
  assert (∀ A (m : M A) (f : A → thread), wp m (isolated (env_sender e) c) c →
    wp (x ← m; mret (f x)) (isolated (env_sender e) c) c) as Hlift.
  { intros A m f Hm. apply wp_bind. eapply wp_mono; [exact Hm|]. intros x c' Hk. by apply wp_ret. }
  destruct t; try discriminate He; injection He as ->; cbn [step_thread].
  - apply wp_bind. apply (wp_mono _ (isolated (env_sender e) c)); [apply checkFreshness_isolated|].
    intros [err|] c' Hk; wp_steps; exact Hk.
  - apply Hlift. eapply wp_mono; [apply handleLogs_pure|]. intros r c' [-> _]. exact Hrefl.
  - apply wp_bind, wp_now. intros t. apply wp_bind.
    apply (wp_mono _ (isolated (env_sender e) c)); [apply beginReplay_isolated|].
    intros [[en|]|err] c' Hk; unfold answer_duplicate; wp_steps; exact Hk.
  - wp_steps. exact Hrefl.
  - apply run_first_isolated.
  - apply wp_bind, wp_call; [done|]. intros err. apply wp_ret. exact Hrefl.
  - destruct Ht as (_ & Hpl & r & Hr & Hp). rewrite Hpl in Hp. apply Hlift. apply (assign_finish_isolated _ _ _ _ r); [done|apply Hp].
  - apply wp_bind, wp_call; [done|]. intros err. apply wp_ret. exact Hrefl.
  - destruct Ht as (_ & _ & r & Hr & Hp). apply Hlift. apply (cancel_finish_isolated _ _ _ _ _ r); [done|].
    destruct (env_payload e) as [[| |[|]|[|]| | | | | | | | | | |]|]; try done; apply Hp.
  - apply Hlift. apply tunnel_open_bind_isolated.
  - apply Hlift. apply finish_isolated.
Qed.

(** C3 Isolation: whatever step a thread takes for an authenticated command, no
    execution of another client changes, and no offer of another client changes
    except by lapsing. *)
Theorem client_isolation w s i t e t' w' :
  good p (core_of w) → rtc (sys_step p) (started w) s → sy_threads s !! i = Some t → works_for t = Some e →
  step_thread p t (sy_world s) = (t', w') → keeps_others (env_sender e) (w_alloc (sy_world s)) (w_alloc w').
Proof.
  intros Hg Hr Hi He Hst. pose proof (sys_steps_ok p _ _ Hr (started_ok p w Hg)) as [Hg' Hts _ _].
  pose proof (wp_run _ _ (sy_world s) (step_thread_isolated _ _ _ Hg' (Hts _ _ Hi) He)) as Hk. by rewrite Hst in Hk.
Qed.
End isolation.

(** A stranger's cancellation leaves the running execution alone. *)
Definition stranger_cancel : Envelope :=
  mkEnvelope "m9" (replicate 16 Byte.x43) "" (Some (ts_new demo_time)) (Some (P_ExecutionCancel (Some (mkCancel "e1" "mine")))).
Definition demo_intruded : list action := demo_running ++ [A_Deliver 5 stranger_cancel; A_Thread 5; A_Thread 5].

Lemma client_isolation_witness :
  let s := demo_run demo_intruded in
  keeps_others (replicate 16 Byte.x43) (w_alloc (sy_world s))
    (w_alloc (step_thread demo_settings (T_Run stranger_cancel) (sy_world s)).2).
Proof.
  intros s. destruct (step_thread demo_settings (T_Run stranger_cancel) (sy_world s)) as [t' w'] eqn:Hst.
  apply (client_isolation demo_settings demo_world s 5 (T_Run stranger_cancel) stranger_cancel t' w' demo_good);
    [apply demo_reached; vm_compute; reflexivity|vm_compute; reflexivity|reflexivity|exact Hst].
Defined.
