(* ===== verification/Persist.v ===== *)
(** * Restarting from the durable snapshot

    Loading what [persistLocked] saved: the offers, executions, tombstones and
    the request index come back, lapsed offers are expired, the capacity is
    recomputed exactly and the result satisfies the invariant again.  Replay
    entries come back under the JSON form of their keys. *)

From S2P Require Import Prelude GoStrings Ordering Wire Errors Protocol Feedback Capacity Admission Replay Registry.
From S2P Require Import Utf8 AllocTypes Snapshot AllocOps Commands Maintenance Loading Threads Logic Invariant.
From S2P Require Import Refinement Handlers Upkeep System Lifecycle Start.

(** What JSON and the checks of [loadLocked] preserve: strings are UTF-8, the
    mandatory instants are set, revisions start at one. *)
Record storable_execution (e : executionRecord) : Prop := {
  se_id : valid_utf8 (ex_id e) = true;
  se_offer : valid_utf8 (ex_offerID e) = true;
  se_class : valid_utf8 (ex_resourceClass e) = true ∧ ex_resourceClass e ≠ "";
  se_detail : valid_utf8 (ex_detail e) = true;
  se_startedAt : is_zero (ex_startedAt e) = false;
  se_occurredAt : is_zero (ex_occurredAt e) = false;
  se_revision : 1 ≤ ex_revision e;
  se_until : is_zero (if Terminal (ex_phase e) then ex_retainUntil e else ex_leaseUntil e) = false
}.

Record storable (a : Allocator) : Prop := {
  sb_offer id o : al_offers a !! id = Some o → valid_utf8 (of_execution o) = true;
  sb_execution id e : al_executions a !! id = Some e → storable_execution e;
  sb_tombstone id d : al_tombstones a !! id = Some d →
    valid_utf8 id = true ∧ valid_utf8 (tb_RequestID d) = true ∧ valid_utf8 (tb_OfferID d) = true ∧
    valid_utf8 (tb_ExecutionID d) = true
}.

(** Adding a loaded offer, and a loaded execution. *)
Definition add_offer (a : Allocator) (kv : string * offerRecord) : Allocator :=
  set_requests (put_offer a kv.1 kv.2) (<[offer_key kv.2 := kv.1]> (al_requests a)).
Definition add_execution (a : Allocator) (kv : string * executionRecord) : Allocator := put_execution a kv.1 kv.2.

Section offers.
Context `{Externals, Codec, CL : !CodecLaws}.

Lemma status_roundtrip s : status_of_number (status_number s) = Some s.
Proof. by destruct s. Qed.

Lemma firstBytes_nil b : firstBytes b [] = b.
Proof. unfold firstBytes. destruct b; [done|]. by simpl. Qed.

Lemma load_offer_encoded a id o po :
  offer_ok id o → valid_utf8 (of_execution o) = true → encode_offer o = Ok po →
  al_offers a !! id = None → al_requests a !! offer_key o = None →
  load_offer a (json_offer po) = Ok (add_offer a (id, o)).
Proof.
  intros [Hid Hoid Hreq Hrid _ _] Hutf He Hno Hnk. unfold encode_offer in He.
  apply result_bind_ok in He as (bo & Hbo & He). apply result_bind_ok in He as (br & Hbr & [= <-]).
  unfold load_offer. simpl.
  rewrite (unmarshal_marshal_offer _ _ Hbo) (unmarshal_marshal_request _ _ Hbr).
  rewrite Hoid Hreq. rewrite (bool_decide_eq_false_2 (id = "")) // (bool_decide_eq_false_2 (_ = "")) //.
  rewrite bool_decide_eq_true_2 //. simpl. rewrite Hno status_roundtrip firstBytes_nil.
  unfold offer_key in Hnk. rewrite Hreq in Hnk. rewrite Hnk (json_string_valid _ Hutf).
  unfold add_offer, offer_key. simpl. rewrite Hreq. by destruct o.
Qed.

Lemma load_offers_encoded l enc a :
  Forall2 (fun kv po => encode_offer kv.2 = Ok po) l enc →
  (∀ id o, (id, o) ∈ l → offer_ok id o ∧ valid_utf8 (of_execution o) = true) →
  NoDup l.*1 → NoDup ((fun kv => offer_key kv.2) <$> l) →
  (∀ id o, (id, o) ∈ l → al_offers a !! id = None ∧ al_requests a !! offer_key o = None) →
  load_offers a (map json_offer enc) = Ok (fold_left add_offer l a).
Proof.
  intros Henc. revert a. induction Henc as [|[id o] po l enc He _ IH]; intros a Hok Hnd Hndk Hfree; [done|].
  apply NoDup_cons in Hnd as [Hid Hnd]. apply NoDup_cons in Hndk as [Hk Hndk]. cbn [map load_offers fold_left].
  destruct (Hok id o) as [Ho Hu]; [apply elem_of_cons; by left|].
  destruct (Hfree id o) as [Hf1 Hf2]; [apply elem_of_cons; by left|].
  rewrite (load_offer_encoded a id o po) //. simpl. apply IH; try done.
  - intros id' o' Hin. apply Hok. apply elem_of_cons. by right.
  - intros id' o' Hin. destruct (Hfree id' o') as [Hf1' Hf2']; [apply elem_of_cons; by right|]. simpl.
    rewrite !lookup_insert_ne //.
    + intros ->. apply Hid. apply list_elem_of_fmap. by exists (id', o').
    + intros E. apply Hk. apply list_elem_of_fmap. by exists (id', o').
Qed.
End offers.

(** ** Executions *)

Section executions.
Context `{Externals, Codec, CL : !CodecLaws, Env} (p : Settings).

Definition with_alloc (w : World) (a : Allocator) : World :=
  mkWorld _ a (w_disk w) (w_trace w) (w_tick w) (w_panicked w).

Lemma load_execution_encoded w id e pe :
  exec_ok id e → ex_offerID e ≠ "" → er_request_id (ex_request e) ≠ "" → storable_execution e →
  encode_execution e = Ok pe → al_executions (w_alloc w) !! id = None →
  load_execution p (json_execution pe) w = (None, with_alloc w (add_execution (w_alloc w) (id, e))).
Proof.
  intros [Hid Hxid Hph Hrel] Hoid Hrid [U1 U2 [U3 Hcl] U4 Z1 Z2 Hrev Z3] He Hno. unfold encode_execution in He.
  apply result_bind_ok in He as (br & Hbr & [= <-]).
  unfold load_execution, mbind, M_bind, get. simpl. rewrite (unmarshal_marshal_request _ _ Hbr).
  rewrite (json_string_valid _ U1) (json_string_valid _ U2) (json_string_valid _ U3) (json_string_valid _ U4).
  rewrite Hxid !(bool_decide_eq_false_2 (_ = "")) //=. rewrite Hno.
  assert (known_durable_phase (ex_phase e) = true) as -> by (by destruct (ex_phase e)).
  rewrite Z1 Z2 Hrel eqb_reflx firstBytes_nil /=. rewrite Z.max_r //.
  unfold put, modify, mret, M_ret, with_alloc, add_execution. simpl.
  destruct (Terminal (ex_phase e)) eqn:Ht; simpl; rewrite Z3 /=; repeat f_equal; rewrite -{1}Hxid; destruct e; simpl in *; congruence.
Qed.

Lemma load_executions_encoded l enc w :
  Forall2 (fun kv pe => encode_execution kv.2 = Ok pe) l enc →
  (∀ id e, (id, e) ∈ l → exec_ok id e ∧ ex_offerID e ≠ "" ∧ er_request_id (ex_request e) ≠ "" ∧ storable_execution e) →
  NoDup l.*1 → (∀ id e, (id, e) ∈ l → al_executions (w_alloc w) !! id = None) →
  load_executions p (map json_execution enc) w = (None, with_alloc w (fold_left add_execution l (w_alloc w))).
Proof.
  intros Henc. revert w. induction Henc as [|[id e] pe l enc He _ IH]; intros w Hok Hnd Hfree.
  { by destruct w. }
  apply NoDup_cons in Hnd as [Hid Hnd]. cbn [map load_executions fold_left].
  destruct (Hok id e) as (H1' & H2' & H3' & H4'); [apply elem_of_cons; by left|].
  unfold mbind, M_bind. rewrite (load_execution_encoded w id e pe) //; [apply (Hfree id e); apply elem_of_cons; by left|].
  rewrite IH //.
  - intros id' e' Hin. apply Hok. apply elem_of_cons. by right.
  - intros id' e' Hin. simpl. rewrite lookup_insert_ne; [|apply (Hfree id' e'); apply elem_of_cons; by right].
    intros ->. apply Hid. apply list_elem_of_fmap. by exists (id', e').
Qed.
End executions.

(** ** Maps rebuilt entry by entry *)

Lemma fold_insert {V} (l : list (string * V)) (m : gmap string V) :
  NoDup l.*1 → fold_left (fun m kv => <[kv.1 := kv.2]> m) l m = list_to_map l ∪ m.
Proof.
  revert m. induction l as [|[k v] l IH]; intros m Hnd; simpl; [by rewrite left_id_L|].
  apply NoDup_cons in Hnd as [Hk Hnd]. rewrite IH //= -insert_union_l insert_union_r //.
  by apply not_elem_of_list_to_map_1.
Qed.

Lemma fold_insert_all {V} (m : gmap string V) : fold_left (fun m kv => <[kv.1 := kv.2]> m) (map_to_list m) ∅ = m.
Proof. rewrite fold_insert; [apply NoDup_fst_map_to_list|]. by rewrite right_id_L list_to_map_to_list. Qed.

(** The fields the folds build, and those they leave. *)
Lemma fold_add_offer l a :
  fold_left add_offer l a =
  set_requests (set_offers a (fold_left (fun m kv => <[kv.1 := kv.2]> m) l (al_offers a)))
    (fold_left (fun m kv => <[kv.1 := kv.2]> m) ((fun kv => (offer_key kv.2, kv.1)) <$> l) (al_requests a)).
Proof. revert a. induction l as [|[k o] l IH]; intros a; simpl; [by destruct a|]. by rewrite IH. Qed.

Lemma fold_add_execution l a :
  fold_left add_execution l a = set_executions a (fold_left (fun m kv => <[kv.1 := kv.2]> m) l (al_executions a)).
Proof. revert a. induction l as [|[k e] l IH]; intros a; simpl; [by destruct a|]. by rewrite IH. Qed.

Section index.
Context (p : Settings).

Lemma offer_keys_nodup a :
  alloc_ok p a → NoDup ((fun kv => offer_key kv.2) <$> map_to_list (al_offers a)).
Proof.
  intros Hok. apply NoDup_fmap_2_strong; [|apply NoDup_map_to_list].
  intros [i o] [j o'] Hi%elem_of_map_to_list Hj%elem_of_map_to_list E. simpl in E.
  assert (i = j) as <- by (by apply (offer_key_unique p a i j o o')). congruence.
Qed.

(** The request index is determined by the offers. *)
Lemma requests_rebuilt a :
  alloc_ok p a →
  fold_left (fun m kv => <[kv.1 := kv.2]> m) ((fun kv => (offer_key kv.2, kv.1)) <$> map_to_list (al_offers a)) ∅ = al_requests a.
Proof.
  intros Hok. rewrite fold_insert; [rewrite -list_fmap_compose; by apply offer_keys_nodup|]. rewrite right_id_L.
  apply map_eq. intros k. destruct (al_requests a !! k) as [id|] eqn:Hk.
  - apply elem_of_list_to_map_1; [rewrite -list_fmap_compose; by apply offer_keys_nodup|].
    destruct (ak_indexed _ _ Hok _ _ Hk) as (o & Ho & <-). apply list_elem_of_fmap. exists (id, o).
    split; [done|]. by apply elem_of_map_to_list.
  - apply not_elem_of_list_to_map_1. intros Hin. apply list_elem_of_fmap in Hin as ([k' id] & -> & Hin).
    apply list_elem_of_fmap in Hin as ([id' o] & [= -> ->] & Ho%elem_of_map_to_list).
    pose proof (ak_requests _ _ Hok _ _ Ho). simpl in *. congruence.
Qed.
End index.

(** ** Replay entries *)

(** The error a loaded entry carries. *)
Definition reloaded_error `{Externals} (err : error) : error :=
  match err with
  | None => None
  | Some e =>
    if bool_decide (json_string (error_text e) = "") then None
    else Some (restoreError (json_string (classifyError e)) (json_string (error_text e)))
  end.

Definition reloaded_entry `{Externals} (e : replayEntry) : replayEntry :=
  mkReplayEntry (re_seenAt e) true (re_envelope e) (re_responses e) (reloaded_error (re_err e)).

(** A completed entry comes back under the JSON form of its key. *)
Definition reload_entry `{Externals} (m : replay_map) (kv : string * replayEntry) : replay_map :=
  if negb (re_done kv.2) || bool_decide (json_string kv.1 = "") then m
  else <[json_string kv.1 := reloaded_entry kv.2]> m.

Section replay.
Context `{Externals, Codec, CL : !CodecLaws}.

Lemma unmarshal_envelopes l enc :
  Forall2 (fun x b => marshal_envelope x = Ok b) l enc → try_map unmarshal_envelope enc = Ok l.
Proof.
  intros Hl. apply try_map_ok. apply Forall2_flip. eapply Forall2_impl; [exact Hl|].
  intros x b. apply unmarshal_marshal_envelope.
Qed.

Lemma load_replay_encoded kv pr m :
  encode_replay kv = Ok pr → load_replay_entry m (json_replay pr) = Ok (reload_entry m kv).
Proof.
  destruct kv as [k e]. unfold encode_replay, reload_entry. rewrite result_bind_ok. intros (b & Hb & He).
  unfold load_replay_entry. cbn [fst snd]. change (replayDone e) with (re_done e) in He. destruct (re_done e) eqn:Hd.
  - apply result_bind_ok in He as (bs & Hbs & [= <-]). simpl. destruct (bool_decide (json_string k = "")); [done|].
    rewrite (unmarshal_marshal_envelope _ _ Hb) (unmarshal_envelopes (re_responses e)); [by apply try_map_ok|].
    do 3 f_equal. unfold reloaded_entry, reloaded_error. by destruct (re_err e).
  - injection He as <-. done.
Qed.

Lemma load_replays_encoded l enc m :
  Forall2 (fun kv pr => encode_replay kv = Ok pr) l enc →
  load_replay m (map json_replay enc) = Ok (fold_left reload_entry l m).
Proof.
  intros Henc. revert m. induction Henc as [|kv pr l enc He _ IH]; intros m; [done|].
  cbn [map load_replay fold_left]. rewrite (load_replay_encoded kv pr) //. simpl. apply IH.
Qed.

(** Every loaded entry is a completed entry of the cache, under its JSON key. *)
Lemma reload_lookup l m k e :
  fold_left reload_entry l m !! k = Some e →
  m !! k = Some e ∨ ∃ k0 e0, (k0, e0) ∈ l ∧ re_done e0 = true ∧ k = json_string k0 ∧ k ≠ "" ∧ e = reloaded_entry e0.
Proof.
  revert m. induction l as [|[k0 e0] l IH]; intros m Hk; [by left|]. cbn [fold_left] in Hk.
  destruct (IH _ Hk) as [Hm|(k1 & e1 & Hin & Hrest)]; [|right; exists k1, e1; split; [apply elem_of_cons; by right|exact Hrest]].
  unfold reload_entry in Hm. simpl in Hm. destruct (re_done e0) eqn:Hd; simpl in Hm; [|by left].
  case_bool_decide as Hempty; simpl in Hm; [by left|].
  apply lookup_insert_Some in Hm as [[<- <-]|[_ Hm]]; [|by left].
  right. exists k0, e0. split; [apply elem_of_cons; by left|done].
Qed.

Lemma reload_size l m : (size (fold_left reload_entry l m) ≤ size m + length l)%nat.
Proof.
  revert m. induction l as [|[k e] l IH]; intros m; simpl; [lia|]. specialize (IH (reload_entry m (k, e))).
  assert (size (reload_entry m (k, e)) ≤ S (size m))%nat; [|lia].
  unfold reload_entry. case_match; [lia|]. rewrite map_size_insert. case_match; unfold Datatypes.id; lia.
Qed.

Definition reloaded (c : replayCache) : replay_map := fold_left reload_entry (map_to_list (rc_entries c)) ∅.

Lemma reloaded_ok (c c0 : replayCache) :
  replay_ok c → rc_capacity c0 = rc_capacity c → replay_ok (with_entries c0 (reloaded c)).
Proof.
  intros [Hk Hb] Hc. split; simpl.
  - unfold keys_ok. destruct (reloaded c !! "") as [e|] eqn:He; [|done].
    destruct (reload_lookup _ _ _ _ He) as [Hm|(k0 & e0 & _ & _ & _ & Hne & _)]; [by rewrite lookup_empty in Hm|done].
  - rewrite Hc. pose proof (reload_size (map_to_list (rc_entries c)) ∅) as Hs. rewrite map_size_empty length_map_to_list in Hs.
    unfold reloaded. lia.
Qed.
End replay.

(** ** Slots *)

Section sums.
Context {A : Type}.
Implicit Types (f g : A → Z) (l : list A).

Definition lsum f l : Z := foldr (fun x acc => f x + acc) 0 l.

Lemma lsum_perm f l l' : l ≡ₚ l' → lsum f l = lsum f l'.
Proof. induction 1; simpl; lia. Qed.

Lemma lsum_ext f g l : (∀ x, x ∈ l → f x = g x) → lsum f l = lsum g l.
Proof.
  induction l as [|x l IH]; intros Hfg; simpl; [done|]. rewrite Hfg; [apply elem_of_cons; by left|].
  rewrite IH //. intros y Hy. apply Hfg. apply elem_of_cons. by right.
Qed.

Lemma lsum_plus f g l : lsum (fun x => f x + g x) l = lsum f l + lsum g l.
Proof. induction l; simpl; lia. Qed.

Lemma lsum_filter (P : A → Prop) `{∀ x, Decision (P x)} f l :
  lsum f (filter P l) = lsum (fun x => if decide (P x) then f x else 0) l.
Proof.
  induction l as [|x l IH]; [done|]. rewrite filter_cons. simpl. destruct (decide (P x)); simpl; lia.
Qed.

Lemma lsum_nonneg f l : (∀ x, 0 ≤ f x) → 0 ≤ lsum f l.
Proof. intros Hf. induction l as [|x l IH]; simpl; [lia|]. specialize (Hf x). lia. Qed.
End sums.

Lemma lsum_fmap {A B} (f : B → Z) (g : A → B) l : lsum f (g <$> l) = lsum (fun x => f (g x)) l.
Proof. induction l; simpl; [done|]. by f_equal. Qed.

Lemma mcount_list {V} (f : V → bool) (m : gmap string V) :
  mcount f m = lsum (fun kv => Z.b2z (f kv.2)) (map_to_list m).
Proof.
  unfold mcount, msum, lsum. rewrite map_fold_foldr. induction (map_to_list m) as [|[k v] l IH]; [done|]. simpl. by rewrite IH.
Qed.

Section slots.
Context (p : Settings).

(** Whether an assigned offer's execution holds a slot of the class. *)
Definition assigned_in (xs : gmap string executionRecord) (c : string) (o : offerRecord) : bool :=
  bool_decide (of_status o = offerAssigned) && bool_decide (eo_resource_class (of_offer o) = c)
  && negb (from_option ex_released false (xs !! of_execution o)).

(** The executions that hold slots, counted through their offers. *)
Lemma active_by_offer a c :
  alloc_ok p a →
  mcount (active_in c) (al_executions a) = mcount (assigned_in (al_executions a) c) (al_offers a).
Proof.
  intros Hok. rewrite !mcount_list.
  set (g k := from_option (fun o => Z.b2z (assigned_in (al_executions a) c o)) 0 (al_offers a !! k)).
  set (A := filter (fun kv => of_status kv.2 = offerAssigned) (map_to_list (al_offers a))).
  assert ((fun kv => ex_offerID kv.2) <$> map_to_list (al_executions a) ≡ₚ A.*1) as Hperm.
  { apply NoDup_Permutation.
    - apply NoDup_fmap_2_strong; [|apply NoDup_map_to_list].
      intros [i r] [j r'] Hi%elem_of_map_to_list Hj%elem_of_map_to_list E. simpl in E.
      destruct (ak_linked _ _ Hok _ _ Hi) as (o & Ho & []). destruct (ak_linked _ _ Hok _ _ Hj) as (o' & Ho' & []).
      assert (i = j) by congruence. subst. congruence.
    - apply NoDup_fmap_2_strong; [|apply NoDup_filter, NoDup_map_to_list].
      intros [i o] [j o'] [_ Hi%elem_of_map_to_list]%list_elem_of_filter [_ Hj%elem_of_map_to_list]%list_elem_of_filter E.
      simpl in E. subst. congruence.
    - intros k. rewrite !list_elem_of_fmap. split.
      + intros ([id e] & -> & He%elem_of_map_to_list). destruct (ak_linked _ _ Hok _ _ He) as (o & Ho & Hl).
        exists (ex_offerID e, o). split; [done|]. apply list_elem_of_filter. split; [apply Hl|]. by apply elem_of_map_to_list.
      + intros ([id o] & -> & [Hs Ho%elem_of_map_to_list]%list_elem_of_filter).
        destruct (ak_assigned _ _ Hok _ _ Ho Hs) as (e & He & Hid). exists (of_execution o, e). split; [done|].
        by apply elem_of_map_to_list. }
  transitivity (lsum g (A.*1)).
  - rewrite -(lsum_perm g _ _ Hperm) lsum_fmap. apply lsum_ext. intros [id e] He%elem_of_map_to_list. simpl. unfold g.
    destruct (ak_linked _ _ Hok _ _ He) as (o & -> & [Hs Hx _ _ Hcl]). simpl. unfold assigned_in, active_in.
    rewrite Hs Hx He Hcl /=. by rewrite andb_comm.
  - rewrite lsum_fmap. unfold A. rewrite lsum_filter. apply lsum_ext. intros [id o] Ho%elem_of_map_to_list. simpl.
    unfold g. rewrite Ho. simpl. unfold assigned_in. destruct (decide (of_status o = offerAssigned)) as [E|E]; [done|].
    by rewrite (bool_decide_eq_false_2 _ E).
Qed.
End slots.

Section load_slots.
Context (p : Settings).

(** The slot of the class one offer holds. *)
Definition slot_in (xs : gmap string executionRecord) (c : string) (o : offerRecord) : Z :=
  Z.b2z (outstanding_in c o) + Z.b2z (assigned_in xs c o).

Lemma reserve_succeeds l c :
  mget 0 (used l) c < mget 0 (limits l) c → 0 ≤ mget 0 (used l) c → ∃ l', reserve l c = Ok l'.
Proof.
  unfold reserve, mget. intros Hlt Hnn. destruct (limits l !! c) as [limit|]; simpl in *; [|lia].
  destruct (limit <=? _) eqn:E; [lia|by eexists].
Qed.

(** The execution a loaded assigned offer must have. *)
Definition matched (xs : gmap string executionRecord) (o : offerRecord) : Prop :=
  of_status o = offerAssigned →
  ∃ e, xs !! of_execution o = Some e ∧ ex_offerID e = eo_offer_id (of_offer o) ∧
    ex_resourceClass e = eo_resource_class (of_offer o).

(** The condition under which [loadLocked] reserves a slot for the offer. *)
Definition takes_slot (xs : gmap string executionRecord) (o : offerRecord) : bool :=
  bool_decide (of_status o = offerOutstanding)
  || bool_decide (of_status o = offerAssigned) && negb (from_option ex_released false (xs !! of_execution o)).

Lemma slot_in_takes xs c o :
  slot_in xs c o = Z.b2z (takes_slot xs o && bool_decide (eo_resource_class (of_offer o) = c)).
Proof.
  unfold slot_in, takes_slot, outstanding_in, assigned_in. destruct (of_status o); simpl; try done.
  - by destruct (bool_decide _).
  - destruct (bool_decide _), (negb _); done.
Qed.

Lemma load_slot_spec a o :
  ledger_ok (al_capacity a) → matched (al_executions a) o →
  (∀ c, mget 0 (used (al_capacity a)) c + slot_in (al_executions a) c o ≤ mget 0 (limits (al_capacity a)) c) →
  ∃ cap, load_slot a o = Ok (set_capacity a cap) ∧ ledger_ok cap ∧ limits cap = limits (al_capacity a) ∧
    ∀ c, mget 0 (used cap) c = mget 0 (used (al_capacity a)) c + slot_in (al_executions a) c o.
Proof.
  intros Hl Hm Hroom. setoid_rewrite slot_in_takes in Hroom. setoid_rewrite slot_in_takes.
  set (cl := eo_resource_class (of_offer o)) in *. unfold load_slot. fold cl. fold (takes_slot (al_executions a) o).
  destruct (bool_decide (of_status o = offerAssigned) && _) eqn:Hbad.
  { apply andb_true_iff in Hbad as [Hs%bool_decide_eq_true Hbad]. destruct (Hm Hs) as (e & He & Hid & Hcl).
    by rewrite He !bool_decide_eq_true_2 in Hbad. }
  destruct (takes_slot (al_executions a) o); simpl in *.
  - specialize (Hroom cl) as Hc. rewrite bool_decide_eq_true_2 //= in Hc. pose proof (lk_used _ Hl cl).
    destruct (reserve_succeeds (al_capacity a) cl) as (cap & Hcap); [lia|lia|]. rewrite Hcap. exists cap.
    destruct (reserve_used _ _ _ Hl Hcap) as (Hlim & Hlt & Hused). split_and!; try done. split; rewrite Hlim; [apply Hl|].
    intros c. rewrite Hused. pose proof (lk_used _ Hl c). destruct (bool_decide (cl = c)) eqn:E; simpl; [|lia].
    apply bool_decide_eq_true in E. rewrite -E. lia.
  - exists (al_capacity a). split_and!; try done; [by destruct a|]. intros c. lia.
Qed.

Lemma load_slots_spec a l :
  ledger_ok (al_capacity a) → (∀ o, o ∈ l → matched (al_executions a) o) →
  (∀ c, mget 0 (used (al_capacity a)) c + lsum (slot_in (al_executions a) c) l ≤ mget 0 (limits (al_capacity a)) c) →
  ∃ cap, load_slots a l = Ok (set_capacity a cap) ∧ ledger_ok cap ∧ limits cap = limits (al_capacity a) ∧
    ∀ c, mget 0 (used cap) c = mget 0 (used (al_capacity a)) c + lsum (slot_in (al_executions a) c) l.
Proof.
  revert a. induction l as [|o l IH]; intros a Hl Hm Hroom; cbn [load_slots lsum foldr] in *.
  { exists (al_capacity a). split_and!; try done; [by destruct a|]. intros c. simpl. lia. }
  assert (∀ c, 0 ≤ lsum (slot_in (al_executions a) c) l) as Hnn.
  { intros c. apply lsum_nonneg. intros x. unfold slot_in. destruct (outstanding_in c x), (assigned_in _ c x); simpl; lia. }
  destruct (load_slot_spec a o) as (cap & Hcap & Hl1 & Hlim1 & Hu1); [done|apply Hm; apply elem_of_cons; by left| |].
  { intros c. specialize (Hroom c). specialize (Hnn c). unfold lsum in *. lia. }
  rewrite Hcap. simpl. destruct (IH (set_capacity a cap)) as (cap2 & Hcap2 & Hl2 & Hlim2 & Hu2); [done| | |].
  - intros o' Ho'. apply Hm. apply elem_of_cons. by right.
  - intros c. simpl. rewrite Hlim1 Hu1. specialize (Hroom c). unfold lsum in *. lia.
  - exists cap2. split_and!; [exact Hcap2|done|by rewrite Hlim2|]. intros c. rewrite Hu2. simpl. rewrite Hu1. unfold lsum. lia.
Qed.

(** The slots held by the offers are the demand. *)
Lemma slots_demand a c :
  alloc_ok p a → lsum (slot_in (al_executions a) c) (map_to_list (al_offers a)).*2 = demand a c.
Proof.
  intros Hok. unfold demand. rewrite (active_by_offer p) // !mcount_list -lsum_plus lsum_fmap. done.
Qed.

Lemma offers_matched a o : alloc_ok p a → o ∈ (map_to_list (al_offers a)).*2 → matched (al_executions a) o.
Proof.
  intros Hok Ho Hs. apply list_elem_of_fmap in Ho as ([id o'] & -> & Ho%elem_of_map_to_list). simpl in *.
  destruct (ak_assigned _ _ Hok _ _ Ho Hs) as (e & He & Hid). exists e. split; [done|].
  rewrite (oo_offer_id _ _ (ak_offer _ _ Hok _ _ Ho)). split; [done|].
  destruct (ak_linked _ _ Hok _ _ He) as (o2 & Ho2 & [_ _ _ _ Hcl]). rewrite Hid Ho in Ho2. by injection Ho2 as <-.
Qed.
End load_slots.

(** ** Expiry during loading *)

Section expiry.
Context `{Externals}.

Lemma expire_fold_offers t l acc acc' :
  al_offers acc.1 = al_offers acc'.1 →
  al_offers (fold_left (expire_one t) l acc).1 = al_offers (fold_left (expire_one t) l acc').1.
Proof.
  revert acc acc'. induction l as [|[k o] l IH]; intros [a n] [b m] E; [done|]. cbn [fold_left]. apply IH.
  unfold expire_one. simpl in *. case_match; [|done]. simpl. by rewrite E.
Qed.

Lemma release_unused l c : used l = ∅ → release l c = l.
Proof. intros Hu. unfold release, mget. by rewrite Hu lookup_empty. Qed.

(** No slot is reserved yet, so none is released. *)
Lemma expire_fold_unused t l acc :
  used (al_capacity acc.1) = ∅ → al_capacity (fold_left (expire_one t) l acc).1 = al_capacity acc.1.
Proof.
  revert acc. induction l as [|[k o] l IH]; intros [a n] E; [done|]. cbn [fold_left]. simpl in E. rewrite IH.
  - unfold expire_one. case_match; [|done]. simpl. by rewrite release_unused.
  - unfold expire_one. case_match; [|done]. simpl. by rewrite release_unused.
Qed.

Lemma expire_like t a b :
  al_offers a = al_offers b → used (al_capacity a) = ∅ →
  al_offers (expire_offers t a).1 = al_offers (expire_offers t b).1 ∧
  al_capacity (expire_offers t a).1 = al_capacity a.
Proof.
  intros E Hu. unfold expire_offers. rewrite E. split; [by apply expire_fold_offers|]. by apply expire_fold_unused.
Qed.
End expiry.

(** ** Loading a snapshot *)

(** What a restart at time [t] in the fresh allocator [a0] makes of the saved
    state [a]. *)
Record restarted `{Externals} (p : Settings) (a0 a : Allocator) (t : time) (a' : Allocator) : Prop := {
  rs_highWater : al_highWater a' = al_highWater a;
  rs_tombstones : al_tombstones a' = al_tombstones a;
  rs_offers : al_offers a' = al_offers (expire_offers t a).1;
  rs_requests : al_requests a' = al_requests a;
  rs_executions : al_executions a' = al_executions a;
  rs_replay : rc_entries (al_replay a') = reloaded (al_replay a);
  rs_ttl : rc_ttl (al_replay a') = rc_ttl (al_replay a0);
  rs_tunnels : al_tunnels a' = NewRegistry;
  rs_limits : limits (al_capacity a') = limits (al_capacity a);
  rs_ok : alloc_ok p a'
}.

Section load.
Context `{Externals, Codec, CL : !CodecLaws, Env} (p : Settings).

Lemma json_tombstones_fixed a :
  storable a →
  list_to_map (map (fun '(id, d) => (json_string id, json_tombstone d)) (map_to_list (al_tombstones a))) = al_tombstones a.
Proof.
  intros Hs. rewrite (proj2 (map_fixed _ _)); [|apply list_to_map_to_list].
  intros [id d] Hd%elem_of_map_to_list. destruct (sb_tombstone _ Hs _ _ Hd) as (H1' & H2' & H3' & H4').
  rewrite (json_string_valid _ H1'). unfold json_tombstone.
  rewrite (json_string_valid _ H2') (json_string_valid _ H3') (json_string_valid _ H4'). by destruct d.
Qed.

(** What a successful encoding gives back. *)
Lemma encode_state_parts a s :
  storable a → encode_state (p_identity p) a = Ok s →
  ps_Version s = stateVersion ∧ ps_Identity s = p_identity p ∧ ps_HighWater s = al_highWater a ∧
  ps_Tombstones s = al_tombstones a ∧
  (∃ os, Forall2 (fun kv po => encode_offer kv.2 = Ok po) (map_to_list (al_offers a)) os ∧ ps_Offers s = map json_offer os) ∧
  (∃ xs, Forall2 (fun kv pe => encode_execution kv.2 = Ok pe) (map_to_list (al_executions a)) xs ∧
         ps_Executions s = map json_execution xs) ∧
  (∃ rs, Forall2 (fun kv pr => encode_replay kv = Ok pr) (map_to_list (rc_entries (al_replay a))) rs ∧
         ps_Replay s = map json_replay rs).
Proof.
  intros Hst Hs. unfold encode_state in Hs.
  apply result_bind_ok in Hs as (os & Hos%try_map_ok & Hs). apply result_bind_ok in Hs as (xs & Hxs%try_map_ok & Hs).
  apply result_bind_ok in Hs as (rs & Hrs%try_map_ok & Hs). unfold json_state in Hs.
  destruct (json_times _); [|done]. injection Hs as <-. simpl. rewrite json_tombstones_fixed //.
  apply Forall2_fmap_l in Hos. apply Forall2_fmap_l in Hxs. split_and!; eauto.
Qed.

(** Conditions under which every loaded record passes the checks. *)
Lemma loadable_executions a :
  alloc_ok p a → storable a →
  ∀ id e, (id, e) ∈ map_to_list (al_executions a) →
    exec_ok id e ∧ ex_offerID e ≠ "" ∧ er_request_id (ex_request e) ≠ "" ∧ storable_execution e.
Proof.
  intros Hok Hst id e He%elem_of_map_to_list. destruct (ak_linked _ _ Hok _ _ He) as (o & Ho & [_ _ _ Hrq _]).
  destruct (ak_offer _ _ Hok _ _ Ho) as [Hne _ _ Hrid _ _].
  split_and!; [by apply (ak_exec _ _ Hok)|done|by rewrite -Hrq|by apply (sb_execution _ Hst id)].
Qed.

(** The state after the records are loaded and before slots are counted. *)
Definition records_loaded (a a0 : Allocator) : Allocator :=
  mkAllocator (al_highWater a) (al_tombstones a) (al_capacity a0) (al_offers a) (al_requests a) (al_executions a)
    (with_entries (al_replay a0) (reloaded (al_replay a))) (al_tunnels a0).

Lemma load_records a a0 :
  alloc_ok p a → no_records a0 →
  fold_left add_execution (map_to_list (al_executions a))
    (fold_left add_offer (map_to_list (al_offers a)) (set_tombstones (set_highWater a0 (al_highWater a)) (al_tombstones a))) =
  mkAllocator (al_highWater a) (al_tombstones a) (al_capacity a0) (al_offers a) (al_requests a) (al_executions a)
    (al_replay a0) (al_tunnels a0).
Proof.
  intros Hok (Ho & Hx & _ & Hr & _). rewrite fold_add_offer fold_add_execution. simpl.
  rewrite Ho Hx Hr !fold_insert_all (requests_rebuilt p) //.
Qed.

(** The counted state satisfies the invariant. *)
Lemma slots_restarted a a0 t :
  alloc_ok p a → no_records a0 → limits (al_capacity a0) = limits (al_capacity a) →
  rc_capacity (al_replay a0) = rc_capacity (al_replay a) →
  let a3 := (expire_offers t (records_loaded a a0)).1 in
  ∃ a4, load_slots a3 (map_to_list (al_offers a3)).*2 = Ok a4 ∧ restarted p a0 a t a4.
Proof.
  intros Hok Hno Hlim Hcap a3. pose proof Hno as (_ & _ & _ & _ & _ & Htun & Hu).
  set (b := (expire_offers t a).1).
  assert (alloc_ok p b) as Hokb by exact (transitions_ok _ _ _ _ (expire_transitions p false t a) Hok).
  destruct (expire_like t (records_loaded a a0) a eq_refl Hu) as [Hoff Hc3]. fold a3 in Hoff, Hc3. fold b in Hoff.
  destruct (expire_frame t a) as [Fx Fr Ft _ _ Fh]. fold b in Fx, Fr, Ft, Fh.
  destruct (expire_frame t (records_loaded a a0)) as [Gx Gr Gt Grep Gtun Gh]. fold a3 in Gx, Gr, Gt, Grep, Gtun, Gh.
  simpl in Gx, Gr, Gt, Grep, Gtun, Gh, Hc3.
  assert (limits (al_capacity a3) = limits (al_capacity b)) as Hlim3.
  { rewrite Hc3 Hlim. symmetry. exact (transitions_limits _ _ _ _ (expire_transitions p false t a)). }
  assert (∀ c, mget 0 (used (al_capacity a3)) c = 0) as Hzero by (intros c; rewrite Hc3 Hu; unfold mget; by rewrite lookup_empty).
  assert (al_executions a3 = al_executions b) as Hx3 by (by rewrite Gx Fx).
  assert (∀ c, lsum (slot_in (al_executions a3) c) (map_to_list (al_offers a3)).*2 = demand b c) as Hslots
    by (intros c; rewrite Hoff Hx3; by apply (slots_demand p)).
  destruct (load_slots_spec a3 (map_to_list (al_offers a3)).*2) as (cap & Hload & Hlcap & Hlimcap & Hused).
  - split; [rewrite Hlim3; apply (ak_ledger _ _ Hokb)|]. intros c. rewrite Hzero Hlim3.
    pose proof (lk_used _ (ak_ledger _ _ Hokb) c). lia.
  - intros o. rewrite Hoff Hx3. by apply (offers_matched p).
  - intros c. rewrite Hzero Hslots Hlim3 -(ak_used _ _ Hokb). pose proof (lk_used _ (ak_ledger _ _ Hokb) c). lia.
  - exists (set_capacity a3 cap). split; [done|]. split; simpl; try congruence.
    + exact Hoff.
    + by rewrite Grep.
    + by rewrite Grep.
    + pose proof Hokb as []. split; simpl; rewrite ?Hoff ?Hx3 ?Gr -?Fr ?Gt -?Ft ?Grep ?Gtun; try done.
      * intros c. rewrite Hused Hzero Hslots. unfold demand. simpl. rewrite Hoff Hx3. lia.
      * apply reloaded_ok; [apply Hok|done].
      * rewrite Htun. apply NewRegistry_ok.
Qed.

Lemma load_restarted a s w :
  alloc_ok p a → storable a → encode_state (p_identity p) a = Ok s →
  no_records (w_alloc w) → limits (al_capacity (w_alloc w)) = limits (al_capacity a) →
  rc_capacity (al_replay (w_alloc w)) = rc_capacity (al_replay a) →
  ∃ w', load_state p s w = (None, w') ∧ restarted p (w_alloc w) a (clock (w_tick w)) (w_alloc w').
Proof.
  intros Hok Hst Hs Hno Hlim Hcap.
  destruct (encode_state_parts a s Hst Hs) as (Hv & Hid & Hhw & Htomb & (os & Hos & Eos) & (xs & Hxs & Exs) & (rs & Hrs & Ers)).
  pose proof Hno as (Ho0 & Hx0 & _ & Hr0 & Hre0 & _).
  unfold load_state. rewrite Hv Hid bool_decide_eq_true_2 // Hhw Htomb Eos Exs Ers. cbn [negb andb Z.eqb stateVersion Pos.eqb].
  unfold mbind, M_bind, modify, get, put, mret, M_ret. simpl w_alloc. cbv beta iota.
  set (a1 := set_tombstones (set_highWater (w_alloc w) (al_highWater a)) (al_tombstones a)).
  assert (load_offers a1 (map json_offer os) = Ok (fold_left add_offer (map_to_list (al_offers a)) a1)) as Hlo.
  { apply load_offers_encoded; [done| |apply NoDup_fst_map_to_list|by apply (offer_keys_nodup p)|].
    - intros id o Ho%elem_of_map_to_list. split; [by apply (ak_offer _ _ Hok)|by apply (sb_offer _ Hst id)].
    - intros id o _. simpl. by rewrite Ho0 Hr0 !lookup_empty. }
  rewrite Hlo. set (a2 := fold_left add_offer _ a1). cbv beta iota.
  assert (al_executions a2 = ∅) as Hx2 by (unfold a2; by rewrite fold_add_offer).
  unfold modify at 1. cbn [w_alloc w_disk w_trace w_tick w_panicked].
  set (w2 := mkWorld _ a2 _ _ _ _).
  rewrite (load_executions_encoded p (map_to_list (al_executions a)) xs w2 Hxs (loadable_executions a Hok Hst)
             (NoDup_fst_map_to_list _)); [intros id e _; simpl; by rewrite Hx2 lookup_empty|].
  unfold with_alloc. cbn [w_alloc w_disk w_trace w_tick w_panicked w2]. subst a2 a1. rewrite (load_records _ _ Hok Hno).
  cbn [al_replay]. rewrite Hre0 (load_replays_encoded _ _ _ Hrs). unfold modify at 1. cbn [w_alloc w_disk w_trace w_tick w_panicked].
  change (set_replay _ _) with (records_loaded a (w_alloc w)).
  unfold now, ask. cbn [w_alloc w_disk w_trace w_tick w_panicked]. unfold expireOffersLocked, mbind, M_bind, get, put, modify, mret, M_ret.
  cbn [w_alloc w_disk w_trace w_tick w_panicked].
  destruct (slots_restarted a (w_alloc w) (clock (w_tick w)) Hok Hno Hlim Hcap) as (a4 & Hload & Hre).
  destruct (expire_offers (clock (w_tick w)) (records_loaded a (w_alloc w))) as [a3 n]. simpl in Hload |- *.
  rewrite Hload. eexists. split; [reflexivity|]. exact Hre.
Qed.


(** A completed entry whose key is UTF-8 is found again if no key of the cache
    collides with it in JSON. *)
Lemma reload_keeps l m k e :
  NoDup l.*1 → (∀ k0 e0, (k0, e0) ∈ l → valid_utf8 k0 = true) → (k, e) ∈ l → re_done e = true → k ≠ "" →
  fold_left reload_entry l m !! k = Some (reloaded_entry e).
Proof.
  revert m. induction l as [|[k0 e0] l IH]; intros m Hnd Hu Hin Hd Hk; [by apply not_elem_of_nil in Hin|].
  apply NoDup_cons in Hnd as [Hk0 Hnd]. cbn [fold_left].
  assert (∀ k1 e1, (k1, e1) ∈ l → valid_utf8 k1 = true) as Hu' by (intros k1 e1 H1'; apply (Hu k1 e1); apply elem_of_cons; by right).
  apply elem_of_cons in Hin as [[= <- <-]|Hin]; [|by apply IH].
  assert (∀ l m, (∀ k1 e1, (k1, e1) ∈ l → valid_utf8 k1 = true) → k ∉ l.*1 →
    fold_left reload_entry l m !! k = m !! k) as Hframe.
  { clear -Hk. induction l as [|[k1 e1] l IH]; intros m Hu Hn; [done|]. cbn [fold_left].
    simpl in Hn. apply not_elem_of_cons in Hn as [Hne Hn]. rewrite IH //.
    - intros k2 e2 H2'. apply (Hu k2 e2). apply elem_of_cons. by right.
    - unfold reload_entry. simpl. rewrite (json_string_valid k1); [apply (Hu k1 e1); apply elem_of_cons; by left|].
      case_match; [done|]. rewrite lookup_insert_ne //; congruence. }
  rewrite Hframe //. unfold reload_entry. simpl. rewrite (json_string_valid k); [apply (Hu k e); apply elem_of_cons; by left|].
  rewrite Hd (bool_decide_eq_false_2 _ Hk) /=. by rewrite lookup_insert_eq.
Qed.

(** Duplicate protection across a restart: if the keys of the replay cache
    are UTF-8, a completed command delivered again after loading the snapshot,
    within the retention of its entry, is answered with the recorded responses
    and not run again. *)
Theorem replay_survives_restart a s w e en t :
  alloc_ok p a → storable a → encode_state (p_identity p) a = Ok s →
  no_records (w_alloc w) → limits (al_capacity (w_alloc w)) = limits (al_capacity a) →
  rc_capacity (al_replay (w_alloc w)) = rc_capacity (al_replay a) →
  (∀ k en', rc_entries (al_replay a) !! k = Some en' → valid_utf8 k = true) →
  rc_entries (al_replay a) !! replay_key e = Some en → re_done en = true → re_envelope en = e →
  t < re_seenAt en + rc_ttl (al_replay (w_alloc w)) →
  ∃ w', load_state p s w = (None, w') ∧
    ∃ c en', begin (al_replay (w_alloc w')) (replay_key e) e t = BeginDuplicate c en' ∧
      re_responses en' = re_responses en.
Proof.
  intros Hok Hst Hs Hno Hlim Hcap Hu Hen Hd He Ht. destruct (load_restarted a s w) as (w' & Hload & Hre); [done..|].
  exists w'. split; [done|].
  assert (rc_entries (al_replay (w_alloc w')) !! replay_key e = Some (reloaded_entry en)) as Hfound.
  { rewrite (rs_replay _ _ _ _ _ Hre). apply reload_keeps; [apply NoDup_fst_map_to_list| |by apply elem_of_map_to_list|done|].
    - intros k0 e0 Hk0%elem_of_map_to_list. by apply (Hu k0 e0).
    - apply authorityKey_nonempty. }
  assert (rc_ttl (al_replay (w_alloc w')) = rc_ttl (al_replay (w_alloc w))) as Httl by (exact (rs_ttl _ _ _ _ _ Hre)).
  unfold begin. cbv zeta.
  assert (rc_entries (prune (al_replay (w_alloc w')) t) !! replay_key e = Some (reloaded_entry en)) as ->.
  { apply prune_lookup. split; [done|]. right. simpl. rewrite Httl. lia. }
  simpl. rewrite He decide_True //. eexists _, _. split; [reflexivity|done].
Qed.

(** Duplicate protection is lost across a restart for a sender whose replay
    keys are not UTF-8: identities are raw bytes and the key is saved as a JSON
    string, so no loaded entry has the key and the completed command, delivered
    again, is never recognised as a duplicate. *)
Theorem binary_replay_lost a s w e en t :
  alloc_ok p a → storable a → encode_state (p_identity p) a = Ok s →
  no_records (w_alloc w) → limits (al_capacity (w_alloc w)) = limits (al_capacity a) →
  rc_capacity (al_replay (w_alloc w)) = rc_capacity (al_replay a) →
  rc_entries (al_replay a) !! replay_key e = Some en → re_done en = true → re_envelope en = e →
  valid_utf8 (replay_key e) = false →
  ∃ w', load_state p s w = (None, w') ∧
    match begin (al_replay (w_alloc w')) (replay_key e) e t with BeginDuplicate _ _ => False | _ => True end.
Proof.
  intros Hok Hst Hs Hno Hlim Hcap Hen Hd He Hu. destruct (load_restarted a s w) as (w' & Hload & Hre); [done..|].
  exists w'. split; [done|]. unfold begin. cbv zeta.
  destruct (rc_entries (prune (al_replay (w_alloc w')) t) !! replay_key e) as [en'|] eqn:Hf; [|by destruct (rc_capacity _ <=? _)].
  exfalso. apply prune_lookup in Hf as [Hf _]. rewrite (rs_replay _ _ _ _ _ Hre) in Hf.
  destruct (reload_lookup _ _ _ _ Hf) as [Hm|(k0 & e0 & _ & _ & Hk & _)]; [by rewrite lookup_empty in Hm|].
  by rewrite Hk json_string_is_valid in Hu.
Qed.
End load.

(** ** Witnesses *)

Definition storable_execution_check (e : executionRecord) : bool :=
  valid_utf8 (ex_id e) && valid_utf8 (ex_offerID e) && valid_utf8 (ex_resourceClass e)
  && negb (bool_decide (ex_resourceClass e = "")) && valid_utf8 (ex_detail e)
  && negb (is_zero (ex_startedAt e)) && negb (is_zero (ex_occurredAt e)) && (1 <=? ex_revision e)
  && negb (is_zero (if Terminal (ex_phase e) then ex_retainUntil e else ex_leaseUntil e)).

(** A decidable form of [storable] for a state without tombstones. *)
Definition storable_check (a : Allocator) : bool :=
  forallb (fun kv => valid_utf8 (of_execution kv.2)) (map_to_list (al_offers a))
  && forallb (fun kv => storable_execution_check kv.2) (map_to_list (al_executions a))
  && Nat.eqb (size (al_tombstones a)) 0.

Lemma storable_check_ok a : storable_check a = true → storable a.
Proof.
  unfold storable_check. rewrite !andb_true_iff !forallb_forall. intros [[Ho Hx] Ht].
  apply Nat.eqb_eq, map_size_empty_inv in Ht. split.
  - intros id o Hid. apply (Ho (id, o)). by apply list_elem_of_In, elem_of_map_to_list.
  - intros id e Hid. assert (storable_execution_check e = true) as Hc
      by (apply (Hx (id, e)); by apply list_elem_of_In, elem_of_map_to_list).
    unfold storable_execution_check in Hc. rewrite !andb_true_iff !negb_true_iff in Hc.
    destruct Hc as [[[[[[[[? ?] ?] Hne] ?] ?] ?] ?] ?]. apply bool_decide_eq_false in Hne. split; try done; lia.
  - intros id d. by rewrite Ht lookup_empty.
Qed.

Definition demo_state : Allocator := w_alloc (sy_world (demo_run demo_running)).

Lemma demo_state_ok : alloc_ok demo_settings demo_state.
Proof.
  apply (gd_alloc demo_settings (core_of (sy_world (demo_run demo_running)))), so_good.
  apply (sys_steps_ok demo_settings (started demo_world)); [|apply started_ok, demo_good].
  apply demo_reached. vm_compute. reflexivity.
Qed.

(** The snapshot of a state that can be encoded. *)
Definition snapshot_of (a : Allocator) : persistedState :=
  match encode_state (p_identity demo_settings) a with
  | Ok s => s
  | Err _ => mkPState zero_time ∅ 0 [] [] [] []
  end.

Lemma snapshot_of_ok a :
  is_ok (encode_state (p_identity demo_settings) a) = true → encode_state (p_identity demo_settings) a = Ok (snapshot_of a).
Proof. unfold snapshot_of. by destruct (encode_state _ a). Qed.


Lemma replay_survives_restart_witness :
  ∃ w', load_state demo_settings (snapshot_of demo_state) demo_world = (None, w') ∧
    ∃ c en', begin (al_replay (w_alloc w')) (replay_key demo_assign) demo_assign (demo_time + Second) = BeginDuplicate c en' ∧
      length (re_responses en') = 1%nat.
Proof.
  set (en := default (new_entry demo_assign 0) (rc_entries (al_replay demo_state) !! replay_key demo_assign)).
  destruct (@replay_survives_restart _ _ concrete_codec_laws _ demo_settings demo_state (snapshot_of demo_state) demo_world
    demo_assign en (demo_time + Second) demo_state_ok) as (w' & Hload & c & en' & Hb & Hr).
  - apply storable_check_ok. vm_compute. reflexivity.
  - apply snapshot_of_ok. vm_compute. reflexivity.
  - vm_compute. by split_and!.
  - vm_compute. reflexivity.
  - vm_compute. reflexivity.
  - intros k e Hk. apply elem_of_map_to_list, list_elem_of_In in Hk.
    assert (forallb (fun kv : string * replayEntry => valid_utf8 kv.1) (map_to_list (rc_entries (al_replay demo_state))) = true) as Hall
      by (vm_compute; reflexivity).
    rewrite forallb_forall in Hall. exact (Hall _ Hk).
  - vm_compute. reflexivity.
  - vm_compute. reflexivity.
  - vm_compute. reflexivity.
  - vm_compute. reflexivity.
  - exists w'. split; [exact Hload|]. exists c, en'. split; [exact Hb|]. rewrite Hr. vm_compute. reflexivity.
Defined.

(** The same for a client whose identity is the byte 0xFF sixteen times. *)
Definition binary_request : Envelope :=
  mkEnvelope "m1" (replicate 16 Byte.xff) "" (Some (ts_new demo_time)) (env_payload demo_request).
Definition binary_offered : list action := [A_Deliver 0 binary_request; A_Thread 0; A_Thread 0; A_Thread 0; A_Thread 0].
Definition binary_state : Allocator := w_alloc (sy_world (demo_run binary_offered)).

Lemma binary_state_ok : alloc_ok demo_settings binary_state.
Proof.
  apply (gd_alloc demo_settings (core_of (sy_world (demo_run binary_offered)))), so_good.
  apply (sys_steps_ok demo_settings (started demo_world)); [|apply started_ok, demo_good].
  apply demo_reached. vm_compute. reflexivity.
Qed.

Lemma binary_replay_lost_witness :
  ∃ w', load_state demo_settings (snapshot_of binary_state) demo_world = (None, w') ∧
    match begin (al_replay (w_alloc w')) (replay_key binary_request) binary_request demo_time with
    | BeginDuplicate _ _ => False | _ => True end.
Proof.
  set (en := default (new_entry binary_request 0) (rc_entries (al_replay binary_state) !! replay_key binary_request)).
  apply (@binary_replay_lost _ _ concrete_codec_laws _ demo_settings binary_state (snapshot_of binary_state) demo_world
    binary_request en demo_time binary_state_ok).
  - apply storable_check_ok. vm_compute. reflexivity.
  - apply snapshot_of_ok. vm_compute. reflexivity.
  - vm_compute. by split_and!.
  - vm_compute. reflexivity.
  - vm_compute. reflexivity.
  - vm_compute. reflexivity.
  - vm_compute. reflexivity.
  - vm_compute. reflexivity.
  - vm_compute. reflexivity.
Defined.
