(* ===== verification/Client.v ===== *)
(** * The client core (internal/client)

    The in-memory state of one run process and every operation on it: the
    catalog of discovered allocators and the ranking of offers (allocators.go),
    requests, inspection and cancellation (commands.go), selection
    (selection.go), offer releases (release.go), the lease intent
    (lease_intent.go, lease_ack.go), log reads (logs.go), tunnel declarations
    (tunnel.go) and the reactions to an allocator's replies (inbound.go,
    feedback.go).

    A method of [Client] holds the mutex from its first to its last statement,
    so each is one atomic function of the state.  The clock and the ID generator
    of [Config] are the class [Sources]: the n-th reading of either is arbitrary. *)

From S2P Require Import Prelude GoStrings Ordering Wire Errors Protocol Registry.

(** ** Errors (errors.go) *)

Inductive client_sentinel :=
| ErrInvalidConfig | ErrInvalidAllocator | ErrUnsupportedMessage | ErrRequestNotFound
| ErrExecutionNotFound | ErrNoOffer | ErrConflict | ErrUnauthorized.

(** A sentinel with what [fmt.Errorf] appends to it, an error of the protocol
    validators, or the panic of a nil pointer that is dereferenced. *)
Inductive client_error :=
| CErr (s : client_sentinel) (msg : list part)
| CProtocol (e : gerror)
| CPanic.

#[export] Instance client_sentinel_eq_dec : EqDecision client_sentinel.
Proof. solve_decision. Defined.

(** ** State (client.go) *)

(** A discovered allocator and the route to it. *)
Record Allocator := mkRoute {
  ar_Identity : bytes;
  ar_Destination : string;
  ar_Hops : Z;
  ar_Capacity : option (gmap string Z);
  ar_Node : option NodeCapabilities;
  ar_TunnelHost : string;
  ar_TunnelPort : Z;
  ar_TunnelDestination : string
}.

Record releaseIntent := mkIntent {
  ri_MessageID : string;
  ri_SentAt : time;
  ri_Destination : string;
  ri_Acknowledged : bool
}.

Record offerRecord := mkOfferRec {
  fo_offer : ExecutionOffer;
  fo_allocatorID : bytes;
  fo_receivedAt : time;
  fo_release : option releaseIntent
}.

Record requestRecord := mkRequestRec {
  rq_request : ExecutionRequest;
  rq_messageID : string;
  rq_createdAt : time;
  rq_offers : gmap string offerRecord;
  rq_executionID : string
}.

Record executionRecord := mkExecRec {
  xr_id : string;
  xr_requestID : string;
  xr_offerID : string;
  xr_allocatorID : bytes;
  xr_destination : string;
  xr_assignmentMessageID : string;
  xr_assignmentSentAt : time;
  xr_inspectMessageID : string;
  xr_inspectSentAt : time;
  xr_cancelMessageID : string;
  xr_cancelSentAt : time;
  xr_cancelReason : string;
  xr_state : option ExecutionState;
  xr_leaseDuration : duration;
  xr_leaseAllocators : list string;
  xr_leaseLost : bool;
  xr_leaseRenewedAt : time;
  xr_leaseRenewMessageID : string;
  xr_leaseExpiresAt : time
}.

Record Client := mkClient {
  cl_logMessageID : string;
  cl_logRequest : option ExecutionLogsRequest;
  cl_identity : bytes;
  cl_allocators : gmap string Allocator;
  cl_requests : gmap string requestRecord;
  cl_executions : gmap string executionRecord
}.

(** *** Assignments to fields *)

Definition set_release (o : offerRecord) (i : option releaseIntent) : offerRecord :=
  mkOfferRec (fo_offer o) (fo_allocatorID o) (fo_receivedAt o) i.

Definition acknowledge (i : releaseIntent) : releaseIntent :=
  mkIntent (ri_MessageID i) (ri_SentAt i) (ri_Destination i) true.

Definition set_offers (r : requestRecord) (m : gmap string offerRecord) : requestRecord :=
  mkRequestRec (rq_request r) (rq_messageID r) (rq_createdAt r) m (rq_executionID r).
Definition set_executionID (r : requestRecord) (id : string) : requestRecord :=
  mkRequestRec (rq_request r) (rq_messageID r) (rq_createdAt r) (rq_offers r) id.

Definition set_inspect (x : executionRecord) (mid : string) (t : time) : executionRecord :=
  mkExecRec (xr_id x) (xr_requestID x) (xr_offerID x) (xr_allocatorID x) (xr_destination x) (xr_assignmentMessageID x)
    (xr_assignmentSentAt x) mid t (xr_cancelMessageID x) (xr_cancelSentAt x) (xr_cancelReason x) (xr_state x)
    (xr_leaseDuration x) (xr_leaseAllocators x) (xr_leaseLost x) (xr_leaseRenewedAt x) (xr_leaseRenewMessageID x)
    (xr_leaseExpiresAt x).
Definition set_cancel (x : executionRecord) (mid : string) (t : time) (reason : string) : executionRecord :=
  mkExecRec (xr_id x) (xr_requestID x) (xr_offerID x) (xr_allocatorID x) (xr_destination x) (xr_assignmentMessageID x)
    (xr_assignmentSentAt x) (xr_inspectMessageID x) (xr_inspectSentAt x) mid t reason (xr_state x)
    (xr_leaseDuration x) (xr_leaseAllocators x) (xr_leaseLost x) (xr_leaseRenewedAt x) (xr_leaseRenewMessageID x)
    (xr_leaseExpiresAt x).
Definition set_state (x : executionRecord) (s : option ExecutionState) : executionRecord :=
  mkExecRec (xr_id x) (xr_requestID x) (xr_offerID x) (xr_allocatorID x) (xr_destination x) (xr_assignmentMessageID x)
    (xr_assignmentSentAt x) (xr_inspectMessageID x) (xr_inspectSentAt x) (xr_cancelMessageID x) (xr_cancelSentAt x)
    (xr_cancelReason x) s (xr_leaseDuration x) (xr_leaseAllocators x) (xr_leaseLost x) (xr_leaseRenewedAt x)
    (xr_leaseRenewMessageID x) (xr_leaseExpiresAt x).
Definition set_intent (x : executionRecord) (d : duration) (pinned : list string) : executionRecord :=
  mkExecRec (xr_id x) (xr_requestID x) (xr_offerID x) (xr_allocatorID x) (xr_destination x) (xr_assignmentMessageID x)
    (xr_assignmentSentAt x) (xr_inspectMessageID x) (xr_inspectSentAt x) (xr_cancelMessageID x) (xr_cancelSentAt x)
    (xr_cancelReason x) (xr_state x) d pinned (xr_leaseLost x) (xr_leaseRenewedAt x) (xr_leaseRenewMessageID x)
    (xr_leaseExpiresAt x).
Definition set_lost (x : executionRecord) (lost : bool) : executionRecord :=
  mkExecRec (xr_id x) (xr_requestID x) (xr_offerID x) (xr_allocatorID x) (xr_destination x) (xr_assignmentMessageID x)
    (xr_assignmentSentAt x) (xr_inspectMessageID x) (xr_inspectSentAt x) (xr_cancelMessageID x) (xr_cancelSentAt x)
    (xr_cancelReason x) (xr_state x) (xr_leaseDuration x) (xr_leaseAllocators x) lost (xr_leaseRenewedAt x)
    (xr_leaseRenewMessageID x) (xr_leaseExpiresAt x).
Definition set_renewal (x : executionRecord) (mid : string) (renewed expires : time) : executionRecord :=
  mkExecRec (xr_id x) (xr_requestID x) (xr_offerID x) (xr_allocatorID x) (xr_destination x) (xr_assignmentMessageID x)
    (xr_assignmentSentAt x) (xr_inspectMessageID x) (xr_inspectSentAt x) (xr_cancelMessageID x) (xr_cancelSentAt x)
    (xr_cancelReason x) (xr_state x) (xr_leaseDuration x) (xr_leaseAllocators x) (xr_leaseLost x) renewed mid expires.

Definition put_allocators (c : Client) (m : gmap string Allocator) : Client :=
  mkClient (cl_logMessageID c) (cl_logRequest c) (cl_identity c) m (cl_requests c) (cl_executions c).
Definition put_request (c : Client) (id : string) (r : requestRecord) : Client :=
  mkClient (cl_logMessageID c) (cl_logRequest c) (cl_identity c) (cl_allocators c) (<[id := r]> (cl_requests c)) (cl_executions c).
Definition put_execution (c : Client) (id : string) (x : executionRecord) : Client :=
  mkClient (cl_logMessageID c) (cl_logRequest c) (cl_identity c) (cl_allocators c) (cl_requests c) (<[id := x]> (cl_executions c)).
Definition put_log (c : Client) (mid : string) (q : ExecutionLogsRequest) : Client :=
  mkClient mid (Some q) (cl_identity c) (cl_allocators c) (cl_requests c) (cl_executions c).

(** ** Effects *)

Class Sources := { src_now : nat → time; src_newID : nat → string }.

(** The state and how often the clock and the generator have been read. *)
Definition CM (A : Type) : Type := Client * nat → A * (Client * nat).

#[export] Instance CM_ret : MRet CM := fun A a w => (a, w).
#[export] Instance CM_bind : MBind CM := fun A B f m w => let '(a, w') := m w in f a w'.

Definition get : CM Client := fun w => (w.1, w).
Definition put (c : Client) : CM unit := fun w => (tt, (c, w.2)).
Definition now `{Sources} : CM time := fun w => (src_now w.2, (w.1, S w.2)).
Definition newID `{Sources} : CM string := fun w => (src_newID w.2, (w.1, S w.2)).

(** What a command returns: the destination and the envelope to send. *)
Abbreviation outgoing := (result client_error (string * Envelope)).
Definition cfail {A} (s : client_sentinel) (msg : list part) : CM (result client_error A) := mret (Err (CErr s msg)).

(** ** The allocator catalog (allocators.go) *)

(** [lookup] and [put]; routes are cloned, which on values is the identity. *)
Definition lookup_route (m : gmap string Allocator) (identity : bytes) : option Allocator := m !! hex_encode identity.
Definition put_route (m : gmap string Allocator) (candidate : Allocator) : gmap string Allocator :=
  <[hex_encode (ar_Identity candidate) := candidate]> m.

(** The route [RegisterAllocator] stores: what the candidate does not carry is
    kept from the previous one. *)
Definition merge_route (candidate : Allocator) (previous : option Allocator) : Allocator :=
  match previous with
  | None => candidate
  | Some old =>
    let keepCapacity := bool_decide (ar_Capacity candidate = None) in
    let keepTunnel := ar_TunnelPort candidate =? 0 in
    mkRoute (ar_Identity candidate) (ar_Destination candidate)
      (if keepCapacity then ar_Hops old else ar_Hops candidate)
      (if keepCapacity then ar_Capacity old else ar_Capacity candidate)
      (match ar_Node candidate with None => ar_Node old | Some n => Some n end)
      (if keepTunnel then ar_TunnelHost old else ar_TunnelHost candidate)
      (if keepTunnel then ar_TunnelPort old else ar_TunnelPort candidate)
      (if keepTunnel then ar_TunnelDestination old else ar_TunnelDestination candidate)
  end.

(** [RegisterAllocator] *)
Definition RegisterAllocator (candidate : Allocator) : CM (result client_error unit) :=
  if (zlen (ar_Identity candidate) =? 0) || blank (ar_Destination candidate) then cfail ErrInvalidAllocator []
  else
    c ← get;
    put (put_allocators c (put_route (cl_allocators c)
           (merge_route candidate (lookup_route (cl_allocators c) (ar_Identity candidate)))));;
    mret (Ok tt).

(** [AllocatorDestinations] *)
Definition AllocatorDestinations (c : Client) (resourceClass : string) (constraints : option PlacementConstraints) : list string :=
  sort_strings (map ar_Destination (List.filter (fun a =>
    negb (mget 0 (default ∅ (ar_Capacity a)) resourceClass =? 0) && PlacementCompatible constraints (ar_Node a))
    (map_to_list (cl_allocators c)).*2)).

(** [nodeCaches] *)
Definition nodeCaches (node : option NodeCapabilities) (image : string) : bool :=
  match node with None => false | Some n => str_contains (nc_cached_images n) image end.

Section catalog.
Context `{Externals}.

(** The offers [chooseWithPreferences] ranks. *)
Definition eligible (m : gmap string Allocator) (now : time) (constraints : option PlacementConstraints) (o : offerRecord) : bool :=
  match lookup_route m (fo_allocatorID o) with
  | None => false
  | Some allocator =>
    if blank (ar_Destination allocator) || negb (after (as_time (eo_expires_at (fo_offer o))) now) then false
    else
      let node := match eo_node (fo_offer o) with Some n => Some n | None => ar_Node allocator end in
      PlacementMatches constraints node
  end.

Definition hops_of (m : gmap string Allocator) (o : offerRecord) : Z :=
  from_option ar_Hops 0 (lookup_route m (fo_allocatorID o)).

Definition cached (image : string) (o : offerRecord) : bool :=
  negb (bool_decide (image = "")) && nodeCaches (eo_node (fo_offer o)) image.

(** The order of the sort. *)
Definition better (m : gmap string Allocator) (image : string) (left right : offerRecord) : bool :=
  if negb (hops_of m left =? hops_of m right) then hops_of m left <? hops_of m right
  else if negb (Bool.eqb (cached image left) (cached image right)) then cached image left
  else match bytes_compare (fo_allocatorID left) (fo_allocatorID right) with
       | Lt => true
       | Gt => false
       | Eq => string_lt (eo_offer_id (fo_offer left)) (eo_offer_id (fo_offer right))
       end.

(** [sort.Slice] with it: no element is better than one before it. *)
Definition ranked (m : gmap string Allocator) (image : string) (left right : offerRecord) : Prop :=
  better m image right left = false.

#[export] Instance ranked_dec m image : RelDecision (ranked m image).
Proof. intros x y. unfold ranked. apply _. Defined.

(** [chooseWithPreferences] *)
Definition chooseWithPreferences (m : gmap string Allocator) (offers : gmap string offerRecord) (now : time)
    (constraints : option PlacementConstraints) (image : string) : option (offerRecord * Allocator) :=
  match merge_sort (ranked m image) (List.filter (eligible m now constraints) (map_to_list offers).*2) with
  | [] => None
  | selected :: _ =>
    match lookup_route m (fo_allocatorID selected) with
    | Some allocator => Some (selected, allocator)
    | None => Some (selected, mkRoute [] "" 0 None None "" 0 "")
    end
  end.
End catalog.

(** ** Envelopes (envelopes.go) *)

Section commands.
Context `{Externals, Sources}.

Definition requestEnvelopeLocked (c : Client) (request : ExecutionRequest) (messageID : string) (sentAt : time) : Envelope :=
  mkEnvelope messageID (cl_identity c) "" (Some (ts_new sentAt)) (Some (P_ExecutionRequest (Some request))).

Definition assignmentEnvelopeLocked (c : Client) (record : executionRecord) : Envelope :=
  mkEnvelope (xr_assignmentMessageID record) (cl_identity c) "" (Some (ts_new (xr_assignmentSentAt record)))
    (Some (P_ExecutionAssign (Some (mkAssign (xr_requestID record) (xr_offerID record) (xr_id record))))).

(** [uniqueIDLocked] and [uniqueExecutionIDLocked]: the empty string marks an
    empty or repeated identifier. *)
Definition uniqueIDLocked {V} (existing : gmap string V) : CM string :=
  value ← newID;
  mret (if bool_decide (value = "") then "" else match existing !! value with Some _ => "" | None => value end).

(** ** Requests (commands.go) *)

(** [initialRunID] *)
Definition initialRunID (requestID : string) : string :=
  hex_encode (take 16 (sha256 (String.list_byte_of_string requestID))).

(** [createRequest] *)
Definition createRequest (workload : option Workload) (policy : option ExecutionPolicy) (resourceClass : string)
    (constraints : option PlacementConstraints) (runID : string) (attempt : Z) : CM outgoing :=
  c ← get;
  requestID ← uniqueIDLocked (cl_requests c);
  messageID ← newID;
  if bool_decide (requestID = "") || bool_decide (messageID = "")
  then cfail ErrInvalidConfig [Txt "ID generator returned an empty or duplicate ID"]
  else
    t ← now;
    let runID := if bool_decide (runID = "") then initialRunID requestID else runID in
    let request := mkRequest requestID workload policy resourceClass constraints runID attempt in
    let envelope := requestEnvelopeLocked c request messageID t in
    match ValidateEnvelope (Some envelope) with
    | Err e => mret (Err (CProtocol e))
    | Ok _ =>
      put (put_request c requestID (mkRequestRec request messageID t ∅ ""));;
      mret (Ok (requestID, envelope))
    end.

Definition CreateRequest workload policy resourceClass : CM outgoing :=
  createRequest workload policy resourceClass None "" 1.
Definition CreateRequestWithConstraints workload policy resourceClass constraints : CM outgoing :=
  createRequest workload policy resourceClass constraints "" 1.

(** [CreateNextAttempt]; [attempt] is a uint64. *)
Definition CreateNextAttempt (previous : option ExecutionRequest) : CM outgoing :=
  match previous with
  | Some p =>
    if er_attempt p =? 2 ^ 64 - 1 then cfail ErrInvalidConfig [Txt "previous run attempt is invalid"]
    else createRequest (er_workload p) (er_policy p) (er_resource_class p) (er_constraints p) (er_run_id p)
           (u64 (er_attempt p + 1))
  | None => cfail ErrInvalidConfig [Txt "previous run attempt is invalid"]
  end.

(** [RequestEnvelope] *)
Definition RequestEnvelope (c : Client) (requestID : string) : option Envelope :=
  option_map (fun r => requestEnvelopeLocked c (rq_request r) (rq_messageID r) (rq_createdAt r)) (cl_requests c !! requestID).

(** [Inspect] *)
Definition Inspect (executionID : string) : CM outgoing :=
  c ← get;
  match cl_executions c !! executionID with
  | None => cfail ErrExecutionNotFound [Quoted executionID]
  | Some record =>
    mid ← newID;
    t ← now;
    if bool_decide (mid = "") then cfail ErrInvalidConfig [Txt "ID generator returned an empty ID"]
    else
      put (put_execution c executionID (set_inspect record mid t));;
      mret (Ok (xr_destination record, mkEnvelope mid (cl_identity c) "" (Some (ts_new t))
                 (Some (P_ExecutionInspect (Some (mkInspect executionID))))))
  end.

(** [Cancel]; a failed attempt leaves the reason and time it wrote. *)
Definition cancelEnvelope (c : Client) (record : executionRecord) (executionID reason : string) : Envelope :=
  mkEnvelope (xr_cancelMessageID record) (cl_identity c) "" (Some (ts_new (xr_cancelSentAt record)))
    (Some (P_ExecutionCancel (Some (mkCancel executionID reason)))).

Definition Cancel (executionID reason : string) : CM outgoing :=
  c ← get;
  match cl_executions c !! executionID with
  | None => cfail ErrExecutionNotFound [Quoted executionID]
  | Some record =>
    if bool_decide (xr_cancelMessageID record = "") then
      mid ← newID;
      t ← now;
      let record' := set_cancel record mid t reason in
      put (put_execution c executionID record');;
      if bool_decide (mid = "") then cfail ErrInvalidConfig [Txt "ID generator returned an empty ID"]
      else mret (Ok (xr_destination record, cancelEnvelope c record' executionID reason))
    else if negb (bool_decide (xr_cancelReason record = reason)) then cfail ErrConflict []
    else mret (Ok (xr_destination record, cancelEnvelope c record executionID reason))
  end.

(** ** Releases (release.go) *)

(** [newReleaseLocked] *)
Definition newReleaseLocked (m : gmap string Allocator) (offer : offerRecord) : CM (result client_error releaseIntent) :=
  match lookup_route m (fo_allocatorID offer) with
  | None => cfail ErrInvalidAllocator []
  | Some allocator =>
    if bool_decide (ar_Destination allocator = "") then cfail ErrInvalidAllocator []
    else
      mid ← newID;
      if bool_decide (mid = "") then cfail ErrInvalidConfig [Txt "empty release message ID"]
      else t ← now; mret (Ok (mkIntent mid t (ar_Destination allocator) false))
  end.

Record PendingRelease := mkPending { pd_Destination : string; pd_Envelope : Envelope }.

(** The pending release of one offer. *)
Definition pending_release (c : Client) (now : time) (requestID : string) (o : offerRecord) : option PendingRelease :=
  match fo_release o with
  | None => None
  | Some intent =>
    if ri_Acknowledged intent || negb (after (as_time (eo_expires_at (fo_offer o))) now) then None
    else Some (mkPending (ri_Destination intent)
           (mkEnvelope (ri_MessageID intent) (cl_identity c) "" (Some (ts_new (ri_SentAt intent)))
             (Some (P_ExecutionOfferRelease (Some (mkOfferRelease requestID (eo_offer_id (fo_offer o))))))))
  end.

Definition pending_le (a b : PendingRelease) : Prop :=
  string_le (env_message_id (pd_Envelope a)) (env_message_id (pd_Envelope b)).

#[export] Instance pending_le_dec : RelDecision pending_le.
Proof. intros a b. unfold pending_le. apply _. Defined.

(** [PendingReleases] *)
Definition PendingReleases : CM (list PendingRelease) :=
  c ← get;
  t ← now;
  mret (merge_sort pending_le (flat_map (fun request =>
    omap (pending_release c t (er_request_id (rq_request request))) (map_to_list (rq_offers request)).*2)
    (map_to_list (cl_requests c)).*2)).

(** ** Selection (selection.go) *)

(** The release intents of the losing offers, or the first error.  The selected
    record is recognised by the key it is stored under. *)
Fixpoint prepare_releases (m : gmap string Allocator) (selected : string) (l : list (string * offerRecord))
    : CM (result client_error (list (string * releaseIntent))) :=
  match l with
  | [] => mret (Ok [])
  | (id, offer) :: l' =>
    if bool_decide (id = selected) || match fo_release offer with Some _ => true | None => false end
    then prepare_releases m selected l'
    else
      intent ← newReleaseLocked m offer;
      match intent with
      | Err e => mret (Err e)
      | Ok i =>
        rest ← prepare_releases m selected l';
        mret (match rest with Err e => Err e | Ok more => Ok ((id, i) :: more) end)
      end
  end.

Definition release_all (offers : gmap string offerRecord) (prepared : list (string * releaseIntent)) : gmap string offerRecord :=
  fold_left (fun m '(id, i) => alter (fun o => set_release o (Some i)) id m) prepared offers.

Definition fresh_record (id requestID : string) (selected : offerRecord) (destination messageID : string) (t : time) : executionRecord :=
  mkExecRec id requestID (eo_offer_id (fo_offer selected)) (fo_allocatorID selected) destination messageID t
    "" zero_time "" zero_time "" None 0 [] false zero_time "" zero_time.

(** [Select] *)
Definition Select (requestID : string) : CM outgoing :=
  c ← get;
  match cl_requests c !! requestID with
  | None => cfail ErrRequestNotFound [Quoted requestID]
  | Some record =>
    if negb (bool_decide (rq_executionID record = "")) then
      match cl_executions c !! rq_executionID record with
      | Some execution => mret (Ok (xr_destination execution, assignmentEnvelopeLocked c execution))
      | None => mret (Err CPanic)
      end
    else
      t ← now;
      match chooseWithPreferences (cl_allocators c) (rq_offers record) t (er_constraints (rq_request record))
              (from_option wl_image "" (er_workload (rq_request record))) with
      | None => cfail ErrNoOffer []
      | Some (selected, allocator) =>
        executionID ← uniqueIDLocked (cl_executions c);
        messageID ← newID;
        if bool_decide (executionID = "") || bool_decide (messageID = "")
        then cfail ErrInvalidConfig [Txt "ID generator returned an empty or duplicate ID"]
        else
          let execution := fresh_record executionID requestID selected (ar_Destination allocator) messageID t in
          prepared ← prepare_releases (cl_allocators c) (eo_offer_id (fo_offer selected)) (map_to_list (rq_offers record));
          match prepared with
          | Err e => mret (Err e)
          | Ok intents =>
            put (put_execution (put_request c requestID
                   (set_executionID (set_offers record (release_all (rq_offers record) intents)) executionID))
                   executionID execution);;
            mret (Ok (ar_Destination allocator, assignmentEnvelopeLocked c execution))
          end
      end
  end.
End commands.

(** ** The lease intent (lease_intent.go, lease_ack.go) *)

Definition clientDefaultLease : duration := DefaultLease.

(** [isLostLeaseState] *)
Definition isLostLeaseState (s : ExecutionState) : bool :=
  bool_decide (es_phase s = PHASE_FAILED) && bool_decide (es_detail s = LeaseExpiredDetail).

(** The observed state is terminal. *)
Definition ended (record : executionRecord) : bool :=
  match xr_state record with Some s => Terminal (es_phase s) | None => false end.

Section lease.
Context `{Externals, Sources}.

(** What [Maintain] returns: the destination, the renewal and whether the lease
    is lost. *)
Abbreviation maintained := (result client_error (string * option Envelope * bool)).

(** [Maintain] *)
Definition Maintain (executionID : string) (leaseDuration : duration) : CM maintained :=
  c ← get;
  match cl_executions c !! executionID with
  | None => cfail ErrExecutionNotFound []
  | Some record =>
    if xr_leaseLost record then mret (Ok (xr_destination record, None, true))
    else if ended record then
      if from_option isLostLeaseState false (xr_state record)
      then put (put_execution c executionID (set_lost record true));; mret (Ok (xr_destination record, None, true))
      else cfail ErrConflict []
    else
      let d := if 0 <? leaseDuration then leaseDuration else xr_leaseDuration record in
      let d := if d <=? 0 then clientDefaultLease else d in
      let record1 := set_intent record d (xr_leaseAllocators record) in
      put (put_execution c executionID record1);;
      mid ← newID;
      if bool_decide (mid = "") then cfail ErrInvalidConfig []
      else
        t ← now;
        put (put_execution c executionID (set_renewal record1 mid t (xr_leaseExpiresAt record)));;
        mret (Ok (xr_destination record, Some (mkEnvelope mid (cl_identity c) "" (Some (ts_new t))
          (Some (P_ExecutionLeaseRenew (Some (mkLeaseRenew (xr_id record) (Some (dur_new d))))))), false))
  end.

(** The renewal of one intent is due at [t]. *)
Definition renewal_due (t : time) (record : executionRecord) : bool :=
  negb (xr_leaseDuration record <=? 0) && negb (xr_leaseLost record) && negb (ended record)
  && (is_zero (xr_leaseRenewedAt record)
      || negb (before t (xr_leaseRenewedAt record + Z.quot (xr_leaseDuration record) 3))).

(** [DueLeaseRenewals] and [LeaseDue] *)
Definition DueLeaseRenewals : CM (list string) :=
  c ← get;
  t ← now;
  mret (map xr_id (List.filter (renewal_due t) (map_to_list (cl_executions c)).*2)).
Definition LeaseDue (executionID : string) : CM bool :=
  c ← get;
  match cl_executions c !! executionID with
  | None => mret false
  | Some record =>
    if (xr_leaseDuration record <=? 0) || xr_leaseLost record || ended record then mret false
    else if is_zero (xr_leaseRenewedAt record) then mret true
    else t ← now; mret (negb (before t (xr_leaseRenewedAt record + Z.quot (xr_leaseDuration record) 3)))
  end.

(** [pinnedAllocators]: the non-empty destinations, each once, in order. *)
Fixpoint pin_loop (seen : list string) (l : list string) : list string :=
  match l with
  | [] => []
  | d :: l' =>
    if bool_decide (d = "") || str_contains seen d then pin_loop seen l' else d :: pin_loop (d :: seen) l'
  end.
Definition pinnedAllocators (destinations : list string) : list string := pin_loop [] destinations.

(** [RecordLeaseIntent] *)
Definition RecordLeaseIntent (executionID : string) (leaseDuration : duration) (allocators : list string)
    : CM (result client_error unit) :=
  c ← get;
  match cl_executions c !! executionID with
  | None => cfail ErrExecutionNotFound []
  | Some record =>
    if xr_leaseLost record || ended record then cfail ErrConflict []
    else
      let d := if leaseDuration <=? 0 then clientDefaultLease else leaseDuration in
      put (put_execution c executionID (set_intent record d (pinnedAllocators allocators)));;
      mret (Ok tt)
  end.

Definition LeaseIntentAllocators (c : Client) (executionID : string) : list string :=
  from_option xr_leaseAllocators [] (cl_executions c !! executionID).
Definition LeaseIntentLost (c : Client) (executionID : string) : bool :=
  from_option xr_leaseLost false (cl_executions c !! executionID).
Definition LostLeaseIntents (c : Client) : list string :=
  map xr_id (List.filter (fun r => xr_leaseLost r && (0 <? xr_leaseDuration r)) (map_to_list (cl_executions c)).*2).

(** [RequestForExecution] *)
Definition RequestForExecution (c : Client) (executionID : string) : option ExecutionRequest :=
  match cl_executions c !! executionID with
  | None => None
  | Some record => option_map rq_request (cl_requests c !! xr_requestID record)
  end.

(** [RebindLeaseIntent]; two records are the same pointer when they are stored
    under the same key. *)
Definition RebindLeaseIntent (oldExecutionID newExecutionID : string) : CM (result client_error unit) :=
  c ← get;
  match cl_executions c !! oldExecutionID, cl_executions c !! newExecutionID with
  | Some previous, Some replacement =>
    if bool_decide (oldExecutionID = newExecutionID) then cfail ErrExecutionNotFound []
    else if xr_leaseDuration previous <=? 0 then cfail ErrConflict []
    else
      let replacement' := set_renewal (set_lost (set_intent replacement (xr_leaseDuration previous)
            (xr_leaseAllocators previous)) false) (xr_leaseRenewMessageID replacement) (xr_leaseRenewedAt replacement) zero_time in
      let previous' := set_lost (set_intent previous 0 []) false in
      put (put_execution (put_execution c oldExecutionID previous') newExecutionID replacement');;
      mret (Ok tt)
  | _, _ => cfail ErrExecutionNotFound []
  end.

(** [handleRenewAckLocked] *)
Definition handleRenewAckLocked (envelope : Envelope) (ack : ExecutionLeaseRenewAck) : CM (option client_error) :=
  c ← get;
  let id := la_execution_id ack in
  match cl_executions c !! id with
  | None => mret (Some (CErr ErrExecutionNotFound []))
  | Some record =>
    if bool_decide (xr_leaseRenewMessageID record = "")
       || negb (bool_decide (xr_allocatorID record = env_sender envelope))
       || negb (bool_decide (xr_leaseRenewMessageID record = env_correlation_id envelope))
    then mret (Some (CErr ErrUnauthorized []))
    else if xr_leaseLost record then mret (Some (CErr ErrConflict []))
    else
      t ← now;
      put (put_execution c id (set_renewal record "" t (as_time (la_expires_at ack))));;
      mret None
  end.

(** [markRenewalFailureLocked] *)
Definition mark_lost (record : executionRecord) : executionRecord :=
  set_lost (set_renewal record "" (xr_leaseRenewedAt record) (xr_leaseExpiresAt record)) true.

Definition markRenewalFailureLocked (c : Client) (executionID code : string) : Client :=
  if bool_decide (code = "NOT_FOUND") || bool_decide (code = "EXPIRED") then
    match cl_executions c !! executionID with
    | Some record => put_execution c executionID (mark_lost record)
    | None => c
    end
  else c.
End lease.

(** ** Logs and tunnels (logs.go, tunnel.go) *)

Section sessions.
Context `{Externals, Sources}.

(** [Logs]: at most one explicit log read is outstanding. *)
Definition Logs (id stream : string) (offset limit : Z) : CM outgoing :=
  c ← get;
  match cl_executions c !! id with
  | None => cfail ErrExecutionNotFound []
  | Some record =>
    let request := mkLogsRequest id stream offset limit in
    mid ← newID;
    t ← now;
    let e := mkEnvelope mid (cl_identity c) "" (Some (ts_new t)) (Some (P_ExecutionLogsRequest (Some request))) in
    match ValidateEnvelope (Some e) with
    | Err err => mret (Err (CProtocol err))
    | Ok _ => put (put_log c mid request);; mret (Ok (xr_destination record, e))
    end
  end.

(** [logAuthorityLocked] *)
Definition logAuthorityLocked (c : Client) (e : Envelope) : bool :=
  match cl_logRequest c with
  | None => false
  | Some q =>
    bool_decide (env_correlation_id e = cl_logMessageID c)
    && match cl_executions c !! lq_execution_id q with
       | Some record => bool_decide (xr_allocatorID record = env_sender e)
       | None => false
       end
  end.

(** [handleLogsLocked] *)
Definition handleLogsLocked (e : Envelope) (r : ExecutionLogsResponse) : CM (option client_error) :=
  c ← get;
  if negb (logAuthorityLocked c e) then mret (Some (CErr ErrUnauthorized []))
  else match cl_logRequest c with
  | None => mret (Some CPanic)
  | Some q =>
    if negb (bool_decide (lr_execution_id r = lq_execution_id q)) || negb (bool_decide (lr_stream r = lq_stream q))
       || negb (lr_offset r =? lq_offset q) || (lq_max_bytes q <? zlen (lr_data r))
    then mret (Some (CErr ErrConflict []))
    else mret None
  end.

(** [TunnelOpen] *)
Definition TunnelOpen (executionID : string) (peerKey : bytes) (targets : list Target) : CM outgoing :=
  c ← get;
  match cl_executions c !! executionID with
  | None => cfail ErrExecutionNotFound [Quoted executionID]
  | Some record =>
    if (zlen peerKey =? 0) || (MaxPeerKeySize <? zlen peerKey) then cfail ErrInvalidConfig [Txt "invalid tunnel peer key size"]
    else
      let protoTargets := TargetsToProto targets in
      match ValidateTunnelTargets protoTargets with
      | Err e => mret (Err (CProtocol e))
      | Ok _ =>
        mid ← newID;
        t ← now;
        let e := mkEnvelope mid (cl_identity c) "" (Some (ts_new t))
                   (Some (P_ExecutionTunnelOpen (Some (mkTunnelOpen executionID peerKey protoTargets)))) in
        match ValidateEnvelope (Some e) with
        | Err err => mret (Err (CProtocol err))
        | Ok _ => mret (Ok (xr_destination record, e))
        end
      end
  end.

(** [handleTunnelOpenAckLocked] *)
Definition handleTunnelOpenAckLocked (envelope : Envelope) (ack : ExecutionTunnelOpenAck) : CM (option client_error) :=
  c ← get;
  match cl_executions c !! ta_execution_id ack with
  | None => mret (Some (CErr ErrExecutionNotFound [Quoted (ta_execution_id ack)]))
  | Some record =>
    if negb (bool_decide (xr_allocatorID record = env_sender envelope)) then mret (Some (CErr ErrUnauthorized []))
    else mret None
  end.

(** ** Replies (release.go, feedback.go, inbound.go) *)

(** [handleReleaseAckLocked] *)
Definition handleReleaseAckLocked (envelope : Envelope) (ack : ExecutionOfferReleaseAck) : CM (option client_error) :=
  c ← get;
  match cl_requests c !! ora_request_id ack with
  | None => mret (Some (CErr ErrRequestNotFound []))
  | Some request =>
    match rq_offers request !! ora_offer_id ack with
    | None => mret (Some (CErr ErrConflict []))
    | Some offer =>
      match fo_release offer with
      | None => mret (Some (CErr ErrConflict []))
      | Some intent =>
        if negb (bool_decide (fo_allocatorID offer = env_sender envelope)) then mret (Some (CErr ErrUnauthorized []))
        else if negb (bool_decide (ri_MessageID intent = env_correlation_id envelope)) then mret (Some (CErr ErrConflict []))
        else if bool_decide (ora_outcome ack = OUTCOME_ASSIGNED) then mret (Some (CErr ErrConflict []))
        else if ri_Acknowledged intent then mret None
        else
          put (put_request c (ora_request_id ack) (set_offers request
                 (<[ora_offer_id ack := set_release offer (Some (acknowledge intent))]> (rq_offers request))));;
          mret None
      end
    end
  end.

(** Whether the requests and releases of the client make a command error one it
    asked for. *)
Definition request_authority (c : Client) (sender : bytes) (id : string) (authorized : bool) (request : requestRecord) : bool :=
  let authorized := if bool_decide (rq_messageID request = id)
                    then match lookup_route (cl_allocators c) sender with Some _ => true | None => false end
                    else authorized in
  authorized || existsb (fun offer => match fo_release offer with
    | Some intent => bool_decide (ri_MessageID intent = id) && bool_decide (fo_allocatorID offer = sender)
    | None => false
    end) (map_to_list (rq_offers request)).*2.

Definition asked_by (x : executionRecord) (id : string) : bool :=
  bool_decide (id = xr_assignmentMessageID x) || bool_decide (id = xr_inspectMessageID x)
  || bool_decide (id = xr_cancelMessageID x) || bool_decide (id = xr_leaseRenewMessageID x).

(** The same for one execution, and the loss of its lease. *)
Definition execution_authority (sender : bytes) (id code : string) (acc : bool * Client) (x : executionRecord) : bool * Client :=
  if bool_decide (xr_allocatorID x = sender) && asked_by x id then
    (true, if bool_decide (id = xr_leaseRenewMessageID x) || bool_decide (id = xr_inspectMessageID x)
           then markRenewalFailureLocked acc.2 (xr_id x) code else acc.2)
  else acc.

(** [handleErrorLocked] *)
Definition handleErrorLocked (e : Envelope) (failure : CommandError) : CM (option client_error) :=
  c ← get;
  let id := env_correlation_id e in
  let byRequests := fold_left (request_authority c (env_sender e) id) (map_to_list (cl_requests c)).*2 (logAuthorityLocked c e) in
  let '(authorized, c') := fold_left (execution_authority (env_sender e) id (ce_code failure))
                             (map_to_list (cl_executions c)).*2 (byRequests, c) in
  put c';;
  mret (if negb authorized then Some (CErr ErrUnauthorized []) else None).

Definition refresh_route (a : Allocator) (node : option NodeCapabilities) : Allocator :=
  mkRoute (ar_Identity a) (ar_Destination a) (ar_Hops a) (ar_Capacity a) node (ar_TunnelHost a) (ar_TunnelPort a)
    (ar_TunnelDestination a).

(** The catalog after an offer that carries a newer advertisement. *)
Definition refreshed (m : gmap string Allocator) (allocator : Allocator) (offer : ExecutionOffer) : gmap string Allocator :=
  match eo_node offer with
  | Some n => if negb (CapabilitiesEqual (ar_Node allocator) (Some n)) then put_route m (refresh_route allocator (Some n)) else m
  | None => m
  end.

(** [handleOfferLocked] *)
Definition handleOfferLocked (envelope : Envelope) (offer : ExecutionOffer) : CM (option client_error) :=
  c0 ← get;
  match cl_requests c0 !! eo_request_id offer with
  | None => mret (Some (CErr ErrRequestNotFound [Quoted (eo_request_id offer)]))
  | Some record =>
    if negb (bool_decide (rq_messageID record = env_correlation_id envelope))
       || negb (bool_decide (eo_resource_class offer = er_resource_class (rq_request record)))
    then mret (Some (CErr ErrConflict []))
    else match lookup_route (cl_allocators c0) (env_sender envelope) with
    | None => mret (Some (CErr ErrUnauthorized []))
    | Some allocator =>
      let c := put_allocators c0 (refreshed (cl_allocators c0) allocator offer) in
      put c;;
      match rq_offers record !! eo_offer_id offer with
      | Some existing =>
        if negb (bool_decide (fo_allocatorID existing = env_sender envelope)) || negb (bool_decide (fo_offer existing = offer))
        then mret (Some (CErr ErrConflict []))
        else mret None
      | None =>
        t ← now;
        let newOffer := mkOfferRec offer (env_sender envelope) t None in
        let store o := put (put_request c (eo_request_id offer) (set_offers record (<[eo_offer_id offer := o]> (rq_offers record)))) in
        if bool_decide (rq_executionID record = "") then store newOffer;; mret None
        else match cl_executions c !! rq_executionID record with
        | None => mret (Some CPanic)
        | Some execution =>
          if bool_decide (xr_offerID execution = eo_offer_id offer) && bool_decide (xr_allocatorID execution = env_sender envelope)
          then mret (Some (CErr ErrConflict []))
          else
            intent ← newReleaseLocked (cl_allocators c) newOffer;
            match intent with
            | Err e => mret (Some e)
            | Ok i => store (set_release newOffer (Some i));; mret None
            end
        end
      end
    end
  end.

(** How a reported state relates to the recorded one. *)
Inductive verdict := V_Accept | V_Ignore | V_Conflict.

Definition judge_state (recorded reported : ExecutionState) : verdict :=
  let same := bool_decide (recorded = reported) in
  let equal := if same then V_Ignore else V_Conflict in
  let newer := if Terminal (es_phase recorded) && negb same then V_Conflict else V_Accept in
  let oldRevision := es_revision recorded in
  let newRevision := es_revision reported in
  if (0 <? oldRevision) || (0 <? newRevision) then
    if newRevision <? oldRevision then V_Ignore else if newRevision =? oldRevision then equal else newer
  else
    let oldTime := as_time (es_occurred_at recorded) in
    let newTime := as_time (es_occurred_at reported) in
    if before newTime oldTime then V_Ignore else if newTime =? oldTime then equal else newer.

(** [handleStateLocked] *)
Definition handleStateLocked (envelope : Envelope) (state : ExecutionState) : CM (option client_error) :=
  c ← get;
  let id := es_execution_id state in
  match cl_executions c !! id with
  | None => mret (Some (CErr ErrExecutionNotFound [Quoted id]))
  | Some record =>
    if negb (bool_decide (xr_allocatorID record = env_sender envelope)) then mret (Some (CErr ErrUnauthorized []))
    else match from_option (fun s => judge_state s state) V_Accept (xr_state record) with
    | V_Ignore => mret None
    | V_Conflict => mret (Some (CErr ErrConflict []))
    | V_Accept =>
      let record1 := set_state record (Some state) in
      put (put_execution c id (if Terminal (es_phase state) && isLostLeaseState state then mark_lost record1 else record1));;
      mret None
    end
  end.

(** [Handle]; [ValidateEnvelope] rejects a payload whose message is nil. *)
Definition Handle (envelope : option Envelope) : CM (option client_error) :=
  match ValidateEnvelope envelope, envelope with
  | Err e, _ => mret (Some (CProtocol e))
  | Ok _, Some e =>
    match env_payload e with
    | Some (P_ExecutionLogsResponse (Some m)) => handleLogsLocked e m
    | Some (P_CommandError (Some m)) => handleErrorLocked e m
    | Some (P_ExecutionOffer (Some m)) => handleOfferLocked e m
    | Some (P_ExecutionState (Some m)) => handleStateLocked e m
    | Some (P_ExecutionOfferReleaseAck (Some m)) => handleReleaseAckLocked e m
    | Some (P_ExecutionLeaseRenewAck (Some m)) => handleRenewAckLocked e m
    | Some (P_ExecutionTunnelOpenAck (Some m)) => handleTunnelOpenAckLocked e m
    | _ => mret (Some (CErr ErrUnsupportedMessage []))
    end
  | Ok _, None => mret (Some CPanic)
  end.

(** ** Views (snapshots.go) and construction (client.go) *)

Record ExecutionSnapshot := mkExecSnapshot {
  sx_ExecutionID : string;
  sx_RequestID : string;
  sx_OfferID : string;
  sx_Allocator : bytes;
  sx_Destination : string;
  sx_State : option ExecutionState
}.

Definition snapshotExecution (r : executionRecord) : ExecutionSnapshot :=
  mkExecSnapshot (xr_id r) (xr_requestID r) (xr_offerID r) (xr_allocatorID r) (xr_destination r) (xr_state r).

Record RequestSnapshot := mkReqSnapshot {
  sr_Request : ExecutionRequest;
  sr_CreatedAt : time;
  sr_OfferCount : Z;
  sr_ExecutionID : string
}.

Definition snapshotRequest (r : requestRecord) : RequestSnapshot :=
  mkReqSnapshot (rq_request r) (rq_createdAt r) (Z.of_nat (size (rq_offers r))) (rq_executionID r).

(** [Requests]: requests created at the same time come in the order the map and
    the unstable sort leave them, so every such order is a possible result. *)
Definition Requests (c : Client) (result : list RequestSnapshot) : Prop :=
  result ≡ₚ map snapshotRequest (map_to_list (cl_requests c)).*2 ∧
  Sorted (fun a b => before (sr_CreatedAt b) (sr_CreatedAt a) = false) result.

Definition snapshot_le (a b : ExecutionSnapshot) : Prop := string_le (sx_ExecutionID a) (sx_ExecutionID b).
#[export] Instance snapshot_le_dec : RelDecision snapshot_le.
Proof. intros a b. unfold snapshot_le. apply _. Defined.

Definition Execution (c : Client) (id : string) : option ExecutionSnapshot :=
  option_map snapshotExecution (cl_executions c !! id).
Definition Executions (c : Client) : list ExecutionSnapshot :=
  merge_sort snapshot_le (map snapshotExecution (map_to_list (cl_executions c)).*2).

(** [New] *)
Definition New (identity : bytes) : result client_error Client :=
  if zlen identity =? 0 then Err (CErr ErrInvalidConfig [Txt "identity is required"])
  else Ok (mkClient "" None identity ∅ ∅ ∅).
End sessions.
