(* ===== verification/ClientInv.v ===== *)
(** * The invariant of the client

    What every reachable client state satisfies, whatever its operations are
    called with and in whatever order replies arrive: each request has at most
    one execution, the selected offer is never released, and every other offer
    of an assigned request has a release on its way. *)

From S2P Require Import Prelude GoStrings Ordering Wire Errors Protocol Registry Client.

(** ** Reasoning about client operations *)

Section logic.
Context `{Externals, Sources}.

Definition cwp {A} (m : CM A) (Q : A → Client → Prop) (c : Client) : Prop :=
  ∀ n, Q (m (c, n)).1 (m (c, n)).2.1.

Lemma cwp_mono {A} (m : CM A) (Q Q' : A → Client → Prop) c :
  cwp m Q c → (∀ a c', Q a c' → Q' a c') → cwp m Q' c.
Proof. intros Hm HQ n. apply HQ, Hm. Qed.

Lemma cwp_ret {A} (a : A) Q c : Q a c → cwp (mret a) Q c.
Proof. by intros ? n. Qed.

Lemma cwp_bind {A B} (m : CM A) (f : A → CM B) Q c :
  cwp m (fun a c' => cwp (f a) Q c') c → cwp (m ≫= f) Q c.
Proof.
  intros Hm n. specialize (Hm n). unfold mbind, CM_bind.
  destruct (m (c, n)) as [a [c' n']]. simpl in *. apply Hm.
Qed.

Lemma cwp_get Q c : Q c c → cwp get Q c.
Proof. by intros ? n. Qed.
Lemma cwp_put c' Q c : Q tt c' → cwp (put c') Q c.
Proof. by intros ? n. Qed.
Lemma cwp_now (Q : time → Client → Prop) c : (∀ t, Q t c) → cwp now Q c.
Proof. intros HQ n. apply HQ. Qed.
Lemma cwp_newID (Q : string → Client → Prop) c : (∀ i, Q i c) → cwp newID Q c.
Proof. intros HQ n. apply HQ. Qed.

Lemma cwp_uniqueID {V} (m : gmap string V) (Q : string → Client → Prop) c :
  (∀ i, (i ≠ "" → m !! i = None) → Q i c) → cwp (uniqueIDLocked m) Q c.
Proof.
  intros HQ. unfold uniqueIDLocked. apply cwp_bind, cwp_newID. intros i. apply cwp_ret.
  case_bool_decide; [by apply HQ|]. destruct (m !! i) eqn:Hi; by apply HQ.
Qed.
End logic.

(** Symbolic execution of a client operation. *)
Ltac cwp_step :=
  lazymatch goal with
  | |- cwp (mret _) _ _ => apply cwp_ret
  | |- cwp (cfail _ _) _ _ => apply cwp_ret
  | |- cwp (_ ≫= _) _ _ => apply cwp_bind
  | |- cwp get _ _ => apply cwp_get
  | |- cwp (put _) _ _ => apply cwp_put
  | |- cwp now _ _ => apply cwp_now; intros ?
  | |- cwp newID _ _ => apply cwp_newID; intros ?
  | |- cwp (uniqueIDLocked _) _ _ => apply cwp_uniqueID; intros ? ?
  | |- cwp (if ?b then _ else _) _ _ => destruct b eqn:?
  | |- cwp (match ?x with _ => _ end) _ _ => destruct x eqn:?
  end.
Ltac cwp_steps := repeat (cwp_step; cbv beta zeta).

(** ** The invariant *)

(** The selected offer of a request and the fate of the others. *)
Record selection (r : requestRecord) (x : executionRecord) : Prop := {
  se_request : xr_requestID x = er_request_id (rq_request r);
  se_offer : ∃ o, rq_offers r !! xr_offerID x = Some o ∧ fo_allocatorID o = xr_allocatorID x ∧ fo_release o = None;
  se_losers k o : rq_offers r !! k = Some o → k ≠ xr_offerID x → is_Some (fo_release o)
}.

Record offer_fits (m : gmap string Allocator) (r : requestRecord) (k : string) (o : offerRecord) : Prop := {
  of_key : eo_offer_id (fo_offer o) = k;
  of_request : eo_request_id (fo_offer o) = er_request_id (rq_request r);
  of_class : eo_resource_class (fo_offer o) = er_resource_class (rq_request r);
  of_route : is_Some (lookup_route m (fo_allocatorID o));
  of_blank : blank k = false
}.

Record request_ok (routes : gmap string Allocator) (execs : gmap string executionRecord) (id : string) (r : requestRecord) : Prop := {
  ro_id : er_request_id (rq_request r) = id;
  ro_nonempty : id ≠ "";
  ro_message : rq_messageID r ≠ "";
  ro_offers k o : rq_offers r !! k = Some o → offer_fits routes r k o;
  ro_open : rq_executionID r = "" → ∀ k o, rq_offers r !! k = Some o → fo_release o = None;
  ro_assigned : rq_executionID r ≠ "" →
    ∃ x, execs !! rq_executionID r = Some x ∧ selection r x
}.

Record execution_ok (requests : gmap string requestRecord) (id : string) (x : executionRecord) : Prop := {
  xo_id : xr_id x = id;
  xo_nonempty : id ≠ "";
  xo_assign : xr_assignmentMessageID x ≠ "";
  xo_request : ∃ r, requests !! xr_requestID x = Some r ∧ rq_executionID r = id
}.

Definition route_ok (k : string) (a : Allocator) : Prop :=
  k = hex_encode (ar_Identity a) ∧ ar_Identity a ≠ [] ∧ blank (ar_Destination a) = false.

Record client_ok (c : Client) : Prop := {
  co_request id r : cl_requests c !! id = Some r → request_ok (cl_allocators c) (cl_executions c) id r;
  co_execution id x : cl_executions c !! id = Some x → execution_ok (cl_requests c) id x;
  co_route k a : cl_allocators c !! k = Some a → route_ok k a
}.

(** Records of the same execution: only what is observed or intended changes. *)
Definition same_assignment (x x' : executionRecord) : Prop :=
  xr_id x' = xr_id x ∧ xr_requestID x' = xr_requestID x ∧ xr_offerID x' = xr_offerID x ∧
  xr_allocatorID x' = xr_allocatorID x ∧ xr_destination x' = xr_destination x ∧
  xr_assignmentMessageID x' = xr_assignmentMessageID x ∧ xr_assignmentSentAt x' = xr_assignmentSentAt x.

Lemma same_assignment_refl x : same_assignment x x.
Proof. done. Qed.

Lemma selection_same r x x' : same_assignment x x' → selection r x → selection r x'.
Proof.
  intros (_ & Hr & Ho & Ha & _) [Hreq Hsel Hlose].
  split; [congruence|destruct Hsel as (o & ? & ? & ?); exists o; rewrite Ho; split_and!; congruence|]. intros k o. rewrite Ho. apply Hlose.
Qed.

(** ** Closure of the invariant *)

Lemma put_execution_ok c id x x' :
  client_ok c → cl_executions c !! id = Some x → same_assignment x x' → client_ok (put_execution c id x').
Proof.
  intros [Hr Hx Hrt] Hid Hsame. split; simpl; [| |done].
  - intros rid r Hrid. destruct (Hr _ _ Hrid) as [? ? ? ? ? Has]. split; try done. intros Hne.
    destruct (Has Hne) as (y & Hy & Hsel). simpl. destruct (decide (id = rq_executionID r)) as [->|Hd].
    + rewrite lookup_insert_eq. exists x'. split; [done|]. rewrite Hid in Hy. injection Hy as <-.
      by apply (selection_same r x).
    + rewrite lookup_insert_ne //. by exists y.
  - intros i y. rewrite lookup_insert_Some. intros [[<- <-]|[Hne Hy]]; [|by destruct (Hx _ _ Hy)].
    destruct Hsame as (Hi & Hq & _ & _ & _ & Hm & _). destruct (Hx _ _ Hid) as [? ? ? ?]. split; congruence || by rewrite Hq.
Qed.

Lemma put_log_ok c mid q : client_ok c → client_ok (put_log c mid q).
Proof. by intros [Hr Hx Hrt]. Qed.

(** Routes are only added or refreshed. *)
Lemma put_route_ok c a :
  client_ok c → ar_Identity a ≠ [] → blank (ar_Destination a) = false →
  client_ok (put_allocators c (put_route (cl_allocators c) a)).
Proof.
  intros [Hr Hx Hrt] Hne Hb. split; simpl; [|done|].
  - intros id r Hid. destruct (Hr _ _ Hid) as [? ? ? Hof ? ?]. split; try done. intros k o Ho.
    destruct (Hof _ _ Ho) as [? ? ? Hrt' ?]. split; try done. simpl. unfold lookup_route, put_route in *.
    destruct (decide (hex_encode (ar_Identity a) = hex_encode (fo_allocatorID o))) as [->|Hd].
    + rewrite lookup_insert_eq. by eexists.
    + by rewrite lookup_insert_ne.
  - intros k a'. unfold put_route. rewrite lookup_insert_Some. intros [[<- <-]|[_ Ha]]; [done|by apply Hrt].
Qed.

(** A fresh request. *)
Lemma new_request_ok c id r :
  client_ok c → cl_requests c !! id = None → er_request_id (rq_request r) = id → id ≠ "" → rq_messageID r ≠ "" →
  rq_offers r = ∅ → rq_executionID r = "" → client_ok (put_request c id r).
Proof.
  intros [Hr Hx Hrt] Hnone Hid Hne Hm Ho He. split; simpl; [| |done].
  - intros i r'. rewrite lookup_insert_Some. intros [[<- <-]|[Hd Hi]].
    + split; try done; [intros k o; by rewrite Ho lookup_empty|intros _ k o; by rewrite Ho lookup_empty].
    + by destruct (Hr _ _ Hi).
  - intros i x Hi. destruct (Hx _ _ Hi) as [? ? ? (r' & Hr' & ?)]. split; try done. simpl.
    rewrite lookup_insert_ne; [congruence|]. by exists r'.
Qed.

(** The offers of a request change, its selection does not. *)
Lemma put_offers_ok c id r offers :
  client_ok c → cl_requests c !! id = Some r →
  (∀ k o, offers !! k = Some o → offer_fits (cl_allocators c) r k o) →
  (rq_executionID r = "" → ∀ k o, offers !! k = Some o → fo_release o = None) →
  (∀ x, cl_executions c !! rq_executionID r = Some x → selection r x → selection (set_offers r offers) x) →
  client_ok (put_request c id (set_offers r offers)).
Proof.
  intros [Hr Hx Hrt] Hid Hfit Hopen Hsel. destruct (Hr _ _ Hid) as [? ? ? ? ? Has]. split; simpl; [| |done].
  - intros i r'. rewrite lookup_insert_Some. intros [[<- <-]|[Hd Hi]]; [|by destruct (Hr _ _ Hi)].
    split; try done.
    + intros k o Ho. by destruct (Hfit _ _ Ho).
    + intros Hne. destruct (Has Hne) as (x & Hex & Hs). exists x. auto.
  - intros i x Hi. destruct (Hx _ _ Hi) as [? ? ? (r' & Hr' & ?)]. split; try done. simpl.
    destruct (decide (xr_requestID x = id)) as [Heq|Hd]; [|rewrite lookup_insert_ne; [congruence|by exists r']].
    rewrite Heq in Hr' |- *. rewrite lookup_insert_eq. eexists. split; [done|]. simpl. congruence.
Qed.

(** ** Selection *)

Section select.
Context `{Externals, Sources}.

(** The ranking considers eligible offers only. *)
Lemma choose_eligible m offers t cons image o a :
  chooseWithPreferences m offers t cons image = Some (o, a) →
  (∃ k, offers !! k = Some o) ∧ eligible m t cons o = true ∧ lookup_route m (fo_allocatorID o) = Some a.
Proof.
  unfold chooseWithPreferences. destruct (merge_sort _ _) as [|o' l] eqn:Hs; [done|]. intros Hch.
  assert (o' ∈ List.filter (eligible m t cons) (map_to_list offers).*2) as Hin.
  { pose proof (merge_sort_Permutation (ranked m image) (List.filter (eligible m t cons) (map_to_list offers).*2)) as Hp.
    rewrite Hs in Hp. rewrite -Hp. constructor. }
  apply list_elem_of_In, List.filter_In in Hin as [Hin He]. apply list_elem_of_In, list_elem_of_fmap in Hin as ([k o''] & -> & Hk).
  apply elem_of_map_to_list in Hk. simpl in *. unfold eligible in He.
  destruct (lookup_route m _) as [a'|] eqn:Ha; [|done]. injection Hch as <- <-. split; [by exists k|]. split; [|done].
  unfold eligible. by rewrite Ha.
Qed.

Definition losing (selected : string) (kv : string * offerRecord) : bool :=
  negb (bool_decide (kv.1 = selected) || match fo_release kv.2 with Some _ => true | None => false end).

Lemma newRelease_pure m o c : cwp (newReleaseLocked m o) (fun _ c' => c' = c) c.
Proof. unfold newReleaseLocked. cwp_steps; done. Qed.

(** One intent for every losing offer. *)
Lemma prepare_releases_spec m selected l c :
  cwp (prepare_releases m selected l) (fun r c' => c' = c ∧
    ∀ intents, r = Ok intents → intents.*1 = (List.filter (losing selected) l).*1) c.
Proof.
  induction l as [|[k o] l IH]; simpl; [apply cwp_ret; split; [done|]; by intros ? [= <-]|].
  unfold losing at 1. simpl. destruct (bool_decide (k = selected) || _); simpl; [done|].
  apply cwp_bind. eapply cwp_mono; [apply newRelease_pure|]. intros [i|e] c' ->; [|by apply cwp_ret].
  apply cwp_bind. eapply cwp_mono; [apply IH|]. intros [more|e] c' [-> Hm]; apply cwp_ret; (split; [done|]); [|done].
  intros intents [= <-]. cbn. f_equal. by apply Hm.
Qed.

Lemma release_all_other offers intents k : k ∉ intents.*1 → release_all offers intents !! k = offers !! k.
Proof.
  unfold release_all. revert offers. induction intents as [|[id i] l IH]; intros offers Hk; simpl; [done|].
  simpl in Hk. apply not_elem_of_cons in Hk as [Hne Hk]. rewrite IH //. rewrite lookup_alter_ne; congruence.
Qed.

Lemma release_all_hit offers intents k o :
  NoDup intents.*1 → k ∈ intents.*1 → offers !! k = Some o →
  ∃ i, release_all offers intents !! k = Some (set_release o (Some i)).
Proof.
  revert offers. induction intents as [|[id i] l IH]; intros offers Hnd Hk Ho; simpl in *; [by apply not_elem_of_nil in Hk|].
  apply NoDup_cons in Hnd as [Hid Hnd]. destruct (decide (k = id)) as [->|Hne].
  - exists i. unfold release_all. simpl. rewrite -/(release_all _ l) release_all_other //.
    by rewrite lookup_alter_eq Ho.
  - unfold release_all. simpl. rewrite -/(release_all _ l). apply (IH _ Hnd); [set_solver|]. rewrite lookup_alter_ne; congruence.
Qed.

Lemma NoDup_filter_fst {V} (f : string * V → bool) l : NoDup l.*1 → NoDup (List.filter f l).*1.
Proof.
  induction l as [|x l IH]; simpl; [done|]. intros [Hx Hl]%NoDup_cons. destruct (f x); simpl; [|by apply IH].
  apply NoDup_cons. split; [|by apply IH]. intros Hin. apply Hx. apply list_elem_of_fmap in Hin as (y & -> & Hy).
  apply list_elem_of_In, List.filter_In in Hy as [Hy _]. apply list_elem_of_fmap. exists y. by rewrite list_elem_of_In.
Qed.

(** The fate of every offer when one is selected. *)
Lemma release_all_fate offers intents selected k o :
  intents.*1 = (List.filter (losing selected) (map_to_list offers)).*1 → offers !! k = Some o →
  ∃ o', release_all offers intents !! k = Some o' ∧ fo_offer o' = fo_offer o ∧ fo_allocatorID o' = fo_allocatorID o ∧
    (k = selected → o' = o) ∧ (k ≠ selected → is_Some (fo_release o')).
Proof.
  intros Hi Ho. assert (k ∈ intents.*1 ↔ losing selected (k, o) = true) as Hin.
  { rewrite Hi list_elem_of_fmap. split.
    - intros ([k' o'] & -> & Hf). apply list_elem_of_In, List.filter_In in Hf as [Hf Hl].
      apply list_elem_of_In, elem_of_map_to_list in Hf. simpl in *. congruence.
    - intros Hl. exists (k, o). split; [done|]. apply list_elem_of_In, List.filter_In. split; [|done].
      by apply list_elem_of_In, elem_of_map_to_list. }
  unfold losing in Hin. simpl in Hin. destruct (bool_decide (k = selected)) eqn:Hk.
  - apply bool_decide_eq_true in Hk. exists o. rewrite release_all_other ?Ho; [by intros ?%Hin|]. by split_and!.
  - apply bool_decide_eq_false in Hk. destruct (fo_release o) as [i|] eqn:Hr; simpl in Hin.
    + exists o. rewrite release_all_other ?Ho; [by intros ?%Hin|]. split_and!; [done..|]. intros _. by rewrite Hr.
    + destruct (release_all_hit offers intents k o) as (i & Hlk); [|by apply Hin|done|].
      * rewrite Hi. apply (NoDup_filter_fst (losing selected)), NoDup_fst_map_to_list.
      * eexists. split; [exact Hlk|]. split_and!; [done..|]. by eexists.
Qed.

Lemma release_all_None offers intents k : offers !! k = None → release_all offers intents !! k = None.
Proof.
  unfold release_all. revert offers. induction intents as [|[id i] l IH]; intros offers Hk; simpl; [done|].
  apply IH. destruct (decide (k = id)) as [->|]; [by rewrite lookup_alter_eq Hk|rewrite lookup_alter_ne; congruence].
Qed.
End select.

(** ** Every operation preserves the invariant *)

Section preserve.
Context `{Externals, Sources}.

Ltac keep_exec := eapply put_execution_ok; [eassumption|eassumption|by split_and!].

Abbreviation keeps_ok m := (∀ c, client_ok c → cwp m (fun _ c' => client_ok c') c).

Lemma RegisterAllocator_ok a : keeps_ok (RegisterAllocator a).
Proof.
  intros c Hok. unfold RegisterAllocator. cwp_steps; [done|].
  match goal with H : _ || _ = false |- _ => apply orb_false_iff in H as [Hne Hb] end.
  apply put_route_ok; [done|..].
  - unfold merge_route. destruct (lookup_route _ _); simpl; intros Hi; by rewrite Hi in Hne.
  - unfold merge_route. by destruct (lookup_route _ _).
Qed.

Lemma createRequest_ok w p class cons run attempt : keeps_ok (createRequest w p class cons run attempt).
Proof.
  intros c Hok. unfold createRequest. cwp_steps; try done. guards.
  match goal with H : ?i ≠ "" → _ |- _ => apply new_request_ok; auto end.
Qed.

Lemma Inspect_ok id : keeps_ok (Inspect id).
Proof. intros c Hok. unfold Inspect. cwp_steps; try done. keep_exec. Qed.

Lemma Cancel_ok id reason : keeps_ok (Cancel id reason).
Proof. intros c Hok. unfold Cancel. cwp_steps; try done; keep_exec. Qed.

Lemma Maintain_ok id d : keeps_ok (Maintain id d).
Proof.
  intros c Hok. unfold Maintain. cwp_steps; try done; keep_exec.
Qed.

Lemma RecordLeaseIntent_ok id d l : keeps_ok (RecordLeaseIntent id d l).
Proof. intros c Hok. unfold RecordLeaseIntent. cwp_steps; try done. keep_exec. Qed.

Lemma RebindLeaseIntent_ok a b : keeps_ok (RebindLeaseIntent a b).
Proof.
  intros c Hok. unfold RebindLeaseIntent. cwp_steps; try done. guards.
  match goal with Ha : cl_executions c !! a = Some ?x, Hb : cl_executions c !! b = Some ?y |- _ =>
    eapply (put_execution_ok (put_execution c a _) b y);
      [by apply (put_execution_ok c a x)|by rewrite /= lookup_insert_ne|done] end.
Qed.

Lemma Logs_ok id stream offset limit : keeps_ok (Logs id stream offset limit).
Proof. intros c Hok. unfold Logs. cwp_steps; try done. by apply put_log_ok. Qed.

Lemma TunnelOpen_ok id key targets : keeps_ok (TunnelOpen id key targets).
Proof. intros c Hok. unfold TunnelOpen. cwp_steps; done. Qed.

(** Recording the selection of one offer and the release of the others. *)
Lemma commit_selection_ok c rid record k sel intents eid mid dest t :
  client_ok c → cl_requests c !! rid = Some record → rq_executionID record = "" → rq_offers record !! k = Some sel →
  intents.*1 = (List.filter (losing k) (map_to_list (rq_offers record))).*1 →
  cl_executions c !! eid = None → eid ≠ "" → mid ≠ "" →
  client_ok (put_execution (put_request c rid
    (set_executionID (set_offers record (release_all (rq_offers record) intents)) eid)) eid (fresh_record eid rid sel dest mid t)).
Proof.
  intros [Hreq Hex Hrt] Hr Hnoex Hk Hi Hnone Hne' Hmid'. pose proof (Hreq _ _ Hr) as [Hid Hne Hmid Hoffers Hopen _].
  pose proof (of_key _ _ _ _ (Hoffers _ _ Hk)) as Hkey.
  assert (∀ k' o', release_all (rq_offers record) intents !! k' = Some o' →
    ∃ o, rq_offers record !! k' = Some o ∧ fo_offer o' = fo_offer o ∧ fo_allocatorID o' = fo_allocatorID o ∧
      (k' = k → o' = o) ∧ (k' ≠ k → is_Some (fo_release o'))) as Hback.
  { intros k' o' Ho'. destruct (rq_offers record !! k') as [o|] eqn:Ho; [|by rewrite release_all_None in Ho'].
    destruct (release_all_fate _ _ _ _ _ Hi Ho) as (o'' & Ho'' & Hfate). rewrite Ho' in Ho''. injection Ho'' as <-. by exists o. }
  split; simpl; [| |done].
  - intros i r. rewrite lookup_insert_Some. intros [[<- <-]|[Hd Hi']].
    + split; simpl; try done.
      * intros k' o' Ho'. destruct (Hback _ _ Ho') as (o & Ho & Hoo & Hoa & _).
        destruct (Hoffers _ _ Ho) as []. split; simpl; congruence || by rewrite Hoa.
      * intros _. rewrite lookup_insert_eq. eexists. split; [done|]. split; simpl; [by rewrite Hid| |].
        -- destruct (release_all_fate _ _ _ _ _ Hi Hk) as (o' & Ho' & _ & _ & Hs & _). exists o'. rewrite Hkey.
           rewrite (Hs eq_refl) in Ho' |- *. split; [done|]. split; [done|]. by apply (Hopen Hnoex k).
        -- rewrite Hkey. intros k' o' Ho'. destruct (Hback _ _ Ho') as (o & _ & _ & _ & _ & Hl). done.
    + pose proof (Hreq _ _ Hi') as [? ? ? ? ? Has]. split; try done. intros Hx. destruct (Has Hx) as (x & Hx' & Hs).
      exists x. split; [|done]. rewrite lookup_insert_ne; [|done]. intros ->. congruence.
  - intros i x. rewrite lookup_insert_Some. intros [[<- <-]|[Hd Hi']].
    + split; simpl; try done. rewrite lookup_insert_eq. by eexists.
    + destruct (Hex _ _ Hi') as [? ? ? (r' & Hr' & He)]. split; try done.
      destruct (decide (xr_requestID x = rid)) as [Heq|Hd']; [|rewrite lookup_insert_ne; [congruence|by exists r']].
      exfalso. rewrite Heq in Hr'. rewrite Hr in Hr'. injection Hr' as <-. congruence.
Qed.

Lemma Select_ok rid : keeps_ok (Select rid).
Proof.
  intros c Hok. unfold Select. cwp_steps; try done. guards.
  match goal with H : cl_requests c !! rid = Some ?r |- _ => rename H into Hr, r into record end.
  match goal with H : chooseWithPreferences _ _ _ _ _ = Some (?o, ?a) |- _ =>
    apply choose_eligible in H as ((k & Hk) & _ & _); rename o into sel end.
  eapply cwp_mono; [apply prepare_releases_spec|]. intros [intents|e] c' [-> Hi]; cwp_steps; [|done].
  specialize (Hi intents eq_refl).
  rewrite (of_key _ _ _ _ (ro_offers _ _ _ _ (co_request _ Hok _ _ Hr) _ _ Hk)) in Hi.
  apply (commit_selection_ok c rid record k); auto.
Qed.

(** ** Replies *)

Lemma handleReleaseAck_ok e ack : keeps_ok (handleReleaseAckLocked e ack).
Proof.
  intros c Hok. unfold handleReleaseAckLocked. cwp_steps; try done.
  match goal with H : cl_requests c !! _ = Some ?r |- _ => rename H into Hr, r into record end.
  match goal with H : rq_offers record !! _ = Some ?o, H' : fo_release ?o = Some ?i |- _ =>
    rename H into Ho, o into offer, H' into Hi, i into intent end.
  pose proof (co_request _ Hok _ _ Hr) as [? ? ? Hfit Hopen ?]. apply put_offers_ok; try done.
  - intros k o. rewrite lookup_insert_Some. intros [[<- <-]|[_ Hk]]; [|by apply Hfit]. by destruct (Hfit _ _ Ho).
  - intros He. exfalso. pose proof (Hopen He _ _ Ho). congruence.
  - intros x Hx [Hreq (o & Hsel & Ha & Hrel) Hlose]. split; simpl; [done|..].
    + exists o. rewrite lookup_insert_ne //. intros Heq. rewrite Heq Hsel in Ho. congruence.
    + intros k o'. rewrite lookup_insert_Some. intros [[<- <-]|[_ Hk]] Hne; [by eexists|by apply (Hlose k)].
Qed.

Lemma handleRenewAck_ok e ack : keeps_ok (handleRenewAckLocked e ack).
Proof. intros c Hok. unfold handleRenewAckLocked. cwp_steps; try done. keep_exec. Qed.

Lemma handleState_ok e s : keeps_ok (handleStateLocked e s).
Proof.
  intros c Hok. unfold handleStateLocked. cwp_steps; try done.
  destruct (Terminal _ && _); keep_exec.
Qed.

Lemma markRenewalFailure_ok c id code : client_ok c → client_ok (markRenewalFailureLocked c id code).
Proof. intros Hok. unfold markRenewalFailureLocked. destruct (_ || _); [|done]. case_match; [keep_exec|done]. Qed.

Lemma execution_authority_ok sender id code l acc :
  client_ok acc.2 → client_ok (fold_left (execution_authority sender id code) l acc).2.
Proof.
  revert acc. induction l as [|x l IH]; intros acc Hok; simpl; [done|]. apply IH. unfold execution_authority.
  destruct (_ && _); [|done]. simpl. destruct (_ || _); [by apply markRenewalFailure_ok|done].
Qed.

Lemma handleError_ok e f : keeps_ok (handleErrorLocked e f).
Proof.
  intros c Hok. unfold handleErrorLocked. apply cwp_bind, cwp_get. cbv zeta.
  destruct (fold_left (execution_authority _ _ _) _ _) as [auth c'] eqn:Hf. apply cwp_bind, cwp_put, cwp_ret.
  pose proof (execution_authority_ok (env_sender e) (env_correlation_id e) (ce_code f) (map_to_list (cl_executions c)).*2
    (fold_left (request_authority c (env_sender e) (env_correlation_id e)) (map_to_list (cl_requests c)).*2
       (logAuthorityLocked c e), c) Hok) as Hc. by rewrite Hf in Hc.
Qed.

Lemma refreshed_ok c a offer sender :
  client_ok c → lookup_route (cl_allocators c) sender = Some a → client_ok (put_allocators c (refreshed (cl_allocators c) a offer)).
Proof.
  intros Hok Ha. destruct (co_route _ Hok _ _ Ha) as (_ & Hne & Hb). unfold refreshed.
  assert (client_ok (put_allocators c (cl_allocators c))) as Hsame by (by destruct c).
  destruct (eo_node offer); [|done]. destruct (negb _); [|done]. by apply put_route_ok.
Qed.

(** A new offer of a request. *)
Lemma add_offer_ok c record o :
  client_ok c → cl_requests c !! eo_request_id (fo_offer o) = Some record →
  rq_offers record !! eo_offer_id (fo_offer o) = None → blank (eo_offer_id (fo_offer o)) = false →
  eo_resource_class (fo_offer o) = er_resource_class (rq_request record) → is_Some (lookup_route (cl_allocators c) (fo_allocatorID o)) →
  (rq_executionID record = "" ↔ fo_release o = None) →
  client_ok (put_request c (eo_request_id (fo_offer o)) (set_offers record (<[eo_offer_id (fo_offer o) := o]> (rq_offers record)))).
Proof.
  intros Hok Hr Hnone Hb Hc Hrt Hrel. pose proof (co_request _ Hok _ _ Hr) as [? ? ? Hfit Hopen ?].
  apply put_offers_ok; try done.
  - intros k o'. rewrite lookup_insert_Some. intros [[<- <-]|[_ Hk]]; [|by apply Hfit]. by split.
  - intros He k o'. rewrite lookup_insert_Some. intros [[_ <-]|[_ Hk]]; [by apply Hrel|by apply (Hopen He k)].
  - intros x Hx [Hreq (o' & Hsel & Ha & Hr') Hlose]. split; simpl; [done|..].
    + exists o'. rewrite lookup_insert_ne //. congruence.
    + intros k o''. rewrite lookup_insert_Some. intros [[<- <-]|[_ Hk]] Hne; [|by apply (Hlose k)].
      destruct (fo_release o) eqn:Ho; [by eexists|]. exfalso.
      pose proof (proj2 Hrel eq_refl) as He. rewrite He in Hx. by destruct (co_execution _ Hok _ _ Hx).
Qed.

Lemma handleOffer_ok e offer : blank (eo_offer_id offer) = false → keeps_ok (handleOfferLocked e offer).
Proof.
  intros Hb c Hok. unfold handleOfferLocked. apply cwp_bind, cwp_get.
  destruct (cl_requests c !! _) as [record|] eqn:Hr; [|by apply cwp_ret].
  destruct (_ || _) eqn:Hg; [by apply cwp_ret|]. guards.
  destruct (lookup_route _ _) as [a|] eqn:Ha; [|by apply cwp_ret].
  pose proof (refreshed_ok c a offer _ Hok Ha) as Hok1. set (c1 := put_allocators c _) in *.
  apply cwp_bind, cwp_put.
  assert (is_Some (lookup_route (cl_allocators c1) (env_sender e))) as Hroute.
  { unfold c1, refreshed. simpl. destruct (eo_node offer); [|by rewrite Ha]. destruct (negb _); [|by rewrite Ha].
    unfold lookup_route, put_route in *. simpl. destruct (co_route _ Hok _ _ Ha) as (<- & _).
    rewrite lookup_insert_eq. by eexists. }
  destruct (rq_offers record !! _) as [o|] eqn:Ho; [cwp_steps; done|].
  apply cwp_bind, cwp_now. intros t. cbv zeta.
  destruct (bool_decide (rq_executionID record = "")) eqn:He; guards.
  - cwp_steps. apply (add_offer_ok c1 record (mkOfferRec offer (env_sender e) t None)); done.
  - cwp_steps; try done. eapply cwp_mono; [apply newRelease_pure|]. intros [i|err] c' ->; cwp_steps; [|done].
    by apply (add_offer_ok c1 record (mkOfferRec offer (env_sender e) t (Some i))).
Qed.

Lemma Handle_ok envelope : keeps_ok (Handle envelope).
Proof.
  intros c Hok. unfold Handle. destruct (ValidateEnvelope envelope) as [[]|err] eqn:Hv; [|by apply cwp_ret].
  destruct envelope as [e|]; [|by apply cwp_ret].
  destruct (env_payload e) as [[| [offer|] | | | [] | | | [] | [] | | [] | | [] | | []]|] eqn:Hp; try (by apply cwp_ret).
  - apply handleOffer_ok; [|done]. unfold ValidateEnvelope in Hv. ok_steps. unfold validatePayload in Hv.
    rewrite Hp in Hv. unfold validateOffer in Hv. unfold required in *. ok_steps. by guards.
  - by apply handleState_ok.
  - by apply handleReleaseAck_ok.
  - by apply handleError_ok.
  - unfold handleLogsLocked. cwp_steps; done.
  - by apply handleRenewAck_ok.
  - unfold handleTunnelOpenAckLocked. cwp_steps; done.
Qed.
End preserve.
