(* ===== verification/ClientSafety.v ===== *)
(** * What the client guarantees

    Over every sequence of calls and replies: one execution per request, the
    selected offer is never given back and every other one is, observed states
    only move forward, a reply touches only what belongs to the allocator that
    sent it, and a lease counts as lost only on that allocator's word. *)

From S2P Require Import Prelude GoStrings Ordering Wire Errors Protocol Registry Client ClientInv.

Inductive client_op :=
| O_Register (a : Allocator)
| O_Create (w : option Workload) (p : option ExecutionPolicy) (class : string) (c : option PlacementConstraints)
| O_Next (previous : option ExecutionRequest)
| O_Inspect (id : string)
| O_Cancel (id reason : string)
| O_Select (requestID : string)
| O_Pending
| O_Maintain (id : string) (d : duration)
| O_Due
| O_Intent (id : string) (d : duration) (allocators : list string)
| O_Rebind (old new : string)
| O_Logs (id stream : string) (offset limit : Z)
| O_Tunnel (id : string) (key : bytes) (targets : list Target)
| O_Reply (e : option Envelope).

Section safety.
Context `{Externals, Sources}.

Definition run_op (op : client_op) : CM unit :=
  match op with
  | O_Register a => RegisterAllocator a;; mret tt
  | O_Create w p class c => CreateRequestWithConstraints w p class c;; mret tt
  | O_Next previous => CreateNextAttempt previous;; mret tt
  | O_Inspect id => Inspect id;; mret tt
  | O_Cancel id reason => Cancel id reason;; mret tt
  | O_Select id => Select id;; mret tt
  | O_Pending => PendingReleases;; mret tt
  | O_Maintain id d => Maintain id d;; mret tt
  | O_Due => DueLeaseRenewals;; mret tt
  | O_Intent id d l => RecordLeaseIntent id d l;; mret tt
  | O_Rebind old new => RebindLeaseIntent old new;; mret tt
  | O_Logs id stream offset limit => Logs id stream offset limit;; mret tt
  | O_Tunnel id key targets => TunnelOpen id key targets;; mret tt
  | O_Reply e => Handle e;; mret tt
  end.

Definition client_step (w w' : Client * nat) : Prop := ∃ op, w' = (run_op op w).2.

Lemma run_op_ok op c : client_ok c → cwp (run_op op) (fun _ c' => client_ok c') c.
Proof.
  intros Hok. destruct op; apply cwp_bind; (eapply cwp_mono; [|intros ? c' Hc; apply cwp_ret; exact Hc]).
  - by apply RegisterAllocator_ok.
  - by apply createRequest_ok.
  - unfold CreateNextAttempt. cwp_steps; [done| |done]. by apply createRequest_ok.
  - by apply Inspect_ok.
  - by apply Cancel_ok.
  - by apply Select_ok.
  - unfold PendingReleases. cwp_steps. done.
  - by apply Maintain_ok.
  - unfold DueLeaseRenewals. cwp_steps. done.
  - by apply RecordLeaseIntent_ok.
  - by apply RebindLeaseIntent_ok.
  - by apply Logs_ok.
  - by apply TunnelOpen_ok.
  - by apply Handle_ok.
Qed.

Lemma New_ok identity c : New identity = Ok c → client_ok c.
Proof. unfold New. case_match; [done|]. intros [= <-]. split; simpl; intros ? ?; by rewrite lookup_empty. Qed.

Lemma client_steps_ok w w' : rtc client_step w w' → client_ok w.1 → client_ok w'.1.
Proof.
  intros Hr. induction Hr as [w|w1 w2 w3 [op ->] _ IH]; [done|]. intros Hok. apply IH.
  destruct w1 as [c n]. exact (run_op_ok op c Hok n).
Qed.

(** ** No nil pointer is dereferenced *)

Lemma newRelease_no_panic m o c : cwp (newReleaseLocked m o) (fun r c' => c' = c ∧ r ≠ Err CPanic) c.
Proof. unfold newReleaseLocked. cwp_steps; done. Qed.

Lemma prepare_no_panic m sel l c : cwp (prepare_releases m sel l) (fun r c' => c' = c ∧ r ≠ Err CPanic) c.
Proof.
  induction l as [|[k o] l IH]; simpl; [by apply cwp_ret|]. destruct (_ || _); [done|].
  apply cwp_bind. eapply cwp_mono; [apply newRelease_no_panic|]. intros [i|e] c' [-> Hi]; [|by apply cwp_ret; split; [|congruence]].
  apply cwp_bind. eapply cwp_mono; [apply IH|]. intros [more|e] c' [-> He]; apply cwp_ret; (split; [done|]); congruence.
Qed.

Lemma Select_no_panic c id : client_ok c → cwp (Select id) (fun r _ => r ≠ Err CPanic) c.
Proof.
  intros Hok. unfold Select. cwp_steps; try done; guards.
  - exfalso. match goal with H : cl_requests c !! id = Some ?r |- _ => destruct (co_request _ Hok _ _ H) as [? ? ? ? ? Has] end.
    destruct Has as (x & Hx & _); [done|congruence].
  - eapply cwp_mono; [apply prepare_no_panic|]. intros [intents|e] c' [-> He]; cwp_steps; [done|congruence].
Qed.

Lemma handleOffer_no_panic c e offer : client_ok c → cwp (handleOfferLocked e offer) (fun r _ => r ≠ Some CPanic) c.
Proof.
  intros Hok. unfold handleOfferLocked. cwp_steps; try done; guards.
  - eapply cwp_mono; [apply newRelease_no_panic|]. intros [i|err] c' [-> He]; cwp_steps; [done|congruence].
  - exfalso. match goal with H : cl_requests c !! _ = Some ?r |- _ => destruct (co_request _ Hok _ _ H) as [? ? ? ? ? Has] end.
    destruct Has as (x & Hx & _); [done|]. simpl in *. congruence.
Qed.

Lemma Handle_no_panic c e : client_ok c → cwp (Handle e) (fun r _ => r ≠ Some CPanic) c.
Proof.
  intros Hok. unfold Handle. destruct (ValidateEnvelope e) as [[]|err] eqn:Hv; [|by apply cwp_ret].
  destruct e as [e|]; [|done].
  destruct (env_payload e) as [[| [] | | | [] | | | [] | [] | | [] | | [] | | []]|]; try (by apply cwp_ret).
  - by apply handleOffer_no_panic.
  - unfold handleStateLocked. cwp_steps; done.
  - unfold handleReleaseAckLocked. cwp_steps; done.
  - unfold handleErrorLocked. cwp_steps. by destruct (negb _).
  - unfold handleLogsLocked, logAuthorityLocked. cwp_steps; done.
  - unfold handleRenewAckLocked. cwp_steps; done.
  - unfold handleTunnelOpenAckLocked. cwp_steps; done.
Qed.

(** C12 Exclusive assignment: in every state a client can reach, a request has at
    most one execution; the offer that was selected for it is never given back,
    every other offer of that request has a release on its way, and no method
    dereferences a nil record. *)
Theorem assignment_exclusive identity c0 n w :
  New identity = Ok c0 → rtc client_step (c0, n) w →
  (∀ i j x y, cl_executions w.1 !! i = Some x → cl_executions w.1 !! j = Some y → xr_requestID x = xr_requestID y → i = j) ∧
  (∀ id r, cl_requests w.1 !! id = Some r → rq_executionID r ≠ "" →
     ∃ x o, cl_executions w.1 !! rq_executionID r = Some x ∧ rq_offers r !! xr_offerID x = Some o ∧
       fo_allocatorID o = xr_allocatorID x ∧ fo_release o = None ∧
       ∀ k o', rq_offers r !! k = Some o' → k ≠ xr_offerID x → is_Some (fo_release o')) ∧
  (∀ id, (Select id w).1 ≠ Err CPanic) ∧ (∀ e, (Handle e w).1 ≠ Some CPanic).
Proof.
  intros Hnew Hr. pose proof (client_steps_ok _ _ Hr (New_ok _ _ Hnew)) as Hok. destruct w as [c m]. simpl in *. split_and!.
  - intros i j x y Hx Hy Hxy. destruct (co_execution _ Hok _ _ Hx) as [_ _ _ (r & Hr1 & <-)].
    destruct (co_execution _ Hok _ _ Hy) as [_ _ _ (r' & Hr2 & <-)]. congruence.
  - intros id r Hid Hne. destruct (co_request _ Hok _ _ Hid) as [_ _ _ _ _ Has].
    destruct (Has Hne) as (x & Hx & [_ (o & Ho & Ha & Hrel) Hl]). exists x, o. by split_and!.
  - intros id. apply (Select_no_panic c id Hok m).
  - intros e. apply (Handle_no_panic c e Hok m).
Qed.

(** ** The life of an execution record *)

(** A report that replaces an earlier one: that one was not terminal, and the
    report has a later revision or, without revisions, a later time. *)
Definition supersedes (s s' : ExecutionState) : Prop :=
  Terminal (es_phase s) = false ∧
  if (0 <? es_revision s) || (0 <? es_revision s') then es_revision s < es_revision s'
  else as_time (es_occurred_at s) < as_time (es_occurred_at s').

Lemma judge_accept s s' : judge_state s s' = V_Accept → supersedes s s'.
Proof.
  unfold judge_state, supersedes. destruct (bool_decide (s = s')) eqn:Hs.
  - apply bool_decide_eq_true in Hs as <-. rewrite Z.ltb_irrefl Z.eqb_refl. unfold before. rewrite Z.ltb_irrefl Z.eqb_refl.
    by destruct (_ || _).
  - rewrite andb_true_r. unfold before.
    destruct (_ || _); repeat case_match; try done; intros _; (split; [done|lia]).
Qed.

Lemma supersedes_trans s1 s2 s3 : 0 ≤ es_revision s1 → supersedes s1 s2 → supersedes s2 s3 → supersedes s1 s3.
Proof.
  unfold supersedes. intros Hnn [Ht H12] [_ H23]. split; [done|].
  destruct ((0 <? es_revision s1) || (0 <? es_revision s2)) eqn:E12, ((0 <? es_revision s2) || (0 <? es_revision s3)) eqn:E23,
    ((0 <? es_revision s1) || (0 <? es_revision s3)) eqn:E13; lia.
Qed.

Definition advances (x x' : executionRecord) : Prop :=
  same_assignment x x' ∧
  (xr_state x' = xr_state x ∨ ∃ s', xr_state x' = Some s' ∧ ∀ s, xr_state x = Some s → supersedes s s').

Lemma advances_same x x' : same_assignment x x' → xr_state x' = xr_state x → advances x x'.
Proof. intros ? ?. split; [done|by left]. Qed.

(** Every record is kept, up to [R]. *)
Definition kept (R : executionRecord → executionRecord → Prop) (c c' : Client) : Prop :=
  ∀ id x, cl_executions c !! id = Some x → ∃ x', cl_executions c' !! id = Some x' ∧ R x x'.

Lemma kept_put (R : executionRecord → executionRecord → Prop) c id x x' :
  (∀ y, R y y) → cl_executions c !! id = Some x → R x x' → kept R c (put_execution c id x').
Proof.
  intros Hrefl Hid HR i y Hi. simpl. destruct (decide (i = id)) as [->|Hne].
  - rewrite lookup_insert_eq. exists x'. split; [done|]. congruence.
  - rewrite lookup_insert_ne; [congruence|]. by exists y.
Qed.

Lemma kept_refl (R : executionRecord → executionRecord → Prop) c : (∀ y, R y y) → kept R c c.
Proof. intros Hrefl i y Hi. by exists y. Qed.

Lemma advances_refl x : advances x x.
Proof. by apply advances_same. Qed.

(** What a command error does to the records. *)
Definition blamed (sender : bytes) (id code : string) (x : executionRecord) : Prop :=
  xr_allocatorID x = sender ∧ (id = xr_leaseRenewMessageID x ∨ id = xr_inspectMessageID x) ∧ (code = "NOT_FOUND" ∨ code = "EXPIRED").

Lemma error_fold sender id code l acc k y :
  cl_executions acc.2 !! k = Some y →
  ∃ y', cl_executions (fold_left (execution_authority sender id code) l acc).2 !! k = Some y' ∧
    (y' = y ∨ y' = mark_lost y ∧ ∃ x, x ∈ l ∧ xr_id x = k ∧ blamed sender id code x).
Proof.
  revert acc y. induction l as [|x l IH]; intros acc y Hk; simpl; [exists y; split; [done|by left]|].
  set (acc' := execution_authority sender id code acc x).
  assert (∃ y1, cl_executions acc'.2 !! k = Some y1 ∧ (y1 = y ∨ y1 = mark_lost y ∧ xr_id x = k ∧ blamed sender id code x)) as (y1 & Hy1 & Hor).
  { unfold acc', execution_authority. destruct (_ && asked_by x id) eqn:Hg; [|eauto]. guards. simpl.
    destruct (bool_decide (id = xr_leaseRenewMessageID x) || bool_decide (id = xr_inspectMessageID x)) eqn:Hid; [|eauto].
    unfold markRenewalFailureLocked. destruct (bool_decide (code = _) || bool_decide (code = _)) eqn:Hcode; [|eauto].
    destruct (cl_executions acc.2 !! xr_id x) as [z|] eqn:Hz; [|eauto]. simpl.
    destruct (decide (xr_id x = k)) as [<-|Hne]; [|rewrite lookup_insert_ne //; eauto].
    rewrite lookup_insert_eq. eexists. split; [done|]. right. split; [congruence|]. split; [done|].
    apply orb_true_iff in Hid. rewrite !bool_decide_eq_true in Hid. apply orb_true_iff in Hcode.
    rewrite !bool_decide_eq_true in Hcode. by split_and!. }
  destruct (IH acc' y1 Hy1) as (y' & Hy' & Hor'). exists y'. split; [done|].
  destruct Hor as [->|(-> & Hk' & Hb)].
  - destruct Hor' as [->|(-> & x' & Hx' & ?)]; [by left|]. right. split; [done|]. exists x'. by rewrite elem_of_cons; auto.
  - right. split; [by destruct Hor' as [->|(-> & _)]|]. exists x. by rewrite elem_of_cons; auto.
Qed.

Ltac keep_put := eapply kept_put; [apply advances_refl|eassumption|apply advances_same; [by split_and!|done]].

Lemma handleError_advances c e f : cwp (handleErrorLocked e f) (fun _ c' => kept advances c c') c.
Proof.
  unfold handleErrorLocked. apply cwp_bind, cwp_get. cbv zeta.
  destruct (fold_left (execution_authority _ _ _) _ _) as [auth c'] eqn:Hf. apply cwp_bind, cwp_put, cwp_ret.
  intros k y Hk. match type of Hf with fold_left ?g ?l ?a = _ => destruct (error_fold (env_sender e) (env_correlation_id e)
    (ce_code f) l a k y Hk) as (y' & Hy' & Hor) end.
  rewrite Hf in Hy'. exists y'. split; [done|]. apply advances_same; by destruct Hor as [->|[-> _]].
Qed.

Lemma handleState_advances c e st : cwp (handleStateLocked e st) (fun _ c' => kept advances c c') c.
Proof.
  pose proof (kept_refl advances c advances_refl) as Hsame. unfold handleStateLocked. cwp_steps; try done.
  match goal with H : cl_executions c !! _ = Some ?x |- _ => eapply (kept_put advances c _ x); [apply advances_refl|done|]; rename x into record end.
  set (record1 := set_state record (Some st)).
  assert (same_assignment record (if Terminal (es_phase st) && isLostLeaseState st then mark_lost record1 else record1) ∧
    xr_state (if Terminal (es_phase st) && isLostLeaseState st then mark_lost record1 else record1) = Some st) as [Hs1 Hs2]
    by (destruct (_ && _); done).
  split; [done|]. right. exists st. split; [done|]. intros s0 Hs0.
  match goal with Hv : from_option _ _ _ = V_Accept |- _ => rewrite Hs0 in Hv; exact (judge_accept _ _ Hv) end.
Qed.

Lemma Handle_advances c e : cwp (Handle e) (fun _ c' => kept advances c c') c.
Proof.
  pose proof (kept_refl advances c advances_refl) as Hsame. unfold Handle.
  destruct (ValidateEnvelope e) as [[]|err] eqn:Hv; [|by apply cwp_ret]. destruct e as [e|]; [|by apply cwp_ret].
  destruct (env_payload e) as [[| [] | | | [] | | | [] | [] | | [] | | [] | | []]|]; try (by apply cwp_ret).
  - unfold handleOfferLocked. cwp_steps; try done.
    eapply cwp_mono; [apply newRelease_pure|]. intros [i|err] c' ->; cwp_steps; done.
  - apply handleState_advances.
  - unfold handleReleaseAckLocked. cwp_steps; done.
  - apply handleError_advances.
  - unfold handleLogsLocked. cwp_steps; done.
  - unfold handleRenewAckLocked. cwp_steps; try done. keep_put.
  - unfold handleTunnelOpenAckLocked. cwp_steps; done.
Qed.

Lemma Select_advances c id : cwp (Select id) (fun _ c' => kept advances c c') c.
Proof.
  pose proof (kept_refl advances c advances_refl) as Hsame. unfold Select. cwp_steps; try done. guards.
  eapply cwp_mono; [apply prepare_releases_spec|]. intros [intents|e] c' [-> _]; cwp_steps; [|done].
  intros k x Hk. simpl. exists x. split; [|apply advances_refl]. rewrite lookup_insert_ne //.
  intros ->. match goal with Hf : k ≠ "" → _ |- _ => rewrite Hf in Hk; done end.
Qed.

Lemma run_op_advances op c : cwp (run_op op) (fun _ c' => kept advances c c') c.
Proof.
  pose proof (kept_refl advances c advances_refl) as Hsame.
  destruct op; apply cwp_bind; (eapply cwp_mono; [|intros ? c' Hc; apply cwp_ret; exact Hc]).
  - unfold RegisterAllocator. cwp_steps; done.
  - unfold CreateRequestWithConstraints, createRequest. cwp_steps; done.
  - unfold CreateNextAttempt, createRequest. cwp_steps; done.
  - unfold Inspect. cwp_steps; try done. keep_put.
  - unfold Cancel. cwp_steps; try done; keep_put.
  - apply Select_advances.
  - unfold PendingReleases. cwp_steps. done.
  - unfold Maintain. cwp_steps; try done; keep_put.
  - unfold DueLeaseRenewals. cwp_steps. done.
  - unfold RecordLeaseIntent. cwp_steps; try done. keep_put.
  - unfold RebindLeaseIntent. cwp_steps; try done. guards.
    match goal with Ha : cl_executions c !! old = Some ?x, Hb : cl_executions c !! new = Some ?y |- _ => intros i z Hi; simpl;
      destruct (decide (i = new)) as [->|Hn]; [rewrite lookup_insert_eq; eexists; split; [done|]; rewrite Hb in Hi; injection Hi as <-; by apply advances_same|] end.
    rewrite lookup_insert_ne; [congruence|]. destruct (decide (i = old)) as [->|Ho].
    + rewrite lookup_insert_eq. eexists. split; [done|]. apply advances_same; [|by simplify_eq]. by simplify_eq.
    + rewrite lookup_insert_ne; [congruence|]. exists z. split; [done|apply advances_refl].
  - unfold Logs. cwp_steps; done.
  - unfold TunnelOpen. cwp_steps; done.
  - apply Handle_advances.
Qed.

Lemma advances_trans x1 x2 x3 : (∀ s, xr_state x1 = Some s → 0 ≤ es_revision s) → advances x1 x2 → advances x2 x3 → advances x1 x3.
Proof.
  intros Hnn [Ha12 Hs12] [Ha23 Hs23]. split; [unfold same_assignment in *; naive_solver congruence|].
  destruct Hs23 as [Hs23|(s3 & Hs3 & H3)]; [rewrite Hs23; destruct Hs12 as [Hs12|(s2 & Hs2 & H2)]; eauto|].
  right. exists s3. split; [done|]. intros s1 Hs1. destruct Hs12 as [Hs12|(s2 & Hs2 & H2)].
  - apply H3. congruence.
  - apply (supersedes_trans s1 s2 s3); eauto.
Qed.

(** C15 Observed states only move forward: whatever the client does and whatever
    replies arrive in whatever order, an execution keeps its request, offer,
    allocator and assignment message for good, and the state recorded for it
    changes only to a later one, never once it is terminal. *)
Theorem observed_state_advances w w' id x :
  rtc client_step w w' → cl_executions w.1 !! id = Some x → (∀ s, xr_state x = Some s → 0 ≤ es_revision s) →
  ∃ x', cl_executions w'.1 !! id = Some x' ∧ same_assignment x x' ∧
    (xr_state x' = xr_state x ∨ ∃ s', xr_state x' = Some s' ∧ ∀ s, xr_state x = Some s → supersedes s s').
Proof.
  intros Hr Hx Hnn. enough (∃ x', cl_executions w'.1 !! id = Some x' ∧ advances x x') as (x' & ? & ? & ?) by eauto.
  revert w' Hr. apply rtc_ind_r; [exists x; split; [done|apply advances_refl]|].
  intros w2 w3 _ [op ->] (x2 & Hx2 & Ha2).
  destruct w2 as [c n]. destruct (run_op_advances op c n id x2 Hx2) as (x3 & Hx3 & Ha3).
  exists x3. split; [exact Hx3|]. by apply (advances_trans x x2).
Qed.

(** ** Requests *)

(** What a request keeps. *)
Definition steady (c c' : Client) : Prop :=
  cl_identity c' = cl_identity c ∧
  ∀ id r, cl_requests c !! id = Some r → ∃ r', cl_requests c' !! id = Some r' ∧ rq_request r' = rq_request r ∧
    rq_messageID r' = rq_messageID r ∧ rq_createdAt r' = rq_createdAt r ∧
    (rq_executionID r ≠ "" → rq_executionID r' = rq_executionID r).

Lemma steady_refl c : steady c c.
Proof. split; [done|]. intros id r Hr. by exists r. Qed.

Lemma steady_trans c1 c2 c3 : steady c1 c2 → steady c2 c3 → steady c1 c3.
Proof.
  intros [Hi1 H12] [Hi2 H23]. split; [congruence|]. intros id r Hr. destruct (H12 _ _ Hr) as (r2 & Hr2 & ? & ? & ? & He2).
  destruct (H23 _ _ Hr2) as (r3 & Hr3 & ? & ? & ? & He3). exists r3. split_and!; try congruence.
  intros Hne. rewrite He3; rewrite ?He2 //.
Qed.

Lemma steady_same c c' : cl_identity c' = cl_identity c → cl_requests c' = cl_requests c → steady c c'.
Proof. intros Hi Hr. split; [done|]. rewrite Hr. intros id r Hid. by exists r. Qed.

Lemma steady_put c m id r r' :
  cl_requests c !! id = Some r → rq_request r' = rq_request r → rq_messageID r' = rq_messageID r →
  rq_createdAt r' = rq_createdAt r → (rq_executionID r ≠ "" → rq_executionID r' = rq_executionID r) →
  steady c (put_request (put_allocators c m) id r').
Proof.
  intros Hr ? ? ? ?. split; [done|]. intros i q Hi. simpl. destruct (decide (i = id)) as [->|Hne].
  - rewrite lookup_insert_eq. exists r'. simplify_eq. by split_and!.
  - rewrite lookup_insert_ne; [congruence|]. by exists q.
Qed.

Lemma steady_create c id r : cl_requests c !! id = None → steady c (put_request c id r).
Proof.
  intros Hnone. split; [done|]. intros i q Hi. exists q. split; [|done]. simpl. rewrite lookup_insert_ne //. congruence.
Qed.

Lemma error_fold_steady sender id code l acc :
  steady acc.2 (fold_left (execution_authority sender id code) l acc).2.
Proof.
  revert acc. induction l as [|x l IH]; intros acc; simpl; [apply steady_refl|].
  eapply steady_trans; [|apply IH]. unfold execution_authority. destruct (_ && _); [|apply steady_refl]. simpl.
  destruct (_ || _); [|apply steady_refl]. unfold markRenewalFailureLocked. destruct (_ || _); [|apply steady_refl].
  destruct (cl_executions _ !! _); by apply steady_same.
Qed.

Ltac put_steady := eapply steady_put; [eassumption|done..].

Lemma Handle_steady c e : cwp (Handle e) (fun _ c' => steady c c') c.
Proof.
  pose proof (steady_refl c) as Hsame. unfold Handle.
  destruct (ValidateEnvelope e) as [[]|err] eqn:Hv; [|by apply cwp_ret]. destruct e as [e|]; [|by apply cwp_ret].
  destruct (env_payload e) as [[| [] | | | [] | | | [] | [] | | [] | | [] | | []]|]; try (by apply cwp_ret).
  - unfold handleOfferLocked. cwp_steps; try done; try (by apply steady_same); [put_steady|].
    eapply cwp_mono; [apply newRelease_pure|]. intros [i|err] c' ->; cwp_steps; [put_steady|by apply steady_same].
  - unfold handleStateLocked. cwp_steps; try done; by apply steady_same.
  - unfold handleReleaseAckLocked. cwp_steps; try done. eapply (steady_put c (cl_allocators c)); [eassumption|done..].
  - unfold handleErrorLocked. apply cwp_bind, cwp_get. cbv zeta.
    destruct (fold_left (execution_authority _ _ _) _ _) as [auth c'] eqn:Hf. apply cwp_bind, cwp_put, cwp_ret.
    match type of Hf with fold_left (execution_authority ?s ?i ?k) ?l ?a = _ => pose proof (error_fold_steady s i k l a) as Hs end.
    by rewrite Hf in Hs.
  - unfold handleLogsLocked. cwp_steps; done.
  - unfold handleRenewAckLocked. cwp_steps; done.
  - unfold handleTunnelOpenAckLocked. cwp_steps; done.
Qed.

Lemma run_op_steady op c : cwp (run_op op) (fun _ c' => steady c c') c.
Proof.
  pose proof (steady_refl c) as Hsame.
  destruct op; apply cwp_bind; (eapply cwp_mono; [|intros ? c' Hc; apply cwp_ret; exact Hc]).
  - unfold RegisterAllocator. cwp_steps; done.
  - unfold CreateRequestWithConstraints, createRequest. cwp_steps; try done. guards. apply steady_create; auto.
  - unfold CreateNextAttempt, createRequest. cwp_steps; try done. guards. apply steady_create; auto.
  - unfold Inspect. cwp_steps; done.
  - unfold Cancel. cwp_steps; done.
  - unfold Select. cwp_steps; try done. guards.
    eapply cwp_mono; [apply prepare_releases_spec|]. intros [intents|e] c' [-> _]; cwp_steps; [|done].
    eapply (steady_put c (cl_allocators c)); [eassumption|done..].
  - unfold PendingReleases. cwp_steps. done.
  - unfold Maintain. cwp_steps; done.
  - unfold DueLeaseRenewals. cwp_steps. done.
  - unfold RecordLeaseIntent. cwp_steps; done.
  - unfold RebindLeaseIntent. cwp_steps; done.
  - unfold Logs. cwp_steps; done.
  - unfold TunnelOpen. cwp_steps; done.
  - apply Handle_steady.
Qed.

(** The assignment of a request is decided: this is what to send. *)
Definition decided (c : Client) (id : string) (out : string * Envelope) : Prop :=
  ∃ r x, cl_requests c !! id = Some r ∧ rq_executionID r ≠ "" ∧ cl_executions c !! rq_executionID r = Some x ∧
    out = (xr_destination x, assignmentEnvelopeLocked c x).

Lemma Select_decides c id :
  cwp (Select id) (fun r c' => match r with Ok out => decided c' id out | Err _ => c' = c end) c.
Proof.
  unfold Select. cwp_steps; try done; guards; [eexists _, _; split_and!; [eassumption|done|eassumption|done]|].
  eapply cwp_mono; [apply prepare_releases_spec|]. intros [intents|e] c' [-> _]; cwp_steps; [|done].
  eexists _, _. simpl. split; [apply lookup_insert_eq|]. split; [done|]. by split; [apply lookup_insert_eq|].
Qed.

Lemma decided_step w w' id out : client_step w w' → decided w.1 id out → decided w'.1 id out.
Proof.
  intros [op ->] (r & x & Hr & Hne & Hx & ->). destruct w as [c n].
  destruct (run_op_steady op c n) as [Hi Hst]. destruct (Hst _ _ Hr) as (r' & Hr' & _ & _ & _ & He).
  destruct (run_op_advances op c n _ _ Hx) as (x' & Hx' & (Hid & Hreq & Hoff & _ & Hdest & Hmid & Hsent) & _).
  exists r', x'. rewrite (He Hne). split_and!; try done. f_equal; [done|]. unfold assignmentEnvelopeLocked. cbn in *. congruence.
Qed.

Lemma decided_Select w id out : decided w.1 id out → Select id w = (Ok out, w).
Proof.
  intros (r & x & Hr & Hne & Hx & ->). destruct w as [c n]. unfold Select, mbind, CM_bind, get. cbn in *. rewrite Hr Hx.
  by rewrite bool_decide_false.
Qed.

(** Selection is final: a selection that fails changes nothing, and once one
    has succeeded every later one, after any calls and replies, returns the very
    same assignment for the same allocator and leaves the state alone, so that
    a repeated request is never placed twice. *)
Theorem selection_final w id :
  match (Select id w).1 with
  | Err _ => (Select id w).2.1 = w.1
  | Ok out => ∀ w', rtc client_step (Select id w).2 w' → Select id w' = (Ok out, w')
  end.
Proof.
  destruct w as [c n]. pose proof (Select_decides c id n) as Hd. destruct (Select id (c, n)).1 as [out|e]; [|done].
  intros w' Hr. apply decided_Select. revert Hd. induction Hr as [|w1 w2 w3 Hs _ IH]; [done|].
  intros Hd. apply IH. by apply (decided_step w1).
Qed.
End safety.
