(* ===== verification/ClientReplies.v ===== *)
(** * What a reply may change

    [Handle] reacts to an allocator's message.  Whatever the message says, it
    changes only the executions assigned to its sender, the offers its sender
    made and the route to its sender; a lease is marked lost only on the word of
    the allocator that holds it. *)

From S2P Require Import Prelude GoStrings Ordering Wire Errors Protocol Registry Client ClientInv ClientSafety.

Section replies.
Context `{Externals, Sources}.

(** ** Frames *)

(** An offer is new and the sender's, or was the sender's and only its release moved. *)
Definition offer_of (sender : bytes) (before after : option offerRecord) : Prop :=
  after = before ∨ ∃ o', after = Some o' ∧ fo_allocatorID o' = sender ∧
    ∀ o, before = Some o → fo_allocatorID o = sender ∧ fo_offer o' = fo_offer o ∧ fo_receivedAt o' = fo_receivedAt o.

Definition request_of (sender : bytes) (r r' : requestRecord) : Prop :=
  rq_request r' = rq_request r ∧ rq_messageID r' = rq_messageID r ∧ rq_createdAt r' = rq_createdAt r ∧
  rq_executionID r' = rq_executionID r ∧ ∀ k, offer_of sender (rq_offers r !! k) (rq_offers r' !! k).

Record frame (sender : bytes) (c c' : Client) : Prop := {
  fr_self : cl_identity c' = cl_identity c ∧ cl_logMessageID c' = cl_logMessageID c ∧ cl_logRequest c' = cl_logRequest c;
  fr_executions id : cl_executions c' !! id = cl_executions c !! id ∨
    ∃ x x', cl_executions c !! id = Some x ∧ cl_executions c' !! id = Some x' ∧ xr_allocatorID x = sender ∧ same_assignment x x';
  fr_requests id : cl_requests c' !! id = cl_requests c !! id ∨
    ∃ r r', cl_requests c !! id = Some r ∧ cl_requests c' !! id = Some r' ∧ request_of sender r r';
  fr_routes k : k ≠ hex_encode sender → cl_allocators c' !! k = cl_allocators c !! k
}.

(** What a rejected reply leaves alone. *)
Definition frame_unless (sender : bytes) (c : Client) (err : option client_error) (c' : Client) : Prop :=
  frame sender c c' ∧ (is_Some err → cl_requests c' = cl_requests c ∧ cl_executions c' = cl_executions c).

Lemma frame_refl sender c : frame sender c c.
Proof. by split; auto. Qed.

Lemma frame_reject sender c err : frame_unless sender c err c.
Proof. split; [apply frame_refl|done]. Qed.

Lemma frame_execution sender c id x x' :
  cl_executions c !! id = Some x → xr_allocatorID x = sender → same_assignment x x' →
  frame_unless sender c None (put_execution c id x').
Proof.
  intros Hx Ha Hs. split; [|by intros []]. split; [done| |by left|done]. intros i. simpl. destruct (decide (id = i)) as [<-|Hne].
  - right. exists x, x'. by rewrite lookup_insert_eq.
  - left. by rewrite lookup_insert_ne.
Qed.

Lemma frame_offer sender c m id r k o' :
  (∀ k, k ≠ hex_encode sender → m !! k = cl_allocators c !! k) →
  cl_requests c !! id = Some r → offer_of sender (rq_offers r !! k) (Some o') →
  frame_unless sender c None (put_request (put_allocators c m) id (set_offers r (<[k := o']> (rq_offers r)))).
Proof.
  intros Hm Hr Ho. split; [|by intros []]. split; [done|by left| |done]. intros i. simpl. destruct (decide (id = i)) as [<-|Hne].
  - right. exists r. eexists. rewrite lookup_insert_eq. split_and!; [done|done|]. split_and!; [done..|]. intros j. simpl.
    destruct (decide (k = j)) as [<-|Hj]; [by rewrite lookup_insert_eq|rewrite lookup_insert_ne //; by left].
  - left. by rewrite lookup_insert_ne.
Qed.

Lemma frame_route sender c m err :
  (∀ k, k ≠ hex_encode sender → m !! k = cl_allocators c !! k) → frame_unless sender c err (put_allocators c m).
Proof. intros Hm. by split; [split; auto|]. Qed.

(** ** Each reply *)

Lemma refreshed_other c a offer sender k :
  client_ok c → lookup_route (cl_allocators c) sender = Some a → k ≠ hex_encode sender →
  refreshed (cl_allocators c) a offer !! k = cl_allocators c !! k.
Proof.
  intros Hok Ha Hk. unfold refreshed. case_match; [|done]. destruct (negb _); [|done]. unfold put_route.
  rewrite lookup_insert_ne //. destruct (co_route _ Hok _ _ Ha) as (Hid & _). cbn [refresh_route ar_Identity]. congruence.
Qed.

Lemma handleOffer_frame c e offer : client_ok c → cwp (handleOfferLocked e offer) (frame_unless (env_sender e) c) c.
Proof.
  intros Hok. unfold handleOfferLocked. apply cwp_bind, cwp_get. destruct (cl_requests c !! _) as [record|] eqn:Hr; [|apply cwp_ret, frame_reject].
  destruct (_ || _); [apply cwp_ret, frame_reject|]. destruct (lookup_route _ _) as [a|] eqn:Ha; [|apply cwp_ret, frame_reject].
  pose proof (refreshed_other c a offer (env_sender e)) as Hm.
  apply cwp_bind, cwp_put. cbv zeta.
  destruct (rq_offers record !! _) as [o|] eqn:Ho; [cwp_steps; apply frame_route; auto|].
  apply cwp_bind, cwp_now. intros t.
  assert (∀ i, offer_of (env_sender e) (rq_offers record !! eo_offer_id offer) (Some (mkOfferRec offer (env_sender e) t i))) as Hnew.
  { intros i. right. eexists. split; [done|]. split; [done|]. congruence. }
  destruct (bool_decide (rq_executionID record = "")); [cwp_steps; apply frame_offer; auto|].
  cwp_steps; try (apply frame_route; auto).
  eapply cwp_mono; [apply newRelease_pure|]. intros [i|err] c' ->; cwp_steps; [|apply frame_route; auto].
  apply frame_offer; [auto|done|apply Hnew].
Qed.

Lemma error_fold_frame sender id code c l acc :
  client_ok c → (∀ x, x ∈ l → cl_executions c !! xr_id x = Some x) →
  frame_unless sender c (if acc.1 : bool then None else Some CPanic) acc.2 →
  let acc' := fold_left (execution_authority sender id code) l acc in
  frame_unless sender c (if acc'.1 : bool then None else Some CPanic) acc'.2.
Proof.
  intros Hok. revert acc. induction l as [|x l IH]; intros acc Hl Hf; simpl; [done|]. apply IH; [set_solver|].
  unfold execution_authority. destruct (_ && asked_by x id) eqn:Hg; [|done]. guards. simpl.
  assert (frame_unless sender c None acc.2) as Hn by (split; [by destruct Hf|by intros []]).
  destruct (_ || _); [|done]. unfold markRenewalFailureLocked. destruct (_ || _); [|done].
  destruct (cl_executions acc.2 !! xr_id x) as [z|] eqn:Hz; [|done]. destruct Hn as [[Hs He Hr Hrt] _].
  split; [|by intros []]. split; [done| |done|done]. intros i. simpl. pose proof (Hl x ltac:(set_solver)) as Hx.
  destruct (decide (xr_id x = i)) as [<-|Hne]; [|by rewrite lookup_insert_ne].
  right. rewrite lookup_insert_eq. exists x. eexists. split_and!; [done..|].
  destruct (He (xr_id x)) as [Heq|(y & y' & Hy & Hy' & _ & Hs')]; [|unfold same_assignment in *; simpl; naive_solver congruence].
  rewrite Hz Hx in Heq. by simplify_eq.
Qed.

Lemma handleError_frame c e f : client_ok c → cwp (handleErrorLocked e f) (frame_unless (env_sender e) c) c.
Proof.
  intros Hok. unfold handleErrorLocked. apply cwp_bind, cwp_get. cbv zeta.
  destruct (fold_left (execution_authority _ _ _) _ _) as [auth c'] eqn:Hf. apply cwp_bind, cwp_put, cwp_ret.
  match type of Hf with fold_left (execution_authority ?s ?i ?k) ?l ?a = _ =>
    pose proof (error_fold_frame s i k c l a Hok) as Hfr end.
  rewrite Hf in Hfr. simpl in Hfr. destruct Hfr as [Hfr Hre]; [|apply frame_reject|].
  - intros x ([k y] & -> & Hy)%list_elem_of_fmap. apply elem_of_map_to_list in Hy. simpl.
    by rewrite (xo_id _ _ _ (co_execution _ Hok _ _ Hy)).
  - split; [done|]. destruct auth; simpl; [by intros []|]. intros _. by apply Hre.
Qed.

Lemma handleState_frame c e st : cwp (handleStateLocked e st) (frame_unless (env_sender e) c) c.
Proof.
  unfold handleStateLocked. cwp_steps; try apply frame_reject. guards.
  eapply frame_execution; [eassumption|done|]. by destruct (_ && _).
Qed.

Lemma handleRenewAck_frame c e ack : cwp (handleRenewAckLocked e ack) (frame_unless (env_sender e) c) c.
Proof.
  unfold handleRenewAckLocked. cwp_steps; try apply frame_reject. guards. by eapply frame_execution; [eassumption|..].
Qed.

Lemma handleReleaseAck_frame c e ack : cwp (handleReleaseAckLocked e ack) (frame_unless (env_sender e) c) c.
Proof.
  unfold handleReleaseAckLocked. cwp_steps; try apply frame_reject. guards.
  eapply (frame_offer _ c (cl_allocators c)); [done|eassumption|]. right. eexists. split; [done|]. split; [done|]. intros o' Ho'. simpl in *.
  simplify_eq. by split_and!.
Qed.

Lemma Handle_frame c e : client_ok c → cwp (Handle (Some e)) (frame_unless (env_sender e) c) c.
Proof.
  intros Hok. unfold Handle. destruct (ValidateEnvelope (Some e)) as [[]|err]; [|apply cwp_ret, frame_reject].
  destruct (env_payload e) as [[| [] | | | [] | | | [] | [] | | [] | | [] | | []]|]; try (apply cwp_ret, frame_reject).
  - by apply handleOffer_frame.
  - apply handleState_frame.
  - apply handleReleaseAck_frame.
  - by apply handleError_frame.
  - unfold handleLogsLocked. cwp_steps; apply frame_reject.
  - apply handleRenewAck_frame.
  - unfold handleTunnelOpenAckLocked. cwp_steps; apply frame_reject.
Qed.


(** ** Lost leases *)

(** Why the lease of [x], stored under [id], may count as lost after [op]. *)
Definition lost_reason (op : client_op) (id : string) (x : executionRecord) : Prop :=
  match op with
  | O_Reply (Some e) =>
    env_sender e = xr_allocatorID x ∧
    match env_payload e with
    | Some (P_CommandError (Some f)) =>
      (ce_code f = "NOT_FOUND" ∨ ce_code f = "EXPIRED") ∧
      (env_correlation_id e = xr_leaseRenewMessageID x ∨ env_correlation_id e = xr_inspectMessageID x)
    | Some (P_ExecutionState (Some s)) => es_execution_id s = id ∧ isLostLeaseState s = true
    | _ => False
    end
  | O_Maintain i _ => i = id ∧ ∃ s, xr_state x = Some s ∧ isLostLeaseState s = true
  | _ => False
  end.

(** The leases lost between two states have a reason. *)
Definition losses (R : string → executionRecord → Prop) (c c' : Client) : Prop :=
  ∀ id x x', cl_executions c !! id = Some x → cl_executions c' !! id = Some x' →
    xr_leaseLost x = false → xr_leaseLost x' = true → R id x.

Lemma losses_same R c c' : cl_executions c' = cl_executions c → losses R c c'.
Proof. intros Heq id x x' Hx Hx' ? ?. rewrite Heq Hx in Hx'. congruence. Qed.

Lemma losses_put (R : string → executionRecord → Prop) c id x x' :
  cl_executions c !! id = Some x → (xr_leaseLost x = false → xr_leaseLost x' = true → R id x) →
  losses R c (put_execution c id x').
Proof.
  intros Hid HR i y y' Hy Hy' ? ?. simpl in Hy'. apply lookup_insert_Some in Hy' as [[<- <-]|[Hne Hy']].
  - rewrite Hid in Hy. injection Hy as <-. auto.
  - rewrite Hy in Hy'. congruence.
Qed.

Ltac no_loss := try (by apply losses_same); try (eapply losses_put; [eassumption|]; cbn; congruence).

Lemma handleError_losses c e f :
  client_ok c → env_payload e = Some (P_CommandError (Some f)) →
  cwp (handleErrorLocked e f) (fun _ c' => losses (lost_reason (O_Reply (Some e))) c c') c.
Proof.
  intros Hok Hp. unfold handleErrorLocked. apply cwp_bind, cwp_get. cbv zeta.
  destruct (fold_left (execution_authority _ _ _) _ _) as [auth c'] eqn:Hf. apply cwp_bind, cwp_put, cwp_ret.
  intros k y y' Hk Hk' Hl Hl'. match type of Hf with fold_left (execution_authority ?s ?i ?d) ?l ?a = _ =>
    destruct (error_fold s i d l a k y Hk) as (z & Hz & Hor) end.
  rewrite Hf /= Hk' in Hz. injection Hz as <-. destruct Hor as [->|(-> & x & Hx & Hid & Hb)]; [congruence|].
  apply list_elem_of_fmap in Hx as ([j x'] & -> & Hj). apply elem_of_map_to_list in Hj. simpl in *.
  rewrite (xo_id _ _ _ (co_execution _ Hok _ _ Hj)) in Hid. subst j. rewrite Hk in Hj. injection Hj as <-.
  destruct Hb as (Ha & Hm & Hc). rewrite Hp. by split_and!.
Qed.

Lemma Handle_losses c e : client_ok c → cwp (Handle e) (fun _ c' => losses (lost_reason (O_Reply e)) c c') c.
Proof.
  intros Hok. unfold Handle. destruct (ValidateEnvelope e) as [[]|err] eqn:Hv; [|by apply cwp_ret, losses_same].
  destruct e as [e|]; [|by apply cwp_ret, losses_same].
  destruct (env_payload e) as [[| [] | | | [st|] | | | [] | [f|] | | [] | | [] | | []]|] eqn:Hp; try (by apply cwp_ret, losses_same).
  - unfold handleOfferLocked. cwp_steps; no_loss.
    eapply cwp_mono; [apply newRelease_pure|]. intros [i|err] c' ->; cwp_steps; no_loss.
  - unfold handleStateLocked. cwp_steps; no_loss. guards. eapply losses_put; [eassumption|]. intros Hl.
    destruct (Terminal (es_phase st) && isLostLeaseState st) eqn:Ht; cbn; [|congruence]. intros _. guards. by rewrite Hp.
  - unfold handleReleaseAckLocked. cwp_steps; no_loss.
  - by apply handleError_losses.
  - unfold handleLogsLocked. cwp_steps; no_loss.
  - unfold handleRenewAckLocked. cwp_steps; no_loss.
  - unfold handleTunnelOpenAckLocked. cwp_steps; no_loss.
Qed.

Lemma run_op_losses op c : client_ok c → cwp (run_op op) (fun _ c' => losses (lost_reason op) c c') c.
Proof.
  intros Hok. destruct op; apply cwp_bind; (eapply cwp_mono; [|intros ? c' Hc; apply cwp_ret; exact Hc]).
  - unfold RegisterAllocator. cwp_steps; no_loss.
  - unfold CreateRequestWithConstraints, createRequest. cwp_steps; no_loss.
  - unfold CreateNextAttempt, createRequest. cwp_steps; no_loss.
  - unfold Inspect. cwp_steps; no_loss.
  - unfold Cancel. cwp_steps; no_loss.
  - unfold Select. cwp_steps; no_loss. guards. eapply cwp_mono; [apply prepare_releases_spec|].
    intros [intents|e] c' [-> _]; cwp_steps; no_loss. intros k x x' Hx Hx'. simpl in Hx'.
    apply lookup_insert_Some in Hx' as [[<- <-]|[_ Hx']]; cbn; congruence.
  - unfold PendingReleases. cwp_steps. no_loss.
  - unfold Maintain. cwp_steps; no_loss. eapply losses_put; [eassumption|]. intros _ _. split; [done|].
    unfold ended in *. destruct (xr_state _) as [st|]; [by exists st|done].
  - unfold DueLeaseRenewals. cwp_steps. no_loss.
  - unfold RecordLeaseIntent. cwp_steps; no_loss.
  - unfold RebindLeaseIntent. cwp_steps; no_loss. intros k x x' Hx Hx'. simpl in Hx'.
    apply lookup_insert_Some in Hx' as [[<- <-]|[_ Hx']]; [done|].
    apply lookup_insert_Some in Hx' as [[<- <-]|[_ Hx']]; cbn; congruence.
  - unfold Logs. cwp_steps; no_loss.
  - unfold TunnelOpen. cwp_steps; no_loss.
  - by apply Handle_losses.
Qed.

End replies.
