(* ===== verification/ClientChoice.v ===== *)
(** * Which offer is selected

    [chooseWithPreferences] collects the eligible offers in the order a Go map
    yields them and sorts them.  The order it sorts by is total, so the offer it
    takes is the one best offer, whatever order the map was read in. *)

From S2P Require Import Prelude GoStrings Ordering Wire Errors Protocol Registry Client ClientInv.

(** ** The order of the sort *)

Definition rank (m : gmap string Allocator) (image : string) (o : offerRecord) : Z * (bool * (bytes * string)) :=
  (hops_of m o, (negb (cached image o), (fo_allocatorID o, eo_offer_id (fo_offer o)))).

Definition rank_compare (p q : Z * (bool * (bytes * string))) : comparison :=
  lex (Z.compare p.1 q.1) (lex (bool_compare p.2.1 q.2.1)
    (lex (bytes_compare p.2.2.1 q.2.2.1) (string_compare p.2.2.2 q.2.2.2))).

#[export] Instance rank_ordered : OrderedBy rank_compare.
Proof.
  exact (pair_ordered Z.compare _ _ (pair_ordered bool_compare _ _ (pair_ordered bytes_compare string_compare _ _))).
Qed.

Section choice.
Context `{Externals, Sources}.

Lemma better_rank m image l r : better m image l r = true ↔ rank_compare (rank m image l) (rank m image r) = Lt.
Proof.
  unfold better, rank_compare, rank, string_lt. simpl. destruct (Z.compare_spec (hops_of m l) (hops_of m r)) as [->|Hlt|Hgt].
  - rewrite Z.eqb_refl. simpl. destruct (cached image l), (cached image r); simpl; try done;
      destruct (bytes_compare _ _); simpl; try done; by destruct (string_compare _ _).
  - assert ((hops_of m l =? hops_of m r) = false) as -> by lia. simpl. split; [done|lia].
  - assert ((hops_of m l =? hops_of m r) = false) as -> by lia. simpl. split; [lia|done].
Qed.

Lemma ranked_rank m image l r : ranked m image l r ↔ rank_compare (rank m image l) (rank m image r) ≠ Gt.
Proof.
  unfold ranked. rewrite -not_true_iff_false better_rank (ord_opp (rank m image l)).
  by destruct (rank_compare _ _).
Qed.

#[export] Instance ranked_trans m image : Transitive (ranked m image).
Proof. intros x y z. rewrite !ranked_rank. apply ord_le_trans, _. Qed.
#[export] Instance ranked_total m image : Total (ranked m image).
Proof. intros x y. rewrite !ranked_rank. apply ord_le_total, _. Qed.

(** The choice is the best eligible offer, and fails only without one. *)
Lemma choose_best m offers t cons image :
  (∀ k o, offers !! k = Some o → eo_offer_id (fo_offer o) = k) →
  match chooseWithPreferences m offers t cons image with
  | None => ∀ k o, offers !! k = Some o → eligible m t cons o = false
  | Some (o, _) => ∀ k o', offers !! k = Some o' → eligible m t cons o' = true → o' = o ∨ better m image o o' = true
  end.
Proof.
  intros Hkey. pose proof (choose_eligible m offers t cons image) as He. unfold chooseWithPreferences in *.
  assert (∀ k o, offers !! k = Some o → eligible m t cons o = true → o ∈ List.filter (eligible m t cons) (map_to_list offers).*2) as Hin.
  { intros k o Ho Hel. apply list_elem_of_In, List.filter_In. split; [|done]. apply list_elem_of_In, list_elem_of_fmap.
    exists (k, o). split; [done|]. by apply elem_of_map_to_list. }
  destruct (merge_sort _ _) as [|o l] eqn:Hs.
  - intros k o Ho. apply not_true_is_false. intros Hel. apply (Hin k o Ho) in Hel.
    pose proof (merge_sort_Permutation (ranked m image) (List.filter (eligible m t cons) (map_to_list offers).*2)) as Hp.
    rewrite Hs in Hp. rewrite -Hp in Hel. by apply not_elem_of_nil in Hel.
  - destruct (merge_sort_head (ranked m image) _ _ _ Hs) as [_ Hmin].
    assert (∀ k o', offers !! k = Some o' → eligible m t cons o' = true → (∃ j, offers !! j = Some o) →
      o' = o ∨ better m image o o' = true) as Hbest.
    { intros k o' Ho' Hel [j Hj]. destruct (Hmin o' (Hin k o' Ho' Hel)) as [Hr| ->]; [|by left].
      rewrite better_rank. apply ranked_rank in Hr. destruct (rank_compare _ _) eqn:Hc; [|by right|done].
      left. apply ord_eq in Hc. unfold rank in Hc. injection Hc as _ _ _ Hid.
      rewrite (Hkey _ _ Hj) (Hkey _ _ Ho') in Hid. congruence. }
    destruct (lookup_route m (fo_allocatorID o)) as [a|] eqn:Hrt; intros k o' Ho' Hel;
      apply (Hbest k o' Ho' Hel); by destruct (He o _ eq_refl) as [Hex _].
Qed.

(** The errors of preparing releases: a route that is gone or a generator that fails. *)
Definition release_error (e : client_error) : Prop :=
  ∃ s msg, e = CErr s msg ∧ (s = ErrInvalidAllocator ∨ s = ErrInvalidConfig).

Lemma prepare_releases_errors m selected l c :
  cwp (prepare_releases m selected l) (fun r _ => ∀ e, r = Err e → release_error e) c.
Proof.
  revert c. induction l as [|[k o] l IH]; intros c; simpl; [by apply cwp_ret|]. destruct (_ || _); [done|]. apply cwp_bind.
  unfold newReleaseLocked. cwp_steps; try (intros e [= <-]; eexists _, _; by eauto).
  eapply cwp_mono; [apply IH|]. intros [more|e] c' He; apply cwp_ret; [done|]. intros e' [= <-]. by apply He.
Qed.

End choice.
