(* ===== verification/Delivery.v ===== *)
(** * Giving offers back (internal/client: release.go, delivery.go)

    Which releases are pending, and the background loop that keeps sending them:
    each pass sends at most four, none twice within a second, so that over the
    passes of a second every pending release gets its turn. *)

From S2P Require Import Prelude GoStrings Ordering Wire Errors Protocol Registry Client ClientInv.

(** ** One pass of the loop (delivery.go) *)

Definition maxDuration : Z := 2 ^ 63 - 1.
Definition minDuration : Z := - 2 ^ 63.

(** [t.Sub(u)] saturates. *)
Definition time_sub (t u : time) : duration := Z.max minDuration (Z.min maxDuration (t - u)).

Definition release_id (r : PendingRelease) : string := env_message_id (pd_Envelope r).

Definition attempt_spacing : duration := Second.
Definition pass_limit : nat := 4.

(** The releases a pass sends, with the attempts it records; [ck] is the clock
    and [n] counts its readings. *)
Fixpoint release_pass (ck : nat → time) (n launched : nat) (attempted : gmap string time) (pending : list PendingRelease)
    : list PendingRelease * gmap string time * nat :=
  match pending with
  | [] => ([], attempted, n)
  | release :: rest =>
    let id := release_id release in
    if time_sub (ck n) (mget zero_time attempted id) <? attempt_spacing then release_pass ck (S n) launched attempted rest
    else
      let attempted' := <[id := ck (S n)]> attempted in
      if Nat.eqb (S launched) pass_limit then ([release], attempted', S (S n))
      else let '(sent, a, m) := release_pass ck (S (S n)) (S launched) attempted' rest in (release :: sent, a, m)
  end.

(** The state of the loop and what wakes it. *)
Record delivery := mkDelivery { dl_attempted : gmap string time; dl_draining : bool; dl_done : bool }.
Inductive wakeup := W_Cancelled | W_Drain | W_Tick.

(** One iteration on the pending set it read; once draining, the drain channel
    is nil and no longer selected. *)
Definition delivery_round (ck : nat → time) (n : nat) (pending : list PendingRelease) (ev : wakeup) (d : delivery)
    : list PendingRelease * delivery * nat :=
  if dl_done d then ([], d, n)
  else if dl_draining d && bool_decide (pending = []) then ([], mkDelivery (dl_attempted d) true true, n)
  else
    let '(sent, attempted, m) := release_pass ck n 0 (dl_attempted d) pending in
    (sent, match ev with
           | W_Cancelled => mkDelivery attempted (dl_draining d) true
           | W_Drain => mkDelivery attempted true false
           | W_Tick => mkDelivery attempted (dl_draining d) false
           end, m).

(** The rounds of a loop that keeps ticking on the same pending set. *)
Fixpoint delivery_rounds (ck : nat → time) (n : nat) (pending : list PendingRelease) (k : nat) (d : delivery)
    : list (list PendingRelease) * delivery * nat :=
  match k with
  | O => ([], d, n)
  | S k' =>
    let '(sent, d', m) := delivery_round ck n pending W_Tick d in
    let '(more, d'', m') := delivery_rounds ck m pending k' d' in (sent :: more, d'', m')
  end.

(** ** Bounds of a pass *)

Lemma release_pass_bound ck pending n launched attempted :
  (launched < pass_limit)%nat →
  let '(sent, a, _) := release_pass ck n launched attempted pending in
  (launched + length sent ≤ pass_limit)%nat ∧ sublist sent pending ∧
  (∀ id, id ∉ map release_id sent → a !! id = attempted !! id).
Proof.
  revert n launched attempted. induction pending as [|r rest IH]; intros n launched attempted Hl; cbn [release_pass];
    [simpl; split_and!; [lia|constructor|done]|].
  destruct (_ <? _).
  - specialize (IH (S n) launched attempted Hl). destruct (release_pass _ _ _ _ _) as [[sent a] m].
    destruct IH as (? & ? & ?). split_and!; [done|by constructor|done].
  - destruct (Nat.eqb_spec (S launched) pass_limit) as [He|Hne].
    + simpl. split_and!; [lia|constructor; apply sublist_nil_l|]. intros id Hid. rewrite lookup_insert_ne //. set_solver.
    + specialize (IH (S (S n)) (S launched) (<[release_id r := ck (S n)]> attempted) ltac:(lia)).
      destruct (release_pass _ _ _ _ _) as [[sent a] m]. destruct IH as (? & ? & Ha). split_and!; [simpl; lia|by constructor|].
      simpl. intros id Hid. rewrite Ha; [set_solver|]. rewrite lookup_insert_ne //. set_solver.
Qed.

(** ** Taking turns *)

Section turns.
Context (ck : nat → time) (T : time).
Hypothesis (window : ∀ n, T ≤ ck n < T + Second) (past : zero_time + Second ≤ T).

Definition recent (attempted : gmap string time) (r : PendingRelease) : Prop :=
  ∃ t, attempted !! release_id r = Some t ∧ T ≤ t < T + Second.

Lemma recent_skips n attempted r : recent attempted r → time_sub (ck n) (mget zero_time attempted (release_id r)) < attempt_spacing.
Proof.
  intros (t & Ht & Hw). unfold mget. rewrite Ht /=. pose proof (window n). unfold time_sub, attempt_spacing, minDuration, maxDuration, Second in *. lia.
Qed.

Lemma fresh_launches n attempted r :
  attempted !! release_id r = None → attempt_spacing ≤ time_sub (ck n) (mget zero_time attempted (release_id r)).
Proof.
  intros Hn. unfold mget. rewrite Hn /=. pose proof (window n).
  unfold time_sub, attempt_spacing, minDuration, maxDuration, Second in *. lia.
Qed.

Lemma pass_skips n launched attempted tried rest :
  Forall (recent attempted) tried →
  ∃ m, release_pass ck n launched attempted (tried ++ rest) = release_pass ck m launched attempted rest.
Proof.
  intros Hf. revert n. induction Hf as [|r tried Hr Hf IH]; intros n; cbn [app release_pass]; [by exists n|].
  pose proof (recent_skips n attempted r Hr). assert ((time_sub (ck n) (mget zero_time attempted (release_id r)) <? attempt_spacing) = true) as -> by lia.
  apply IH.
Qed.

Lemma pass_launches n launched attempted rest :
  (launched < pass_limit)%nat → NoDup (map release_id rest) → Forall (fun r => attempted !! release_id r = None) rest →
  let '(sent, a, _) := release_pass ck n launched attempted rest in
  sent = take (pass_limit - launched) rest ∧ Forall (recent a) sent.
Proof.
  revert n launched attempted. induction rest as [|r rest IH]; intros n launched attempted Hl Hnd Hf; cbn [release_pass].
  { by rewrite take_nil. }
  apply Forall_cons in Hf as [Hr Hf]. apply NoDup_cons in Hnd as [Hnin Hnd].
  pose proof (fresh_launches n attempted r Hr). assert ((time_sub (ck n) (mget zero_time attempted (release_id r)) <? attempt_spacing) = false) as -> by lia.
  destruct (Nat.eqb_spec (S launched) pass_limit) as [He|Hne].
  - replace (pass_limit - launched)%nat with 1%nat by lia. split; [done|]. apply Forall_singleton. exists (ck (S n)).
    by rewrite lookup_insert_eq.
  - specialize (IH (S (S n)) (S launched) (<[release_id r := ck (S n)]> attempted) ltac:(lia) Hnd).
    pose proof (release_pass_bound ck rest (S (S n)) (S launched) (<[release_id r := ck (S n)]> attempted) ltac:(lia)) as Hb.
    destruct (release_pass _ _ _ _ _) as [[sent a] m]. destruct IH as [Hs Ha].
    { eapply Forall_impl; [apply Forall_and; split; [exact Hf|apply Forall_forall; intros r' Hr'; exact Hr']|].
      simpl. intros r' [Hn Hin]. rewrite lookup_insert_ne //. intros Heq. apply Hnin. rewrite Heq. by apply list_elem_of_fmap_2. }
    replace (pass_limit - launched)%nat with (S (pass_limit - S launched)) by lia. simpl. split; [by rewrite Hs|].
    apply Forall_cons. split; [|done]. exists (ck (S n)). destruct Hb as (_ & Hsub & Hsame). rewrite Hsame; [|by rewrite lookup_insert_eq].
    rewrite Hs. intros Hin. apply Hnin. apply list_elem_of_fmap in Hin as (r' & -> & Hin). apply list_elem_of_fmap_2.
    by apply subseteq_take in Hin.
Qed.

(** Where the loop stands: what was tried within the window and what was not. *)
Record turn (tried rest : list PendingRelease) (d : delivery) : Prop := {
  tu_nodup : NoDup (map release_id (tried ++ rest));
  tu_running : dl_done d = false ∧ (dl_draining d = true → tried ++ rest ≠ []);
  tu_tried : Forall (recent (dl_attempted d)) tried;
  tu_rest : Forall (fun r => dl_attempted d !! release_id r = None) rest
}.

Lemma ids_disjoint (l1 l2 : list PendingRelease) r1 r2 :
  NoDup (map release_id (l1 ++ l2)) → r1 ∈ l1 → r2 ∈ l2 → release_id r1 ≠ release_id r2.
Proof.
  rewrite map_app. intros (_ & Hd & _)%NoDup_app H1 H2 Heq. apply (Hd (release_id r1)); [by apply list_elem_of_fmap_2|].
  rewrite Heq. by apply list_elem_of_fmap_2.
Qed.

Lemma round_turn n d tried rest :
  turn tried rest d →
  let '(sent, d', _) := delivery_round ck n (tried ++ rest) W_Tick d in
  sent = take pass_limit rest ∧ turn (tried ++ take pass_limit rest) (drop pass_limit rest) d'.
Proof.
  intros [Hnd [Hrun Hdr] Ht Hr]. unfold delivery_round. rewrite Hrun.
  assert (dl_draining d && bool_decide (tried ++ rest = []) = false) as ->.
  { destruct (dl_draining d); [|done]. simpl. rewrite bool_decide_false; auto. }
  destruct (pass_skips n 0 (dl_attempted d) tried rest Ht) as [m Heq]. rewrite Heq. clear Heq.
  pose proof Hnd as Hnd'. rewrite map_app in Hnd'. apply NoDup_app in Hnd' as (_ & _ & Hnd').
  pose proof (pass_launches m 0 (dl_attempted d) rest ltac:(unfold pass_limit; lia) Hnd' Hr) as Hl.
  pose proof (release_pass_bound ck rest m 0 (dl_attempted d) ltac:(unfold pass_limit; lia)) as Hb.
  destruct (release_pass _ _ _ _ _) as [[sent a] m']. destruct Hl as [-> Hrec]. destruct Hb as (_ & _ & Hsame).
  rewrite Nat.sub_0_r in Hrec, Hsame |- *. split; [done|]. split; simpl.
  - by rewrite -app_assoc take_drop.
  - split; [done|]. intros Hd. rewrite -app_assoc take_drop. auto.
  - apply Forall_app. split; [|done]. eapply Forall_impl; [apply Forall_and; split; [exact Ht|apply Forall_forall; intros r Hin; exact Hin]|].
    simpl. intros r [(t & Hlk & Hw) Hin]. exists t. rewrite Hsame //. intros Hf. apply list_elem_of_fmap in Hf as (r' & Heq' & Hin').
    apply subseteq_take in Hin'. by apply (ids_disjoint tried rest r r').
  - rewrite -(take_drop pass_limit rest) in Hnd', Hr. apply Forall_app in Hr as [_ Hr].
    eapply Forall_impl; [apply Forall_and; split; [exact Hr|apply Forall_forall; intros r Hin; exact Hin]|].
    simpl. intros r [Hlk Hin]. rewrite Hsame //. intros Hf. apply list_elem_of_fmap in Hf as (r' & Heq' & Hin').
    by apply (ids_disjoint (take pass_limit rest) (drop pass_limit rest) r' r).
Qed.

Lemma rounds_turn k n d tried rest :
  turn tried rest d →
  concat (delivery_rounds ck n (tried ++ rest) k d).1.1 = take (k * pass_limit) rest.
Proof.
  revert n d tried rest. induction k as [|k IH]; intros n d tried rest Ht; cbn [delivery_rounds]; [done|].
  pose proof (round_turn n d tried rest Ht) as Hr. destruct (delivery_round _ _ _ _ _) as [[sent d'] m]. destruct Hr as [-> Ht'].
  specialize (IH m d' _ _ Ht'). rewrite -app_assoc take_drop in IH.
  destruct (delivery_rounds _ _ _ _ _) as [[more d''] m']. simpl in IH |- *. rewrite IH.
  rewrite -{3}(take_drop pass_limit rest) take_app. rewrite length_take. f_equal.
  - rewrite take_take. f_equal. unfold pass_limit. lia.
  - destruct (decide (length rest ≤ pass_limit)%nat) as [Hle|Hgt].
    + rewrite (drop_ge rest) //. by rewrite !take_nil.
    + f_equal. unfold pass_limit in *. lia.
Qed.

End turns.

Lemma rounds_bounded ck pending k n d :
  Forall (fun sent => length sent ≤ pass_limit)%nat (delivery_rounds ck n pending k d).1.1.
Proof.
  revert n d. induction k as [|k IH]; intros n d; cbn [delivery_rounds]; [constructor|].
  assert (length (delivery_round ck n pending W_Tick d).1.1 ≤ pass_limit)%nat as Hb.
  { unfold delivery_round. destruct (dl_done d); [simpl; lia|]. destruct (_ && _); [simpl; lia|].
    pose proof (release_pass_bound ck pending n 0 (dl_attempted d) ltac:(unfold pass_limit; lia)) as Hb.
    destruct (release_pass _ _ _ _ _) as [[sent a] m]. by destruct Hb as [? _]. }
  destruct (delivery_round _ _ _ _ _) as [[sent d'] m]. specialize (IH m d').
  destruct (delivery_rounds _ _ _ _ _) as [[more d''] m']. by constructor.
Qed.

(** Every pending release gets its turn: a loop that has sent nothing yet and
    keeps ticking on the same pending set sends, in [k] rounds that fall within
    a second, exactly the first [4 * k] of them, four per round in order and
    none twice, so no release waits more than a quarter of the pending set. *)
Theorem release_rounds ck T k n pending :
  (∀ i, T ≤ ck i < T + Second) → zero_time + Second ≤ T → NoDup (map release_id pending) →
  let rounds := (delivery_rounds ck n pending k (mkDelivery ∅ false false)).1.1 in
  concat rounds = take (k * pass_limit) pending ∧ Forall (fun sent => length sent ≤ pass_limit)%nat rounds.
Proof.
  intros Hw Hp Hnd rounds. split.
  - apply (rounds_turn ck T Hw Hp k n (mkDelivery ∅ false false) [] pending). split; simpl; [done|done|constructor|].
    apply Forall_forall. intros r _. apply lookup_empty.
  - apply rounds_bounded.
Qed.

Lemma release_rounds_witness :
  let pending := map (fun id => mkPending "d" (mkEnvelope id [] "" None None)) ["a"; "b"; "c"; "d"; "e"; "f"] in
  let rounds := (delivery_rounds (fun _ => 0) 0 pending 2 (mkDelivery ∅ false false)).1.1 in
  concat rounds = pending ∧ map length rounds = [4%nat; 2%nat].
Proof.
  intros pending rounds. split; [|vm_compute; reflexivity].
  apply (release_rounds (fun _ => 0) 0 2 0 pending); [unfold Second; lia|unfold zero_time, Second; lia|].
  unfold pending. cbn. repeat constructor; set_solver.
Defined.

(** ** Which releases are pending (release.go) *)

Section obligations.
Context `{Externals, Sources}.

Lemma elem_of_PendingReleases c n p :
  p ∈ (PendingReleases (c, n)).1 ↔
  ∃ rid r k o, cl_requests c !! rid = Some r ∧ rq_offers r !! k = Some o ∧
    pending_release c (src_now n) (er_request_id (rq_request r)) o = Some p.
Proof.
  unfold PendingReleases, mbind, CM_bind, get, now. cbn. rewrite merge_sort_Permutation list_elem_of_In in_flat_map. split.
  - intros (r & Hr & Hp). apply list_elem_of_In, list_elem_of_fmap in Hr as ([rid r'] & -> & Hr). apply elem_of_map_to_list in Hr.
    apply list_elem_of_In, list_elem_of_omap in Hp as (o & Ho & Hp). apply list_elem_of_fmap in Ho as ([k o'] & -> & Ho).
    apply elem_of_map_to_list in Ho. by exists rid, r', k, o'.
  - intros (rid & r & k & o & Hr & Ho & Hp). exists r. rewrite -!list_elem_of_In. split.
    + apply list_elem_of_fmap. exists (rid, r). split; [done|]. by apply elem_of_map_to_list.
    + apply list_elem_of_omap. exists o. split; [|done]. apply list_elem_of_fmap. exists (k, o). split; [done|].
      by apply elem_of_map_to_list.
Qed.

Definition releases (p : PendingRelease) (requestID offerID : string) : Prop :=
  env_payload (pd_Envelope p) = Some (P_ExecutionOfferRelease (Some (mkOfferRelease requestID offerID))).

(** Nothing is kept that was not selected: once a request has an assignment,
    each other offer it received has a release that is pending, with the same
    message ID every time, until the allocator acknowledges it or the offer
    expires; and no release is ever sent for the selected offer. *)
Theorem release_obligations c n rid r k o :
  client_ok c → cl_requests c !! rid = Some r → rq_executionID r ≠ "" → rq_offers r !! k = Some o →
  ∃ x, cl_executions c !! rq_executionID r = Some x ∧
    (k = xr_offerID x → ∀ p, p ∈ (PendingReleases (c, n)).1 → ¬ releases p rid k) ∧
    (k ≠ xr_offerID x → ∃ i, fo_release o = Some i ∧
       (ri_Acknowledged i = true ∨ as_time (eo_expires_at (fo_offer o)) ≤ src_now n ∨
        ∃ p, p ∈ (PendingReleases (c, n)).1 ∧ pd_Destination p = ri_Destination i ∧
          env_message_id (pd_Envelope p) = ri_MessageID i ∧ releases p rid k)).
Proof.
  intros Hok Hr Hne Ho. destruct (co_request _ Hok _ _ Hr) as [Hid _ _ Hfit _ Has]. destruct (Has Hne) as (x & Hx & [_ Hsel Hlose]).
  exists x. split; [done|]. split.
  - intros -> p Hp Hrel. apply elem_of_PendingReleases in Hp as (rid' & r' & k' & o' & Hr' & Ho' & Hp).
    destruct (co_request _ Hok _ _ Hr') as [Hid' _ _ Hfit' _ _]. destruct (Hfit' _ _ Ho') as [Hkey _ _ _ _].
    unfold pending_release in Hp. destruct (fo_release o') as [i|] eqn:Hi; [|done]. destruct (_ || _); [done|]. injection Hp as <-.
    injection Hrel as Hrid Hk.
    assert (r' = r) as -> by congruence. destruct Hsel as (o'' & Ho'' & _ & Hnone). congruence.
  - intros Hk. destruct (Hlose _ _ Ho Hk) as [i Hi]. exists i. split; [done|].
    destruct (ri_Acknowledged i) eqn:Hack; [by left|right]. unfold after.
    destruct (Z.le_gt_cases (as_time (eo_expires_at (fo_offer o))) (src_now n)) as [?|Hexp]; [by left|right].
    eexists. split; [apply elem_of_PendingReleases; exists rid, r, k, o; split; [done|]; split; [done|];
      unfold pending_release; rewrite Hi Hack; assert (after (as_time (eo_expires_at (fo_offer o))) (src_now n) = true) as -> by (unfold after; lia); reflexivity|].
    split; [done|]. split; [done|]. unfold releases. simpl. by rewrite Hid (of_key _ _ _ _ (Hfit _ _ Ho)).
Qed.
End obligations.
