(* ===== verification/Handshake.v ===== *)
(** * The client and the allocator together

    The client's request envelope is handed to the allocator's handler and the
    allocator's answer to the client's: both ends then hold the same offer. *)

From S2P Require Import Prelude GoStrings Ordering Wire Errors Protocol Feedback Capacity Admission Replay Registry Utf8.
From S2P Require Import AllocTypes Snapshot AllocOps Commands Maintenance Loading Threads Logic Invariant Refinement Handlers Outcomes.
From S2P Require Import Client ClientInv ClientSafety.

Section handshake.
Context `{Externals, ExternalLaws, Codec, Env, Sources}.
Context (p : AllocTypes.Settings).

(** What the client does with an offer it asked for. *)
Lemma offer_accepted c n r e offer route :
  client_ok c → cl_requests c !! eo_request_id offer = Some r → rq_executionID r = "" → rq_offers r !! eo_offer_id offer = None →
  ValidateEnvelope (Some e) = Ok tt → env_payload e = Some (P_ExecutionOffer (Some offer)) →
  env_correlation_id e = rq_messageID r → eo_resource_class offer = er_resource_class (rq_request r) →
  lookup_route (cl_allocators c) (env_sender e) = Some route →
  ∃ c', Client.Handle (Some e) (c, n) = (None, (c', S n)) ∧
    cl_requests c' !! eo_request_id offer = Some (Client.set_offers r (<[eo_offer_id offer :=
      mkOfferRec offer (env_sender e) (src_now n) None]> (rq_offers r))).
Proof.
  intros Hok Hr Hopen Hnew Hv Hp Hcorr Hclass Hroute. unfold Client.Handle. rewrite Hv Hp.
  unfold handleOfferLocked, mbind, CM_bind, Client.get, Client.put, Client.now. cbn -[refreshed]. rewrite Hr Hcorr Hclass Hroute Hnew Hopen.
  rewrite !bool_decide_true //. cbn -[refreshed]. eexists. split; [done|]. cbn. apply lookup_insert_eq.
Qed.

(** An offer the allocator answers with is one it holds, for this request. *)
Lemma offered_agrees envelope request rs a :
  alloc_ok p a → offered p envelope request rs a →
  ∃ o e, rs = [e] ∧ env_payload e = Some (P_ExecutionOffer (Some (of_offer o))) ∧
    env_correlation_id e = env_message_id envelope ∧ env_sender e = p_identity p ∧
    al_offers a !! eo_offer_id (of_offer o) = Some o ∧ of_client o = env_sender envelope ∧
    eo_request_id (of_offer o) = er_request_id request ∧ eo_resource_class (of_offer o) = er_resource_class request.
Proof.
  intros Hok (o & e & -> & Hp & Hc & Hs & Ho & Hcl & Hr). exists o, e.
  destruct (ak_offer _ _ Hok _ _ Ho) as [_ _ Hreq _ Hclass _]. rewrite Hr in Hreq, Hclass. by split_and!.
Qed.

End handshake.

(** ** A session, from request to running execution *)

From stdpp Require Import pretty.
From S2P Require Import Upkeep System Lifecycle Start Safety ClientReplies ClientChoice Delivery.

(** A client whose clock stands still and whose identifiers are fresh. *)
Definition demo_sources : Sources := {| src_now _ := demo_time; src_newID n := String.append "c-" (pretty n) |}.
#[export] Existing Instance demo_sources.

Definition demo_route : Client.Allocator :=
  mkRoute (replicate 16 Byte.x42) "alloc.example" 1 (Some {["small" := 2]}) None "" 0 "".

Definition session : Type := (Client * nat) * World.

(** Deliver an envelope to the allocator and its answers to the client. *)
Definition exchange (e : Envelope) (s : session) : list (option client_error) * session :=
  let '(r, w) := Commands.Handle demo_settings (Some e) s.2 in
  let answers := match r with Some (rs, _) => rs | None => [] end in
  let '(errs, cw) := fold_left (fun '(errs, cw) a => let '(err, cw') := Client.Handle (Some a) cw in (errs ++ [err], cw'))
                       answers ([], s.1) in
  (errs, (cw, w)).

Definition send (m : Client * nat → result client_error (string * Envelope) * (Client * nat)) (s : session) : list (option client_error) * session :=
  let '(out, cw) := m s.1 in
  match out with
  | Ok (_, e) => exchange e (cw, s.2)
  | Err err => ([Some err], (cw, s.2))
  end.

Definition demo_client_state : Client := mkClient "" None demo_client ∅ ∅ ∅.
Definition session_start : session := ((RegisterAllocator demo_route (demo_client_state, 0%nat)).2, demo_world).
Definition session_requested : list (option client_error) * session :=
  send (CreateRequest (Some (mkWorkload "image" [] [] ∅ "")) (Some mkPolicy) "small") session_start.
Definition session_assigned : list (option client_error) * session := send (Select "c-0") session_requested.2.


(** The session as the client sees it. *)
Definition the_request : Envelope :=
  Eval vm_compute in default demo_request (RequestEnvelope session_requested.2.1.1 "c-0").
Definition the_offer : Envelope :=
  Eval vm_compute in match (Commands.Handle demo_settings (Some the_request) demo_world).1 with Some (e :: _, _) => e | _ => demo_request end.
Definition the_state : Envelope :=
  Eval vm_compute in match (Select "c-0" session_requested.2.1).1 with
  | Ok (_, assign) => match (Commands.Handle demo_settings (Some assign) session_requested.2.2).1 with Some (e :: _, _) => e | _ => demo_request end
  | Err _ => demo_request
  end.
Definition the_loss : Envelope :=
  mkEnvelope "a-9" (replicate 16 Byte.x42) "" (Some (ts_new demo_time)) (Some (P_ExecutionState (Some
    (mkState "c-5" PHASE_FAILED (Some (ts_new demo_time)) LeaseExpiredDetail None 3)))).

Definition run_ops (ops : list client_op) (w : Client * nat) : Client * nat := fold_left (fun w op => (run_op op w).2) ops w.

Definition until_offer : list client_op :=
  [O_Register demo_route; O_Create (Some (mkWorkload "image" [] [] ∅ "")) (Some mkPolicy) "small" None; O_Reply (Some the_offer)].
Definition until_assigned : list client_op := until_offer ++ [O_Select "c-0"].
Definition client_after (ops : list client_op) : Client * nat := run_ops ops (demo_client_state, 0%nat).


(** The same with a second allocator, farther away, whose offer loses. *)
Definition other_route : Client.Allocator :=
  mkRoute (replicate 16 Byte.x43) "other.example" 2 (Some {["small" := 2]}) None "" 0 "".
Definition other_offer : Envelope :=
  mkEnvelope "b-1" (replicate 16 Byte.x43) "c-1" (Some (ts_new demo_time)) (Some (P_ExecutionOffer (Some
    (mkOffer "o-2" "c-0" "small" (Some (ts_new (demo_time + Minute))) None)))).
Definition until_decided : list client_op :=
  O_Register other_route :: until_offer ++ [O_Reply (Some other_offer); O_Select "c-0"].

Lemma run_ops_steps ops w : rtc client_step w (run_ops ops w).
Proof.
  revert w. induction ops as [|op ops IH]; intros w; [apply rtc_refl|]. apply (rtc_l _ _ (run_op op w).2); [by exists op|apply IH].
Qed.

Lemma client_after_ok ops : client_ok (client_after ops).1.
Proof. by apply (client_steps_ok (demo_client_state, 0%nat)); [apply run_ops_steps|apply (New_ok demo_client)]. Qed.

(** A complete session: the client's request is answered with an offer, its
    selection starts the workload, and both ends agree that the execution under
    the client's ID is running, on the slot the allocator counts for it, with no
    reply refused on the way. *)
Theorem session_runs :
  session_requested.1 = [None] ∧ session_assigned.1 = [None] ∧
  (∃ x, map_to_list (al_executions (w_alloc session_assigned.2.2)) = [("c-5", x)] ∧ ex_phase x = PHASE_RUNNING ∧ ex_client x = demo_client) ∧
  (∃ x, Execution session_assigned.2.1.1 "c-5" = Some x ∧ option_map es_phase (sx_State x) = Some PHASE_RUNNING) ∧
  mget 0 (snapshot (al_capacity (w_alloc session_assigned.2.2))) "small" = 1.
Proof. split_and!; [..|eexists; split_and!|eexists; split|]; vm_compute; reflexivity. Qed.

(** ** The theorems of the client on this session *)

Lemma assignment_exclusive_witness :
  let w := client_after until_assigned in
  is_Some (cl_executions w.1 !! "c-5") ∧ (Select "c-0" w).1 ≠ Err CPanic.
Proof.
  intros w. split; [vm_compute; by eexists|].
  destruct (assignment_exclusive demo_client demo_client_state 0 w) as (_ & _ & Hs & _); [reflexivity|apply run_ops_steps|apply Hs].
Defined.

Lemma observed_state_advances_witness :
  let w := client_after until_assigned in
  ∃ x', cl_executions (run_ops [O_Reply (Some the_state)] w).1 !! "c-5" = Some x' ∧ xr_state x' ≠ None.
Proof.
  intros w. destruct (cl_executions w.1 !! "c-5") as [x|] eqn:Hx; [|vm_compute in Hx; discriminate Hx].
  destruct (observed_state_advances w (run_ops [O_Reply (Some the_state)] w) "c-5" x (run_ops_steps _ _) Hx) as (x' & Hx' & _).
  - intros s Hs. vm_compute in Hx. injection Hx as <-. discriminate Hs.
  - exists x'. split; [exact Hx'|]. vm_compute in Hx'. injection Hx' as <-. discriminate.
Defined.





Lemma release_obligations_witness :
  let w := client_after until_decided in
  ∃ p, p ∈ (PendingReleases (w.1, w.2)).1 ∧ releases p "c-0" "o-2" ∧ pd_Destination p = "other.example".
Proof.
  intros w. destruct (cl_requests w.1 !! "c-0") as [r|] eqn:Hr; [|vm_compute in Hr; discriminate Hr].
  assert (rq_executionID r = "c-6" ∧ is_Some (rq_offers r !! "o-2")) as [He [o Ho]]
    by (vm_compute in Hr; injection Hr as <-; vm_compute; split; [reflexivity|by eexists]).
  destruct (release_obligations w.1 w.2 "c-0" r "o-2" o (client_after_ok _) Hr) as (x & Hx & _ & Hl); [by rewrite He|exact Ho|].
  assert (xr_offerID x = "id-4" ∧ fo_release o = Some (mkIntent "c-8" demo_time "other.example" false) ∧
    as_time (eo_expires_at (fo_offer o)) = demo_time + Minute) as (Hxo & Hi & Hexp).
  { rewrite He in Hx. vm_compute in Hx. injection Hx as <-. vm_compute in Hr. injection Hr as <-. vm_compute in Ho. injection Ho as <-.
    split_and!; vm_compute; reflexivity. }
  destruct Hl as (i & Hi' & Hor); [by rewrite Hxo|]. rewrite Hi in Hi'. injection Hi' as <-.
  destruct Hor as [Hack|[Hle|(p & Hp & Hd & _ & Hrel)]]; [discriminate Hack|rewrite Hexp in Hle; vm_compute in Hle; by destruct Hle|].
  exists p. split; [exact Hp|]. split; [exact Hrel|exact Hd].
Defined.
