(* ===== verification/Controller.v ===== *)
(** * The run controller (client/client.go, client/run.go)

    The public client: one logical run over the protocol core of Client.v, with
    its waiters, its lease renewals and its re-requests.  The controller's
    goroutine calls the core one locked operation at a time; between two of them
    the endpoint's goroutine may hand any number of envelopes to the core and
    the context may end.  What the network does is the class [Network]: which
    envelopes arrive before the n-th operation, whether a send fails, and which
    ready case a [select] takes (a case that is not ready is passed over).
    A loop that has used up its fuel is still running. *)

From S2P Require Import Prelude GoStrings Ordering Wire Errors Protocol Registry Client ClientInv ClientSafety.

Inductive run_error :=
| R_Core (e : client_error)
| R_Remote (code detail : string) (retryable : bool)
| R_Context (canceled : bool)      (* ctx.Err(): canceled or past its deadline *)
| R_Send (canceled : bool)         (* an error of the endpoint *)
| R_Timeout
| R_NoRequest
| R_Options (what : string)
| R_Closed | R_NotStarted | R_RunActive
| R_Reschedule (e : run_error)     (* "re-request after lease expiry: %w" *)
| R_Rebind (e : client_error)
| R_StillRunning.

(** [errors.Is(err, context.Canceled)] *)
Fixpoint is_canceled (e : run_error) : bool :=
  match e with R_Context b | R_Send b => b | R_Reschedule e => is_canceled e | _ => false end.
(** Not an error: a loop below has used up its fuel. *)
Fixpoint is_running (e : run_error) : bool :=
  match e with R_StillRunning => true | R_Reschedule e => is_running e | _ => false end.
(** [errors.Is(err, coreclient.ErrNoOffer)] *)
Definition is_no_offer (e : client_error) : bool := match e with CErr ErrNoOffer _ => true | _ => false end.

Record Attempt := mkAttempt { at_RunID : string; at_Number : Z; at_RequestID : string; at_ExecutionID : string; at_Allocator : bytes }.
Record Result := mkResult { rs_Attempt : Attempt; rs_State : option ExecutionState }.
Record RunOptions := mkOptions { op_OfferWait : duration; op_LeaseDuration : duration }.
Inductive EventKind := EventAttemptAssigned | EventLeaseLost | EventRenewalError.

(** What the controller has done: envelopes handed to the endpoint, events, and
    the requests for a further attempt, with whether the lease of the attempt
    before was lost. *)
Inductive note :=
| N_Send (destination : string) (e : Envelope)
| N_Emit (kind : EventKind) (attempt : Attempt) (previous : string) (err : option run_error)
| N_Next (executionID : string) (lost : bool).

Record Controller := mkController {
  rc_core : Client * nat;
  rc_bootstrapDestinations : list string;
  rc_started : bool; rc_closed : bool; rc_runActive : bool; rc_runUsed : bool;
  rc_waiters : gmap string (list nat);
  rc_chans : list (option Envelope);       (* channels with room for one envelope *)
  rc_stateChanged : bool;
  rc_done : bool;                          (* the caller's context has ended *)
  rc_trace : list note
}.

(** A discovered service (rns.Service). *)
Record Service := mkService {
  sv_Identity : string; sv_Destination : string; sv_Hops : Z; sv_Capacity : gmap string Z;
  sv_OS : string; sv_Arch : string; sv_Runtime : string;
  sv_Tunnel : option (string * Z * string)
}.

Inductive pick := Pick_Done | Pick_Timer | Pick_Waiter | Pick_State | Pick_Tick | Pick_Discovery (s : Service).

(** What other goroutines do: an envelope arrives with the route the endpoint
    knows for its sender, or another method of the client uses the core. *)
Inductive happening :=
| H_Envelope (e : Envelope) (route : option string)
| H_Logs (id stream : string) (offset limit : Z)
| H_Inspect (id : string)
| H_Tunnel (id : string) (key : bytes) (targets : list Target)
| H_Pending.

Class Network := {
  nw_happens : nat → list happening;
  nw_cancel : nat → bool;
  nw_canceled : bool;
  nw_send : nat → option bool;
  nw_pick : nat → pick
}.

(** *** Field updates *)

Definition upd_core (k : Client * nat) (s : Controller) : Controller :=
  mkController k (rc_bootstrapDestinations s) (rc_started s) (rc_closed s) (rc_runActive s) (rc_runUsed s) (rc_waiters s) (rc_chans s) (rc_stateChanged s) (rc_done s) (rc_trace s).
Definition upd_run (active used : bool) (s : Controller) : Controller :=
  mkController (rc_core s) (rc_bootstrapDestinations s) (rc_started s) (rc_closed s) active used (rc_waiters s) (rc_chans s) (rc_stateChanged s) (rc_done s) (rc_trace s).
Definition upd_waiters (w : gmap string (list nat)) (c : list (option Envelope)) (s : Controller) : Controller :=
  mkController (rc_core s) (rc_bootstrapDestinations s) (rc_started s) (rc_closed s) (rc_runActive s) (rc_runUsed s) w c (rc_stateChanged s) (rc_done s) (rc_trace s).
Definition upd_changed (b : bool) (s : Controller) : Controller :=
  mkController (rc_core s) (rc_bootstrapDestinations s) (rc_started s) (rc_closed s) (rc_runActive s) (rc_runUsed s) (rc_waiters s) (rc_chans s) b (rc_done s) (rc_trace s).
Definition upd_context_done (b : bool) (s : Controller) : Controller :=
  mkController (rc_core s) (rc_bootstrapDestinations s) (rc_started s) (rc_closed s) (rc_runActive s) (rc_runUsed s) (rc_waiters s) (rc_chans s) (rc_stateChanged s) b (rc_trace s).
Definition upd_trace (n : note) (s : Controller) : Controller :=
  mkController (rc_core s) (rc_bootstrapDestinations s) (rc_started s) (rc_closed s) (rc_runActive s) (rc_runUsed s) (rc_waiters s) (rc_chans s) (rc_stateChanged s) (rc_done s) (rc_trace s ++ [n]).

Definition RM (A : Type) : Type := Controller * nat → A * (Controller * nat).
#[export] Instance RM_ret : MRet RM := fun A a w => (a, w).
#[export] Instance RM_bind : MBind RM := fun A B f m w => let '(a, w') := m w in f a w'.

Abbreviation rresult := (result run_error).

Notation "'rtry' x ← m ; k" := (mbind (M:=RM) (fun r => match r with Ok x => k | Err e => mret (Err e) end) m)
  (at level 20, x pattern, m at level 100, k at level 200, right associativity).

Section controller.
Context `{Externals, Sources}.

(** ** Inbound envelopes (client.go) *)

(** [dispatchEnvelope]: a full channel keeps what it holds. *)
Definition offer_channel (e : Envelope) (slot : option Envelope) : option Envelope :=
  match slot with Some held => Some held | None => Some e end.
Definition dispatchEnvelope (e : Envelope) (s : Controller) : Controller :=
  if bool_decide (env_correlation_id e = "") then s
  else upd_waiters (rc_waiters s) (fold_left (fun chans ch => alter (offer_channel e) ch chans) (default [] (rc_waiters s !! env_correlation_id e)) (rc_chans s)) s.

Definition is_state (e : Envelope) : bool := match env_payload e with Some (P_ExecutionState (Some _)) => true | _ => false end.

(** [handleEnvelope] *)
Definition handleEnvelope (e : Envelope) (route : option string) (s : Controller) : Controller :=
  let '(registered, k) := match route with
    | Some destination => RegisterAllocator (mkRoute (env_sender e) destination 0 None None "" 0 "") (rc_core s)
    | None => (Ok tt, rc_core s)
    end in
  match registered with
  | Err _ => upd_core k s
  | Ok _ =>
    let '(err, k') := Handle (Some e) k in
    let s' := upd_core k' s in
    match err with
    | Some _ => s'
    | None => dispatchEnvelope e (if is_state e then upd_changed true s' else s')
    end
  end.

(** What another goroutine does, in one locked operation of the core. *)
Definition happen (s : Controller) (h : happening) : Controller :=
  match h with
  | H_Envelope e route => handleEnvelope e route s
  | H_Logs id stream offset limit => upd_core (Logs id stream offset limit (rc_core s)).2 s
  | H_Inspect id => upd_core (Client.Inspect id (rc_core s)).2 s
  | H_Tunnel id key targets => upd_core (TunnelOpen id key targets (rc_core s)).2 s
  | H_Pending => upd_core (PendingReleases (rc_core s)).2 s
  end.

Context `{Network}.

(** ** Effects *)

(** What other goroutines do before the next operation. *)
Definition interfere : RM unit :=
  fun w => (tt, (upd_context_done (rc_done w.1 || nw_cancel w.2) (fold_left happen (nw_happens w.2) w.1), S w.2)).

Definition modify (f : Controller → Controller) : RM unit := fun w => (tt, (f w.1, w.2)).
Definition reads {A} (f : Controller → A) : RM A := fun w => (f w.1, w).

(** One operation of the core, one read of it. *)
Definition on_core {A} (m : CM A) : RM A := fun w => let '(a, k) := m (rc_core w.1) in (a, (upd_core k w.1, w.2)).
Definition core {A} (m : CM A) : RM A := interfere;; on_core m.
Definition view {A} (f : Client → A) : RM A := interfere;; reads (fun s => f (rc_core s).1).

(** [send], and one in a goroutine of its own. *)
Definition answer : RM (rresult unit) := fun w => (match nw_send w.2 with None => Ok tt | Some canceled => Err (R_Send canceled) end, w).
Definition send (destination : string) (e : Envelope) : RM (rresult unit) :=
  interfere;; modify (upd_trace (N_Send destination e));; answer.
Definition go_send (destination : string) (e : Envelope) : RM unit := modify (upd_trace (N_Send destination e)).

Definition emit (kind : EventKind) (attempt : Attempt) (previous : string) (err : option run_error) : RM unit :=
  modify (upd_trace (N_Emit kind attempt previous err)).

Definition picked : RM pick := fun w => (nw_pick w.2, w).
Definition select : RM pick := interfere;; picked.

(** [registerWaiter] and the function it returns. *)
Definition new_channel (id : string) : RM nat :=
  fun w => let s := w.1 in let ch := length (rc_chans s) in
           (ch, (upd_waiters (<[id := default [] (rc_waiters s !! id) ++ [ch]]> (rc_waiters s)) (rc_chans s ++ [None]) s, w.2)).
Definition registerWaiter (id : string) : RM nat := interfere;; new_channel id.
Definition cancelWaiter (id : string) (ch : nat) : RM unit :=
  modify (fun s =>
    let rest := List.filter (fun c => negb (Nat.eqb c ch)) (default [] (rc_waiters s !! id)) in
    upd_waiters (if bool_decide (rest = []) then delete id (rc_waiters s) else <[id := rest]> (rc_waiters s)) (rc_chans s) s).
(** A receive that is ready. *)
Definition receive (ch : nat) : RM (option Envelope) :=
  fun w => (mjoin (rc_chans w.1 !! ch), (upd_waiters (rc_waiters w.1) (<[ch := None]> (rc_chans w.1)) w.1, w.2)).

(** [RemoteFailure] (internal/client/feedback.go) *)
Definition RemoteFailure (e : Envelope) : option run_error :=
  match env_payload e with
  | Some (P_CommandError (Some f)) => Some (R_Remote (ce_code f) (ce_detail f) (ce_retryable f))
  | _ => None
  end.

(** ** Requesting an attempt (run.go) *)

Definition summaryNode (os arch runtime : string) : option NodeCapabilities :=
  if bool_decide (os = "") && bool_decide (arch = "") && bool_decide (runtime = "") then None
  else Some (mkNode os arch runtime [] [] ∅ []).

(** The allocator a discovered service stands for. *)
Definition discovered (v : Service) (identity : bytes) : Client.Allocator :=
  let '(host, port, destination) := default ("", 0, "") (sv_Tunnel v) in
  mkRoute identity (sv_Destination v) (sv_Hops v) (Some (sv_Capacity v)) (summaryNode (sv_OS v) (sv_Arch v) (sv_Runtime v)) host port destination.

(** The requests to the allocators of the attempt before: a failed send counts. *)
Fixpoint send_all (destinations : list string) (e : Envelope) : RM (rresult unit) :=
  match destinations with
  | [] => mret (Ok tt)
  | d :: ds => rtry _ ← send d e; send_all ds e
  end.

Fixpoint bootstrap (destinations sent : list string) (e : Envelope) : RM (list string) :=
  match destinations with
  | [] => mret sent
  | d :: ds => if str_contains sent d then bootstrap ds sent e else go_send d e;; bootstrap ds (d :: sent) e
  end.

(** The offer window. *)
Fixpoint collect (fuel : nat) (request : ExecutionRequest) (e : Envelope) (ch : nat) (sent : list string) (remoteErr : option run_error)
    : RM (rresult (option run_error)) :=
  match fuel with
  | O => mret (Err R_StillRunning)
  | S fuel =>
    p ← select;
    match p with
    | Pick_Done =>
      over ← reads rc_done;
      match over with true => mret (Err (R_Context nw_canceled)) | false => collect fuel request e ch sent remoteErr end
    | Pick_Timer => mret (Ok remoteErr)
    | Pick_Waiter =>
      r ← receive ch;
      collect fuel request e ch sent (match r ≫= RemoteFailure with Some err => Some err | None => remoteErr end)
    | Pick_Discovery v =>
      if mget 0 (sv_Capacity v) (er_resource_class request) =? 0 then collect fuel request e ch sent remoteErr
      else match hex_decode (sv_Identity v) with
      | None => collect fuel request e ch sent remoteErr
      | Some identity =>
        registered ← core (RegisterAllocator (discovered v identity));
        match registered with
        | Err err => mret (Err (R_Core err))
        | Ok _ =>
          if negb (PlacementCompatible (er_constraints request) (summaryNode (sv_OS v) (sv_Arch v) (sv_Runtime v))) || str_contains sent (sv_Destination v)
          then collect fuel request e ch sent remoteErr
          else go_send (sv_Destination v) e;; collect fuel request e ch (sv_Destination v :: sent) remoteErr
        end
      end
    | _ => collect fuel request e ch sent remoteErr
    end
  end.

Definition assigned_id (e : Envelope) : string :=
  match env_payload e with Some (P_ExecutionAssign (Some a)) => ea_execution_id a | _ => "" end.

(** After the window: selection, lease intent, assignment. *)
Definition assign (requestID : string) (allocators : list string) (leaseDuration : duration) (remoteErr : option run_error) : RM (rresult Attempt) :=
  selected ← core (Select requestID);
  match selected with
  | Err e => mret (Err (match is_no_offer e, remoteErr with true, Some err => err | _, _ => R_Core e end))
  | Ok (destination, assignment) =>
    let executionID := assigned_id assignment in
    recorded ← core (RecordLeaseIntent executionID leaseDuration allocators);
    match recorded with
    | Err e => mret (Err (R_Core e))
    | Ok _ =>
      rtry _ ← send destination assignment;
      created ← view (fun c => RequestForExecution c executionID);
      match created with
      | None => mret (Err R_NoRequest)
      | Some request =>
        snapshot ← view (fun c => Execution c executionID);
        mret (Ok (mkAttempt (er_run_id request) (er_attempt request) requestID executionID (from_option sx_Allocator [] snapshot)))
      end
    end
  end.

(** [requestAttempt]; a further attempt comes with the execution it replaces. *)
Definition create (previous : option (string * ExecutionRequest)) (initial : ExecutionRequest) : RM outgoing :=
  match previous with
  | None => core (CreateRequestWithConstraints (er_workload initial) (er_policy initial) (er_resource_class initial) (er_constraints initial))
  | Some (executionID, request) =>
    out ← core (CreateNextAttempt (Some request));
    modify (fun s => upd_trace (N_Next executionID (LeaseIntentLost (rc_core s).1 executionID)) s);;
    mret out
  end.

Definition requestAttempt (fuel : nat) (previous : option (string * ExecutionRequest)) (initial : ExecutionRequest) (allocators : list string)
    (leaseDuration : duration) : RM (rresult Attempt) :=
  created ← create previous initial;
  match created with
  | Err e => mret (Err (R_Core e))
  | Ok (requestID, envelope) =>
    let request := match previous with Some (_, p) => p | None => initial end in
    ch ← registerWaiter (env_message_id envelope);
    outcome ← (rtry _ ← send_all allocators envelope;
               hints ← reads rc_bootstrapDestinations;
               sent ← match previous with None => bootstrap hints allocators envelope | Some _ => mret allocators end;
               rtry remoteErr ← collect fuel request envelope ch sent None;
               assign requestID allocators leaseDuration remoteErr);
    cancelWaiter (env_message_id envelope) ch;;
    mret outcome
  end.

(** ** Leases (run.go) *)

Definition is_ack_of (executionID : string) (e : Envelope) : bool :=
  match env_payload e with Some (P_ExecutionLeaseRenewAck (Some a)) => bool_decide (la_execution_id a = executionID) | _ => false end.

(** [awaitLeaseAck] *)
Fixpoint awaitLeaseAck (fuel : nat) (executionID : string) (ch : nat) : RM (rresult unit) :=
  match fuel with
  | O => mret (Err R_StillRunning)
  | S fuel =>
    p ← select;
    match p with
    | Pick_Done =>
      over ← reads rc_done;
      match over with true => mret (Err (R_Context nw_canceled)) | false => awaitLeaseAck fuel executionID ch end
    | Pick_Timer => mret (Err R_Timeout)
    | Pick_Waiter =>
      r ← receive ch;
      match r with
      | None => awaitLeaseAck fuel executionID ch
      | Some e =>
        match RemoteFailure e with
        | Some err => mret (Err err)
        | None => if is_ack_of executionID e then mret (Ok tt) else awaitLeaseAck fuel executionID ch
        end
      end
    | _ => awaitLeaseAck fuel executionID ch
    end
  end.

(** [reRequestLost] *)
Definition reRequestLost (fuel : nat) (executionID : string) (options : RunOptions) : RM (rresult Attempt) :=
  recorded ← view (fun c => RequestForExecution c executionID);
  match recorded with
  | None => mret (Err (R_Core (CErr ErrExecutionNotFound [Quoted executionID])))
  | Some request =>
    allocators ← view (fun c => AllocatorDestinations c (er_resource_class request) (er_constraints request));
    replacement ← requestAttempt fuel (Some (executionID, request)) request allocators (op_LeaseDuration options);
    match replacement with
    | Err e => mret (Err (R_Reschedule e))
    | Ok attempt =>
      rebound ← core (RebindLeaseIntent executionID (at_ExecutionID attempt));
      match rebound with
      | Err e => mret (Err (R_Rebind e))
      | Ok _ => mret (Ok attempt)
      end
    end
  end.

(** [attemptFor] *)
Definition attemptFor (executionID : string) : RM Attempt :=
  request ← view (fun c => RequestForExecution c executionID);
  snapshot ← view (fun c => Execution c executionID);
  mret (mkAttempt (from_option er_run_id "" request) (from_option er_attempt 0 request) (from_option er_request_id "" request)
          executionID (from_option sx_Allocator [] snapshot)).

(** One renewal of [executionID]: renewed, lost, or an error. *)
Definition renew_once (fuel : nat) (executionID : string) (options : RunOptions) : RM (rresult bool) :=
  maintained ← core (Maintain executionID (op_LeaseDuration options));
  match maintained with
  | Err e => mret (Err (R_Core e))
  | Ok (destination, Some envelope, false) =>
    ch ← registerWaiter (env_message_id envelope);
    outcome ← (rtry _ ← send destination envelope;
               acked ← awaitLeaseAck fuel executionID ch;
               match acked with
               | Ok _ => mret (Ok true)
               | Err e =>
                 if is_running e then mret (Err e)
                 else lost ← view (fun c => LeaseIntentLost c executionID);
                      match lost with true => mret (Ok false) | false => mret (Err e) end
               end);
    cancelWaiter (env_message_id envelope) ch;;
    mret outcome
  | Ok _ => mret (Ok false)
  end.

(** [renewOrReRequest] *)
Fixpoint renewOrReRequest (fuel : nat) (activeID : string) (rerequested : bool) (options : RunOptions) : RM (rresult (Attempt * bool)) :=
  match fuel with
  | O => mret (Err R_StillRunning)
  | S f =>
    renewed ← renew_once fuel activeID options;
    match renewed with
    | Err e => mret (Err e)
    | Ok true => attempt ← attemptFor activeID; mret (Ok (attempt, rerequested))
    | Ok false => rtry replacement ← reRequestLost fuel activeID options; renewOrReRequest f (at_ExecutionID replacement) true options
    end
  end.

(** ** Holding a run (run.go) *)

Definition defaultOfferWait : duration := 10 * Second.

Definition is_state_of (executionID : string) (e : Envelope) : bool :=
  match env_payload e with
  | Some (P_ExecutionState (Some st)) => bool_decide (es_execution_id st = executionID)
  | _ => bool_decide (executionID = "")
  end.

Fixpoint await_state (fuel : nat) (executionID : string) (ch : nat) : RM (rresult (option ExecutionState)) :=
  match fuel with
  | O => mret (Err R_StillRunning)
  | S fuel =>
    p ← select;
    match p with
    | Pick_Done =>
      over ← reads rc_done;
      match over with true => mret (Err (R_Context nw_canceled)) | false => await_state fuel executionID ch end
    | Pick_Timer => mret (Err R_Timeout)
    | Pick_Waiter =>
      r ← receive ch;
      match r with
      | None => await_state fuel executionID ch
      | Some e =>
        match RemoteFailure e with
        | Some err => mret (Err err)
        | None =>
          if is_state_of executionID e
          then snapshot ← view (fun c => Execution c executionID); mret (Ok (snapshot ≫= sx_State))
          else await_state fuel executionID ch
        end
      end
    | _ => await_state fuel executionID ch
    end
  end.

(** [Inspect], with the context and the waiting time [holdRun] gives it. *)
Definition Inspect (fuel : nat) (executionID : string) : RM (rresult (option ExecutionState)) :=
  asked ← core (Client.Inspect executionID);
  match asked with
  | Err e => mret (Err (R_Core e))
  | Ok (destination, envelope) =>
    ch ← registerWaiter (env_message_id envelope);
    outcome ← (rtry _ ← send destination envelope; await_state fuel executionID ch);
    cancelWaiter (env_message_id envelope) ch;;
    mret outcome
  end.

(** The [select] of [holdRun]: whether the ticker fired. *)
Fixpoint await_change (fuel : nat) : RM (rresult bool) :=
  match fuel with
  | O => mret (Err R_StillRunning)
  | S fuel =>
    p ← select;
    match p with
    | Pick_Done => over ← reads rc_done; match over with true => mret (Err (R_Context nw_canceled)) | false => await_change fuel end
    | Pick_State => changed ← reads rc_stateChanged; match changed with true => modify (upd_changed false);; mret (Ok false) | false => await_change fuel end
    | Pick_Tick => mret (Ok true)
    | _ => await_change fuel
    end
  end.

(** The terminal state [holdRun] may return. *)
Definition final_state (snapshot : option ExecutionSnapshot) : option ExecutionState :=
  st ← snapshot ≫= sx_State; if Terminal (es_phase st) then Some st else None.

(** The event of a finished re-request. *)
Definition rescheduled (replacement previous : Attempt) : RM unit :=
  emit EventLeaseLost replacement (at_ExecutionID previous) None;;
  emit EventAttemptAssigned replacement (at_ExecutionID previous) None.

(** What one turn of [holdRun] does about the lease. *)
Definition hold_lease (fuel : nat) (active : Attempt) (options : RunOptions) : RM (rresult Attempt) :=
  due ← core (LeaseDue (at_ExecutionID active));
  match due with
  | false => mret (Ok active)
  | true =>
    renewed ← renewOrReRequest fuel (at_ExecutionID active) false options;
    match renewed with
    | Err e =>
      if is_running e then mret (Err e)
      else (if negb (is_canceled e) then emit EventRenewalError active "" (Some e) else mret tt);; mret (Ok active)
    | Ok (replacement, true) => rescheduled replacement active;; mret (Ok replacement)
    | Ok (_, false) => mret (Ok active)
    end
  end.

(** [holdRun]: the result, or an error with the attempt that was active. *)
Fixpoint holdRun (fuel : nat) (active : Attempt) (options : RunOptions) : RM (rresult Result * Attempt) :=
  match fuel with
  | O => mret (Err R_StillRunning, active)
  | S f =>
    snapshot ← view (fun c => Execution c (at_ExecutionID active));
    finished ← match final_state snapshot with
               | Some st => lost ← view (fun c => LeaseIntentLost c (at_ExecutionID active)); mret (if (lost : bool) then None else Some st)
               | None => mret None
               end;
    match finished with
    | Some st => mret (Ok (mkResult active (Some st)), active)
    | None =>
      lost ← view (fun c => LeaseIntentLost c (at_ExecutionID active));
      match lost with
      | true =>
        replaced ← reRequestLost fuel (at_ExecutionID active) options;
        match replaced with
        | Err e => mret (Err e, active)
        | Ok replacement => rescheduled replacement active;; holdRun f replacement options
        end
      | false =>
        held ← hold_lease fuel active options;
        match held with
        | Err e => mret (Err e, active)
        | Ok active =>
          change ← await_change fuel;
          match change with
          | Err e => mret (Err e, active)
          | Ok false => holdRun f active options
          | Ok true =>
            inspected ← Inspect fuel (at_ExecutionID active);
            match inspected with
            | Err e => if is_canceled e || is_running e then mret (Err e, active) else holdRun f active options
            | Ok _ => holdRun f active options
            end
          end
        end
      end
    end
  end.

(** ** The run (run.go, client.go) *)

(** [beginRun] and [endRun] *)
Definition beginRun : RM (rresult unit) :=
  fun w =>
    let s := w.1 in
    if rc_closed s then (Err R_Closed, w)
    else if negb (rc_started s) then (Err R_NotStarted, w)
    else if rc_runActive s || rc_runUsed s then (Err R_RunActive, w)
    else (Ok tt, (upd_run true true s, w.2)).
Definition endRun : RM unit := modify (fun s => upd_run false (rc_runUsed s) s).

(** [bestEffortCancel] *)
Definition bestEffortCancel (executionID : string) : RM unit :=
  if bool_decide (executionID = "") then mret tt
  else
    cancelled ← core (Cancel executionID "run controller context canceled");
    match cancelled with
    | Err _ => mret tt
    | Ok (destination, envelope) => _ ← send destination envelope; mret tt
    end.

(** The options [Run] works with. *)
Definition run_options (options : RunOptions) : rresult RunOptions :=
  let offerWait := if op_OfferWait options =? 0 then defaultOfferWait else op_OfferWait options in
  let lease := if op_LeaseDuration options =? 0 then DefaultLease else op_LeaseDuration options in
  if offerWait <? 0 then Err (R_Options "client: offer wait must be positive")
  else if lease <? 0 then Err (R_Options "client: lease duration must be positive")
  else Ok (mkOptions offerWait lease).

Definition no_attempt : Attempt := mkAttempt "" 0 "" "" [].

(** [Run] on a context and a request that are not nil: the result, or an error
    with the attempt of the partial result. *)
Definition Run (fuel : nat) (request : ExecutionRequest) (options : RunOptions) : RM (rresult Result * Attempt) :=
  match run_options options with
  | Err e => mret (Err e, no_attempt)
  | Ok options =>
    begun ← beginRun;
    match begun with
    | Err e => mret (Err e, no_attempt)
    | Ok _ =>
      first ← requestAttempt fuel None request [] (op_LeaseDuration options);
      outcome ← match first with
                | Err e => mret (Err e, no_attempt)
                | Ok attempt =>
                  emit EventAttemptAssigned attempt "" None;;
                  held ← holdRun fuel attempt options;
                  over ← (interfere;; reads rc_done);
                  match held.1, over with
                  | Err e, true => (if is_running e then mret tt else bestEffortCancel (at_ExecutionID held.2));; mret held
                  | _, _ => mret held
                  end
                end;
      endRun;;
      mret outcome
    end
  end.
End controller.
