(* ===== verification/ControllerSafe.v ===== *)
(** * Guarantees of the run controller

    A further attempt is requested only for a lease that is lost, and a result is
    the final state of an announced attempt; and a run in which the controller
    loses sight of a replacement. *)

From S2P Require Import Prelude GoStrings Ordering Wire Errors Protocol Registry Client ClientInv ClientSafety ClientReplies Controller.

Section safety.
Context `{Externals, Sources}.

(** ** What other goroutines leave alone *)

(** A final state stays, and so does the loss of a lease. *)
Definition lasting (x x' : executionRecord) : Prop :=
  (ended x = true → xr_state x' = xr_state x) ∧ (xr_leaseLost x = true → xr_leaseLost x' = true).

Lemma lasting_refl x : lasting x x.
Proof. by split. Qed.

Lemma lasting_trans c1 c2 c3 : kept lasting c1 c2 → kept lasting c2 c3 → kept lasting c1 c3.
Proof.
  intros H12 H23 id x Hx. destruct (H12 id x Hx) as (y & Hy & Hxy1 & Hxy2). destruct (H23 id y Hy) as (z & Hz & Hyz1 & Hyz2).
  exists z. split; [done|]. split; [|auto]. intros He. rewrite Hyz1; [|by apply Hxy1]. unfold ended in *. by rewrite Hxy1.
Qed.

Lemma advances_ended x x' : advances x x' → ended x = true → xr_state x' = xr_state x.
Proof.
  intros [_ [Hs|(s' & Hs' & Hsup)]] He; [done|]. unfold ended in He. destruct (xr_state x) as [s|] eqn:Hx; [|done].
  destruct (Hsup s eq_refl) as [Ht _]. congruence.
Qed.

Ltac keep_lasting :=
  try (match goal with |- kept lasting ?c _ => exact (kept_refl lasting c lasting_refl) end); try (eapply kept_put; [apply lasting_refl|eassumption|by split]).

Lemma handleState_lasting c e st : cwp (handleStateLocked e st) (fun _ c' => kept lasting c c') c.
Proof.
  unfold handleStateLocked. cwp_steps; keep_lasting.
  match goal with H : cl_executions c !! _ = Some ?x |- _ => eapply (kept_put lasting c _ x); [apply lasting_refl|done|]; rename x into record end.
  split; [|by destruct (_ && _)]. intros He. unfold ended in He. destruct (xr_state record) as [s0|] eqn:Hs; [|done]. cbn in *.
  match goal with Hv : judge_state _ _ = V_Accept |- _ => destruct (judge_accept _ _ Hv) as [Ht _] end. congruence.
Qed.

Lemma handleError_lasting c e f : cwp (handleErrorLocked e f) (fun _ c' => kept lasting c c') c.
Proof.
  unfold handleErrorLocked. apply cwp_bind, cwp_get. cbv zeta.
  destruct (fold_left (execution_authority _ _ _) _ _) as [auth c'] eqn:Hf. apply cwp_bind, cwp_put, cwp_ret.
  intros k y Hk. match type of Hf with fold_left ?g ?l ?a = _ => destruct (error_fold (env_sender e) (env_correlation_id e)
    (ce_code f) l a k y Hk) as (y' & Hy' & Hor) end.
  rewrite Hf in Hy'. exists y'. split; [done|]. by destruct Hor as [->|[-> _]].
Qed.

Lemma Handle_lasting c e : cwp (Handle e) (fun _ c' => kept lasting c c') c.
Proof.
  pose proof (kept_refl lasting c lasting_refl) as Hsame. unfold Handle.
  destruct (ValidateEnvelope e) as [[]|err] eqn:Hv; [|by apply cwp_ret]. destruct e as [e|]; [|by apply cwp_ret].
  destruct (env_payload e) as [[| [] | | | [] | | | [] | [] | | [] | | [] | | []]|]; try (by apply cwp_ret).
  - unfold handleOfferLocked. cwp_steps; try done.
    eapply cwp_mono; [apply newRelease_pure|]. intros [i|err] c' ->; cwp_steps; done.
  - apply handleState_lasting.
  - unfold handleReleaseAckLocked. cwp_steps; done.
  - apply handleError_lasting.
  - unfold handleLogsLocked. cwp_steps; done.
  - unfold handleRenewAckLocked. cwp_steps; keep_lasting.
  - unfold handleTunnelOpenAckLocked. cwp_steps; done.
Qed.

(** The state of a controller after others have worked on it. *)
Record drifts (s s' : Controller) : Prop := {
  dr_trace : rc_trace s' = rc_trace s;
  dr_core : kept lasting (rc_core s).1 (rc_core s').1
}.

Lemma drifts_refl s : drifts s s.
Proof. split; [done|]. apply kept_refl, lasting_refl. Qed.
Lemma drifts_trans s1 s2 s3 : drifts s1 s2 → drifts s2 s3 → drifts s1 s3.
Proof. intros [T12 C12] [T23 C23]. split; [congruence|]. exact (lasting_trans _ _ _ C12 C23). Qed.

(** An operation of the core that keeps the records. *)
Lemma drifts_core {A} (m : CM A) s : (∀ c, cwp m (fun _ c' => kept lasting c c') c) → drifts s (upd_core (m (rc_core s)).2 s).
Proof. intros Hm. split; [done|]. cbn. destruct (rc_core s) as [c n]. apply (Hm c n). Qed.

Lemma Register_lasting a c : cwp (RegisterAllocator a) (fun _ c' => kept lasting c c') c.
Proof. unfold RegisterAllocator. cwp_steps; keep_lasting. Qed.

Lemma dispatch_drifts e s : drifts s (dispatchEnvelope e s).
Proof. unfold dispatchEnvelope. case_bool_decide; [apply drifts_refl|]. split; [done|]. apply kept_refl, lasting_refl. Qed.

Lemma handleEnvelope_drifts e route s : drifts s (handleEnvelope e route s).
Proof.
  unfold handleEnvelope.
  set (m := match route with Some d => RegisterAllocator (mkRoute (env_sender e) d 0 None None "" 0 "") | None => mret (Ok tt) end : CM (result client_error unit)).
  assert (match route with Some d => RegisterAllocator (mkRoute (env_sender e) d 0 None None "" 0 "") (rc_core s) | None => (Ok tt, rc_core s) end = m (rc_core s)) as ->
    by (unfold m; by destruct route).
  assert (∀ c, cwp m (fun _ c' => kept lasting c c') c) as Hm by (intros c; unfold m; destruct route; [apply Register_lasting|apply cwp_ret; keep_lasting]).
  pose proof (drifts_core m s Hm) as H1. destruct (m (rc_core s)) as [[u|err] k]; cbn in H1; [|done].
  pose proof (drifts_core (Handle (Some e)) (upd_core k s) (fun c => Handle_lasting c (Some e))) as H2. cbn in H2.
  destruct (Handle (Some e) k) as [[err|] k']; cbn in H2; [exact (drifts_trans _ _ _ H1 H2)|].
  eapply drifts_trans; [|apply dispatch_drifts]. apply (drifts_trans _ (upd_core k s)); [done|]. destruct (is_state e); [|done].
  destruct H2 as [T C]. by split.
Qed.

Lemma happen_drifts s h : drifts s (happen s h).
Proof.
  destruct h as [e route|id stream offset limit|id|id key targets|]; cbn; [apply handleEnvelope_drifts|..]; apply drifts_core; intros c.
  - unfold Logs. cwp_steps; keep_lasting.
  - unfold Client.Inspect. cwp_steps; keep_lasting.
  - unfold TunnelOpen. cwp_steps; keep_lasting.
  - unfold PendingReleases. cwp_steps; keep_lasting.
Qed.

Lemma happens_drift l s : drifts s (fold_left happen l s).
Proof. revert s. induction l as [|h l IH]; intros s; [apply drifts_refl|]. cbn. exact (drifts_trans _ _ _ (happen_drifts s h) (IH _)). Qed.

(** ** Reasoning about the controller *)

Context `{Network}.

Definition rwp {A} (m : RM A) (Q : A → Controller → Prop) (s : Controller) : Prop := ∀ n, Q (m (s, n)).1 (m (s, n)).2.1.

Lemma rwp_mono {A} (m : RM A) (Q Q' : A → Controller → Prop) s : rwp m Q s → (∀ a s', Q a s' → Q' a s') → rwp m Q' s.
Proof. intros Hm HQ n. apply HQ, Hm. Qed.
Lemma rwp_ret {A} (a : A) Q s : Q a s → rwp (mret a) Q s.
Proof. by intros HQ n. Qed.
Lemma rwp_bind {A B} (m : RM A) (f : A → RM B) Q s : rwp m (fun a s' => rwp (f a) Q s') s → rwp (m ≫= f) Q s.
Proof. intros Hm n. specialize (Hm n). unfold mbind, RM_bind. destruct (m (s, n)) as [a [s' n']]. apply Hm. Qed.
Lemma rwp_modify f Q s : Q tt (f s) → rwp (modify f) Q s.
Proof. by intros HQ n. Qed.
Lemma rwp_reads {A} (f : Controller → A) Q s : Q (f s) s → rwp (reads f) Q s.
Proof. by intros HQ n. Qed.

Lemma rwp_interfere Q s : (∀ s', drifts s s' → Q tt s') → rwp interfere Q s.
Proof. intros HQ n. apply HQ. destruct (happens_drift (nw_happens n) s) as [T C]. by split. Qed.

Lemma rwp_view {A} (f : Client → A) Q s : (∀ s', drifts s s' → Q (f (rc_core s').1) s') → rwp (view f) Q s.
Proof. intros HQ. apply rwp_bind, rwp_interfere. intros s' Hd. by apply rwp_reads, HQ. Qed.

Lemma rwp_core {A} (m : CM A) (P : A → Client → Client → Prop) (Q : A → Controller → Prop) s : (∀ c, cwp m (fun a c' => P a c c') c) →
  (∀ s' a k, drifts s s' → P a (rc_core s').1 k.1 → Q a (upd_core k s')) → rwp (core m) Q s.
Proof.
  intros Hm HQ. apply rwp_bind, rwp_interfere. intros s' Hd n. unfold on_core. cbn. destruct (rc_core s') as [c k] eqn:Hc.
  specialize (Hm c k). destruct (m (c, k)) as [a k'] eqn:He. cbn in *. apply HQ; [done|]. by rewrite Hc.
Qed.

(** ** Re-requests *)

(** Since [t] every further attempt was requested for a lost lease. *)
Definition justified (n : note) : Prop := match n with N_Next _ b => b = true | _ => True end.
Definition lawful (t : list note) (s : Controller) : Prop := ∃ l, rc_trace s = t ++ l ∧ Forall justified l.

Definition lost (s : Controller) (executionID : string) : Prop := LeaseIntentLost (rc_core s).1 executionID = true.

(** Parts of the controller that only send, emit and wait. *)
Definition plain {A} (m : RM A) : Prop := ∀ t s, lawful t s → rwp m (fun _ s' => lawful t s') s.

Lemma lawful_drifts t s s' : drifts s s' → lawful t s → lawful t s'.
Proof. intros [T _] (l & Hl & Hj). exists l. by rewrite T. Qed.

Lemma lost_drifts s s' x : drifts s s' → lost s x → lost s' x.
Proof.
  intros [_ C]. unfold lost, LeaseIntentLost. destruct (cl_executions (rc_core s).1 !! x) as [r|] eqn:Hr; [|done]. cbn. intros Hl.
  destruct (C x r Hr) as (r' & -> & _ & Hl'). by apply Hl'.
Qed.

Lemma lawful_note t s n : lawful t s → justified n → lawful t (upd_trace n s).
Proof. intros (l & Hl & Hj) Hn. exists (l ++ [n]). cbn. rewrite Hl -app_assoc. split; [done|]. apply Forall_app. by split; [|constructor]. Qed.

Lemma plain_ret {A} (a : A) : plain (mret a).
Proof. intros t s Hs. by apply rwp_ret. Qed.
Lemma plain_bind {A B} (m : RM A) (f : A → RM B) : plain m → (∀ a, plain (f a)) → plain (m ≫= f).
Proof. intros Hm Hf t s Hs. apply rwp_bind. eapply rwp_mono; [exact (Hm t s Hs)|]. intros a s' Hs'. exact (Hf a t s' Hs'). Qed.
Lemma plain_interfere : plain interfere.
Proof. intros t s Hs. apply rwp_interfere. intros s' Hd. exact (lawful_drifts _ _ _ Hd Hs). Qed.
Lemma plain_reads {A} (f : Controller → A) : plain (reads f).
Proof. intros t s Hs. by apply rwp_reads. Qed.
Lemma plain_view {A} (f : Client → A) : plain (view f).
Proof. apply plain_bind; [apply plain_interfere|intros _; apply plain_reads]. Qed.
Lemma plain_core {A} (m : CM A) : plain (core m).
Proof. apply plain_bind; [apply plain_interfere|]. intros _ t s Hs n. unfold on_core. cbn. by destruct (m (rc_core s)) as [a k]. Qed.
Lemma plain_modify f : (∀ s, rc_trace (f s) = rc_trace s) → plain (modify f).
Proof. intros Hf t s (l & Hl & Hj). apply rwp_modify. exists l. by rewrite Hf. Qed.
Lemma plain_go_send d e : plain (go_send d e).
Proof. intros t s Hs. by apply rwp_modify, lawful_note. Qed.
Lemma plain_emit k a p err : plain (emit k a p err).
Proof. intros t s Hs. by apply rwp_modify, lawful_note. Qed.
Lemma plain_send d e : plain (send d e).
Proof.
  apply plain_bind; [apply plain_interfere|]. intros _. apply plain_bind; [|by intros _ t s Hs n].
  intros t s Hs. by apply rwp_modify, lawful_note.
Qed.
Lemma plain_select : plain select.
Proof. apply plain_bind; [apply plain_interfere|]. by intros _ t s Hs n. Qed.
Lemma plain_registerWaiter id : plain (registerWaiter id).
Proof. apply plain_bind; [apply plain_interfere|]. by intros _ t s Hs n. Qed.
Lemma plain_cancelWaiter id ch : plain (cancelWaiter id ch).
Proof. by apply plain_modify. Qed.
Lemma plain_receive ch : plain (receive ch).
Proof. by intros t s Hs n. Qed.
End safety.

Create HintDb controller.
#[export] Hint Resolve plain_ret plain_interfere plain_reads plain_view plain_core plain_go_send plain_emit plain_send plain_select plain_registerWaiter
  plain_cancelWaiter plain_receive : controller.

(** A part that is put together from plain ones. *)
Ltac plainly :=
  repeat first
    [ progress eauto with controller
    | apply plain_bind; [|intros ?]
    | apply plain_modify; done
    | lazymatch goal with
      | |- plain (if ?b then _ else _) => destruct b
      | |- plain (match ?x with _ => _ end) => destruct x
      end ].

Section claims.
Context `{Externals, Sources, Network}.

Lemma plain_send_all ds e : plain (send_all ds e).
Proof. induction ds as [|d ds IH]; cbn; plainly. Qed.
Lemma plain_bootstrap ds sent e : plain (bootstrap ds sent e).
Proof. revert sent. induction ds as [|d ds IH]; intros sent; cbn; plainly. Qed.
Lemma plain_collect fuel request e ch sent err : plain (collect fuel request e ch sent err).
Proof. revert sent err. induction fuel as [|fuel IH]; intros sent err; cbn; plainly. Qed.
Lemma plain_assign id allocators d err : plain (assign id allocators d err).
Proof. unfold assign. plainly. Qed.
Lemma plain_awaitLeaseAck fuel id ch : plain (awaitLeaseAck fuel id ch).
Proof. induction fuel as [|fuel IH]; cbn; plainly. Qed.
Lemma plain_await_state fuel id ch : plain (await_state fuel id ch).
Proof. induction fuel as [|fuel IH]; cbn; plainly. Qed.
Lemma plain_await_change fuel : plain (await_change fuel).
Proof. induction fuel as [|fuel IH]; cbn; plainly. Qed.
Lemma plain_attemptFor id : plain (attemptFor id).
Proof. unfold attemptFor. plainly. Qed.
Lemma plain_Inspect fuel id : plain (Controller.Inspect fuel id).
Proof. pose proof (plain_await_state fuel id). unfold Controller.Inspect. plainly. Qed.
Lemma plain_bestEffortCancel id : plain (bestEffortCancel id).
Proof. unfold bestEffortCancel. plainly. Qed.

Lemma CreateNextAttempt_executions p c : cwp (CreateNextAttempt p) (fun _ c' => cl_executions c' = cl_executions c) c.
Proof. unfold CreateNextAttempt, createRequest. cwp_steps; done. Qed.

Lemma create_lawful previous initial t s : lawful t s → (∀ x p, previous = Some (x, p) → lost s x) → rwp (create previous initial) (fun _ s' => lawful t s') s.
Proof.
  intros Hs Hlost. destruct previous as [[x p]|]; [|by apply plain_core]. specialize (Hlost x p eq_refl). unfold create. apply rwp_bind.
  apply (rwp_core _ (fun _ c c' => cl_executions c' = cl_executions c)); [intros c; apply CreateNextAttempt_executions|].
  intros s' out k Hd Hk. apply rwp_bind, rwp_modify, rwp_ret. pose proof (lost_drifts _ _ _ Hd Hlost) as Hl'. apply lawful_note; [exact (lawful_drifts _ _ _ Hd Hs)|].
  unfold lost, LeaseIntentLost in *. cbn. by rewrite Hk.
Qed.

Lemma requestAttempt_lawful fuel previous initial allocators d t s : lawful t s → (∀ x p, previous = Some (x, p) → lost s x) →
  rwp (requestAttempt fuel previous initial allocators d) (fun _ s' => lawful t s') s.
Proof.
  intros Hs Hlost. unfold requestAttempt. apply rwp_bind. eapply rwp_mono; [eapply create_lawful; eassumption|]. intros created s' Hs'. revert s' Hs'.
  destruct created as [[requestID envelope]|e]; [|by apply plain_ret]. cbv beta zeta. intros s' Hs'.
  pose proof (plain_send_all allocators envelope). pose proof (plain_bootstrap). pose proof (plain_collect fuel). pose proof (plain_assign requestID allocators d).
  match goal with |- rwp ?m _ _ => assert (plain m) as Hp; [|by apply Hp] end. plainly.
Qed.

Lemma reRequestLost_lawful fuel x options t s : lawful t s → lost s x → rwp (reRequestLost fuel x options) (fun _ s' => lawful t s') s.
Proof.
  intros Hs Hl. unfold reRequestLost. apply rwp_bind, rwp_view. intros s1 D1. pose proof (lost_drifts _ _ _ D1 Hl) as Hl1. pose proof (lawful_drifts _ _ _ D1 Hs) as Hs1.
  destruct (RequestForExecution (rc_core s1).1 x) as [request|]; [|by apply rwp_ret]. apply rwp_bind, rwp_view. intros s2 D2.
  pose proof (lost_drifts _ _ _ D2 Hl1) as Hl2. pose proof (lawful_drifts _ _ _ D2 Hs1) as Hs2. apply rwp_bind.
  eapply rwp_mono; [apply (requestAttempt_lawful _ _ _ _ _ t); [done|by intros ? ? [= <- <-]]|]. intros [attempt|e] s3 Hs3; [|by apply rwp_ret].
  match goal with |- rwp ?m _ _ => assert (plain m) as Hp; [|by apply Hp] end. plainly.
Qed.

(** What [Maintain] says of the lease. *)
Lemma Maintain_lost x d c : cwp (Maintain x d) (fun r c' => match r with
  | Ok (_, Some _, false) | Err _ => True
  | Ok _ => LeaseIntentLost c' x = true
  end) c.
Proof.
  unfold Maintain. cwp_steps; try done; unfold LeaseIntentLost; cbn; rewrite ?lookup_insert_eq; try done.
  match goal with H : cl_executions c !! x = Some _ |- _ => by rewrite H end.
Qed.

Lemma renew_once_lawful fuel x options t s : lawful t s → rwp (renew_once fuel x options) (fun r s' => lawful t s' ∧ (r = Ok false → lost s' x)) s.
Proof.
  intros Hs. unfold renew_once. apply rwp_bind. eapply (rwp_core _ (fun r c c' => match r with Ok (_, Some _, false) | Err _ => True | Ok _ => LeaseIntentLost c' x = true end)).
  { intros c. apply Maintain_lost. }
  intros s1 r k D1 Hk. pose proof (lawful_drifts _ _ _ D1 Hs) as Hs1. destruct r as [[[d [e|]] []]|e]; try (by apply rwp_ret).
  apply rwp_bind. eapply rwp_mono; [exact (plain_registerWaiter (env_message_id e) t (upd_core k s1) Hs1)|]. intros ch s2 Hs2. apply rwp_bind.
  assert (rwp (rtry _ ← send d e; acked ← awaitLeaseAck fuel x ch;
    match acked with
    | Ok _ => mret (Ok true)
    | Err e => if is_running e then mret (Err e) else lost ← view (fun c => LeaseIntentLost c x); match lost with true => mret (Ok false) | false => mret (Err e) end
    end) (fun r s' => lawful t s' ∧ (r = Ok false → lost s' x)) s2) as Hin.
  { apply rwp_bind. eapply rwp_mono; [exact (plain_send d e t s2 Hs2)|]. intros [u|err] s3 Hs3; [|by apply rwp_ret]. apply rwp_bind.
    eapply rwp_mono; [exact (plain_awaitLeaseAck fuel x ch t s3 Hs3)|]. intros [v|err] s4 Hs4; [by apply rwp_ret|]. destruct (is_running err); [by apply rwp_ret|].
    apply rwp_bind, rwp_view. intros s5 D5. pose proof (lawful_drifts _ _ _ D5 Hs4) as Hs5. destruct (LeaseIntentLost (rc_core s5).1 x) eqn:Hl; by apply rwp_ret. }
  eapply rwp_mono; [exact Hin|]. intros r s3 [Hs3 Hr]. apply rwp_bind, rwp_modify, rwp_ret. by split.
Qed.

Lemma renewOrReRequest_lawful fuel x again options t s : lawful t s → rwp (renewOrReRequest fuel x again options) (fun _ s' => lawful t s') s.
Proof.
  revert x again s. induction fuel as [|fuel IH]; intros x again s Hs; [by apply rwp_ret|]. cbn [renewOrReRequest]. apply rwp_bind.
  eapply rwp_mono; [eapply renew_once_lawful; eassumption|]. intros r s1 [Hs1 Hr]. destruct r as [[|]|e]; [| |by apply rwp_ret].
  - match goal with |- rwp ?m _ _ => assert (plain m) as Hp; [|by apply Hp] end. pose proof plain_attemptFor. plainly.
  - apply rwp_bind. eapply rwp_mono; [apply (reRequestLost_lawful _ _ _ t); [done|by apply Hr]|]. intros [a|e] s2 Hs2; [by apply IH|by apply rwp_ret].
Qed.

Lemma hold_lease_lawful fuel active options : plain (hold_lease fuel active options).
Proof.
  unfold hold_lease. apply plain_bind; [apply plain_core|]. intros [|]; [|apply plain_ret]. apply plain_bind.
  - intros t s Hs. by apply renewOrReRequest_lawful.
  - intros renewed. unfold rescheduled. plainly.
Qed.

Lemma holdRun_lawful fuel active options : plain (holdRun fuel active options).
Proof.
  revert active. induction fuel as [|fuel IH]; intros active; cbn [holdRun]; [apply plain_ret|]. apply plain_bind; [apply plain_view|]. intros snapshot.
  apply plain_bind; [plainly|]. intros [st|]; [apply plain_ret|]. intros t s Hs. apply rwp_bind, rwp_view. intros s1 D1. pose proof (lawful_drifts _ _ _ D1 Hs) as Hs1.
  destruct (LeaseIntentLost (rc_core s1).1 (at_ExecutionID active)) eqn:Hl.
  - apply rwp_bind. eapply rwp_mono; [eapply reRequestLost_lawful; eassumption|]. intros [replacement|e] s2 Hs2; [|by apply rwp_ret].
    match goal with |- rwp ?m _ _ => assert (plain m) as Hp; [|by apply Hp] end. unfold rescheduled. plainly.
  - match goal with |- rwp ?m _ _ => assert (plain m) as Hp; [|by apply Hp] end. pose proof (hold_lease_lawful (S fuel)). pose proof (plain_await_change (S fuel)).
    pose proof (plain_Inspect (S fuel)). plainly.
Qed.

Lemma Run_lawful fuel request options : plain (Run fuel request options).
Proof.
  unfold Run. destruct (run_options options) as [o|e]; [|apply plain_ret]. apply plain_bind.
  { intros t s Hs k. unfold beginRun. cbn. repeat case_match; done. }
  intros [u|e]; [|apply plain_ret]. apply plain_bind; [intros t s Hs; by apply requestAttempt_lawful|]. intros first.
  pose proof (holdRun_lawful fuel). pose proof plain_bestEffortCancel. assert (plain endRun) by (by apply plain_modify). plainly.
Qed.

(** C18 The controller reschedules only what is lost: whatever arrives, fails or
    is cancelled while a run is held, a further attempt is requested for an
    execution only while its lease is recorded as lost, which only its own
    allocator can cause. *)
Theorem reschedules_only_lost fuel request options s n x b : rc_trace s = [] →
  N_Next x b ∈ rc_trace (Run fuel request options (s, n)).2.1 → b = true.
Proof.
  intros Htr. assert (lawful [] s) as Hs by (exists []; by rewrite Htr). destruct (Run_lawful fuel request options [] s Hs n) as (l & -> & Hj).
  intros Hin. rewrite Forall_forall in Hj. exact (Hj _ Hin).
Qed.

(** ** Results *)

Definition announced (s : Controller) (a : Attempt) : Prop := ∃ previous, N_Emit EventAttemptAssigned a previous None ∈ rc_trace s.

(** The result is the final state the core has recorded. *)
Definition recorded (s : Controller) (r : Result) : Prop :=
  ∃ x st, cl_executions (rc_core s).1 !! at_ExecutionID (rs_Attempt r) = Some x ∧ xr_state x = Some st ∧ rs_State r = Some st ∧ Terminal (es_phase st) = true.

Definition good_result (r : rresult Result * Attempt) (s : Controller) : Prop :=
  match r.1 with Ok res => recorded s res ∧ announced s (rs_Attempt res) | Err _ => True end.

Lemma announced_later t s a : lawful t s → (∃ previous, N_Emit EventAttemptAssigned a previous None ∈ t) → announced s a.
Proof. intros (l & Hl & _) (p & Hp). exists p. rewrite Hl. apply elem_of_app. by left. Qed.

(** Plain parts keep what was announced. *)
Lemma rwp_announced {A} (m : RM A) a s : (∀ t, lawful t s → rwp m (fun _ s' => lawful t s') s) → announced s a → rwp m (fun _ s' => announced s' a) s.
Proof.
  intros Hm Ha. eapply rwp_mono; [apply (Hm (rc_trace s)); exists []; by rewrite app_nil_r|]. intros ? s' Hl. exact (announced_later _ _ _ Hl Ha).
Qed.

Lemma rwp_rescheduled replacement previous Q s : (∀ s', announced s' replacement → Q tt s') → rwp (rescheduled replacement previous) Q s.
Proof. intros HQ. apply rwp_bind, rwp_modify, rwp_modify, HQ. exists (at_ExecutionID previous). cbn. rewrite !elem_of_app !list_elem_of_singleton. by right. Qed.

Lemma final_recorded s s' id st : final_state (Execution (rc_core s).1 id) = Some st → drifts s s' →
  ∃ x, cl_executions (rc_core s').1 !! id = Some x ∧ xr_state x = Some st ∧ Terminal (es_phase st) = true.
Proof.
  unfold final_state, Execution. intros Hf [_ C]. destruct (cl_executions (rc_core s).1 !! id) as [x|] eqn:Hx; [|done]. cbn in Hf.
  destruct (xr_state x) as [st'|] eqn:Hs; [|done]. cbn in Hf. destruct (Terminal (es_phase st')) eqn:Ht; [|done]. injection Hf as ->.
  destruct (C id x Hx) as (x' & Hx' & He & _). exists x'. split; [done|]. rewrite He; [unfold ended; by rewrite Hs|]. by rewrite Hs.
Qed.

Lemma hold_lease_announced fuel active options s : announced s active →
  rwp (hold_lease fuel active options) (fun r s' => match r with Ok a => announced s' a | Err _ => True end) s.
Proof.
  intros Ha. unfold hold_lease. apply rwp_bind. eapply rwp_mono; [apply rwp_announced; [intros t; apply plain_core|exact Ha]|]. intros due s1 Ha1.
  destruct due; [|by apply rwp_ret]. apply rwp_bind. eapply rwp_mono; [apply rwp_announced; [intros t; apply renewOrReRequest_lawful|exact Ha1]|].
  intros [[replacement []]|e] s2 Ha2; [| by apply rwp_ret|].
  - apply rwp_bind, rwp_rescheduled. intros s3 Ha3. by apply rwp_ret.
  - destruct (is_running e); [by apply rwp_ret|]. apply rwp_bind.
    eapply rwp_mono; [apply (rwp_announced _ active); [|exact Ha2]|intros ? s3 Ha3; by apply rwp_ret]. intros t Ht.
    match goal with |- rwp ?m _ _ => assert (plain m) as Hp; [|by apply Hp] end. plainly.
Qed.

Lemma holdRun_good fuel active options s : announced s active → rwp (holdRun fuel active options) good_result s.
Proof.
  revert active s. induction fuel as [|fuel IH]; intros active s Ha; cbn [holdRun]; [by apply rwp_ret|]. apply rwp_bind, rwp_view. intros s1 D1.
  assert (announced s1 active) as Ha1 by (destruct Ha as [p Hp]; exists p; by rewrite (dr_trace _ _ D1)). apply rwp_bind.
  assert (rwp (match final_state (Execution (rc_core s1).1 (at_ExecutionID active)) with
    | Some st => lost ← view (fun c => LeaseIntentLost c (at_ExecutionID active)); mret (if (lost : bool) then None else Some st)
    | None => mret None end) (fun finished s' => announced s' active ∧ ∀ st, finished = Some st → recorded s' (mkResult active (Some st))) s1) as Hf.
  { destruct (final_state _) as [st|] eqn:Hst; [|by apply rwp_ret]. apply rwp_bind, rwp_view. intros s2 D2. apply rwp_ret.
    split; [destruct Ha1 as [p Hp]; exists p; by rewrite (dr_trace _ _ D2)|]. intros st'. destruct (LeaseIntentLost _ _); [done|]. intros [= <-].
    destruct (final_recorded s1 s2 _ st Hst D2) as (x & Hx & Hs & Ht). by exists x, st. }
  eapply rwp_mono; [exact Hf|]. intros [st|] s2 [Ha2 Hrec]; [by apply rwp_ret; split; [apply Hrec|]|]. apply rwp_bind, rwp_view. intros s3 D3.
  assert (announced s3 active) as Ha3 by (destruct Ha2 as [p Hp]; exists p; by rewrite (dr_trace _ _ D3)).
  destruct (LeaseIntentLost (rc_core s3).1 (at_ExecutionID active)) eqn:Hl.
  - apply rwp_bind. intros n. destruct (reRequestLost _ _ _ (s3, n)) as [[replacement|e] [s4 n4]]; [|done]. cbn.
    apply (rwp_bind _ _ good_result s4), rwp_rescheduled. intros s5 Ha5. by apply IH.
  - apply rwp_bind. eapply rwp_mono; [eapply hold_lease_announced; eassumption|]. intros [active'|e] s4 Ha4; [|by apply rwp_ret]. apply rwp_bind.
    eapply rwp_mono; [apply rwp_announced; [intros t; apply plain_await_change|exact Ha4]|]. intros [[]|e] s5 Ha5; [|by apply IH|by apply rwp_ret].
    apply rwp_bind. eapply rwp_mono; [apply rwp_announced; [intros t; apply plain_Inspect|exact Ha5]|]. intros [st|e] s6 Ha6; [by apply IH|].
    destruct (_ || _); [by apply rwp_ret|by apply IH].
Qed.

Lemma rwp_any {A B} (m : RM A) (f : A → RM B) Q s : (∀ a s', rwp (f a) Q s') → rwp (m ≫= f) Q s.
Proof. intros Hf. apply rwp_bind. intros n. apply Hf. Qed.

Lemma good_drifts r s s' : drifts s s' → good_result r s → good_result r s'.
Proof.
  intros [T C]. unfold good_result. destruct r.1 as [res|e]; [|done]. intros [(x & st & Hx & Hs & Hr & Ht) [p Hp]]. split; [|exists p; by rewrite T].
  destruct (C _ x Hx) as (x' & Hx' & He & _). exists x', st. split_and!; [done| |done|done]. rewrite He //. unfold ended. by rewrite Hs.
Qed.

(** C19 A run that succeeds returns the truth: its result is an attempt that was
    announced to the caller, together with the terminal state that the core has
    recorded for it. *)
Theorem run_result_final fuel request options s n res a : (Run fuel request options (s, n)).1 = (Ok res, a) →
  recorded (Run fuel request options (s, n)).2.1 res ∧ announced (Run fuel request options (s, n)).2.1 (rs_Attempt res).
Proof.
  cut (rwp (Run fuel request options) good_result s); [intros Hw Hres; specialize (Hw n); by rewrite /good_result Hres in Hw|].
  unfold Run. destruct (run_options options) as [o|e]; [|by apply rwp_ret]. apply rwp_any. intros [u|e] s1; [|by apply rwp_ret].
  apply rwp_any. intros first s2. apply rwp_bind. apply (rwp_mono _ good_result).
  - destruct first as [attempt|e]; [|by apply rwp_ret]. apply rwp_bind, rwp_modify, rwp_bind. eapply rwp_mono.
    { apply holdRun_good. exists "". cbn. apply elem_of_app. right. by apply list_elem_of_singleton. }
    intros held s3 Hg. apply rwp_bind, rwp_bind, rwp_interfere. intros s4 D4. apply rwp_reads. pose proof (good_drifts _ _ _ D4 Hg) as Hg4.
    destruct held.1 as [res'|e] eqn:Hh; [by apply rwp_ret|]. destruct (rc_done s4); [|by apply rwp_ret].
    apply rwp_any. intros ? s5. apply rwp_ret. unfold good_result. by rewrite Hh.
  - intros r s3 Hg. apply rwp_bind, rwp_modify, rwp_ret. exact Hg.
Qed.
End claims.
