(* ===== verification/ControllerRuns.v ===== *)
(** * Runs of the controller

    Two runs against a scripted network: one that completes, and one in which
    the controller loses sight of a replacement and starts the workload again
    beside it. *)

From stdpp Require Import pretty.
From S2P Require Import Prelude GoStrings Ordering Wire Errors Protocol Registry Client ClientInv ClientSafety ClientReplies Start Handshake Controller ControllerSafe.
From Stdlib Require Import Strings.Byte.

Definition demo_service : Service := mkService (hex_encode (replicate 16 x42)) "alloc.example" 1 {["small" := 2]} "" "" "" None.
Definition demo_controller : Controller := mkController (demo_client_state, 0%nat) [] true false false false ∅ [] false false [].
Definition demo_run_request : ExecutionRequest := mkRequest "" (Some (mkWorkload "image" [] [] ∅ "")) (Some mkPolicy) "small" None "" 0.

(** Envelopes of the allocator behind the service. *)
Definition from_allocator (id correlation : string) (p : Payload) : Envelope :=
  mkEnvelope id (replicate 16 x42) correlation (Some (ts_new demo_time)) (Some p).
Definition offer_for (id request correlation : string) : Envelope :=
  from_allocator ("m-" +:+ id) correlation (P_ExecutionOffer (Some (mkOffer id request "small" (Some (ts_new (demo_time + Minute))) None))).
Definition gone (id correlation : string) : Envelope :=
  from_allocator id correlation (P_CommandError (Some (mkCommandError "NOT_FOUND" "execution not found" false))).
Definition succeeded (id execution : string) : Envelope :=
  from_allocator id "" (P_ExecutionState (Some (mkState execution PHASE_COMPLETED (Some (ts_new demo_time)) "" (Some 0) 2))).

(** The service is discovered, makes an offer, and reports success. *)
Definition orderly : Network := {|
  nw_happens n := match n with
    | 4%nat => [H_Envelope (offer_for "o-1" "c-0" "c-1") None]
    | 8%nat => [H_Envelope (succeeded "a-1" "c-5") None]
    | _ => [] end;
  nw_cancel _ := false; nw_canceled := true; nw_send _ := None;
  nw_pick n := match n with 3%nat => Pick_Discovery demo_service | _ => Pick_Timer end |}.

(** The execution is gone when its lease is renewed, and so it is requested
    again; the first renewal of the replacement cannot be sent; and an inspection
    of the execution that is gone says so once more. *)
Definition forgetful : Network := {|
  nw_happens n := match n with
    | 4%nat => [H_Envelope (offer_for "o-1" "c-0" "c-1") None]
    | 16%nat => [H_Envelope (gone "a-1" "c-7") None]
    | 23%nat => [H_Envelope (offer_for "o-2" "c-9" "c-10") None]
    | 37%nat => [H_Envelope (gone "a-2" "c-18") None]
    | 45%nat => [H_Envelope (offer_for "o-3" "c-20" "c-21") None]
    | _ => [] end;
  nw_cancel _ := false; nw_canceled := true;
  nw_send n := match n with 33%nat => Some false | _ => None end;
  nw_pick n := match n with 3%nat => Pick_Discovery demo_service | 17%nat | 38%nat => Pick_Waiter | 34%nat => Pick_Tick | _ => Pick_Timer end |}.

Definition run_with (network : Network) : (rresult Result * Attempt) * (Controller * nat) :=
  @Run _ _ network 20 demo_run_request (mkOptions 0 0) (demo_controller, 0%nat).

(** ** Witnesses *)

Lemma reschedules_only_lost_witness : N_Next "c-5" true ∈ rc_trace (run_with forgetful).2.1 ∧ true = true.
Proof.
  assert (N_Next "c-5" true ∈ rc_trace (run_with forgetful).2.1) as Hin.
  { apply (list_elem_of_lookup_2 _ 4). vm_compute. reflexivity. }
  split; [exact Hin|]. exact (@reschedules_only_lost _ _ forgetful 20 demo_run_request (mkOptions 0 0) demo_controller 0 "c-5" true eq_refl Hin).
Defined.

Lemma run_result_final_witness : ∃ res, (run_with orderly).1.1 = Ok res ∧ recorded (run_with orderly).2.1 res.
Proof.
  destruct (run_with orderly).1 as [[res|e] a] eqn:Hr; [|vm_compute in Hr; discriminate Hr]. exists res. split; [reflexivity|].
  exact (proj1 (@run_result_final _ _ orderly 20 demo_run_request (mkOptions 0 0) demo_controller 0 res a Hr)).
Defined.

(** ** A replacement that is forgotten *)

Definition assignment_of (n : note) : option string :=
  match n with N_Send _ e => match env_payload e with Some (P_ExecutionAssign (Some a)) => Some (ea_execution_id a) | _ => None end | _ => None end.
Definition announcement_of (n : note) : option string :=
  match n with N_Emit EventAttemptAssigned a _ _ => Some (at_ExecutionID a) | _ => None end.

(** The controller can forget an attempt: when a re-request succeeds but the
    first renewal of the replacement does not, the lost execution stays the
    active one.  In this run three executions are assigned and only the first is
    announced; the second and the third are the same attempt of the run, neither
    is lost, and the run ends in an error while both may be running. *)
Theorem replacement_forgotten :
  ∃ s, (run_with forgetful).2.1 = s ∧ (run_with forgetful).1.1 = Err (R_Rebind (CErr ErrConflict [])) ∧
  omap assignment_of (rc_trace s) = ["c-5"; "c-14"; "c-25"] ∧ omap announcement_of (rc_trace s) = ["c-5"] ∧
  Forall (fun x => LeaseIntentLost (rc_core s).1 x = false ∧ option_map er_attempt (RequestForExecution (rc_core s).1 x) = Some 2) ["c-14"; "c-25"] ∧
  option_map er_run_id (RequestForExecution (rc_core s).1 "c-14") = option_map er_run_id (RequestForExecution (rc_core s).1 "c-25").
Proof. eexists. split; [reflexivity|]. split_and!; [..|repeat constructor|]; vm_compute; reflexivity. Qed.
