(* ===== verification/Base64.v ===== *)
(** * Base64 without padding

    [base64.RawURLEncoding] of the Go library: the URL alphabet, no padding,
    line breaks ignored on input and spare bits of the last digit not checked. *)

From S2P Require Import Prelude GoStrings.
From Stdlib Require Import Strings.Byte.

(** ** Digits *)

Definition alphabet : bytes :=
  String.list_byte_of_string "ABCDEFGHIJKLMNOPQRSTUVWXYZabcdefghijklmnopqrstuvwxyz0123456789-_".

Definition digit (n : Z) : byte := nth (Z.to_nat n) alphabet x00.

Definition digit_value (b : byte) : option Z :=
  let n := Z.of_N (Byte.to_N b) in
  if (65 <=? n) && (n <=? 90) then Some (n - 65)
  else if (97 <=? n) && (n <=? 122) then Some (n - 71)
  else if (48 <=? n) && (n <=? 57) then Some (n + 4)
  else if n =? 45 then Some 62
  else if n =? 95 then Some 63
  else None.

Definition byte_z (b : byte) : Z := Z.of_N (Byte.to_N b).
Definition z_byte (n : Z) : byte := default x00 (Byte.of_N (Z.to_N (n mod 256))).

(** ** [EncodeToString] *)

Fixpoint b64_encode_bytes (l : bytes) : bytes :=
  match l with
  | a :: b :: c :: l' =>
    let val := Z.lor (Z.lor (Z.shiftl (byte_z a) 16) (Z.shiftl (byte_z b) 8)) (byte_z c) in
    digit (Z.land (Z.shiftr val 18) 63) :: digit (Z.land (Z.shiftr val 12) 63)
      :: digit (Z.land (Z.shiftr val 6) 63) :: digit (Z.land val 63) :: b64_encode_bytes l'
  | [a; b] =>
    let val := Z.lor (Z.shiftl (byte_z a) 16) (Z.shiftl (byte_z b) 8) in
    [digit (Z.land (Z.shiftr val 18) 63); digit (Z.land (Z.shiftr val 12) 63); digit (Z.land (Z.shiftr val 6) 63)]
  | [a] =>
    let val := Z.shiftl (byte_z a) 16 in
    [digit (Z.land (Z.shiftr val 18) 63); digit (Z.land (Z.shiftr val 12) 63)]
  | [] => []
  end.

Definition b64_encode (l : bytes) : string := String.string_of_list_byte (b64_encode_bytes l).

(** ** [DecodeString] *)

(** The value of a quantum of up to four digits. *)
Definition quantum (ds : list Z) : Z :=
  match ds with
  | [p; q; r; s] => Z.lor (Z.lor (Z.lor (Z.shiftl p 18) (Z.shiftl q 12)) (Z.shiftl r 6)) s
  | [p; q; r] => Z.lor (Z.lor (Z.shiftl p 18) (Z.shiftl q 12)) (Z.shiftl r 6)
  | [p; q] => Z.lor (Z.shiftl p 18) (Z.shiftl q 12)
  | _ => 0
  end.

Fixpoint decode_digits (ds : list Z) : option bytes :=
  match ds with
  | p :: q :: r :: s :: ds' =>
    let val := quantum [p; q; r; s] in
    (fun rest => z_byte (Z.shiftr val 16) :: z_byte (Z.shiftr val 8) :: z_byte val :: rest) <$> decode_digits ds'
  | [p; q; r] => let val := quantum [p; q; r] in Some [z_byte (Z.shiftr val 16); z_byte (Z.shiftr val 8)]
  | [p; q] => Some [z_byte (Z.shiftr (quantum [p; q]) 16)]
  | [_] => None
  | [] => Some []
  end.

Definition line_break (b : byte) : bool := bool_decide (b = x0a) || bool_decide (b = x0d).

Fixpoint digits_of (l : bytes) : option (list Z) :=
  match l with
  | [] => Some []
  | b :: l' =>
    match digit_value b with
    | Some v => (fun vs => v :: vs) <$> digits_of l'
    | None => if line_break b then digits_of l' else None
    end
  end.

Definition b64_decode (s : string) : option bytes :=
  match digits_of (String.list_byte_of_string s) with
  | Some ds => decode_digits ds
  | None => None
  end.

(** ** Decoding an encoding *)

Lemma digit_value_digit n : 0 ≤ n < 64 → digit_value (digit n) = Some n.
Proof.
  intros Hn. assert (n = Z.of_nat (Z.to_nat n)) as -> by lia.
  assert (Z.to_nat n < 64)%nat as Hlt by lia. revert Hlt. generalize (Z.to_nat n). clear n Hn.
  assert (forallb (fun n => bool_decide (digit_value (digit (Z.of_nat n)) = Some (Z.of_nat n))) (seq 0 64) = true) as Hall
    by (vm_compute; reflexivity).
  intros n Hlt. rewrite forallb_forall in Hall. specialize (Hall n). rewrite bool_decide_eq_true in Hall.
  apply Hall. apply in_seq. lia.
Qed.

Lemma byte_z_range b : 0 ≤ byte_z b < 256.
Proof. unfold byte_z. pose proof (Byte.to_N_bounded b). lia. Qed.

Lemma z_byte_z b : z_byte (byte_z b) = b.
Proof.
  unfold z_byte, byte_z. rewrite Z.mod_small; [pose proof (Byte.to_N_bounded b); lia|].
  by rewrite N2Z.id Byte.of_to_N.
Qed.

Lemma z_byte_eq n b : n mod 256 = byte_z b → z_byte n = b.
Proof. intros Hn. rewrite -(z_byte_z b) -Hn. unfold z_byte. by rewrite Zmod_mod. Qed.

(** Disjoint bits add up. *)
Lemma lor_shiftl x y k : 0 ≤ k → 0 ≤ y < 2 ^ k → Z.lor (Z.shiftl x k) y = x * 2 ^ k + y.
Proof.
  intros Hk Hy. assert (Z.land (Z.shiftl x k) y = 0) as Hland.
  { apply Z.bits_inj'. intros i Hi. rewrite Z.land_spec Z.bits_0. destruct (Z.lt_ge_cases i k) as [Hlt|Hge].
    - rewrite Z.shiftl_spec_low //.
    - rewrite -(Z.mod_small y (2 ^ k)) // Z.mod_pow2_bits_high; [lia|apply andb_false_r]. }
  rewrite -Z.lxor_lor // -Z.add_nocarry_lxor // Z.shiftl_mul_pow2 //.
Qed.

Lemma shiftl_mul x k : 0 ≤ k → Z.shiftl x k = x * 2 ^ k.
Proof. apply Z.shiftl_mul_pow2. Qed.

Lemma land63 v : Z.land v 63 = v mod 64.
Proof. by rewrite -(Z.land_ones v 6). Qed.

Lemma shiftr_div v k : 0 ≤ k → Z.shiftr v k = v / 2 ^ k.
Proof. apply Z.shiftr_div_pow2. Qed.

Ltac div_lia := Z.div_mod_to_equations; lia.

(** The value of a quantum. *)
Lemma quantum_value p q r s :
  0 ≤ p < 64 → 0 ≤ q < 64 → 0 ≤ r < 64 → 0 ≤ s < 64 →
  quantum [p; q; r; s] = p * 2 ^ 18 + q * 2 ^ 12 + r * 2 ^ 6 + s ∧
  quantum [p; q; r] = p * 2 ^ 18 + q * 2 ^ 12 + r * 2 ^ 6 ∧
  quantum [p; q] = p * 2 ^ 18 + q * 2 ^ 12.
Proof.
  intros Hp Hq Hr Hs. unfold quantum. rewrite -!Z.lor_assoc.
  rewrite (lor_shiftl r s); [lia|lia|]. rewrite !(shiftl_mul r) // !(lor_shiftl q); [lia..|].
  rewrite (shiftl_mul q) // !lor_shiftl; lia.
Qed.

Lemma value3 a b c : Z.lor (Z.lor (Z.shiftl (byte_z a) 16) (Z.shiftl (byte_z b) 8)) (byte_z c) = byte_z a * 65536 + byte_z b * 256 + byte_z c.
Proof.
  pose proof (byte_z_range a). pose proof (byte_z_range b). pose proof (byte_z_range c).
  rewrite -Z.lor_assoc (lor_shiftl (byte_z b)); [lia|lia|]. rewrite lor_shiftl; lia.
Qed.

Lemma digit_range v k : 0 ≤ Z.land (Z.shiftr v k) 63 < 64.
Proof. rewrite land63. div_lia. Qed.

Lemma digits_of_digits vs l : Forall (fun v => 0 ≤ v < 64) vs → digits_of (map digit vs ++ l) = (fun r => vs ++ r) <$> digits_of l.
Proof.
  induction 1 as [|v vs Hv _ IH]; simpl; [by destruct (digits_of l)|]. rewrite digit_value_digit //. rewrite IH.
  by destruct (digits_of l).
Qed.

Lemma value2 a b : Z.lor (Z.shiftl (byte_z a) 16) (Z.shiftl (byte_z b) 8) = byte_z a * 65536 + byte_z b * 256.
Proof. pose proof (byte_z_range a). pose proof (byte_z_range b). rewrite (shiftl_mul (byte_z b)) // lor_shiftl; lia. Qed.

(** The four digits of a 24-bit value, and the bytes they decode to. *)
Lemma digits_value v :
  0 ≤ v < 2 ^ 24 →
  let p := Z.land (Z.shiftr v 18) 63 in let q := Z.land (Z.shiftr v 12) 63 in
  let r := Z.land (Z.shiftr v 6) 63 in let s := Z.land v 63 in
  quantum [p; q; r; s] = v ∧ quantum [p; q; r] = v - v mod 64 ∧ quantum [p; q] = v - v mod 4096.
Proof.
  intros Hv p q r s. destruct (quantum_value p q r s) as (-> & -> & ->); unfold p, q, r, s; try apply digit_range;
    [rewrite land63; div_lia|]. rewrite !land63 !shiftr_div //. div_lia.
Qed.

Lemma decode_encode_bytes l : (digits_of (b64_encode_bytes l) ≫= decode_digits) = Some l.
Proof.
  induction l as [l IH] using (induction_ltof1 _ (@length byte)). unfold ltof in IH.
  destruct l as [|a [|b [|c l]]]; [done|..]; cbn [b64_encode_bytes];
    pose proof (byte_z_range a) as Ha; try pose proof (byte_z_range b) as Hb; try pose proof (byte_z_range c) as Hc.
  - rewrite (digits_of_digits [_; _] []); [repeat constructor; apply digit_range|]. cbn -[quantum Z.shiftr Z.shiftl Z.land].
    destruct (digits_value (Z.shiftl (byte_z a) 16)) as (_ & _ & ->); [rewrite shiftl_mul; lia|].
    do 2 f_equal. apply z_byte_eq. rewrite shiftl_mul // shiftr_div //. div_lia.
  - rewrite value2 (digits_of_digits [_; _; _] []); [repeat constructor; apply digit_range|]. cbn -[quantum Z.shiftr Z.shiftl Z.land Z.mul].
    destruct (digits_value (byte_z a * 65536 + byte_z b * 256)) as (_ & -> & _); [lia|].
    do 2 f_equal; [|f_equal]; apply z_byte_eq; rewrite shiftr_div //; div_lia.
  - rewrite value3. set (v := byte_z a * 65536 + byte_z b * 256 + byte_z c).
    rewrite (digits_of_digits [_; _; _; _] (b64_encode_bytes l));
      [repeat constructor; try apply digit_range; rewrite land63; div_lia|].
    specialize (IH l ltac:(simpl; lia)). destruct (digits_of (b64_encode_bytes l)) as [ds|]; [|done]. simpl in IH.
    cbn -[quantum Z.shiftr Z.shiftl Z.land Z.mul]. rewrite IH. cbn -[quantum Z.shiftr Z.shiftl Z.land Z.mul].
    destruct (digits_value v) as (-> & _ & _); [unfold v; lia|].
    do 2 f_equal; [|f_equal; [|f_equal]]; apply z_byte_eq; rewrite ?shiftr_div // /v; div_lia.
Qed.

(** Decoding an encoding gives the bytes back. *)
Lemma b64_decode_encode l : b64_decode (b64_encode l) = Some l.
Proof.
  unfold b64_decode, b64_encode. rewrite String.list_byte_of_string_of_list_byte. pose proof (decode_encode_bytes l) as Hd.
  by destruct (digits_of _).
Qed.

(** An encoding has no line breaks, quotes or spaces: only digits. *)
Lemma b64_encode_digits l : Forall (fun b => is_Some (digit_value b)) (b64_encode_bytes l).
Proof.
  induction l as [l IH] using (induction_ltof1 _ (@length byte)). unfold ltof in IH.
  destruct l as [|a [|b [|c l]]]; cbn [b64_encode_bytes]; repeat constructor;
    try (rewrite digit_value_digit; [by apply digit_range|by eexists]).
  - rewrite digit_value_digit; [rewrite land63; div_lia|by eexists].
  - apply IH. simpl. lia.
Qed.

Lemma b64_encode_length l : (length (b64_encode_bytes l) = (4 * length l + 2) / 3)%nat.
Proof.
  induction l as [l IH] using (induction_ltof1 _ (@length byte)). unfold ltof in IH.
  destruct l as [|a [|b [|c l]]]; try done. cbn [b64_encode_bytes length]. rewrite IH; [simpl; lia|].
  replace (4 * S (S (S (length l))) + 2)%nat with (4 * length l + 2 + 4 * 3)%nat by lia.
  rewrite Nat.div_add //. lia.
Qed.
