(* ===== verification/Json.v ===== *)
(** * JSON (encoding/json)

    The syntax [json.Decoder] accepts, with its strings unquoted the way the Go
    library does it, and the strings [json.Marshal] writes.  Errors carry no
    text here: the code that decodes wraps whatever error it gets. *)

From S2P Require Import Prelude GoStrings Utf8.
From Stdlib Require Import Strings.Byte.

Inductive json :=
| JNull
| JBool (b : bool)
| JNum (literal : bytes)
| JStr (s : bytes)
| JArr (l : list json)
| JObj (l : list (bytes * json)).

(** ** Lexical elements *)

Definition isb (c b : byte) : bool := bool_decide (b = c).

Definition is_ws (b : byte) : bool := isb x20 b || isb x09 b || isb x0a b || isb x0d b.

Fixpoint skip_ws (l : bytes) : bytes :=
  match l with
  | b :: l' => if is_ws b then skip_ws l' else l
  | [] => []
  end.

Definition is_digit (b : byte) : bool := byte_in 48 57 b.

(** The digits at the head, and the rest. *)
Fixpoint take_digits (l : bytes) : bytes * bytes :=
  match l with
  | b :: l' => if is_digit b then let '(ds, r) := take_digits l' in (b :: ds, r) else ([], l)
  | [] => ([], [])
  end.

(** One or more digits. *)
Definition digits1 (l : bytes) : option (bytes * bytes) :=
  match take_digits l with ([], _) => None | r => Some r end.

(** A number literal: a sign, an integer part without leading zeros, a fraction
    and an exponent. *)
Definition parse_sign (l : bytes) : bytes * bytes :=
  match l with b :: l' => if isb x2d b then ([b], l') else ([], l) | [] => ([], []) end.

Definition parse_int (l : bytes) : option (bytes * bytes) :=
  match l with b :: l' => if isb x30 b then Some ([b], l') else digits1 l | [] => None end.

Definition parse_frac (l : bytes) : option (bytes * bytes) :=
  match l with
  | b :: l' => if isb x2e b then '(fs, r) ← digits1 l'; Some (b :: fs, r) else Some ([], l)
  | [] => Some ([], [])
  end.

Definition parse_exp (l : bytes) : option (bytes * bytes) :=
  match l with
  | e :: l' =>
    if isb x65 e || isb x45 e then
      let '(sg, l2) := match l' with s :: l'' => if isb x2b s || isb x2d s then ([s], l'') else ([], l') | [] => ([], []) end in
      '(es, r) ← digits1 l2; Some (e :: sg ++ es, r)
    else Some ([], l)
  | [] => Some ([], [])
  end.

Definition parse_number (l : bytes) : option (bytes * bytes) :=
  let '(sign, l1) := parse_sign l in
  '(ds, l2) ← parse_int l1;
  '(fs, l3) ← parse_frac l2;
  '(es, l4) ← parse_exp l3;
  Some (sign ++ ds ++ fs ++ es, l4).

(** ** Strings *)

(** The UTF-8 encoding of a code point. *)
Definition byte_of (n : N) : byte := default x00 (Byte.of_N n).
Definition encode_rune (n : N) : bytes :=
  (if n <? 0x80 then [byte_of n]
   else if n <? 0x800 then [byte_of (0xC0 + n / 64); byte_of (0x80 + n mod 64)]
   else if (0xD800 <=? n) && (n <=? 0xDFFF) then replacement
   else if n <? 0x10000 then [byte_of (0xE0 + n / 4096); byte_of (0x80 + n / 64 mod 64); byte_of (0x80 + n mod 64)]
   else [byte_of (0xF0 + n / 262144); byte_of (0x80 + n / 4096 mod 64); byte_of (0x80 + n / 64 mod 64); byte_of (0x80 + n mod 64)])%N.

(** [getu4] on the four digits after [\u]. *)
Definition hex4 (l : bytes) : option (N * bytes) :=
  match l with
  | a :: b :: c :: d :: l' =>
    match hex_value a, hex_value b, hex_value c, hex_value d with
    | Some a, Some b, Some c, Some d => Some ((((a * 16 + b) * 16 + c) * 16 + d)%N, l')
    | _, _, _, _ => None
    end
  | _ => None
  end.

Definition is_surrogate (n : N) : bool := ((0xD800 <=? n) && (n <=? 0xDFFF))%N.

(** What [\uXXXX] stands for, and what follows: a surrogate needs its partner. *)
Definition unicode_escape (r : N) (l : bytes) : bytes * bytes :=
  if is_surrogate r then
    match l with
    | a :: b :: l' =>
      match (if isb x5c a && isb x75 b then hex4 l' else None) with
      | Some (r2, l'') =>
        if ((r <=? 0xDBFF) && (0xDC00 <=? r2) && (r2 <=? 0xDFFF))%N
        then (encode_rune ((r - 0xD800) * 1024 + (r2 - 0xDC00) + 0x10000)%N, l'')
        else (replacement, l)
      | None => (replacement, l)
      end
    | _ => (replacement, l)
    end
  else (encode_rune r, l).

(** The escapes of one letter. *)
Definition simple_escape (b : byte) : option byte :=
  match b with
  | x22 => Some x22 | x5c => Some x5c | x2f => Some x2f | x62 => Some x08 | x66 => Some x0c
  | x6e => Some x0a | x72 => Some x0d | x74 => Some x09 | _ => None
  end.

(** One escape after its backslash. *)
Definition parse_escape (l : bytes) : option (bytes * bytes) :=
  match l with
  | e :: l' =>
    if isb x75 e then '(r, l'') ← hex4 l'; Some (unicode_escape r l'')
    else b ← simple_escape e; Some ([b], l')
  | [] => None
  end.

(** One character that is not an escape; a byte that is not UTF-8 is replaced. *)
Definition parse_char (b : byte) (l' : bytes) : option (bytes * bytes) :=
  if byte_in 0 0x1F b then None
  else match rune_size (b :: l') with
       | O => Some (replacement, l')
       | S n => Some (b :: take n l', drop n l')
       end.

(** The string after its opening quote, unquoted, and what follows its closing
    quote.  Every turn consumes a byte, so the length is enough fuel. *)
Fixpoint parse_string (fuel : nat) (l : bytes) : option (bytes * bytes) :=
  match fuel, l with
  | S f, b :: l' =>
    if isb x22 b then Some ([], l')
    else
      '(out, rest) ← (if isb x5c b then parse_escape l' else parse_char b l');
      '(s, r) ← parse_string f rest;
      Some (out ++ s, r)
  | _, _ => None
  end.

(** ** Values *)

Definition parse_literal (word : bytes) (v : json) (l : bytes) : option (json * bytes) :=
  if bool_decide (take (length word) l = word) then Some (v, drop (length word) l) else None.

(** The rest after blanks and the byte [c]. *)
Definition expect (c : byte) (l : bytes) : option bytes :=
  match skip_ws l with b :: l' => if isb c b then Some l' else None | [] => None end.

Definition quoted (l : bytes) : option (bytes * bytes) :=
  l' ← expect x22 l; parse_string (S (length l')) l'.

Fixpoint parse_value (fuel : nat) (l : bytes) : option (json * bytes) :=
  match fuel with
  | O => None
  | S f =>
    match skip_ws l with
    | [] => None
    | b :: l' =>
      if isb x7b b then
        match expect x7d l' with
        | Some r => Some (JObj [], r)
        | None => '(ms, r) ← parse_members f l'; Some (JObj ms, r)
        end
      else if isb x5b b then
        match expect x5d l' with
        | Some r => Some (JArr [], r)
        | None => '(vs, r) ← parse_elems f l'; Some (JArr vs, r)
        end
      else if isb x22 b then '(s, r) ← parse_string (S (length l')) l'; Some (JStr s, r)
      else if isb x74 b then parse_literal [x72; x75; x65] (JBool true) l'
      else if isb x66 b then parse_literal [x61; x6c; x73; x65] (JBool false) l'
      else if isb x6e b then parse_literal [x75; x6c; x6c] JNull l'
      else '(n, r) ← parse_number (b :: l'); Some (JNum n, r)
    end
  end
with parse_elems (fuel : nat) (l : bytes) : option (list json * bytes) :=
  match fuel with
  | O => None
  | S f =>
    '(v, r) ← parse_value f l;
    match expect x2c r with
    | Some r' => '(vs, r'') ← parse_elems f r'; Some (v :: vs, r'')
    | None => r' ← expect x5d r; Some ([v], r')
    end
  end
with parse_members (fuel : nat) (l : bytes) : option (list (bytes * json) * bytes) :=
  match fuel with
  | O => None
  | S f =>
    '(k, r) ← quoted l;
    r1 ← expect x3a r;
    '(v, r2) ← parse_value f r1;
    match expect x2c r2 with
    | Some r3 => '(ms, r4) ← parse_members f r3; Some ((k, v) :: ms, r4)
    | None => r3 ← expect x7d r2; Some ([(k, v)], r3)
    end
  end.

(** [Decode] of the one value a document holds: anything but blanks after it is
    an error. *)
Definition parse_document (l : bytes) : option json :=
  '(v, rest) ← parse_value (S (2 * length l)) l;
  match skip_ws rest with [] => Some v | _ => None end.

(** ** Field names *)

Definition text (s : string) : bytes := String.list_byte_of_string s.

(** Field names match up to case: ASCII letters, and the two other runes that
    fold to one (U+017F and U+212A). *)
Definition upper_byte (b : byte) : byte :=
  if byte_in 97 122 b then default b (Byte.of_N (Byte.to_N b - 32)) else b.

Fixpoint fold_name (l : bytes) : bytes :=
  match l with
  | [] => []
  | a :: l1 =>
    match l1 with
    | b :: l2 =>
      if isb xc5 a && isb xbf b then x53 :: fold_name l2
      else match l2 with
           | c :: l3 => if isb xe2 a && isb x84 b && isb xaa c then x4b :: fold_name l3 else upper_byte a :: fold_name l1
           | [] => upper_byte a :: fold_name l1
           end
    | [] => [upper_byte a]
    end
  end.

(** ** Writing (json.Marshal) *)

(** The ASCII bytes written as they are, [htmlSafeSet]. *)
Definition html_safe (b : byte) : bool :=
  byte_in 0x20 0x7F b && negb (isb x22 b || isb x26 b || isb x3c b || isb x3e b || isb x5c b).

Definition escape_ascii (b : byte) : bytes :=
  x5c :: match b with
         | x5c => [x5c] | x22 => [x22] | x08 => [x62] | x0c => [x66] | x0a => [x6e] | x0d => [x72] | x09 => [x74]
         | _ => x75 :: x30 :: x30 :: hex_byte b
         end.

(** The body of a string literal; the line separators U+2028 and U+2029 and
    bytes that are not UTF-8 are escaped. *)
Definition quote_rune (n : nat) (l : bytes) : bytes :=
  let r := take n l in
  if bool_decide (r = [xe2; x80; xa8]) then [x5c; x75; x32; x30; x32; x38]
  else if bool_decide (r = [xe2; x80; xa9]) then [x5c; x75; x32; x30; x32; x39]
  else r.

Fixpoint quote_body (fuel : nat) (l : bytes) : bytes :=
  match fuel, l with
  | S f, b :: l' =>
    if byte_in 0 0x7F b then (if html_safe b then [b] else escape_ascii b) ++ quote_body f l'
    else match rune_size l with
         | O => [x5c; x75; x66; x66; x66; x64] ++ quote_body f l'
         | n => quote_rune n l ++ quote_body f (drop n l)
         end
  | _, _ => []
  end.

Definition quote (l : bytes) : bytes := x22 :: quote_body (length l) l ++ [x22].

Definition joined (ls : list bytes) : bytes :=
  match ls with [] => [] | x :: ls' => x ++ flat_map (fun y => x2c :: y) ls' end.

Fixpoint print_value (v : json) : bytes :=
  match v with
  | JNull => [x6e; x75; x6c; x6c]
  | JBool true => [x74; x72; x75; x65]
  | JBool false => [x66; x61; x6c; x73; x65]
  | JNum lit => lit
  | JStr s => quote s
  | JArr vs => x5b :: joined (map print_value vs) ++ [x5d]
  | JObj ms => x7b :: joined (map (fun '(k, v) => quote k ++ x3a :: print_value v) ms) ++ [x7d]
  end.

(** ** Every element consumes what it reads *)

Lemma skip_ws_length l : (length (skip_ws l) ≤ length l)%nat.
Proof. induction l as [|b l IH]; simpl; [lia|]. destruct (is_ws b); simpl; lia. Qed.

Lemma expect_length c l r : expect c l = Some r → (length r < length l)%nat.
Proof.
  unfold expect. pose proof (skip_ws_length l). destruct (skip_ws l) as [|b l']; [done|]. simpl in *.
  destruct (isb c b); [|done]. intros [= <-]. lia.
Qed.

Lemma take_digits_length l : (length (take_digits l).1 + length (take_digits l).2 = length l)%nat.
Proof. induction l as [|b l IH]; simpl; [done|]. destruct (is_digit b); [|done]. destruct (take_digits l); simpl in *. lia. Qed.

Lemma digits1_length l ds r : digits1 l = Some (ds, r) → (length r < length l)%nat.
Proof.
  unfold digits1. pose proof (take_digits_length l). destruct (take_digits l) as [[|d ds'] r']; [done|]. simpl in *.
  intros [= <- <-]. lia.
Qed.

Ltac binds :=
  repeat match goal with
  | Hb : (_ ≫= _) = Some _ |- _ => apply bind_Some in Hb as (? & ? & Hb)
  | x : (_ * _)%type |- _ => destruct x
  | Hb : Some _ = Some _ |- _ => injection Hb as ?; subst
  end.

Lemma parse_number_length l n r : parse_number l = Some (n, r) → (length r < length l)%nat.
Proof.
  unfold parse_number, parse_sign. intros Hn.
  assert (∃ sign l1, (length l1 ≤ length l)%nat ∧ ('(ds, l2) ← parse_int l1; '(fs, l3) ← parse_frac l2; '(es, l4) ← parse_exp l3;
    Some (sign ++ ds ++ fs ++ es, l4)) = Some (n, r)) as (sign & l1 & Hl1 & H1).
  { destruct l as [|b l]; [by exists [], []|]. destruct (isb _ b); [exists [b], l|exists [], (b :: l)]; simpl; split; auto; lia. }
  clear Hn. binds.
  assert (∀ l ds r, parse_int l = Some (ds, r) → length r < length l)%nat as Hint.
  { clear. intros [|b l] ds r; [done|]. unfold parse_int. destruct (isb _ b); [intros [= <- <-]; simpl; lia|apply digits1_length]. }
  assert (∀ l ds r, parse_frac l = Some (ds, r) → length r ≤ length l)%nat as Hfrac.
  { clear. intros [|b l] ds r; simpl; [intros [= <- <-]; simpl; lia|]. destruct (isb _ b); [|intros [= <- <-]; simpl; lia].
    intros. binds. match goal with Hd : digits1 _ = _ |- _ => apply digits1_length in Hd end. lia. }
  assert (∀ l ds r, parse_exp l = Some (ds, r) → length r ≤ length l)%nat as Hexp.
  { clear. intros [|b l] ds r; simpl; [intros [= <- <-]; simpl; lia|]. destruct (_ || _); [|intros [= <- <-]; simpl; lia].
    destruct l as [|s l]; [done|]. destruct (_ || _); intros; binds;
    match goal with Hd : digits1 _ = _ |- _ => apply digits1_length in Hd; simpl in Hd end; simpl; lia. }
  repeat match goal with
  | Hp : parse_int _ = Some _ |- _ => apply Hint in Hp
  | Hp : parse_frac _ = Some _ |- _ => apply Hfrac in Hp
  | Hp : parse_exp _ = Some _ |- _ => apply Hexp in Hp
  end. lia.
Qed.

Lemma hex4_length l n r : hex4 l = Some (n, r) → (length r < length l)%nat.
Proof.
  destruct l as [|a [|b [|c [|d l]]]]; try done. simpl. repeat case_match; try done. intros [= <- <-]. simpl. lia.
Qed.

Lemma unicode_escape_length n l : (length (unicode_escape n l).2 ≤ length l)%nat.
Proof.
  unfold unicode_escape. destruct (is_surrogate _); [|done]. destruct l as [|a [|b l]]; try done.
  destruct (_ && _); [|done]. destruct (hex4 l) as [[r2 l']|] eqn:Hx; [|done]. apply hex4_length in Hx.
  destruct (_ && _ && _)%N; simpl; lia.
Qed.

Lemma parse_escape_length l out r : parse_escape l = Some (out, r) → (length r < length l)%nat.
Proof.
  unfold parse_escape. destruct l as [|e l]; [done|]. destruct (isb _ e).
  - destruct (hex4 l) as [[n l']|] eqn:Hx; [|done]. apply hex4_length in Hx. pose proof (unicode_escape_length n l') as Hu.
    simpl. intros [= Heq]. rewrite Heq in Hu. simpl in *. lia.
  - destruct (simple_escape e); [|done]. simpl. intros [= <- <-]. lia.
Qed.

Lemma parse_char_length b l out r : parse_char b l = Some (out, r) → (length r ≤ length l)%nat.
Proof.
  unfold parse_char. destruct (byte_in _ _ b); [done|]. destruct (rune_size _); intros [= <- <-]; [done|]. rewrite length_drop. lia.
Qed.

Lemma parse_string_length f l s r : parse_string f l = Some (s, r) → (length r < length l)%nat.
Proof.
  revert l s r. induction f as [|f IH]; intros [|b l] s r; simpl; try done. destruct (isb x22 b); [intros [= <- <-]; lia|].
  intros. binds. match goal with Hs : parse_string _ _ = _ |- _ => apply IH in Hs end. destruct (isb _ b);
  [match goal with Hs : parse_escape _ = _ |- _ => apply parse_escape_length in Hs end|
   match goal with Hs : parse_char _ _ = _ |- _ => apply parse_char_length in Hs end]; lia.
Qed.

Lemma quoted_length l s r : quoted l = Some (s, r) → (length r < length l)%nat.
Proof.
  unfold quoted. destruct (expect _ l) as [l'|] eqn:He; [|done]. apply expect_length in He. simpl.
  intros Hs. apply (parse_string_length (S (length l'))) in Hs. lia.
Qed.

Lemma parse_literal_length w v l v' r : parse_literal w v l = Some (v', r) → (length r ≤ length l)%nat.
Proof. unfold parse_literal. case_bool_decide; [|done]. intros [= _ <-]. rewrite length_drop. lia. Qed.

Ltac lengths :=
  repeat match goal with
  | Hp : parse_string _ _ = Some _ |- _ => apply parse_string_length in Hp
  | Hp : parse_number _ = Some _ |- _ => apply parse_number_length in Hp
  | Hp : parse_literal _ _ _ = Some _ |- _ => apply parse_literal_length in Hp
  | Hp : expect _ _ = Some _ |- _ => apply expect_length in Hp
  | Hp : quoted _ = Some _ |- _ => apply quoted_length in Hp
  | IH : ∀ l v r, ?f l = Some (v, r) → _, Hp : ?f _ = Some _ |- _ => apply IH in Hp
  end; simpl in *; lia.

Lemma parse_length f :
  (∀ l v r, parse_value f l = Some (v, r) → (length r < length l)%nat) ∧
  (∀ l v r, parse_elems f l = Some (v, r) → (length r < length l)%nat) ∧
  (∀ l v r, parse_members f l = Some (v, r) → (length r < length l)%nat).
Proof.
  induction f as [|f (IHv & IHe & IHm)]; [done|]. split_and!; intros l v r; cbn [parse_value parse_elems parse_members].
  - pose proof (skip_ws_length l). destruct (skip_ws l) as [|b l']; [done|].
    repeat (destruct (isb _ b)).
    + destruct (expect _ l') eqn:He; intros; binds; lengths.
    + destruct (expect _ l') eqn:He; intros; binds; lengths.
    + intros; binds; lengths.
    + intros; lengths.
    + intros; lengths.
    + intros; lengths.
    + intros; binds; lengths.
  - destruct (parse_value f l) as [[v' r']|] eqn:Hv; [|done]. simpl. destruct (expect x2c r') eqn:He; intros; binds; lengths.
  - destruct (quoted l) as [[k r0]|] eqn:Hq; [|done]. simpl. destruct (expect x3a r0) as [r1|] eqn:Hc; [|done]. simpl.
    destruct (parse_value f r1) as [[v' r2]|] eqn:Hv; [|done]. simpl. destruct (expect x2c r2) eqn:He; intros; binds; lengths.
Qed.

(** More fuel than twice the length changes nothing. *)
Lemma parse_fuel f :
  (∀ l f', (2 * length l < f ≤ f')%nat → parse_value f' l = parse_value f l) ∧
  (∀ l f', (S (2 * length l) < f ≤ f')%nat → parse_elems f' l = parse_elems f l) ∧
  (∀ l f', (S (2 * length l) < f ≤ f')%nat → parse_members f' l = parse_members f l).
Proof.
  induction f as [|f (IHv & IHe & IHm)]; [split_and!; intros; lia|]. split_and!; intros l [|f'] Hf; try lia;
    cbn [parse_value parse_elems parse_members].
  - pose proof (skip_ws_length l). destruct (skip_ws l) as [|b l']; [done|]. simpl in *.
    rewrite (IHm l' f'); [lia|]. rewrite (IHe l' f'); [lia|]. done.
  - rewrite (IHv l f'); [lia|]. destruct (parse_value f l) as [[v r]|] eqn:Hv; [|done]. simpl.
    apply (proj1 (parse_length f)) in Hv. destruct (expect x2c r) as [r'|] eqn:He; [|done]. apply expect_length in He.
    rewrite (IHe r' f'); [lia|]. done.
  - destruct (quoted l) as [[k r0]|] eqn:Hq; [|done]. simpl. apply quoted_length in Hq.
    destruct (expect x3a r0) as [r1|] eqn:Hc; [|done]. simpl. apply expect_length in Hc. rewrite (IHv r1 f'); [lia|].
    destruct (parse_value f r1) as [[v r2]|] eqn:Hv; [|done]. simpl. apply (proj1 (parse_length f)) in Hv.
    destruct (expect x2c r2) as [r3|] eqn:He; [|done]. apply expect_length in He. rewrite (IHm r3 f'); [lia|]. done.
Qed.

Lemma parse_string_fuel f f' l : (length l < f ≤ f')%nat → parse_string f' l = parse_string f l.
Proof.
  revert f' l. induction f as [|f IH]; intros [|f'] [|b l] Hf; simpl in *; try lia; try done.
  destruct (isb x22 b); [done|].
  destruct (if isb x5c b then parse_escape l else parse_char b l) as [[out rest]|] eqn:Hc; [|done]. simpl.
  assert (length rest ≤ length l)%nat.
  { destruct (isb x5c b); [apply parse_escape_length in Hc; lia|by apply parse_char_length in Hc]. }
  rewrite (IH f'); [lia|]. done.
Qed.

(** ** Reading back what was written *)

Lemma parse_escape_ascii b k : byte_in 0 0x7F b = true → html_safe b = false →
  escape_ascii b ++ k = x5c :: drop 1 (escape_ascii b) ++ k ∧ parse_escape (drop 1 (escape_ascii b) ++ k) = Some ([b], k).
Proof. destruct b; try discriminate; intros _; try discriminate; intros _; split; reflexivity. Qed.

Lemma safe_char b k : html_safe b = true → isb x22 b = false ∧ isb x5c b = false ∧ parse_char b k = Some ([b], k).
Proof. destruct b; try discriminate; intros _; split_and!; reflexivity. Qed.

Lemma high_byte b : byte_in 0 0x7F b = false → isb x22 b = false ∧ isb x5c b = false ∧ byte_in 0 0x1F b = false.
Proof. destruct b; try discriminate; intros _; split_and!; reflexivity. Qed.

Lemma parse_rune b l m k :
  byte_in 0 0x7F b = false → rune_size (b :: l) = S m → parse_char b (take m l ++ k) = Some (b :: take m l, k).
Proof.
  intros Hb Hs. destruct (high_byte b Hb) as (_ & _ & Hc). unfold parse_char. rewrite Hc.
  pose proof (rune_size_length (b :: l)) as Hlen. rewrite Hs in Hlen. simpl in Hlen.
  change (b :: take m l ++ k) with ((b :: take m l) ++ k).
  assert (rune_size (b :: take m l) = S m) as Ht by (by rewrite -(rune_size_take (b :: l) m Hs)).
  rewrite rune_size_app Ht //. assert (length (take m l) = m) as Hm by (rewrite length_take; lia).
  rewrite take_app_length' // drop_app_length' //.
Qed.

Lemma parse_string_step f b l out rest s r :
  isb x22 b = false → (if isb x5c b then parse_escape l else parse_char b l) = Some (out, rest) →
  parse_string f rest = Some (s, r) → parse_string (S f) (b :: l) = Some (out ++ s, r).
Proof. intros Hb Hc Hs. simpl. rewrite Hb Hc. simpl. by rewrite Hs. Qed.

Lemma parse_quote_body n l rest f :
  (length l ≤ n)%nat → (length (quote_body n l ++ x22 :: rest) ≤ f)%nat →
  parse_string f (quote_body n l ++ x22 :: rest) = Some (coerce n l, rest).
Proof.
  revert l f. induction n as [|n IH]; intros [|b l] f Hn Hf; cbn [quote_body coerce length] in *; try lia;
    try (destruct f as [|f]; [simpl in Hf; lia|]; reflexivity).
  destruct (byte_in 0 0x7F b) eqn:Hb.
  - assert (rune_size (b :: l) = 1%nat) as -> by (simpl; by rewrite Hb). cbn [take drop app] in *. rewrite drop_0.
    destruct (html_safe b) eqn:Hsafe.
    + destruct f as [|f]; [simpl in Hf; lia|]. destruct (safe_char b (quote_body n l ++ x22 :: rest) Hsafe) as (Hq & He & Hc).
      apply (parse_string_step f b _ [b] (quote_body n l ++ x22 :: rest)); [done|by rewrite He|]. apply IH; simpl in *; lia.
    + destruct (parse_escape_ascii b (quote_body n l ++ x22 :: rest) Hb Hsafe) as [Heq Hp].
      rewrite -app_assoc Heq in Hf |- *. destruct f as [|f]; [simpl in Hf; lia|].
      apply (parse_string_step f x5c _ [b] (quote_body n l ++ x22 :: rest)); [done|done|]. apply IH; [lia|].
      simpl in Hf. rewrite length_app in Hf. lia.
  - destruct (high_byte b Hb) as (Hq & He & _). destruct (rune_size (b :: l)) as [|m] eqn:Hs.
    + destruct f as [|f]; [simpl in Hf; lia|]. cbn [app].
      apply (parse_string_step f x5c _ replacement (quote_body n l ++ x22 :: rest)); [done|reflexivity|]. apply IH; simpl in *; lia.
    + assert (length (drop m l) ≤ n)%nat as Hd by (rewrite length_drop; lia). specialize (IH (drop m l)).
      unfold quote_rune in *. cbn [take drop] in Hf |- *.
      destruct (bool_decide (b :: take m l = [xe2; x80; xa8])) eqn:E1; [|destruct (bool_decide (b :: take m l = [xe2; x80; xa9])) eqn:E2].
      * apply bool_decide_eq_true in E1. rewrite E1 in Hf |- *. destruct f as [|f]; [simpl in Hf; lia|]. rewrite -app_assoc.
        apply (parse_string_step f x5c _ [xe2; x80; xa8] (quote_body n (drop m l) ++ x22 :: rest)); [done|reflexivity|].
        apply IH; simpl in *; rewrite ?length_app in Hf |- *; simpl in *; lia.
      * apply bool_decide_eq_true in E2. rewrite E2 in Hf |- *. destruct f as [|f]; [simpl in Hf; lia|]. rewrite -app_assoc.
        apply (parse_string_step f x5c _ [xe2; x80; xa9] (quote_body n (drop m l) ++ x22 :: rest)); [done|reflexivity|].
        apply IH; simpl in *; rewrite ?length_app in Hf |- *; simpl in *; lia.
      * rewrite -app_assoc in Hf |- *. cbn [app] in *. destruct f as [|f]; [simpl in Hf; lia|].
        apply (parse_string_step f b _ (b :: take m l) (quote_body n (drop m l) ++ x22 :: rest)); [done| |].
        -- rewrite He. by apply parse_rune.
        -- apply IH; simpl in *; rewrite ?length_app in Hf |- *; simpl in *; lia.
Qed.

Lemma expect_hit c l : is_ws c = false → expect c (c :: l) = Some l.
Proof. intros Hc. unfold expect. cbn [skip_ws]. rewrite Hc. unfold isb. by rewrite bool_decide_true. Qed.

Lemma expect_miss c b l : is_ws b = false → isb c b = false → expect c (b :: l) = None.
Proof. intros Hw Hb. unfold expect. cbn [skip_ws]. by rewrite Hw Hb. Qed.

(** Reading a written string gives it back, with what is not UTF-8 replaced. *)
Lemma parse_quote s rest : quoted (quote s ++ rest) = Some (coerce (length s) s, rest).
Proof.
  unfold quoted, quote. cbn [app]. rewrite expect_hit //. rewrite -app_assoc. cbn [app mbind option_bind].
  apply (parse_quote_body (length s) s rest); lia.
Qed.

Section json_ind.
Context (P : json → Prop).
Hypothesis (Hnull : P JNull) (Hbool : ∀ b, P (JBool b)) (Hnum : ∀ n, P (JNum n)) (Hstr : ∀ s, P (JStr s)).
Hypothesis (Harr : ∀ l, Forall P l → P (JArr l)) (Hobj : ∀ l, Forall (fun kv => P kv.2) l → P (JObj l)).

Fixpoint json_nested_ind (v : json) : P v :=
  match v with
  | JNull => Hnull
  | JBool b => Hbool b
  | JNum n => Hnum n
  | JStr s => Hstr s
  | JArr l => Harr l ((fix go l : Forall P l :=
      match l with [] => Forall_nil_2 _ | x :: l' => Forall_cons_2 _ _ _ (json_nested_ind x) (go l') end) l)
  | JObj l => Hobj l ((fix go l : Forall (fun kv => P kv.2) l :=
      match l with [] => Forall_nil_2 _ | x :: l' => Forall_cons_2 _ _ _ (json_nested_ind x.2) (go l') end) l)
  end.
End json_ind.

(** The integers the code writes. *)
Definition int_literal (l : bytes) : bool :=
  match l with
  | d :: ds => is_digit d && forallb is_digit ds && (negb (isb x30 d) || bool_decide (ds = []))
  | [] => false
  end.

Fixpoint writable (v : json) : bool :=
  match v with
  | JNum lit => int_literal lit
  | JArr l => forallb writable l
  | JObj l => forallb (fun kv => writable kv.2) l
  | _ => true
  end.

(** A value with its strings as they are read back. *)
Fixpoint as_read (v : json) : json :=
  match v with
  | JStr s => JStr (coerce (length s) s)
  | JArr l => JArr (map as_read l)
  | JObj l => JObj (map (fun kv => (coerce (length kv.1) kv.1, as_read kv.2)) l)
  | v => v
  end.

(** What follows a value is no part of a number. *)
Definition ends_number (l : bytes) : bool :=
  match l with b :: _ => negb (is_digit b || isb x2e b || isb x65 b || isb x45 b) | [] => true end.

Lemma take_digits_app ds rest : forallb is_digit ds = true → ends_number rest = true → take_digits (ds ++ rest) = (ds, rest).
Proof.
  intros Hd Hr. induction ds as [|d ds IH]; simpl in *.
  - destruct rest as [|b rest]; [done|]. simpl in *. by destruct (is_digit b).
  - apply andb_true_iff in Hd as [-> Hd]. by rewrite IH.
Qed.

Lemma parse_int_literal lit rest : int_literal lit = true → ends_number rest = true → parse_number (lit ++ rest) = Some (lit, rest).
Proof.
  destruct lit as [|d ds]; [done|]. simpl. intros (Hd & Hz)%andb_true_iff Hr. apply andb_true_iff in Hd as [Hd Hds].
  unfold parse_number, parse_sign. cbn [app].
  assert (isb x2d d = false) as -> by (clear -Hd; by destruct d).
  assert (parse_int (d :: ds ++ rest) = Some (d :: ds, rest)) as ->.
  { unfold parse_int. destruct (isb x30 d) eqn:H0; simpl in Hz.
    - apply bool_decide_eq_true in Hz as ->. done.
    - unfold digits1. rewrite (take_digits_app (d :: ds) rest); [by rewrite /= Hd Hds|done|done]. }
  cbn [mbind option_bind]. assert (parse_frac rest = Some ([], rest)) as ->.
  { destruct rest as [|b rest]; [done|]. simpl in *. destruct (isb x2e b); [|done]. by rewrite orb_true_r in Hr. }
  cbn [mbind option_bind]. assert (parse_exp rest = Some ([], rest)) as ->.
  { destruct rest as [|b rest]; [done|]. simpl in *. destruct (isb x65 b); [by rewrite !orb_true_r in Hr|].
    destruct (isb x45 b); [by rewrite !orb_true_r in Hr|done]. }
  simpl. by rewrite app_nil_r.
Qed.

Lemma joined_cons x y ls : joined (x :: y :: ls) = x ++ x2c :: joined (y :: ls).
Proof. done. Qed.

(** With enough fuel, [l] reads as [v] followed by [r]. *)
Definition reads {A} (parse : nat → bytes → option (A * bytes)) (l : bytes) (v : A) (r : bytes) : Prop :=
  ∃ f0, ∀ f, (f0 ≤ f)%nat → parse f l = Some (v, r).

Definition reads_back (v : json) : Prop :=
  writable v = true → ∀ rest, ends_number rest = true → reads parse_value (print_value v ++ rest) (as_read v) rest.

Lemma read_elems v vs rest :
  Forall reads_back (v :: vs) → forallb writable (v :: vs) = true →
  reads parse_elems (joined (map print_value (v :: vs)) ++ x5d :: rest) (map as_read (v :: vs)) rest.
Proof.
  revert v. induction vs as [|w vs IH]; intros v [Hv Hvs]%Forall_cons [Hwv Hw]%andb_true_iff.
  - destruct (Hv Hwv (x5d :: rest) eq_refl) as [f0 Hf0]. exists (S f0). intros [|f] Hf; [lia|].
    cbn [parse_elems]. simpl. rewrite app_nil_r Hf0; [lia|]. cbn. rewrite expect_hit //.
  - destruct (IH w Hvs Hw) as [f1 Hf1]. cbn [map] in *. rewrite joined_cons -app_assoc.
    destruct (Hv Hwv ((x2c :: joined (print_value w :: map print_value vs)) ++ x5d :: rest) eq_refl) as [f0 Hf0].
    exists (S (f0 + f1)). intros [|f] Hf; [lia|]. cbn [parse_elems]. rewrite Hf0; [lia|]. cbn [mbind option_bind app].
    rewrite expect_hit //. rewrite Hf1; [lia|]. done.
Qed.

Lemma read_members k v ms rest :
  Forall (fun kv => reads_back kv.2) ((k, v) :: ms) → forallb (fun kv => writable kv.2) ((k, v) :: ms) = true →
  reads parse_members (joined (map (fun '(k, v) => quote k ++ x3a :: print_value v) ((k, v) :: ms)) ++ x7d :: rest)
    (map (fun kv => (coerce (length kv.1) kv.1, as_read kv.2)) ((k, v) :: ms)) rest.
Proof.
  revert k v. induction ms as [|[k' v'] ms IH]; intros k v [Hv Hvs]%Forall_cons [Hwv Hw]%andb_true_iff; cbn [fst snd] in *.
  - destruct (Hv Hwv (x7d :: rest) eq_refl) as [f0 Hf0]. exists (S f0). intros [|f] Hf; [lia|].
    cbn [parse_members]. cbn [map joined flat_map]. rewrite app_nil_r -app_assoc. rewrite parse_quote.
    cbn [mbind option_bind app]. rewrite expect_hit //. cbn [mbind option_bind]. rewrite Hf0; [lia|].
    cbn [mbind option_bind]. rewrite expect_miss //.
  - destruct (IH k' v' Hvs Hw) as [f1 Hf1]. cbn [map] in *. rewrite joined_cons -!app_assoc.
    match type of Hf1 with ∀ f, _ → parse_members f ?l = _ => destruct (Hv Hwv (x2c :: l) eq_refl) as [f0 Hf0] end.
    exists (S (f0 + f1)). intros [|f] Hf; [lia|]. cbn [parse_members]. rewrite parse_quote.
    cbn [mbind option_bind app]. rewrite expect_hit //. cbn [mbind option_bind]. rewrite Hf0; [lia|].
    cbn [mbind option_bind]. rewrite expect_hit //. rewrite Hf1; [lia|]. done.
Qed.

Lemma print_head v : writable v = true → ∃ b t, print_value v = b :: t ∧ is_ws b = false ∧ isb x5d b = false.
Proof.
  destruct v as [|[]|[|d lit]| | | ]; intros Hw; try done; try (eexists _, _; split; [reflexivity|]; by split; vm_compute).
  exists d, lit. split; [done|]. simpl in Hw. apply andb_true_iff in Hw as [Hw _]. apply andb_true_iff in Hw as [Hw _].
  destruct d; try discriminate Hw; by split; vm_compute.
Qed.

Lemma print_number_head lit : int_literal lit = true →
  ∃ d ds, lit = d :: ds ∧ is_ws d = false ∧ isb x7b d = false ∧ isb x5b d = false ∧ isb x22 d = false ∧
    isb x74 d = false ∧ isb x66 d = false ∧ isb x6e d = false.
Proof.
  destruct lit as [|d ds]; [done|]. simpl. intros (Hw & _)%andb_true_iff. apply andb_true_iff in Hw as [Hw _].
  exists d, ds. split; [done|]. destruct d; try discriminate Hw; by split_and!; vm_compute.
Qed.

Lemma parse_value_head f b l : is_ws b = false → parse_value (S f) (b :: l) =
  if isb x7b b then match expect x7d l with Some r => Some (JObj [], r) | None => '(ms, r) ← parse_members f l; Some (JObj ms, r) end
  else if isb x5b b then match expect x5d l with Some r => Some (JArr [], r) | None => '(vs, r) ← parse_elems f l; Some (JArr vs, r) end
  else if isb x22 b then '(s, r) ← parse_string (S (length l)) l; Some (JStr s, r)
  else if isb x74 b then parse_literal [x72; x75; x65] (JBool true) l
  else if isb x66 b then parse_literal [x61; x6c; x73; x65] (JBool false) l
  else if isb x6e b then parse_literal [x75; x6c; x6c] JNull l
  else '(n, r) ← parse_number (b :: l); Some (JNum n, r).
Proof. intros Hb. cbn [parse_value skip_ws]. by rewrite Hb. Qed.

(** Every value that was written is read back. *)
Lemma read_back v : reads_back v.
Proof.
  induction v as [|b|lit|s|l IH|l IH] using json_nested_ind; intros Hw rest Hr.
  - exists 1%nat. intros [|f] Hf; [lia|]. cbn [print_value app]. rewrite parse_value_head //.
  - exists 1%nat. intros [|f] Hf; [lia|]. destruct b; cbn [print_value app]; rewrite parse_value_head //.
  - exists 1%nat. intros [|f] Hf; [lia|]. simpl in Hw. pose proof (parse_int_literal lit rest Hw Hr) as Hp.
    destruct (print_number_head lit Hw) as (d & ds & -> & Hws & H1 & H2 & H3 & H4 & H5 & H6). cbn [print_value app] in *.
    rewrite parse_value_head // H1 H2 H3 H4 H5 H6 Hp. done.
  - exists 1%nat. intros [|f] Hf; [lia|]. pose proof (parse_quote s rest) as Hq. unfold quoted, quote in Hq. cbn [app] in Hq.
    rewrite expect_hit // in Hq. cbn [print_value]. unfold quote. cbn [app]. rewrite parse_value_head //.
    cbn [mbind option_bind] in Hq. change (isb x7b x22) with false. change (isb x5b x22) with false. change (isb x22 x22) with true.
    cbv iota. rewrite Hq. done.
  - destruct l as [|v vs].
    + exists 1%nat. intros [|f] Hf; [lia|]. cbn [print_value map joined app]. rewrite parse_value_head //.
    + destruct (read_elems v vs rest IH Hw) as [f0 Hf0]. exists (S f0). intros [|f] Hf; [lia|].
      cbn [print_value app]. rewrite parse_value_head //. change (isb x7b x5b) with false. change (isb x5b x5b) with true. cbv iota.
      rewrite -app_assoc. cbn [app]. rewrite Hf0; [lia|].
      destruct (print_head v) as (b & t & Hb & Hws & Hbr); [by apply andb_true_iff in Hw as [? _]|].
      cbn [map joined]. rewrite Hb. cbn [app]. by rewrite expect_miss.
  - destruct l as [|[k v] ms].
    + exists 1%nat. intros [|f] Hf; [lia|]. cbn [print_value map joined app]. rewrite parse_value_head //.
    + destruct (read_members k v ms rest IH Hw) as [f0 Hf0]. exists (S f0). intros [|f] Hf; [lia|].
      cbn [print_value app]. rewrite parse_value_head //. change (isb x7b x7b) with true. cbv iota.
      rewrite -app_assoc. cbn [app]. rewrite Hf0; [lia|]. cbn [map joined]. unfold quote at 1. cbn [app]. by rewrite expect_miss.
Qed.

Lemma skip_ws_blank l : forallb is_ws l = true → skip_ws l = [].
Proof. induction l as [|b l IH]; simpl; [done|]. by intros [-> ?]%andb_true_iff; apply IH. Qed.

(** A written document, with blanks after it, decodes to what was written. *)
Lemma parse_print_document v blanks :
  writable v = true → forallb is_ws blanks = true → parse_document (print_value v ++ blanks) = Some (as_read v).
Proof.
  intros Hw Hb. unfold parse_document.
  assert (ends_number blanks = true) as He.
  { destruct blanks as [|b l]; [done|]. simpl in *. apply andb_true_iff in Hb as [Hb _]. by destruct b. }
  destruct (read_back v Hw blanks He) as [f0 Hf0]. set (l := print_value v ++ blanks) in *.
  rewrite -(proj1 (parse_fuel _) l (S (2 * length l) + f0)%nat); [lia|]. rewrite Hf0; [lia|]. cbn. by rewrite skip_ws_blank.
Qed.
