(* ===== verification/Decimal.v ===== *)
(** * Decimal numbers

    The integers [json.Marshal] and [strconv] write, and the integer literals
    the JSON decoder stores into an [int]. *)

From stdpp Require Import pretty.
From S2P Require Import Prelude GoStrings Utf8 Json.
From Stdlib Require Import Strings.Byte.

(** An integer literal of an [int]; a fraction or an exponent is a type error. *)
Fixpoint decimal_value (acc : Z) (l : bytes) : option Z :=
  match l with
  | [] => Some acc
  | b :: l' => if is_digit b then decimal_value (acc * 10 + (Z.of_N (Byte.to_N b) - 48)) l' else None
  end.
Definition int_value (literal : bytes) : option Z :=
  let '(sign, ds) := parse_sign literal in
  v ← decimal_value 0 ds;
  let v := match sign with [] => v | _ => - v end in
  if (- 2 ^ 63 <=? v) && (v <? 2 ^ 63) then Some v else None.

(** ** What is written reads back *)

Lemma digit_char d : (d < 10)%N → is_digit (Ascii.byte_of_ascii (pretty_N_char d)) = true ∧
  Byte.to_N (Ascii.byte_of_ascii (pretty_N_char d)) = (48 + d)%N ∧ (d ≠ 0%N → isb x30 (Ascii.byte_of_ascii (pretty_N_char d)) = false).
Proof.
  intros H. assert (d = 0 ∨ d = 1 ∨ d = 2 ∨ d = 3 ∨ d = 4 ∨ d = 5 ∨ d = 6 ∨ d = 7 ∨ d = 8 ∨ d = 9)%N as Hd by lia.
  repeat destruct Hd as [->|Hd]; [by split_and!; vm_compute..|]. subst. by split_and!; vm_compute.
Qed.

Lemma pretty_go_digits n s : ∃ l, text (pretty_N_go n s) = l ++ text s ∧ forallb is_digit l = true ∧
  ((0 < n)%N → ∃ d ds, l = d :: ds ∧ isb x30 d = false) ∧
  ∀ acc k, decimal_value acc (l ++ k) = decimal_value (acc * 10 ^ zlen l + Z.of_N n) k.
Proof.
  revert s. induction (N.lt_wf_0 n) as [n _ IH]; intros s. destruct (decide (n = 0)%N) as [->|Hn].
  { exists []. rewrite pretty_N_go_0. split_and!; [done..|lia|]. intros acc k. simpl. f_equal. unfold zlen. simpl. lia. }
  assert (0 < n)%N as Hpos by lia. rewrite pretty_N_go_step //.
  destruct (IH (n `div` 10)%N) with (s := String (pretty_N_char (n `mod` 10)) s) as (l & Ht & Hd & Hh & Hv); [by apply N.div_lt|].
  destruct (digit_char (n `mod` 10)%N) as (C1 & C2 & C3); [by apply N.mod_lt|]. set (c := Ascii.byte_of_ascii _) in *.
  assert (Z.of_N n = Z.of_N (n `div` 10) * 10 + Z.of_N (n `mod` 10)) as Hdm.
  { pose proof (N.div_mod n 10 ltac:(done)). lia. }
  exists (l ++ [c]). split_and!.
  - rewrite Ht -app_assoc. done.
  - rewrite forallb_app Hd /=. by rewrite C1.
  - intros _. destruct (decide (n `div` 10 = 0)%N) as [Hz|Hz].
    + destruct l as [|d ds]; [|].
      * exists c, []. split; [done|]. apply C3. intros Hm. rewrite Hz Hm in Hdm. lia.
      * rewrite Hz pretty_N_go_0 in Ht. exfalso. apply (f_equal length) in Ht. rewrite length_app in Ht. simpl in Ht. lia.
    + destruct Hh as (d & ds & -> & Hz'); [by apply N.neq_0_lt_0|]. by exists d, (ds ++ [c]).
  - intros acc k. rewrite -app_assoc Hv. cbn [app decimal_value]. rewrite C1. f_equal. rewrite C2.
    assert (10 ^ zlen (l ++ [c]) = 10 ^ zlen l * 10) as ->.
    { unfold zlen. rewrite length_app Nat2Z.inj_add /=. rewrite Z.pow_add_r; lia. }
    lia.
Qed.

Lemma pretty_nonneg z : 0 ≤ z → int_literal (text (pretty z)) = true ∧ decimal_value 0 (text (pretty z)) = Some z.
Proof.
  intros Hz. destruct z as [|p|p]; [done| |lia]. change (pretty (Zpos p)) with (pretty_N_go (Npos p) "").
  destruct (pretty_go_digits (Npos p) "") as (l & -> & Hd & Hh & Hv). destruct Hh as (d & ds & -> & H0); [lia|].
  rewrite app_nil_r. split.
  - cbn [int_literal forallb] in *. apply andb_true_iff in Hd as [-> ->]. by rewrite H0.
  - specialize (Hv 0 []). rewrite app_nil_r in Hv. by rewrite Hv.
Qed.

Lemma int_value_pretty z : 0 ≤ z < 2 ^ 63 → int_value (text (pretty z)) = Some z.
Proof.
  intros Hz. destruct (pretty_nonneg z) as [Hl Hv]; [lia|]. unfold int_value.
  assert (parse_sign (text (pretty z)) = ([], text (pretty z))) as ->.
  { unfold parse_sign. destruct (text (pretty z)) as [|d ds]; [done|]. cbn [int_literal] in Hl. apply andb_true_iff in Hl as [[Hd _]%andb_true_iff _].
    by destruct d. }
  rewrite Hv. cbn. by rewrite (proj2 (Z.leb_le _ _)) ?(proj2 (Z.ltb_lt _ _)); [lia..|].
Qed.
