(* ===== verification/Cluster.v ===== *)
(** * Cluster membership (internal/cluster)

    Join tokens, their public bootstrap destinations, and the per-user directory
    of credentials.  The realm library that derives the public ID of a key is
    third-party: it is the class [Realm].  The operating system is the class
    [OS]: any call may fail, and between two calls another process may create,
    replace or remove a file of the directory. *)

From stdpp Require Import pretty.
From S2P Require Import Prelude GoStrings Ordering Utf8 Base64 Json Decimal.
From Stdlib Require Import Strings.Byte.

Inductive cluster_error :=
| ErrInvalidKey | ErrInvalidToken | ErrInvalidState | ErrStateExists | ErrNotFound | ErrAmbiguous
| ErrBootstrapDestination  (* the unnamed errors of NormalizeBootstrapDestinations *)
| ErrRealm                 (* an error of the realm library *)
| ErrNotExist              (* wraps os.ErrNotExist *)
| ErrExist                 (* wraps os.ErrExist *)
| ErrIO.                   (* any other error of the operating system *)

#[export] Instance cluster_error_eq_dec : EqDecision cluster_error.
Proof. solve_decision. Defined.

Abbreviation cresult := (result cluster_error).

(** [realm.KeySize] and [realm.Open(...).ID()]. *)
Class Realm := {
  KeySize : nat;
  realm_ID : bytes → option bytes
}.

Definition tokenPrefix : string := "r1s1:".
Definition tokenVersion : Z := 1.
Definition stateVersion : Z := 1.
Definition DestinationSize : nat := 16.
Definition MaxBootstrapDestinations : nat := 32.

Record Credential := mkCredential { cr_Key : bytes; cr_BootstrapDestinations : list string }.

#[export] Instance Credential_eq_dec : EqDecision Credential.
Proof. solve_decision. Defined.

(** ** Bootstrap destinations *)

Definition normalize_one (destination : string) : cresult string :=
  let d := to_lower (trim_space destination) in
  match hex_decode d with
  | Some decoded => if Nat.eqb (length decoded) DestinationSize then Ok d else Err ErrBootstrapDestination
  | None => Err ErrBootstrapDestination
  end.

Fixpoint normalize_all (l : list string) : cresult (list string) :=
  match l with
  | [] => Ok []
  | d :: l' => try d' ← normalize_one d; try ds ← normalize_all l'; Ok (d' :: ds)
  end.

(** [NormalizeBootstrapDestinations] *)
Definition NormalizeBootstrapDestinations (destinations : list string) : cresult (list string) :=
  try ds ← normalize_all destinations;
  let unique := remove_dups ds in
  if (MaxBootstrapDestinations <? length unique)%nat then Err ErrBootstrapDestination
  else Ok (sort_strings unique).

(** ** The JSON documents *)

(** [State] and [membershipToken] have the same fields; only [State] leaves an
    empty list out. *)
Record document := mkDocument { doc_Version : Z; doc_Key : string; doc_BootstrapDestinations : list string }.

Definition version_literal (n : Z) : bytes := text (pretty n).

Definition document_json (omitempty : bool) (d : document) : json :=
  JObj ([(text "version", JNum (version_literal (doc_Version d))); (text "key", JStr (text (doc_Key d)))] ++
        if omitempty && bool_decide (doc_BootstrapDestinations d = []) then []
        else [(text "bootstrapDestinations", JArr (map (fun s => JStr (text s)) (doc_BootstrapDestinations d)))]).

Inductive field := F_Version | F_Key | F_BootstrapDestinations.

Definition field_of (name : bytes) : option field :=
  let n := fold_name name in
  if bool_decide (n = fold_name (text "version")) then Some F_Version
  else if bool_decide (n = fold_name (text "key")) then Some F_Key
  else if bool_decide (n = fold_name (text "bootstrapDestinations")) then Some F_BootstrapDestinations
  else None.

(** What has been decoded: the list with its backing array, whose old elements
    a null element leaves in place. *)
Record decoding := mkDecoding { dec_version : Z; dec_key : string; dec_backing : list string; dec_len : nat }.

Fixpoint decode_elems (backing : list string) (l : list json) : option (list string) :=
  match l with
  | [] => Some []
  | v :: l' =>
    rest ← decode_elems (tail backing) l';
    match v with
    | JStr s => Some (go_string s :: rest)
    | JNull => Some (default "" (head backing) :: rest)
    | _ => None
    end
  end.

Definition decode_member (d : decoding) (kv : bytes * json) : option decoding :=
  f ← field_of kv.1;
  match f, kv.2 with
  | _, JNull => match f with
                | F_BootstrapDestinations => Some (mkDecoding (dec_version d) (dec_key d) [] 0)
                | _ => Some d
                end
  | F_Version, JNum lit => v ← int_value lit; Some (mkDecoding v (dec_key d) (dec_backing d) (dec_len d))
  | F_Key, JStr s => Some (mkDecoding (dec_version d) (go_string s) (dec_backing d) (dec_len d))
  | F_BootstrapDestinations, JArr [] => Some (mkDecoding (dec_version d) (dec_key d) [] 0)
  | F_BootstrapDestinations, JArr l =>
    es ← decode_elems (dec_backing d) l;
    Some (mkDecoding (dec_version d) (dec_key d) (es ++ drop (length l) (dec_backing d)) (length l))
  | _, _ => None
  end.

(** [Decode] with [DisallowUnknownFields] of a whole document. *)
Definition decode_document (data : bytes) : option document :=
  v ← parse_document data;
  d ← match v with
      | JObj ms => foldl (fun acc kv => acc ≫= fun d => decode_member d kv) (Some (mkDecoding 0 "" [] 0)) ms
      | JNull => Some (mkDecoding 0 "" [] 0)
      | _ => None
      end;
  Some (mkDocument (dec_version d) (dec_key d) (take (dec_len d) (dec_backing d))).

(** ** Tokens *)

Section tokens.
Context `{Realm}.

Definition Token (key : bytes) : cresult string :=
  if Nat.eqb (length key) KeySize then Ok (tokenPrefix ++ b64_encode key)%string else Err ErrInvalidKey.

(** [strings.HasPrefix] and [strings.TrimPrefix] together. *)
Definition after_prefix (value : string) : option string := go_string <$> strip_prefix (text tokenPrefix) (text value).

Definition parseKeyToken (value : string) : cresult bytes :=
  match after_prefix value ≫= b64_decode with
  | Some key => if Nat.eqb (length key) KeySize then Ok key else Err ErrInvalidToken
  | None => Err ErrInvalidToken
  end.

Definition CredentialToken (credential : Credential) : cresult string :=
  try keyToken ← Token (cr_Key credential);
  try destinations ← NormalizeBootstrapDestinations (cr_BootstrapDestinations credential);
  if bool_decide (destinations = []) then Ok keyToken
  else Ok (tokenPrefix ++ b64_encode (print_value (document_json false (mkDocument tokenVersion keyToken destinations))))%string.

Definition ParseCredentialToken (value : string) : cresult Credential :=
  match after_prefix (trim_space value) with
  | None => Err ErrInvalidToken
  | Some raw =>
    match b64_decode raw with
    | None => Err ErrInvalidToken
    | Some payload =>
      if Nat.eqb (length payload) KeySize then Ok (mkCredential payload [])
      else match decode_document payload with
      | None => Err ErrInvalidToken
      | Some token =>
        if negb (doc_Version token =? tokenVersion) then Err ErrInvalidToken
        else
          try key ← parseKeyToken (doc_Key token);
          match NormalizeBootstrapDestinations (doc_BootstrapDestinations token) with
          | Err _ => Err ErrInvalidToken
          | Ok destinations =>
            if bool_decide (destinations = []) then Err ErrInvalidToken else Ok (mkCredential key destinations)
          end
      end
    end
  end.

Definition ParseToken (value : string) : cresult bytes :=
  try credential ← ParseCredentialToken value; Ok (cr_Key credential).

(** [ID] *)
Definition ID (key : bytes) : cresult bytes :=
  if Nat.eqb (length key) KeySize
  then match realm_ID key with Some id => Ok id | None => Err ErrRealm end
  else Err ErrInvalidKey.
End tokens.

(** ** The operating system *)

Inductive node := File (data : bytes) | Dir.

(** The credential directory: whether it exists, its entries, and what this
    process did to them, each step with the entries before and after it.
    Temporary files are not entries: [List] skips their names, and they are
    visible under no other. *)
Record disk := mkDisk {
  dk_exists : bool;
  dk_nodes : gmap string node;
  dk_log : list (gmap string node * gmap string node)
}.

(** Per call of the system: whether it fails, what another process did before
    it, and how much of a failing write was written. *)
Class OS := {
  os_fails : nat → bool;
  os_other : nat → option (string * option node);
  os_written : nat → nat
}.

Definition FM (A : Type) : Type := disk * nat → A * (disk * nat).
#[export] Instance FM_ret : MRet FM := fun A a w => (a, w).
#[export] Instance FM_bind : MBind FM := fun A B f m w => let '(a, w') := m w in f a w'.

Notation "'ftry' x ← m ; k" := (mbind (M:=FM) (fun r => match r with Ok x => k | Err e => mret (Err e) end) m)
  (at level 20, x pattern, m at level 100, k at level 200, right associativity).

Definition others (o : option (string * option node)) (d : disk) : disk :=
  match o with
  | None => d
  | Some (name, n) => mkDisk (dk_exists d) (partial_alter (fun _ => n) name (dk_nodes d)) (dk_log d)
  end.

(** Log a change of the entries. *)
Definition changed (nodes : gmap string node) (d : disk) : disk :=
  mkDisk (dk_exists d) nodes (dk_log d ++ [(dk_nodes d, nodes)]).

Section files.
Context `{Realm, OS}.

(** Enter the system: others may have acted, and the call may fail. *)
Definition syscall : FM (cresult unit) :=
  fun w => (if os_fails w.2 then Err ErrIO else Ok tt, (others (os_other w.2) w.1, S w.2)).
Definition look : FM disk := fun w => (w.1, w).
Definition enter (d : disk) : FM (cresult unit) := fun w => (Ok tt, (d, w.2)).

Definition os_ReadFile (name : string) : FM (cresult bytes) :=
  ftry _ ← syscall;
  d ← look;
  mret (match dk_nodes d !! name with Some (File data) => Ok data | Some Dir => Err ErrIO | None => Err ErrNotExist end).

(** Calls on the directory itself and on files nobody else can see. *)
Definition os_MkdirAll : FM (cresult unit) :=
  ftry _ ← syscall; d ← look; enter (mkDisk true (dk_nodes d) (dk_log d)).
Definition os_private : FM (cresult unit) := syscall.

(** [os.Link] and [os.Rename] of a complete temporary file. *)
Definition os_Link (name : string) (data : bytes) : FM (cresult unit) :=
  ftry _ ← syscall;
  d ← look;
  match dk_nodes d !! name with
  | Some _ => mret (Err ErrExist)
  | None => enter (changed (<[name := File data]> (dk_nodes d)) d)
  end.
Definition os_Rename (name : string) (data : bytes) : FM (cresult unit) :=
  ftry _ ← syscall;
  d ← look;
  match dk_nodes d !! name with
  | Some Dir => mret (Err ErrIO)
  | _ => enter (changed (<[name := File data]> (dk_nodes d)) d)
  end.

Definition os_ReadDir : FM (cresult (list (string * node))) :=
  ftry _ ← syscall;
  d ← look;
  mret (if dk_exists d then Ok (map_to_list (dk_nodes d)) else Err ErrNotExist).

(** ** Credentials *)

Definition credential_of (data : bytes) : cresult Credential :=
  match decode_document data with
  | None => Err ErrInvalidState
  | Some state =>
    if negb (doc_Version state =? stateVersion) then Err ErrInvalidState
    else match parseKeyToken (doc_Key state) with
    | Err _ => Err ErrInvalidState
    | Ok key =>
      match NormalizeBootstrapDestinations (doc_BootstrapDestinations state) with
      | Err _ => Err ErrInvalidState
      | Ok destinations => Ok (mkCredential key destinations)
      end
    end
  end.

Definition LoadCredential (name : string) : FM (cresult Credential) :=
  ftry data ← os_ReadFile name; mret (credential_of data).
Definition Load (name : string) : FM (cresult bytes) :=
  ftry credential ← LoadCredential name; mret (Ok (cr_Key credential)).

(** What [json.Marshal] of a [State] and the newline make. *)
Definition state_data (key : string) (destinations : list string) : bytes :=
  print_value (document_json true (mkDocument stateVersion key destinations)) ++ [x0a].

(** Create, protect, write, sync and close a temporary file. *)
Definition write_temporary : FM (cresult unit) :=
  ftry _ ← os_private; ftry _ ← os_private; ftry _ ← os_private; ftry _ ← os_private; os_private.

Definition SaveCredential (key : bytes) : FM (cresult string) :=
  match ID key with
  | Err e => mret (Err e)
  | Ok id =>
    let idText := hex_encode id in
    loaded ← Load idText;
    match loaded with
    | Ok existing => mret (if bool_decide (existing = key) then Ok idText else Err ErrStateExists)
    | Err ErrNotExist =>
      ftry _ ← os_MkdirAll;
      ftry _ ← os_private;
      match Token key with
      | Err e => mret (Err e)
      | Ok token =>
        ftry _ ← write_temporary;
        linked ← os_Link idText (state_data token []);
        match linked with
        | Ok _ => mret (Ok idText)
        | Err ErrExist =>
          again ← Load idText;
          mret (match again with
                | Ok existing => if bool_decide (existing = key) then Ok idText else Err ErrStateExists
                | Err _ => Err ErrStateExists
                end)
        | Err e => mret (Err e)
        end
      end
    | Err e => mret (Err e)
    end
  end.

(** The hints after [destination] is added: the first one goes when all places
    are taken. *)
Definition add_destination (known : list string) (destination : string) : list string :=
  (if Nat.eqb (length known) MaxBootstrapDestinations then tail known else known) ++ [destination].

Definition RecordBootstrapDestination (name destination : string) : FM (cresult unit) :=
  ftry credential ← LoadCredential name;
  match NormalizeBootstrapDestinations [destination] with
  | Err e => mret (Err e)
  | Ok validated =>
    let destination := default "" (head validated) in
    if bool_decide (destination ∈ cr_BootstrapDestinations credential) then mret (Ok tt)
    else match NormalizeBootstrapDestinations (add_destination (cr_BootstrapDestinations credential) destination) with
    | Err e => mret (Err e)
    | Ok destinations =>
      match Token (cr_Key credential) with
      | Err e => mret (Err e)
      | Ok token =>
        ftry _ ← write_temporary;
        os_Rename name (state_data token destinations)
      end
    end
  end.

Fixpoint record_all (name : string) (l : list string) : FM (cresult unit) :=
  match l with
  | [] => mret (Ok tt)
  | d :: l' => ftry _ ← RecordBootstrapDestination name d; record_all name l'
  end.

Definition SaveMembership (credential : Credential) : FM (cresult string) :=
  ftry id ← SaveCredential (cr_Key credential);
  ftry _ ← record_all id (cr_BootstrapDestinations credential);
  mret (Ok id).

(** ** Listing and selecting *)

(** Whether a directory entry is named like a credential. *)
Definition id_named (entry : string * node) : bool :=
  match entry.2 with Dir => false | File _ => true end && (slen entry.1 =? 64)
  && bool_decide (to_lower entry.1 = entry.1) && match hex_decode entry.1 with Some _ => true | None => false end.

Fixpoint list_loop (entries : list (string * node)) : FM (cresult (list string)) :=
  match entries with
  | [] => mret (Ok [])
  | entry :: rest =>
    if negb (id_named entry) then list_loop rest
    else
      ftry key ← Load entry.1;
      match ID key with
      | Ok id =>
        if bool_decide (hex_encode id = entry.1) then ftry ids ← list_loop rest; mret (Ok (entry.1 :: ids))
        else mret (Err ErrInvalidState)
      | Err _ => mret (Err ErrInvalidState)
      end
  end.

Definition List : FM (cresult (list string)) :=
  entries ← os_ReadDir;
  match entries with
  | Err ErrNotExist => mret (Ok [])
  | Err e => mret (Err e)
  | Ok l => ftry ids ← list_loop l; mret (Ok (sort_strings ids))
  end.

Definition has_prefix (s prefix : string) : bool :=
  match strip_prefix (text prefix) (text s) with Some _ => true | None => false end.

Definition ResolveCredential (selector : string) : FM (cresult (Credential * string)) :=
  let selector := trim_space (to_lower selector) in
  if bool_decide (selector = "") || (64 <? slen selector) || negb (forallb lower_hex_byte (text selector)) then mret (Err ErrNotFound)
  else
    ftry ids ← List;
    match List.filter (fun id => has_prefix id selector) ids with
    | [] => mret (Err ErrNotFound)
    | [id] => ftry credential ← LoadCredential id; mret (Ok (credential, id))
    | _ => mret (Err ErrAmbiguous)
    end.

Definition Resolve (selector : string) : FM (cresult (bytes * string)) :=
  ftry (credential, id) ← ResolveCredential selector; mret (Ok (cr_Key credential, id)).

(** [SaveNew] creates the file under its final name and fills it there; when the
    filling fails it is removed, unless that fails too. *)
Definition SaveNew (name : string) (key : bytes) : FM (cresult unit) :=
  match Token key with
  | Err e => mret (Err e)
  | Ok token =>
    loaded ← Load name;
    match loaded with
    | Ok existing => mret (if bool_decide (existing = key) then Ok tt else Err ErrStateExists)
    | Err ErrNotExist =>
      ftry _ ← os_MkdirAll;
      created ← os_Link name [];
      match created with
      | Err ErrExist => mret (Err ErrStateExists)
      | Err e => mret (Err e)
      | Ok _ =>
        let data := state_data token [] in
        let fill content := d ← look; enter (changed (<[name := File content]> (dk_nodes d)) d) in
        written ← syscall;
        w ← (fun w => (os_written w.2, w));
        _ ← fill (match written with Ok _ => data | Err _ => take w data end);
        synced ← (match written with Ok _ => os_private | Err e => mret (Err e) end);
        closed ← os_private;
        match synced, closed with
        | Ok _, Ok _ => mret (Ok tt)
        | _, _ =>
          removed ← syscall;
          _ ← (match removed with
               | Ok _ => d ← look; enter (changed (delete name (dk_nodes d)) d)
               | Err _ => mret (Ok tt)
               end);
          mret (Err ErrIO)
        end
      end
    | Err e => mret (Err e)
    end
  end.
End files.

(** ** Plain strings *)

(** Printable ASCII without blanks. *)
Definition graphic (b : byte) : bool := byte_in 0x21 0x7E b.

Lemma graphic_no_space b :
  graphic b = true →
  Forall (fun r => head r ≠ None ∧ head r ≠ Some b) space_runes ∧
  Forall (fun r => head r ≠ None ∧ head r ≠ Some b) (map (@rev _) space_runes).
Proof. destruct b; try discriminate; intros _; split; repeat constructor; discriminate. Qed.

Lemma trim_left_head runes fuel b l :
  Forall (fun r => head r ≠ None ∧ head r ≠ Some b) runes → trim_left runes fuel (b :: l) = b :: l.
Proof. intros Hr. destruct fuel; simpl; [done|]. by rewrite strip_one_None. Qed.

Lemma trim_bytes_graphic l : forallb graphic l = true → trim_bytes l = l.
Proof.
  intros Hg. unfold trim_bytes. assert (trim_left space_runes (length l) l = l) as ->.
  { destruct l as [|b l']; [done|]. apply andb_true_iff in Hg as [Hb _]. apply trim_left_head. by apply graphic_no_space. }
  cbv zeta. assert (trim_left (map (@rev _) space_runes) (length l) (rev l) = rev l) as ->; [|apply rev_involutive].
  assert (forallb graphic (rev l) = true) as Hr.
  { apply forallb_forall. intros b Hb%in_rev. rewrite forallb_forall in Hg. auto. }
  generalize (length l). intros fuel. destruct (rev l) as [|b l']; [by destruct fuel|].
  apply andb_true_iff in Hr as [Hb _]. apply trim_left_head. by apply graphic_no_space.
Qed.

Lemma trim_graphic s : forallb graphic (text s) = true → trim_space s = s.
Proof. intros Hg. unfold trim_space. rewrite trim_bytes_graphic //. apply String.string_of_list_byte_of_string. Qed.

Lemma ascii_coerce l : forallb (byte_in 0 0x7F) l = true → coerce (length l) l = l.
Proof.
  intros Ha. apply coerce_valid. induction l as [|b l IH]; [done|]. apply andb_true_iff in Ha as [Hb Ha].
  cbn [length valid_bytes]. assert (rune_size (b :: l) = 1%nat) as -> by (simpl; by rewrite Hb). simpl. rewrite drop_0. by apply IH.
Qed.

Lemma graphic_ascii l : forallb graphic l = true → forallb (byte_in 0 0x7F) l = true.
Proof.
  intros Hg. apply forallb_forall. intros b Hb. rewrite forallb_forall in Hg. specialize (Hg b Hb). by destruct b.
Qed.

Lemma text_app s t : text (s ++ t) = text s ++ text t.
Proof. apply list_byte_of_string_app. Qed.

Lemma text_of_bytes l : text (String.string_of_list_byte l) = l.
Proof. apply String.list_byte_of_string_of_list_byte. Qed.

Lemma strip_prefix_app p l : strip_prefix p (p ++ l) = Some l.
Proof. induction p as [|a p IH]; simpl; [done|]. by rewrite decide_True. Qed.

Lemma after_prefix_app s : after_prefix (tokenPrefix ++ s) = Some s.
Proof.
  unfold after_prefix. rewrite text_app strip_prefix_app. simpl. f_equal. apply String.string_of_list_byte_of_string.
Qed.

Lemma b64_graphic l : forallb graphic (text (b64_encode l)) = true.
Proof.
  unfold b64_encode. rewrite text_of_bytes. apply forallb_forall. intros b Hb.
  pose proof (b64_encode_digits l) as Hd. rewrite Forall_forall in Hd. specialize (Hd b ltac:(by apply list_elem_of_In)).
  destruct b; vm_compute in Hd; destruct Hd as [? Hd]; discriminate Hd || reflexivity.
Qed.

Lemma token_graphic l : forallb graphic (text (tokenPrefix ++ b64_encode l)) = true.
Proof. rewrite text_app forallb_app b64_graphic. done. Qed.

(** ** Normalised destinations *)

(** A destination as it is stored: 32 lower-case hexadecimal digits. *)
Definition canonical (d : string) : bool := forallb lower_hex_byte (text d) && Nat.eqb (length (text d)) 32.

Lemma lower_byte_idem b : lower_byte (lower_byte b) = lower_byte b.
Proof. by destruct b. Qed.

Lemma text_to_lower s : text (to_lower s) = map lower_byte (text s).
Proof. unfold to_lower. apply text_of_bytes. Qed.

Lemma normalize_one_canonical d d' : normalize_one d = Ok d' → canonical d' = true.
Proof.
  unfold normalize_one, hex_decode. rewrite -/(text _) text_to_lower. set (l := text (trim_space d)).
  destruct (hex_decode_bytes (map lower_byte l)) as [r|] eqn:Hd; [|done]. destruct (Nat.eqb_spec (length r) DestinationSize) as [Hr|]; [|done].
  intros [= <-]. apply hex_decode_bytes_spec in Hd as [Hall Hlen]. unfold canonical. rewrite text_to_lower -/l. apply andb_true_iff. split.
  - apply forallb_forall. intros b Hb. rewrite Forall_forall in Hall. rewrite -list_elem_of_In in Hb.
    apply lower_byte_hex; [by apply Hall|]. apply list_elem_of_fmap in Hb as (x & -> & _). apply lower_byte_idem.
  - apply Nat.eqb_eq. unfold DestinationSize in *. lia.
Qed.

Lemma lower_hex_graphic l : forallb lower_hex_byte l = true → forallb graphic l = true.
Proof.
  intros Hg. apply forallb_forall. intros b Hb. rewrite forallb_forall in Hg. specialize (Hg b Hb). by destruct b.
Qed.

Lemma canonical_fixed d : canonical d = true → normalize_one d = Ok d.
Proof.
  unfold canonical. intros [Hh Hl]%andb_true_iff. apply Nat.eqb_eq in Hl. unfold normalize_one.
  rewrite trim_graphic; [by apply lower_hex_graphic|].
  assert (to_lower d = d) as ->.
  { rewrite -{2}(String.string_of_list_byte_of_string d). unfold to_lower. f_equal. fold (text d).
    rewrite -{2}(map_id (text d)). apply map_ext_in. intros b Hb. rewrite forallb_forall in Hh. by apply lower_hex_lower, Hh. }
  unfold hex_decode. fold (text d). destruct (hex_decode_bytes_total (text d)) as [r Hr].
  - apply Forall_forall. intros b Hb%list_elem_of_In. rewrite forallb_forall in Hh. by apply lower_hex_lower, Hh.
  - by rewrite Hl.
  - rewrite Hr. apply hex_decode_bytes_spec in Hr as [_ Hlen]. assert (length r = DestinationSize) as -> by (unfold DestinationSize; lia). done.
Qed.

Lemma normalize_all_canonical l ds : normalize_all l = Ok ds → Forall (fun d => canonical d = true) ds.
Proof.
  revert ds. induction l as [|d l IH]; intros ds; simpl; [by intros [= <-]|].
  destruct (normalize_one d) as [d'|] eqn:Hd; [|done]. simpl. destruct (normalize_all l) as [ds'|]; [|done]. simpl. intros [= <-].
  constructor; [by apply normalize_one_canonical in Hd|by apply IH].
Qed.

Lemma normalize_all_fixed l : Forall (fun d => canonical d = true) l → normalize_all l = Ok l.
Proof. induction 1 as [|d l Hd _ IH]; simpl; [done|]. by rewrite canonical_fixed // IH. Qed.

Lemma remove_dups_NoDup_id (l : list string) : NoDup l → remove_dups l = l.
Proof. induction 1 as [|x l Hx _ IH]; simpl; [done|]. rewrite decide_False //. by f_equal. Qed.

(** What a normalised list is. *)
Record normalized (l : list string) : Prop := {
  no_canonical : Forall (fun d => canonical d = true) l;
  no_nodup : NoDup l;
  no_sorted : sort_strings l = l;
  no_bound : (length l ≤ MaxBootstrapDestinations)%nat
}.

Lemma Normalize_normalized l r : NormalizeBootstrapDestinations l = Ok r → normalized r.
Proof.
  unfold NormalizeBootstrapDestinations. destruct (normalize_all l) as [ds|] eqn:Hd; [|done]. simpl.
  destruct (Nat.ltb_spec MaxBootstrapDestinations (length (remove_dups ds))) as [|Hle]; [done|]. intros [= <-].
  apply normalize_all_canonical in Hd. pose proof (NoDup_remove_dups ds) as Hnd.
  assert (sort_strings (remove_dups ds) ≡ₚ remove_dups ds) as Hp by apply merge_sort_Permutation.
  split.
  - rewrite Hp. apply Forall_forall. intros d Hd'. rewrite elem_of_remove_dups in Hd'. rewrite Forall_forall in Hd. auto.
  - by rewrite Hp.
  - by apply sort_strings_perm.
  - by rewrite Hp.
Qed.

Lemma Normalize_fixed l : normalized l → NormalizeBootstrapDestinations l = Ok l.
Proof.
  intros [Hc Hn Hs Hb]. unfold NormalizeBootstrapDestinations. rewrite normalize_all_fixed //. simpl. rewrite remove_dups_NoDup_id // Hs.
  destruct (Nat.ltb_spec MaxBootstrapDestinations (length l)); [lia|done].
Qed.

(** ** Documents and tokens read back *)

Lemma document_as_read om d :
  forallb graphic (text (doc_Key d)) = true →
  Forall (fun s => forallb graphic (text s) = true) (doc_BootstrapDestinations d) →
  as_read (document_json om d) = document_json om d.
Proof.
  intros Hk Hd. unfold document_json. cbn [as_read]. f_equal. rewrite map_app. f_equal.
  - cbn [map as_read fst snd]. by rewrite (ascii_coerce _ (graphic_ascii _ Hk)).
  - destruct (om && _); [done|]. cbn [map as_read fst snd]. f_equal. f_equal. f_equal. rewrite map_map. apply map_ext_in.
    intros s Hs%list_elem_of_In. rewrite Forall_forall in Hd. cbn [as_read]. rewrite ascii_coerce //. by apply graphic_ascii, Hd.
Qed.

Lemma decode_elems_strings backing l : decode_elems backing (map (fun s => JStr (text s)) l) = Some l.
Proof.
  revert backing. induction l as [|s l IH]; intros backing; cbn [map decode_elems]; [done|]. rewrite IH. cbn.
  do 2 f_equal. apply String.string_of_list_byte_of_string.
Qed.

Lemma decode_version d :
  decode_member d (text "version", JNum (version_literal 1)) = Some (mkDecoding 1 (dec_key d) (dec_backing d) (dec_len d)).
Proof. vm_compute. reflexivity. Qed.

Lemma decode_key d s : decode_member d (text "key", JStr s) = Some (mkDecoding (dec_version d) (go_string s) (dec_backing d) (dec_len d)).
Proof. unfold decode_member. cbn [fst snd]. by assert (field_of (text "key") = Some F_Key) as -> by (vm_compute; reflexivity). Qed.

Lemma decode_destinations v k l :
  decode_member (mkDecoding v k [] 0) (text "bootstrapDestinations", JArr (map (fun s => JStr (text s)) l)) = Some (mkDecoding v k l (length l)).
Proof.
  unfold decode_member. cbn [fst snd]. assert (field_of (text "bootstrapDestinations") = Some F_BootstrapDestinations) as -> by (vm_compute; reflexivity).
  cbn [mbind option_bind fst snd]. destruct l as [|s l]; [done|]. pose proof (decode_elems_strings [] (s :: l)) as He.
  cbn [map] in *. cbn [dec_backing]. rewrite He. cbn [mbind option_bind]. rewrite drop_nil app_nil_r. cbn. by rewrite length_map.
Qed.

Lemma decode_print om d blanks :
  doc_Version d = 1 → forallb graphic (text (doc_Key d)) = true →
  Forall (fun s => forallb graphic (text s) = true) (doc_BootstrapDestinations d) → forallb is_ws blanks = true →
  decode_document (print_value (document_json om d) ++ blanks) = Some d.
Proof.
  intros Hv Hk Hd Hb. unfold decode_document. rewrite parse_print_document //.
  { unfold document_json. rewrite Hv. cbn [writable]. rewrite forallb_app. destruct (om && _); [done|]. cbn [forallb writable snd].
    apply andb_true_iff. split; [done|]. rewrite andb_true_r. apply forallb_forall. intros v (s & <- & _)%in_map_iff. done. }
  rewrite document_as_read //. destruct d as [v k ds]. cbn [doc_Version] in Hv. subst v. unfold document_json.
  cbn [doc_Version doc_Key doc_BootstrapDestinations mbind option_bind]. rewrite foldl_app. cbn [foldl mbind option_bind].
  rewrite decode_version. cbn [mbind option_bind dec_version dec_key dec_backing dec_len]. rewrite decode_key. cbn [mbind option_bind dec_version dec_key dec_backing dec_len].
  assert (go_string (text k) = k) as -> by apply String.string_of_list_byte_of_string.
  destruct (om && bool_decide (ds = [])) eqn:Hom; cbn [foldl mbind option_bind].
  - by apply andb_true_iff in Hom as [_ ->%bool_decide_eq_true].
  - rewrite decode_destinations. cbn [mbind option_bind dec_version dec_key dec_backing dec_len]. by rewrite firstn_all.
Qed.

Lemma quote_length l : forallb (byte_in 0 0x7F) l = true → (length l ≤ length (quote l))%nat.
Proof.
  intros Ha. unfold quote. cbn [length]. rewrite length_app.
  enough (length l ≤ length (quote_body (length l) l))%nat by (simpl; lia).
  induction l as [|b l IH]; [done|]. apply andb_true_iff in Ha as [Hb Ha]. cbn [length quote_body]. rewrite Hb length_app.
  specialize (IH Ha). destruct (html_safe b); simpl; lia.
Qed.

Lemma document_length om d :
  forallb graphic (text (doc_Key d)) = true → (length (text (doc_Key d)) < length (print_value (document_json om d)))%nat.
Proof.
  intros Hk. pose proof (quote_length (text (doc_Key d)) (graphic_ascii _ Hk)) as Hq. unfold document_json.
  cbn [print_value map app joined length]. rewrite !length_app. cbn [length flat_map app].
  destruct (om && _); cbn [map flat_map app length]; rewrite ?length_app; cbn [length]; rewrite ?length_app; cbn [print_value]; lia.
Qed.

Section token_laws.
Context `{Realm}.

Lemma Token_ok key token : Token key = Ok token → length key = KeySize ∧ token = (tokenPrefix ++ b64_encode key)%string.
Proof. unfold Token. destruct (Nat.eqb_spec (length key) KeySize); [|done]. by intros [= <-]. Qed.

Lemma parseKeyToken_Token key token : Token key = Ok token → parseKeyToken token = Ok key.
Proof.
  intros [Hk ->]%Token_ok. unfold parseKeyToken. rewrite after_prefix_app. cbn [mbind option_bind].
  by rewrite b64_decode_encode Hk Nat.eqb_refl.
Qed.

Lemma Token_graphic key token : Token key = Ok token → forallb graphic (text token) = true.
Proof. intros [_ ->]%Token_ok. apply token_graphic. Qed.

Lemma Token_longer key token : Token key = Ok token → (KeySize < length (text token))%nat.
Proof.
  intros [Hk ->]%Token_ok. rewrite text_app length_app. unfold b64_encode. rewrite text_of_bytes b64_encode_length Hk.
  change (length (text tokenPrefix)) with 5%nat. pose proof (Nat.div_le_lower_bound (4 * KeySize + 2) 3 KeySize). lia.
Qed.

Lemma normalized_graphic ds : normalized ds → Forall (fun s => forallb graphic (text s) = true) ds.
Proof.
  intros [Hc _ _ _]. eapply Forall_impl; [exact Hc|]. intros s Hs. simpl in Hs. unfold canonical in Hs.
  apply andb_true_iff in Hs as [Hs _]. by apply lower_hex_graphic.
Qed.

(** Join tokens round trip: a credential can be written as a token exactly when
    its key has the size of a realm key and its destinations normalise, and the
    token then parses to the same key with the normalised destinations. *)
Theorem token_roundtrip c :
  match CredentialToken c with
  | Ok token => ∃ ds, NormalizeBootstrapDestinations (cr_BootstrapDestinations c) = Ok ds ∧
      length (cr_Key c) = KeySize ∧ ParseCredentialToken token = Ok (mkCredential (cr_Key c) ds)
  | Err _ => length (cr_Key c) ≠ KeySize ∨ ∃ e, NormalizeBootstrapDestinations (cr_BootstrapDestinations c) = Err e
  end.
Proof.
  unfold CredentialToken. destruct (Token (cr_Key c)) as [token|e] eqn:Ht; cbn [result_bind].
  2:{ unfold Token in Ht. destruct (Nat.eqb_spec (length (cr_Key c)) KeySize); [done|by left]. }
  destruct (NormalizeBootstrapDestinations _) as [ds|e] eqn:Hn; cbn [result_bind]; [|right; by exists e].
  pose proof (Normalize_normalized _ _ Hn) as Hnorm. pose proof (Token_ok _ _ Ht) as [Hk Heq].
  assert (∀ l, after_prefix (trim_space (tokenPrefix ++ b64_encode l)) = Some (b64_encode l)) as Hp.
  { intros l. rewrite trim_graphic; [apply token_graphic|]. apply after_prefix_app. }
  destruct (bool_decide (ds = [])) eqn:Hd; exists ds; (split; [done|]); (split; [done|]); unfold ParseCredentialToken.
  - apply bool_decide_eq_true in Hd as ->. rewrite Heq Hp b64_decode_encode Hk Nat.eqb_refl. done.
  - rewrite Hp b64_decode_encode. set (doc := mkDocument tokenVersion token ds).
    pose proof (document_length false doc (Token_graphic _ _ Ht)) as Hlen. pose proof (Token_longer _ _ Ht) as Hlt. cbn [doc_Key doc] in Hlen.
    destruct (Nat.eqb_spec (length (print_value (document_json false doc))) KeySize) as [Habs|_]; [lia|].
    pose proof (decode_print false doc [] eq_refl (Token_graphic _ _ Ht) (normalized_graphic _ Hnorm) eq_refl) as Hdec.
    rewrite app_nil_r in Hdec. rewrite Hdec. cbn [doc doc_Version doc_Key doc_BootstrapDestinations].
    change (negb (tokenVersion =? tokenVersion)) with false. cbv iota. rewrite (parseKeyToken_Token _ _ Ht). cbn [result_bind].
    rewrite (Normalize_fixed _ Hnorm) Hd. done.
Qed.
End token_laws.

(** ** Reasoning about the directory *)

Section directory.
Context `{Realm, OS}.

Definition fwp {A} (m : FM A) (Q : A → disk → Prop) (d : disk) : Prop := ∀ n, Q (m (d, n)).1 (m (d, n)).2.1.

Lemma fwp_mono {A} (m : FM A) (Q Q' : A → disk → Prop) d : fwp m Q d → (∀ a d', Q a d' → Q' a d') → fwp m Q' d.
Proof. intros Hm HQ n. apply HQ, Hm. Qed.

Lemma fwp_ret {A} (a : A) (Q : A → disk → Prop) d : Q a d → fwp (mret a) Q d.
Proof. by intros ? n. Qed.

Lemma fwp_bind {A B} (m : FM A) (f : A → FM B) Q d : fwp m (fun a d' => fwp (f a) Q d') d → fwp (m ≫= f) Q d.
Proof.
  intros Hm n. specialize (Hm n). unfold mbind, FM_bind. destruct (m (d, n)) as [a [d' n']]. simpl in *. apply Hm.
Qed.

Lemma fwp_look (Q : disk → disk → Prop) d : Q d d → fwp look Q d.
Proof. by intros ? n. Qed.

Lemma fwp_enter d' (Q : cresult unit → disk → Prop) d : Q (Ok tt) d' → fwp (enter d') Q d.
Proof. by intros ? n. Qed.

(** A call that changes nothing of this process's own. *)
Definition quiet {A} (m : FM A) : Prop := ∀ d, fwp m (fun _ d' => dk_log d' = dk_log d) d.

Lemma quiet_syscall : quiet syscall.
Proof. intros d n. simpl. unfold others. by repeat case_match. Qed.

Lemma quiet_ret {A} (a : A) : quiet (mret a).
Proof. intros d. by apply fwp_ret. Qed.

Lemma quiet_bind {A B} (m : FM A) (f : A → FM B) : quiet m → (∀ a, quiet (f a)) → quiet (m ≫= f).
Proof.
  intros Hm Hf d. apply fwp_bind. eapply fwp_mono; [apply Hm|]. intros a d' Hd. eapply fwp_mono; [apply Hf|].
  intros b d'' Hd'. congruence.
Qed.

Lemma quiet_try {A B} (m : FM (cresult A)) (f : A → FM (cresult B)) : quiet m → (∀ a, quiet (f a)) → quiet (ftry x ← m; f x).
Proof. intros Hm Hf. apply quiet_bind; [done|]. intros [a|e]; [apply Hf|apply quiet_ret]. Qed.

Lemma quiet_ReadFile name : quiet (os_ReadFile name).
Proof. apply quiet_try; [apply quiet_syscall|]. intros _. apply quiet_bind; [intros d; by apply fwp_look|]. intros d. apply quiet_ret. Qed.

Lemma quiet_MkdirAll : quiet os_MkdirAll.
Proof.
  apply quiet_try; [apply quiet_syscall|]. intros _ d. apply fwp_bind, fwp_look, fwp_enter. done.
Qed.

Lemma quiet_LoadCredential name : quiet (LoadCredential name).
Proof. apply quiet_try; [apply quiet_ReadFile|]. intros data. apply quiet_ret. Qed.

Lemma quiet_Load name : quiet (Load name).
Proof. apply quiet_try; [apply quiet_LoadCredential|]. intros c. apply quiet_ret. Qed.

Lemma quiet_write_temporary : quiet write_temporary.
Proof. unfold write_temporary. repeat (apply quiet_try; [apply quiet_syscall|intros _]). apply quiet_syscall. Qed.

(** A quiet call in the middle of an operation. *)
Lemma fwp_quiet {A} (m : FM A) (Q : A → disk → Prop) d :
  quiet m → (∀ a d', dk_log d' = dk_log d → Q a d') → fwp m Q d.
Proof. intros Hm HQ. eapply fwp_mono; [apply Hm|]. auto. Qed.

Lemma fwp_Link name data (Q : cresult unit → disk → Prop) d :
  (∀ e d', dk_log d' = dk_log d → Q (Err e) d') →
  (∀ b d', b !! name = None → dk_log d' = dk_log d ++ [(b, <[name := File data]> b)] → Q (Ok tt) d') →
  fwp (os_Link name data) Q d.
Proof.
  intros He Hok. apply fwp_bind, fwp_quiet; [apply quiet_syscall|]. intros [[]|e] d' Hd; [|apply fwp_ret; auto].
  apply fwp_bind, fwp_look. destruct (dk_nodes d' !! name) eqn:Hn; [apply fwp_ret; auto|]. apply fwp_enter.
  apply (Hok (dk_nodes d')); [done|]. simpl. by rewrite Hd.
Qed.

Lemma fwp_Rename name data (Q : cresult unit → disk → Prop) d :
  (∀ e d', dk_log d' = dk_log d → Q (Err e) d') →
  (∀ b d', b !! name ≠ Some Dir → dk_log d' = dk_log d ++ [(b, <[name := File data]> b)] → Q (Ok tt) d') →
  fwp (os_Rename name data) Q d.
Proof.
  intros He Hok. apply fwp_bind, fwp_quiet; [apply quiet_syscall|]. intros [[]|e] d' Hd; [|apply fwp_ret; auto].
  apply fwp_bind, fwp_look. destruct (dk_nodes d' !! name) as [[data'|]|] eqn:Hn; [|apply fwp_ret; auto|];
    (apply fwp_enter, (Hok (dk_nodes d')); [congruence|]; simpl; by rewrite Hd).
Qed.

(** What is written is a complete credential. *)
Lemma credential_of_state key token ds :
  Token key = Ok token → normalized ds → credential_of (state_data token ds) = Ok (mkCredential key ds).
Proof.
  intros Ht Hn. unfold credential_of, state_data.
  rewrite (decode_print true (mkDocument stateVersion token ds) [x0a] eq_refl (Token_graphic _ _ Ht) (normalized_graphic _ Hn) eq_refl).
  cbn [doc_Version doc_Key doc_BootstrapDestinations]. change (negb (stateVersion =? stateVersion)) with false. cbv iota.
  by rewrite (parseKeyToken_Token _ _ Ht) (Normalize_fixed _ Hn).
Qed.

Lemma normalized_nil : normalized [].
Proof. split; [constructor|constructor|done|simpl; unfold MaxBootstrapDestinations; lia]. Qed.

(** One change of this process: the file [name] becomes a whole credential. *)
Definition whole_change (fresh : bool) (name : string) (P : Credential → Prop) (ba : gmap string node * gmap string node) : Prop :=
  ∃ data c, ba.2 = <[name := File data]> ba.1 ∧ (fresh = true → ba.1 !! name = None) ∧ credential_of data = Ok c ∧ P c.

(** The changes of an operation: at most one, and none when it fails. *)
Definition atomic_change (fresh : bool) (name : string) (P : Credential → Prop) (failed : bool) (d d' : disk) : Prop :=
  dk_log d' = dk_log d ∨
  failed = false ∧ ∃ ba, dk_log d' = dk_log d ++ [ba] ∧ whole_change fresh name P ba.

Lemma SaveCredential_atomic key d :
  fwp (SaveCredential key) (fun r d' => ∀ id, ID key = Ok id →
    atomic_change true (hex_encode id) (fun c => c = mkCredential key []) (negb (is_ok r)) d d') d.
Proof.
  unfold SaveCredential. destruct (ID key) as [id|e]; [|apply fwp_ret; done].
  eapply fwp_mono; [|intros r d' Hc i [= <-]; exact Hc]. apply fwp_bind, fwp_quiet; [apply quiet_Load|]. intros loaded d1 H1.
  assert (∀ r : cresult string, fwp (mret r) (fun r d' => atomic_change true (hex_encode id) (fun c => c = mkCredential key []) (negb (is_ok r)) d d') d1) as Hret
    by (intros r; apply fwp_ret; by left).
  destruct loaded as [existing|[]]; try apply Hret. clear Hret.
  apply fwp_bind, fwp_quiet; [apply quiet_MkdirAll|]. intros [[]|e] d2 H2; [|apply fwp_ret; left; congruence].
  apply fwp_bind, fwp_quiet; [apply quiet_syscall|]. intros [[]|e] d3 H3; [|apply fwp_ret; left; congruence].
  destruct (Token key) as [token|e] eqn:Ht; [|apply fwp_ret; left; congruence].
  apply fwp_bind, fwp_quiet; [apply quiet_write_temporary|]. intros [[]|e] d4 H4; [|apply fwp_ret; left; congruence].
  apply fwp_bind, fwp_Link.
  - intros e d5 H5. destruct e; try (apply fwp_ret; left; congruence).
    apply fwp_bind, fwp_quiet; [apply quiet_Load|]. intros again d6 H6. apply fwp_ret. left. congruence.
  - intros b d5 Hb H5. apply fwp_ret. right. split; [done|]. eexists. split; [by rewrite H5 H4 H3 H2 H1|].
    exists (state_data token []), (mkCredential key []). split_and!; try done. by apply credential_of_state, normalized_nil.
Qed.

Lemma RecordBootstrapDestination_atomic name destination d :
  fwp (RecordBootstrapDestination name destination) (fun r d' =>
    atomic_change false name (fun c => normalized (cr_BootstrapDestinations c)) (negb (is_ok r)) d d') d.
Proof.
  unfold RecordBootstrapDestination. apply fwp_bind, fwp_quiet; [apply quiet_LoadCredential|].
  intros [c|e] d1 H1; [|apply fwp_ret; by left].
  destruct (NormalizeBootstrapDestinations [destination]); [|apply fwp_ret; by left]. cbv zeta.
  destruct (bool_decide _); [apply fwp_ret; by left|].
  destruct (NormalizeBootstrapDestinations (add_destination _ _)) as [ds|e] eqn:Hn; [|apply fwp_ret; by left].
  destruct (Token _) as [token|e] eqn:Ht; [|apply fwp_ret; by left].
  apply fwp_bind, fwp_quiet; [apply quiet_write_temporary|]. intros [[]|e] d2 H2; [|apply fwp_ret; left; congruence].
  apply fwp_Rename; [intros e d3 H3; left; congruence|]. intros b d3 Hb H3. right. split; [done|].
  eexists. split; [by rewrite H3 H2 H1|]. apply Normalize_normalized in Hn.
  exists (state_data token ds), (mkCredential (cr_Key c) ds). split_and!; try done. by apply credential_of_state.
Qed.


(** ** Without other processes *)

Lemma Normalize_one destination :
  NormalizeBootstrapDestinations [destination] = (try d ← normalize_one destination; Ok [d]).
Proof.
  unfold NormalizeBootstrapDestinations. cbn [normalize_all]. destruct (normalize_one destination) as [d|e]; [|done]. cbn.
  by rewrite /sort_strings.
Qed.

Lemma add_destination_normalizes known d :
  normalized known → canonical d = true → d ∉ known →
  ∃ ds, NormalizeBootstrapDestinations (add_destination known d) = Ok ds ∧ ds ≡ₚ add_destination known d.
Proof.
  intros [Hc Hn _ Hb] Hd Hnin. set (l := add_destination known d).
  assert (∃ rest, l = rest ++ [d] ∧ sublist rest known ∧ length rest < MaxBootstrapDestinations)%nat as (rest & Hl & Hsub & Hlen).
  { unfold l, add_destination. destruct (Nat.eqb_spec (length known) MaxBootstrapDestinations) as [He|Hne]; eexists; split_and!; try done.
    - destruct known as [|k known]; [done|]. simpl. by apply sublist_cons.
    - destruct known; simpl in *; unfold MaxBootstrapDestinations in *; lia.
    - lia. }
  assert (Forall (fun d => canonical d = true) l) as Hcl.
  { rewrite Hl. apply Forall_app. split; [|by apply Forall_singleton]. rewrite !Forall_forall in Hc |- *. intros x Hx. apply Hc.
    exact (elem_of_sublist _ _ _ Hx Hsub). }
  assert (NoDup l) as Hnl.
  { rewrite Hl. apply NoDup_app. split_and!; [exact (sublist_NoDup _ _ Hn Hsub)| |apply NoDup_singleton].
    intros x Hx ->%list_elem_of_singleton. apply Hnin, (elem_of_sublist _ _ _ Hx Hsub). }
  exists (sort_strings l). split; [|apply merge_sort_Permutation]. unfold NormalizeBootstrapDestinations.
  rewrite normalize_all_fixed //. cbn [result_bind]. rewrite remove_dups_NoDup_id //.
  destruct (Nat.ltb_spec MaxBootstrapDestinations (length l)) as [Hlt|]; [|done]. rewrite Hl length_app in Hlt. simpl in Hlt. lia.
Qed.

Lemma credential_of_ok data c : credential_of data = Ok c → normalized (cr_BootstrapDestinations c) ∧ is_ok (Token (cr_Key c)) = true.
Proof.
  unfold credential_of. destruct (decode_document data) as [st|]; [|done]. destruct (negb _); [done|].
  destruct (parseKeyToken (doc_Key st)) as [key|] eqn:Hk; [|done]. destruct (NormalizeBootstrapDestinations _) as [ds|] eqn:Hn; [|done].
  intros [= <-]. split; [exact (Normalize_normalized _ _ Hn)|]. unfold parseKeyToken in Hk. unfold Token. simpl.
  destruct (after_prefix _ ≫= b64_decode) as [k|]; [|done]. destruct (Nat.eqb (length k) KeySize) eqn:He; [|done]. injection Hk as <-. by rewrite He.
Qed.

Section alone.
Hypothesis (alone : ∀ n, os_other n = None).

Lemma fwp_syscall_alone (Q : cresult unit → disk → Prop) d : Q (Ok tt) d → Q (Err ErrIO) d → fwp syscall Q d.
Proof. intros Hok He n. simpl. rewrite alone. simpl. by destruct (os_fails n). Qed.

Lemma fwp_Load_alone name (Q : cresult Credential → disk → Prop) d :
  Q (Err ErrIO) d →
  Q (match dk_nodes d !! name with Some (File data) => credential_of data | Some Dir => Err ErrIO | None => Err ErrNotExist end) d →
  fwp (LoadCredential name) Q d.
Proof.
  intros He Hq. apply fwp_bind. apply fwp_bind, fwp_syscall_alone; [|by apply fwp_ret, fwp_ret].
  apply fwp_bind, fwp_look, fwp_ret. destruct (dk_nodes d !! name) as [[data|]|]; apply fwp_ret; exact Hq.
Qed.

Lemma fwp_temporary_alone (Q : cresult unit → disk → Prop) d : Q (Ok tt) d → Q (Err ErrIO) d → fwp write_temporary Q d.
Proof.
  intros Hok He. unfold write_temporary, os_private.
  repeat (apply fwp_bind, fwp_syscall_alone; [|by apply fwp_ret]). by apply fwp_syscall_alone.
Qed.

(** Recording a destination keeps the rest: on a valid credential file it
    fails only when the system does or the destination is malformed, and then
    leaves every file as it was; when it succeeds the file loads with the same
    key and with the destination among at most 32, and every earlier one is still
    there, except the first when all 32 places were taken. *)
Theorem destination_recorded name destination d n old c :
  dk_nodes d !! name = Some (File old) → credential_of old = Ok c →
  match RecordBootstrapDestination name destination (d, n) with
  | (Err e, (d', _)) => dk_nodes d' = dk_nodes d ∧ (e = ErrIO ∨ normalize_one destination = Err e)
  | (Ok _, (d', _)) => ∃ dest data ds, normalize_one destination = Ok dest ∧ dk_nodes d' = <[name := File data]> (dk_nodes d) ∧
      credential_of data = Ok (mkCredential (cr_Key c) ds) ∧ dest ∈ ds ∧ (length ds ≤ MaxBootstrapDestinations)%nat ∧
      ∀ h, h ∈ cr_BootstrapDestinations c → h ∈ ds ∨
        length (cr_BootstrapDestinations c) = MaxBootstrapDestinations ∧ head (cr_BootstrapDestinations c) = Some h
  end.
Proof.
  intros Hold Hc. set (Q := fun (r : cresult unit) (d' : disk) => match r with
    | Err e => dk_nodes d' = dk_nodes d ∧ (e = ErrIO ∨ normalize_one destination = Err e)
    | Ok _ => ∃ dest data ds, normalize_one destination = Ok dest ∧ dk_nodes d' = <[name := File data]> (dk_nodes d) ∧
      credential_of data = Ok (mkCredential (cr_Key c) ds) ∧ dest ∈ ds ∧ (length ds ≤ MaxBootstrapDestinations)%nat ∧
      ∀ h, h ∈ cr_BootstrapDestinations c → h ∈ ds ∨
        length (cr_BootstrapDestinations c) = MaxBootstrapDestinations ∧ head (cr_BootstrapDestinations c) = Some h end).
  enough (fwp (RecordBootstrapDestination name destination) Q d) as Hq.
  { specialize (Hq n). destruct (RecordBootstrapDestination name destination (d, n)) as [[r|e] [d' n']]; exact Hq. }
  destruct (credential_of_ok _ _ Hc) as [Hnorm Htok]. unfold RecordBootstrapDestination. rewrite Normalize_one.
  apply fwp_bind, fwp_Load_alone; [apply fwp_ret; split; auto|]. rewrite Hold Hc.
  destruct (normalize_one destination) as [dest|e] eqn:Hd; cbn [result_bind]; [|apply fwp_ret; split; auto]. cbn [head default].
  destruct (bool_decide _) eqn:Hin.
  - apply bool_decide_eq_true in Hin. apply fwp_ret. exists dest, old, (cr_BootstrapDestinations c).
    destruct c as [key ds]. rewrite insert_id //. split_and!; try done; [by destruct Hnorm|by left].
  - apply bool_decide_eq_false in Hin.
    destruct (add_destination_normalizes _ dest Hnorm (normalize_one_canonical _ _ Hd) Hin) as (ds & Hds & Hp). rewrite Hds.
    destruct (Token (cr_Key c)) as [token|] eqn:Ht; [|done].
    apply fwp_bind, fwp_temporary_alone; [|apply fwp_ret; split; auto].
    apply fwp_bind, fwp_syscall_alone; [|apply fwp_ret; split; auto]. apply fwp_bind, fwp_look. rewrite Hold. apply fwp_enter.
    pose proof (Normalize_normalized _ _ Hds) as Hnds. exists dest, (state_data token ds), ds. split_and!; try done.
    + by apply credential_of_state.
    + rewrite Hp. unfold add_destination. set_solver.
    + by destruct Hnds.
    + intros h Hh. setoid_rewrite Hp. unfold add_destination. destruct (Nat.eqb_spec (length (cr_BootstrapDestinations c)) MaxBootstrapDestinations) as [He|_].
      * destruct (cr_BootstrapDestinations c) as [|k known]; [done|]. simpl. apply elem_of_cons in Hh as [->|Hh]; [by right|left; set_solver].
      * left. set_solver.
Qed.

(** ** Listing and selecting *)

(** The file named [id] holds the credential of the realm with that ID. *)
Definition holds (nodes : gmap string node) (id : string) (c : Credential) : Prop :=
  ∃ data i, nodes !! id = Some (File data) ∧ credential_of data = Ok c ∧ ID (cr_Key c) = Ok i ∧ hex_encode i = id.

Lemma list_loop_alone entries d :
  fwp (list_loop entries) (fun r d' => d' = d ∧ ∀ ids, r = Ok ids →
    ids = (List.filter id_named entries).*1 ∧ Forall (fun id => ∃ c, holds (dk_nodes d) id c) ids) d.
Proof.
  induction entries as [|entry rest IH]; cbn [list_loop].
  { apply fwp_ret. split; [done|]. intros ids [= <-]. split; [done|constructor]. }
  cbn [List.filter]. destruct (id_named entry); cbn [negb]; [|exact IH].
  apply fwp_bind. unfold Load. apply fwp_bind, fwp_Load_alone; [by apply fwp_ret, fwp_ret|].
  destruct (dk_nodes d !! entry.1) as [[data|]|] eqn:Hn; try (by apply fwp_ret, fwp_ret).
  destruct (credential_of data) as [c|e] eqn:Hc; [|by apply fwp_ret, fwp_ret]. apply fwp_ret.
  destruct (ID (cr_Key c)) as [i|e] eqn:Hi; [|by apply fwp_ret]. destruct (bool_decide (hex_encode i = entry.1)) eqn:Hh; [|by apply fwp_ret].
  apply bool_decide_eq_true in Hh. apply fwp_bind. eapply fwp_mono; [exact IH|]. intros [ids|e] d' [-> Hids]; apply fwp_ret; (split; [done|]); [|done].
  intros ids' [= <-]. destruct (Hids ids eq_refl) as [-> Hall]. split; [done|]. constructor; [|done]. exists c, data, i. by split_and!.
Qed.

Lemma List_alone d :
  fwp List (fun r d' => d' = d ∧ ∀ ids, r = Ok ids → ∀ id, id ∈ ids ↔
    dk_exists d = true ∧ ∃ n, dk_nodes d !! id = Some n ∧ id_named (id, n) = true) d.
Proof.
  unfold List, os_ReadDir. apply fwp_bind, fwp_bind, fwp_syscall_alone; [|by apply fwp_ret, fwp_ret].
  apply fwp_bind, fwp_look, fwp_ret. destruct (dk_exists d) eqn:He.
  - apply fwp_bind. eapply fwp_mono; [apply list_loop_alone|]. intros [ids|e] d' [-> Hids]; apply fwp_ret; (split; [done|]); [|done].
    intros ids' [= <-] id. destruct (Hids ids eq_refl) as [-> _]. rewrite elem_of_sort_strings list_elem_of_fmap. split.
    + intros ([k m] & -> & Hf). apply list_elem_of_In, filter_In in Hf as [Hf Hm]. apply list_elem_of_In, elem_of_map_to_list in Hf. split; [done|]. by exists m.
    + intros [_ (m & Hm & Hid)]. exists (id, m). split; [done|]. apply list_elem_of_In, filter_In. split; [|done].
      by apply list_elem_of_In, elem_of_map_to_list.
  - apply fwp_ret. split; [done|]. intros ids [= <-] id. split; [by intros ?%not_elem_of_nil|by intros [? _]].
Qed.

(** A selector names one credential: when resolving succeeds, the ID it returns
    starts with the selector, its file holds the credential that is returned, and
    no other file with the name of a credential starts with the selector; nothing
    in the directory changes. *)
Theorem selector_unambiguous selector d n c id d' n' :
  ResolveCredential selector (d, n) = (Ok (c, id), (d', n')) →
  d' = d ∧ has_prefix id (trim_space (to_lower selector)) = true ∧
  (∃ data, dk_nodes d !! id = Some (File data) ∧ credential_of data = Ok c) ∧
  ∀ id' m, dk_nodes d !! id' = Some m → id_named (id', m) = true → has_prefix id' (trim_space (to_lower selector)) = true → id' = id.
Proof.
  intros Hrun. set (sel := trim_space (to_lower selector)).
  enough (fwp (ResolveCredential selector) (fun r d' => ∀ c id, r = Ok (c, id) → d' = d ∧ has_prefix id sel = true ∧
    (∃ data, dk_nodes d !! id = Some (File data) ∧ credential_of data = Ok c) ∧
    ∀ id' m, dk_nodes d !! id' = Some m → id_named (id', m) = true → has_prefix id' sel = true → id' = id) d) as Hq.
  { specialize (Hq n). rewrite Hrun in Hq. by apply Hq. }
  clear Hrun. unfold ResolveCredential. fold sel. destruct (_ || _); [by apply fwp_ret|].
  apply fwp_bind. eapply fwp_mono; [apply List_alone|]. intros [ids|e] d1 [-> Hids]; [|by apply fwp_ret]. specialize (Hids ids eq_refl).
  assert (∀ x, In x (List.filter (fun i => has_prefix i sel) ids) ↔ x ∈ ids ∧ has_prefix x sel = true) as Hf.
  { intros x. by rewrite filter_In list_elem_of_In. }
  destruct (List.filter _ ids) as [|i [|]]; [by apply fwp_ret| |by apply fwp_ret].
  assert (i ∈ ids ∧ has_prefix i sel = true) as [Hi Hp] by (apply Hf; by left). apply Hids in Hi as [Hex _].
  apply fwp_bind, fwp_Load_alone; [by apply fwp_ret|].
  destruct (dk_nodes d !! i) as [[data|]|] eqn:Hn; try (by apply fwp_ret). destruct (credential_of data) as [c'|] eqn:Hc; [|by apply fwp_ret].
  apply fwp_ret. intros c0 id0 [= <- <-]. split; [done|]. split; [done|]. split; [by exists data|].
  intros id' m Hm Hnamed Hpre. assert (In id' [i]) as [?|[]]; [|done]. apply Hf. split; [|done]. apply Hids. split; [done|]. by exists m.
Qed.
End alone.
End directory.

(** ** A directory with one credential *)

(** A realm whose ID is its key, and a system without failures or rivals. *)
Definition example_realm : Realm := {| KeySize := 32; realm_ID key := Some key |}.
Definition example_os : OS := {| os_fails _ := false; os_other _ := None; os_written _ := 0%nat |}.

Section example.
Existing Instance example_realm.
Existing Instance example_os.

Definition example_key : bytes := replicate 32 x07.
Definition example_name : string := hex_encode example_key.
Definition example_hint : string := "00112233445566778899AABBCCDDEEFF".
Definition example_disk : disk := (SaveCredential example_key (mkDisk true ∅ [], 0%nat)).2.1.
Definition example_data : bytes := state_data (tokenPrefix ++ b64_encode example_key) [].


Lemma destination_recorded_witness :
  ∃ data ds, dk_nodes (RecordBootstrapDestination example_name example_hint (example_disk, 0%nat)).2.1
               = <[example_name := File data]> (dk_nodes example_disk) ∧
    credential_of data = Ok (mkCredential example_key ds) ∧ "00112233445566778899aabbccddeeff" ∈ ds.
Proof.
  pose proof (destination_recorded (fun _ => eq_refl) example_name example_hint example_disk 0 example_data (mkCredential example_key [])) as Hd.
  assert ((RecordBootstrapDestination example_name example_hint (example_disk, 0%nat)).1 = Ok tt) as Hok by (vm_compute; reflexivity).
  destruct (RecordBootstrapDestination _ _ _) as [r [d' n']]. cbn [fst] in Hok. rewrite Hok in Hd.
  destruct Hd as (dest & data & ds & Hn & Hd' & Hc & Hin & _); [vm_compute; reflexivity|vm_compute; reflexivity|].
  exists data, ds. split; [exact Hd'|]. split; [exact Hc|].
  assert (normalize_one example_hint = Ok "00112233445566778899aabbccddeeff") as He by (vm_compute; reflexivity).
  rewrite He in Hn. injection Hn as <-. exact Hin.
Defined.

Lemma selector_unambiguous_witness :
  has_prefix example_name (trim_space (to_lower " 0707 ")) = true.
Proof.
  destruct (ResolveCredential " 0707 " (example_disk, 0%nat)) as [r [d' n']] eqn:Hr.
  assert (r = Ok (mkCredential example_key [], example_name)) as -> by (apply (f_equal fst) in Hr; vm_compute in Hr; symmetry; exact Hr).
  exact (proj1 (proj2 (selector_unambiguous (fun _ => eq_refl) _ _ _ _ _ _ _ Hr))).
Defined.
End example.
