(* ===== verification/ClusterCommand.v ===== *)
(** * The cluster command (internal/cluster/command.go)

    [r1s cluster init|join|list|token] over the credential directory of Cluster.v,
    with the flag parser of the Go library for commands without flags of their
    own.  A command returns what it printed and its error. *)

From stdpp Require Import pretty.
From S2P Require Import Prelude GoStrings Ordering Utf8 Base64 Json Decimal Cluster.
From Stdlib Require Import Strings.Byte Strings.Ascii.

(** ** Flags *)

Inductive flag_error := FlagHelp | FlagUndefined (name : string) | FlagSyntax (argument : string).

(** A dash: one or two before a flag, and ["--"] ends the flags. *)
Definition dash : ascii := Ascii.ascii_of_byte x2d.
Definition equals : ascii := Ascii.ascii_of_byte x3d.

(** The name of a flag ends at the first [=] that is not its first byte. *)
Fixpoint before_equals (s : string) : string :=
  match s with
  | String a s' => if bool_decide (a = equals) then "" else String a (before_equals s')
  | EmptyString => ""
  end.

Definition judge_flag (argument name : string) : flag_error :=
  match name with
  | EmptyString => FlagSyntax argument
  | String a s' =>
    if bool_decide (a = dash) || bool_decide (a = equals) then FlagSyntax argument
    else let name := String a (before_equals s') in
    if bool_decide (name = "help") || bool_decide (name = "h") then FlagHelp else FlagUndefined name
  end.

(** [FlagSet.Parse] of a set without flags: the arguments that are left. *)
Definition parse_flags (arguments : list string) : result flag_error (list string) :=
  match arguments with
  | String a (String b name as after) as argument :: rest =>
    if negb (bool_decide (a = dash)) then Ok arguments
    else if bool_decide (b = dash)
    then if bool_decide (name = "") then Ok rest else Err (judge_flag argument name)
    else Err (judge_flag argument after)
  | _ => Ok arguments
  end.

(** ** The command *)

Inductive command_error :=
| C_Required | C_Unknown (name : string)
| C_Flags (e : flag_error)
| C_Arguments
| C_Generate
| C_Cluster (e : cluster_error)
| C_Output.

Definition newline : string := String (Ascii.ascii_of_byte x0a) "".

Definition token_line (token : string) : string := "Join token: " +:+ token +:+ newline.

Section command.
Context `{Realm, OS}.

(** [filepath.Join] of the directory, which is clean, and an ID. *)
Definition printMembership (directory id : string) (credential : Credential) (includeToken : bool) : string * option command_error :=
  let first := "Cluster ID: " +:+ id +:+ newline in
  let last := "Cluster credential: " +:+ directory +:+ "/" +:+ id +:+ newline in
  if includeToken
  then match CredentialToken credential with
       | Err e => (first, Some (C_Cluster e))
       | Ok token => (first +:+ token_line token +:+ last, None)
       end
  else (first +:+ last, None).

(** [generated] is the answer of [Generate], [prints] whether the terminal takes
    the last line of [token]. *)
Definition RunCommand (arguments : list string) (directory : string) (generated : option bytes) (prints : bool) : FM (string * option command_error) :=
  match arguments with
  | [] => mret ("", Some C_Required)
  | "init" :: rest =>
    match parse_flags rest with
    | Err e => mret ("", Some (C_Flags e))
    | Ok (_ :: _) => mret ("", Some C_Arguments)
    | Ok [] =>
      match generated with
      | None => mret ("", Some C_Generate)
      | Some key =>
        saved ← SaveCredential key;
        mret (match saved with
              | Err e => ("", Some (C_Cluster e))
              | Ok id => printMembership directory id (mkCredential key []) true
              end)
      end
    end
  | "join" :: rest =>
    match parse_flags rest with
    | Err e => mret ("", Some (C_Flags e))
    | Ok [token] =>
      match ParseCredentialToken token with
      | Err e => mret ("", Some (C_Cluster e))
      | Ok credential =>
        saved ← SaveMembership credential;
        mret (match saved with
              | Err e => ("", Some (C_Cluster e))
              | Ok id => printMembership directory id credential false
              end)
      end
    | Ok _ => mret ("", Some C_Arguments)
    end
  | "list" :: rest =>
    match parse_flags rest with
    | Err e => mret ("", Some (C_Flags e))
    | Ok (_ :: _) => mret ("", Some C_Arguments)
    | Ok [] =>
      ids ← List;
      mret (match ids with
            | Err e => ("", Some (C_Cluster e))
            | Ok ids => (foldr (fun id out => id +:+ newline +:+ out) "" ids, None)
            end)
    end
  | "token" :: rest =>
    match parse_flags rest with
    | Err e => mret ("", Some (C_Flags e))
    | Ok [selector] =>
      resolved ← ResolveCredential selector;
      mret (match resolved with
            | Err e => ("", Some (C_Cluster e))
            | Ok (credential, _) =>
              match CredentialToken credential with
              | Err e => ("", Some (C_Cluster e))
              | Ok token => (token_line token, if prints then None else Some C_Output)
              end
            end)
    | Ok _ => mret ("", Some C_Arguments)
    end
  | name :: _ => mret ("", Some (C_Unknown name))
  end.
End command.

(** ** Joining *)

Section joining.
Context `{Realm, OS}.
Hypothesis (alone : ∀ n, os_other n = None).

Lemma record_step name destination d old c :
  dk_nodes d !! name = Some (File old) → credential_of old = Ok c →
  fwp (RecordBootstrapDestination name destination) (fun r d' => r = Ok tt →
    ∃ data ds, dk_nodes d' !! name = Some (File data) ∧ credential_of data = Ok (mkCredential (cr_Key c) ds) ∧
      (canonical destination = true → destination ∉ cr_BootstrapDestinations c → (length (cr_BootstrapDestinations c) < MaxBootstrapDestinations)%nat →
       ds ≡ₚ cr_BootstrapDestinations c ++ [destination])) d.
Proof.
  intros Hold Hc. destruct (credential_of_ok _ _ Hc) as [Hnorm Htok]. unfold RecordBootstrapDestination. rewrite Normalize_one.
  apply fwp_bind, (fwp_Load_alone alone); [by apply fwp_ret|]. rewrite Hold Hc.
  destruct (normalize_one destination) as [dest|e] eqn:Hd; cbn [result_bind]; [|by apply fwp_ret]. cbn [head default].
  destruct (bool_decide _) eqn:Hin.
  - apply bool_decide_eq_true in Hin. apply fwp_ret. intros _. exists old, (cr_BootstrapDestinations c). destruct c as [key ds]. split_and!; try done.
    intros Hcan Hnot. rewrite (canonical_fixed _ Hcan) in Hd. by injection Hd as <-.
  - apply bool_decide_eq_false in Hin.
    destruct (add_destination_normalizes _ dest Hnorm (normalize_one_canonical _ _ Hd) Hin) as (ds & Hds & Hp). rewrite Hds.
    destruct (Token (cr_Key c)) as [token|] eqn:Ht; [|done].
    apply fwp_bind, (fwp_temporary_alone alone); [|by apply fwp_ret].
    apply fwp_bind, (fwp_syscall_alone alone); [|by apply fwp_ret]. apply fwp_bind, fwp_look. rewrite Hold. apply fwp_enter. intros _.
    exists (state_data token ds), ds. cbn [changed dk_nodes]. rewrite lookup_insert_eq. split; [done|].
    split; [by apply credential_of_state, (Normalize_normalized _ _ Hds)|]. intros Hcan _ Hlt. rewrite (canonical_fixed _ Hcan) in Hd. injection Hd as <-.
    rewrite Hp. unfold add_destination. destruct (Nat.eqb_spec (length (cr_BootstrapDestinations c)) MaxBootstrapDestinations); [lia|done].
Qed.

Lemma record_all_step name l d old c :
  dk_nodes d !! name = Some (File old) → credential_of old = Ok c →
  fwp (record_all name l) (fun r d' => r = Ok tt →
    ∃ data ds, dk_nodes d' !! name = Some (File data) ∧ credential_of data = Ok (mkCredential (cr_Key c) ds) ∧
      (Forall (fun x => canonical x = true) l → NoDup (cr_BootstrapDestinations c ++ l) → (length (cr_BootstrapDestinations c ++ l) ≤ MaxBootstrapDestinations)%nat →
       ds ≡ₚ cr_BootstrapDestinations c ++ l)) d.
Proof.
  revert d old c. induction l as [|x l IH]; intros d old c Hold Hc; cbn [record_all].
  { apply fwp_ret. intros _. exists old, (cr_BootstrapDestinations c). destruct c as [key ds]. rewrite app_nil_r. by split_and!. }
  apply fwp_bind. eapply fwp_mono; [by apply (record_step name x d old c)|]. intros [[]|e] d1 Hr; [|by apply fwp_ret].
  destruct (Hr eq_refl) as (data & ds & Hd & Hcd & Hp). eapply fwp_mono; [apply (IH d1 data _ Hd Hcd)|]. intros r d2 Hl Hok.
  destruct (Hl Hok) as (data2 & ds2 & Hd2 & Hcd2 & Hp2). exists data2, ds2. split_and!; [done|done|]. cbn [cr_Key cr_BootstrapDestinations] in *.
  intros Hcan Hnd Hlen. apply Forall_cons in Hcan as [Hx Hcan]. rewrite length_app in Hlen. cbn in Hlen.
  assert (ds ≡ₚ cr_BootstrapDestinations c ++ [x]) as Hds by (apply Hp; [done| |lia]; apply NoDup_app in Hnd as (_ & Hnd & _); intros Hin; apply (Hnd x Hin); set_solver).
  assert (ds ++ l ≡ₚ cr_BootstrapDestinations c ++ x :: l) as Hall by (rewrite Hds -app_assoc //).
  rewrite Hp2; [done|by rewrite Hall|rewrite Hall length_app; cbn; lia|done].
Qed.

(** What a saved credential is: new, or the one that was there. *)
Lemma save_step key d :
  fwp (SaveCredential key) (fun r d' => ∀ name, r = Ok name →
    ∃ i data ds, ID key = Ok i ∧ name = hex_encode i ∧ dk_nodes d' !! name = Some (File data) ∧ credential_of data = Ok (mkCredential key ds) ∧
      (dk_nodes d !! name = None → ds = [])) d.
Proof.
  unfold SaveCredential. destruct (ID key) as [i|e] eqn:Hid; [|by apply fwp_ret]. apply fwp_bind. unfold Load at 1.
  apply fwp_bind, (fwp_Load_alone alone); [by apply fwp_ret, fwp_ret|]. destruct (dk_nodes d !! hex_encode i) as [[data|]|] eqn:Hn; [|by apply fwp_ret, fwp_ret|].
  - destruct (credential_of data) as [c|e] eqn:Hc; [|destruct e; try by apply fwp_ret, fwp_ret].
    + apply fwp_ret, fwp_ret. case_bool_decide as Hk; [|done]. intros name [= <-]. destruct c as [k ds]. cbn in Hk. subst k. exists i, data, ds. by rewrite Hn.
    + exfalso. revert Hc. unfold credential_of. repeat case_match; done.
  - apply fwp_ret. unfold os_MkdirAll. apply fwp_bind, fwp_bind, (fwp_syscall_alone alone); [|by apply fwp_ret, fwp_ret]. apply fwp_bind, fwp_look, fwp_enter.
    apply fwp_bind, (fwp_syscall_alone alone); [|by apply fwp_ret]. destruct (Token key) as [token|e] eqn:Ht; [|by apply fwp_ret].
    apply fwp_bind, (fwp_temporary_alone alone); [|by apply fwp_ret]. apply fwp_bind. unfold os_Link. apply fwp_bind, (fwp_syscall_alone alone); [|by apply fwp_ret, fwp_ret].
    apply fwp_bind, fwp_look. cbn [dk_nodes]. rewrite Hn. apply fwp_enter, fwp_ret. intros name [= <-]. exists i, (state_data token []), []. cbn [changed dk_nodes].
    rewrite lookup_insert_eq. split_and!; try done. by apply credential_of_state, normalized_nil.
Qed.

(** Normalised lists with the same elements are the same. *)
Lemma normalized_perm l l' : normalized l → normalized l' → l ≡ₚ l' → l = l'.
Proof. intros Hl Hl' Hp. rewrite -(no_sorted _ Hl) -(no_sorted _ Hl'). by apply sort_strings_perm. Qed.

Lemma membership_step c d : normalized (cr_BootstrapDestinations c) →
  fwp (SaveMembership c) (fun r d' => ∀ name, r = Ok name →
    ∃ i data ds, ID (cr_Key c) = Ok i ∧ name = hex_encode i ∧ dk_nodes d' !! name = Some (File data) ∧ credential_of data = Ok (mkCredential (cr_Key c) ds) ∧
      (dk_nodes d !! name = None → ds = cr_BootstrapDestinations c)) d.
Proof.
  intros Hn. unfold SaveMembership. apply fwp_bind. eapply fwp_mono; [apply save_step|]. intros [name|e] d1 Hs; [|by apply fwp_ret].
  destruct (Hs name eq_refl) as (i & data & ds & Hi & -> & Hd & Hc & Hnew). apply fwp_bind. eapply fwp_mono; [exact (record_all_step _ (cr_BootstrapDestinations c) d1 data _ Hd Hc)|].
  intros [[]|e] d2 Hr; [|by apply fwp_ret]. destruct (Hr eq_refl) as (data2 & ds2 & Hd2 & Hc2 & Hp). apply fwp_ret. intros name [= <-].
  exists i, data2, ds2. split_and!; try done. intros Hnone. rewrite (Hnew Hnone) in Hp. cbn in Hp. apply normalized_perm; [by apply (credential_of_ok _ _ Hc2)|done|].
  apply Hp; by destruct Hn.
Qed.
End joining.

(** ** Membership *)

Section transfer.
Context `{Realm}.

Lemma token_prefixed c token : CredentialToken c = Ok token → ∃ s, token = (tokenPrefix ++ s)%string.
Proof.
  unfold CredentialToken, Token. destruct (Nat.eqb _ _); cbn [result_bind]; [|done]. destruct (NormalizeBootstrapDestinations _); cbn [result_bind]; [|done].
  case_bool_decide; intros [= <-]; eauto.
Qed.

(** The machine has joined the cluster of [c]: its directory holds the key under
    the ID of the cluster, with the same destinations if it was not known. *)
Definition joined (c : Credential) (before after : disk) : Prop :=
  ∃ i data ds, ID (cr_Key c) = Ok i ∧ dk_nodes after !! hex_encode i = Some (File data) ∧ credential_of data = Ok (mkCredential (cr_Key c) ds) ∧
    (dk_nodes before !! hex_encode i = None → ds = cr_BootstrapDestinations c).

Lemma token_joins `{OS} c token directory generated prints d n out d' n' :
  (∀ k, os_other k = None) → normalized (cr_BootstrapDestinations c) → CredentialToken c = Ok token →
  RunCommand ["join"; token] directory generated prints (d, n) = ((out, None), (d', n')) → joined c d d'.
Proof.
  intros Ha Hn Ht Hrun. pose proof (token_roundtrip c) as Hr. rewrite Ht in Hr. destruct Hr as (ds & Hds & Hk & Hp). rewrite (Normalize_fixed _ Hn) in Hds. injection Hds as <-.
  destruct (token_prefixed c token Ht) as [rest Hrest]. assert (parse_flags [token] = Ok [token]) as Hf by (by rewrite Hrest).
  cbn [RunCommand] in Hrun. rewrite Hf Hp in Hrun. destruct c as [key ds]. cbn [cr_Key cr_BootstrapDestinations] in *.
  pose proof (membership_step Ha (mkCredential key ds) d Hn n) as Hm. unfold mbind, FM_bind in Hrun.
  destruct (SaveMembership (mkCredential key ds) (d, n)) as [[name|e] [d1 n1]]; [|done]. injection Hrun as _ <- _.
  destruct (Hm name eq_refl) as (i & data & ds' & Hi & -> & Hd & Hc & Hnew). by exists i, data, ds'.
Qed.
End transfer.

(** C33 A join token carries the membership over.  Whatever a token command prints
    without an error, it is a token of the one credential its selector names, and
    it changes nothing; a join with that token on any machine, if it succeeds,
    leaves the same key there under the ID of the cluster, with the same bootstrap
    destinations where the cluster was not known.  The same holds of the token a
    new cluster is initialised with.  System calls may fail on both machines. *)
Theorem membership_transfers (realm : Realm) (here there : OS) directory directory' prints d n out d1 n1 :
  (∀ k, os_other (OS:=here) k = None) → (∀ k, os_other (OS:=there) k = None) →
  (∀ selector, RunCommand (H0:=here) ["token"; selector] directory None prints (d, n) = ((out, None), (d1, n1)) →
     d1 = d ∧ ∃ c id data token, has_prefix id (trim_space (to_lower selector)) = true ∧ dk_nodes d !! id = Some (File data) ∧ credential_of data = Ok c ∧
       out = token_line token ∧
       ∀ e m out' e' m', RunCommand (H0:=there) ["join"; token] directory' None true (e, m) = ((out', None), (e', m')) → joined c e e') ∧
  (∀ key, RunCommand (H0:=here) ["init"] directory (Some key) prints (d, n) = ((out, None), (d1, n1)) →
     ∃ id token, out = ("Cluster ID: " +:+ id +:+ newline) +:+ token_line token +:+ "Cluster credential: " +:+ directory +:+ "/" +:+ id +:+ newline ∧
       joined (mkCredential key []) d d1 ∧
       ∀ e m out' e' m', RunCommand (H0:=there) ["join"; token] directory' None true (e, m) = ((out', None), (e', m')) → joined (mkCredential key []) e e').
Proof.
  intros Hh Ht. split.
  - intros selector. cbn [RunCommand]. destruct (parse_flags [selector]) as [[|s [|]]|] eqn:Hf; try done.
    unfold mbind, FM_bind. destruct (ResolveCredential s (d, n)) as [[[c id]|e] [d2 n2]] eqn:Hr; [|done].
    destruct (selector_unambiguous Hh s d n c id d2 n2 Hr) as (-> & Hp & (data & Hd & Hc) & _).
    destruct (CredentialToken c) as [token|] eqn:Htok; [|done]. destruct prints; [|done]. intros [= <- <- _].
    assert (s = selector) as ->.
    { clear -Hf. unfold parse_flags in Hf. repeat case_match; simplify_eq; done. }
    split; [done|]. exists c, id, data, token. split_and!; try done. intros e m out' e' m' Hj.
    exact (token_joins c token directory' None true e m out' e' m' Ht (proj1 (credential_of_ok _ _ Hc)) Htok Hj).
  - intros key. cbn [RunCommand parse_flags]. unfold mbind, FM_bind. pose proof (save_step Hh key d n) as Hs.
    destruct (SaveCredential key (d, n)) as [[name|e] [d2 n2]]; [|done]. unfold mret, FM_ret, printMembership.
    destruct (CredentialToken (mkCredential key [])) as [token|] eqn:Htok; [|done]. intros [= <- <- _].
    destruct (Hs name eq_refl) as (i & data & ds & Hi & Hname & Hd & Hc & Hnew). exists name, token. split; [done|]. split.
    + exists i, data, ds. rewrite -Hname. by split_and!.
    + intros e m out' e' m' Hj. exact (token_joins (mkCredential key []) token directory' None true e m out' e' m' Ht normalized_nil Htok Hj).
Qed.

(** Two machines, one of which runs a join with the token printed by the other. *)
#[local] Existing Instance example_realm.
#[local] Existing Instance example_os.

Definition example_token : string := tokenPrefix +:+ b64_encode example_key.
Definition empty_disk : disk := mkDisk false ∅ [].
Definition joined_disk : disk := (RunCommand ["join"; example_token] "/c" None true (empty_disk, 0%nat)).2.1.

Lemma token_line_inj a b : token_line a = token_line b → a = b.
Proof.
  unfold token_line. intros E%(inj (String.append _)). apply (f_equal text) in E. rewrite !text_app in E. apply app_inv_tail in E.
  by rewrite -(String.string_of_list_byte_of_string a) -(String.string_of_list_byte_of_string b); f_equal.
Qed.

Lemma membership_transfers_witness :
  (RunCommand ["token"; "0707"] "/c" None true (example_disk, 0%nat)).1 = (token_line example_token, None) ∧
  ∃ c id data, dk_nodes example_disk !! id = Some (File data) ∧ credential_of data = Ok c ∧ joined c empty_disk joined_disk.
Proof.
  split; [vm_compute; reflexivity|].
  destruct (membership_transfers example_realm example_os example_os "/c" "/c" true example_disk 0
    (token_line example_token) (RunCommand ["token"; "0707"] "/c" None true (example_disk, 0%nat)).2.1
    (RunCommand ["token"; "0707"] "/c" None true (example_disk, 0%nat)).2.2 (fun _ => eq_refl) (fun _ => eq_refl)) as [Htoken _].
  destruct (Htoken "0707") as (_ & c & id & data & token & _ & Hd & Hc & Hout & Hjoin); [vm_compute; reflexivity|]. apply token_line_inj in Hout as <-.
  exists c, id, data. split; [done|]. split; [done|]. apply (Hjoin empty_disk 0%nat (RunCommand ["join"; example_token] "/c" None true (empty_disk, 0%nat)).1.1 joined_disk
    (RunCommand ["join"; example_token] "/c" None true (empty_disk, 0%nat)).2.2). vm_compute. reflexivity.
Defined.
