(* ===== verification/Framing.v ===== *)
(** * Frames of the tunnel (internal/tunnel/yggdrasil/framing.go)

    One frame is one packet: a type byte, a big-endian stream id, a big-endian
    payload length and the payload.  The file also models the payloads of the
    control frames: the classified close reason, the stream-open port, the
    window increment and the JSON routing preamble. *)

From S2P Require Import Prelude GoStrings Utf8 Base64 Json.
From Stdlib Require Import Strings.Byte.

(** ** Big-endian numbers (encoding/binary) *)

Fixpoint be_bytes (width : nat) (n : Z) : bytes :=
  match width with
  | O => []
  | S w => z_byte (Z.shiftr n (8 * Z.of_nat w)) :: be_bytes w n
  end.

Definition be_value (l : bytes) : Z := foldl (fun acc b => Z.lor (Z.shiftl acc 8) (byte_z b)) 0 l.

(** ** Constants *)

Definition frameTypeData : byte := x01.
Definition frameTypeEOF : byte := x02.
Definition frameTypeClose : byte := x03.
Definition frameTypePreamble : byte := x04.
Definition frameTypeAccept : byte := x05.
Definition frameTypeStreamOpen : byte := x06.
Definition frameTypeWindowUpdate : byte := x07.

Definition frameHeaderSize : nat := 7.
Definition streamIDNone : Z := 0.
Definition closeDetailMax : nat := 512.
Definition maxPacketPayload : Z := 16 * 1024.

(** ** Frames *)

Record frame := mkFrame { fr_typ : byte; fr_streamID : Z; fr_payload : bytes }.

(** [frameError]: its text. *)
Definition frame_error_text (reason : string) : string := "yggdrasil tunnel frame: " +:+ reason.

Definition appendFrame (dst : bytes) (typ : byte) (streamID : Z) (payload : bytes) : bytes :=
  dst ++ [typ] ++ be_bytes 4 streamID ++ be_bytes 2 (u16 (zlen payload)) ++ payload.

Inductive parsed :=
| Complete (f : frame) (consumed : nat)
| Incomplete
| Malformed (reason : string).

Definition parseFrame (buf : bytes) : parsed :=
  if (length buf <? frameHeaderSize)%nat then Incomplete
  else
    let typ := nth 0 buf x00 in
    let streamID := be_value (take 4 (drop 1 buf)) in
    let len := be_value (take 2 (drop 5 buf)) in
    if (byte_z typ <? byte_z frameTypeData) || (byte_z frameTypeWindowUpdate <? byte_z typ)
    then Malformed ("unknown frame type 0x" +:+ hex_encode [typ])
    else if maxPacketPayload <? len then Malformed "oversized frame length"
    else if zlen buf <? Z.of_nat frameHeaderSize + len then Incomplete
    else Complete (mkFrame typ streamID (take (Z.to_nat len) (drop frameHeaderSize buf))) (frameHeaderSize + Z.to_nat len).

(** ** Close reasons *)

(** [tunnel.Reason] is a string; these are its named values. *)
Abbreviation Reason := string (only parsing).
Definition ReasonClosed : Reason := "closed".
Definition ReasonExecutionEnded : Reason := "execution_ended".
Definition ReasonGrantRejected : Reason := "grant_rejected".
Definition ReasonGrantExpired : Reason := "grant_expired".
Definition ReasonGrantRevoked : Reason := "grant_revoked".
Definition ReasonUnauthorized : Reason := "unauthorized".
Definition ReasonMeshUnreachable : Reason := "mesh_unreachable".
Definition ReasonSessionFailed : Reason := "session_failed".

Record SessionError := mkSessionError { se_Reason : Reason; se_Detail : string }.

#[export] Instance SessionError_eq_dec : EqDecision SessionError.
Proof. solve_decision. Defined.

Definition reasonCodes : list (Reason * byte) :=
  [(ReasonClosed, x01); (ReasonExecutionEnded, x02); (ReasonGrantRejected, x03); (ReasonGrantExpired, x04);
   (ReasonGrantRevoked, x05); (ReasonUnauthorized, x06); (ReasonSessionFailed, x07); (ReasonMeshUnreachable, x08)].

Definition reasonFromCode (code : byte) : Reason :=
  match List.find (fun rw => bool_decide (code = rw.2)) reasonCodes with
  | Some (reason, _) => reason
  | None => ReasonSessionFailed
  end.

Definition reasonCode (reason : Reason) : byte :=
  match List.find (fun rw => bool_decide (reason = rw.1)) reasonCodes with
  | Some (_, code) => code
  | None => x07
  end.

Definition closePayload (reason : Reason) (detail : string) : bytes :=
  reasonCode reason :: take closeDetailMax (text detail).

Definition parseClosePayload (payload : bytes) : SessionError :=
  match payload with
  | [] => mkSessionError ReasonSessionFailed "close frame without reason"
  | code :: detail => mkSessionError (reasonFromCode code) (go_string detail)
  end.

(** ** The routing preamble *)

Definition encodePreamble (executionID : string) : bytes :=
  print_value (JObj [(text "execution_id", JStr (text executionID))]).

(** [json.Unmarshal] into [preambleWire]: other fields are ignored, a null
    leaves the field as it is, a value that is no string is an error. *)
Definition decode_preamble_member (acc : option string) (kv : bytes * json) : option string :=
  match acc with
  | None => None
  | Some id =>
    if bool_decide (fold_name kv.1 = fold_name (text "execution_id"))
    then match kv.2 with JStr s => Some (go_string s) | JNull => Some id | _ => None end
    else Some id
  end.

Definition decodePreamble (payload : bytes) : option string :=
  id ← match parse_document payload with
       | Some (JObj ms) => foldl decode_preamble_member (Some "") ms
       | Some JNull => Some ""
       | _ => None
       end;
  if bool_decide (id = "") then None else Some id.

(** ** Ports and windows *)

Definition encodeStreamOpen (targetPort : Z) : bytes := be_bytes 2 targetPort.

Definition decodeStreamOpen (payload : bytes) : Z :=
  if (length payload <? 2)%nat then 0 else be_value (take 2 payload).

Definition streamWindowPayload (increment : Z) : bytes := be_bytes 4 (u32 increment).

Definition parseWindowPayload (payload : bytes) : Z :=
  if (length payload <? 4)%nat then 0 else be_value (take 4 payload).

(** ** Facts *)

Lemma be_bytes_length w n : length (be_bytes w n) = w.
Proof. induction w as [|w IH]; simpl; [done|by rewrite IH]. Qed.

Lemma z_byte_value n : byte_z (z_byte n) = n mod 256.
Proof.
  unfold z_byte, byte_z. assert (0 ≤ n mod 256 < 256) as Hr by (apply Z.mod_pos_bound; lia).
  destruct (Byte.of_N (Z.to_N (n mod 256))) as [b|] eqn:Hb; simpl.
  - apply Byte.to_of_N in Hb. rewrite Hb. lia.
  - apply Byte.of_N_None_iff in Hb. lia.
Qed.

Lemma be_step acc b : Z.lor (Z.shiftl acc 8) (byte_z b) = acc * 256 + byte_z b.
Proof. apply (lor_shiftl acc (byte_z b) 8); [lia|apply byte_z_range]. Qed.

Lemma be_foldl w n acc :
  foldl (fun acc b => Z.lor (Z.shiftl acc 8) (byte_z b)) acc (be_bytes w n) = acc * 2 ^ (8 * Z.of_nat w) + n mod 2 ^ (8 * Z.of_nat w).
Proof.
  revert acc. induction w as [|w IH]; intros acc; [simpl; rewrite Z.mod_1_r; lia|].
  cbn [be_bytes foldl]. rewrite IH be_step z_byte_value shiftr_div; [lia|].
  replace (8 * Z.of_nat (S w)) with (8 * Z.of_nat w + 8) by lia. rewrite Z.pow_add_r; [lia..|]. change (2 ^ 8) with 256.
  rewrite (Z.rem_mul_r n (2 ^ (8 * Z.of_nat w)) 256); [apply Z.pow_nonzero; lia|lia|]. lia.
Qed.

Lemma be_value_bytes w n : be_value (be_bytes w n) = n mod 2 ^ (8 * Z.of_nat w).
Proof. unfold be_value. by rewrite be_foldl. Qed.

Lemma be_foldl_nonneg l acc : 0 ≤ acc → 0 ≤ foldl (fun acc b => Z.lor (Z.shiftl acc 8) (byte_z b)) acc l.
Proof. revert acc. induction l as [|b l IH]; intros acc H; simpl; [done|]. apply IH. rewrite be_step. pose proof (byte_z_range b). lia. Qed.

Lemma be_bytes_foldl l acc :
  be_bytes (length l) (foldl (fun acc b => Z.lor (Z.shiftl acc 8) (byte_z b)) acc l) = l.
Proof.
  assert (∀ l acc, foldl (fun acc b => Z.lor (Z.shiftl acc 8) (byte_z b)) acc l = acc * 2 ^ (8 * Z.of_nat (length l)) + be_value l
    ∧ 0 ≤ be_value l < 2 ^ (8 * Z.of_nat (length l))) as Hv.
  { clear. unfold be_value. induction l as [|b l IH]; intros acc; [simpl; lia|]. cbn [foldl length].
    rewrite (proj1 (IH (Z.lor _ _))) be_step (proj1 (IH (Z.lor (Z.shiftl 0 8) _))) be_step. destruct (IH 0) as [_ H2].
    pose proof (byte_z_range b). replace (8 * Z.of_nat (S (length l))) with (8 * Z.of_nat (length l) + 8) by lia.
    rewrite Z.pow_add_r; [lia..|]. change (2 ^ 8) with 256. nia. }
  revert acc. induction l as [|b l IH]; intros acc; [done|]. cbn [length be_bytes foldl]. f_equal; [|apply IH].
  destruct (Hv l (Z.lor (Z.shiftl acc 8) (byte_z b))) as [-> Hr]. rewrite be_step shiftr_div; [lia|].
  apply z_byte_eq. rewrite Z.div_add_l; [apply Z.pow_nonzero; lia|]. rewrite (Z.div_small (be_value l)) //.
  pose proof (byte_z_range b). rewrite Z.add_0_r Z.add_comm Z.mod_add; [lia|]. by apply Z.mod_small.
Qed.

Lemma be_bytes_value l : be_bytes (length l) (be_value l) = l.
Proof. apply be_bytes_foldl. Qed.

(** The frames the reader accepts: a known type, a 32-bit id, a bounded payload. *)
Record wire_frame (f : frame) : Prop := {
  wf_typ : byte_z frameTypeData ≤ byte_z (fr_typ f) ≤ byte_z frameTypeWindowUpdate;
  wf_id : 0 ≤ fr_streamID f < 2 ^ 32;
  wf_payload : zlen (fr_payload f) ≤ maxPacketPayload
}.

Definition packet_of (f : frame) : bytes := appendFrame [] (fr_typ f) (fr_streamID f) (fr_payload f).

Lemma frame_header f rest : packet_of f ++ rest = fr_typ f :: be_bytes 4 (fr_streamID f) ++ be_bytes 2 (u16 (zlen (fr_payload f))) ++ fr_payload f ++ rest.
Proof. unfold packet_of, appendFrame. rewrite app_nil_l. cbn [app]. by rewrite -!app_assoc. Qed.

Lemma parse_packet f rest : wire_frame f → parseFrame (packet_of f ++ rest) = Complete f (frameHeaderSize + length (fr_payload f)).
Proof.
  intros [Ht Hi Hp]. unfold maxPacketPayload in Hp. assert (0 ≤ zlen (fr_payload f)) as Hz by (unfold zlen; lia).
  assert (u16 (zlen (fr_payload f)) = zlen (fr_payload f)) as Hu by (apply Z.mod_small; lia).
  rewrite frame_header Hu. destruct f as [typ id payload]; cbn [fr_typ fr_streamID fr_payload] in *.
  pose proof (be_bytes_length 4 id) as L4. pose proof (be_bytes_length 2 (zlen payload)) as L2.
  pose proof (be_value_bytes 4 id) as V4. pose proof (be_value_bytes 2 (zlen payload)) as V2.
  rewrite Z.mod_small in V4; [simpl; lia|]. rewrite Z.mod_small in V2; [simpl; lia|].
  set (h4 := be_bytes 4 id) in *. set (h2 := be_bytes 2 (zlen payload)) in *. clearbody h4 h2.
  destruct h4 as [|a [|b [|c [|d []]]]]; try done. destruct h2 as [|e [|g []]]; try done.
  unfold parseFrame. cbn [app length nth drop take]. cbn [Nat.ltb Nat.leb frameHeaderSize]. rewrite V4 V2.
  rewrite (proj2 (Z.ltb_ge _ _)); [lia|]. rewrite (proj2 (Z.ltb_ge (byte_z frameTypeWindowUpdate) _)); [lia|]. cbn [orb].
  rewrite (proj2 (Z.ltb_ge maxPacketPayload _)); [unfold maxPacketPayload; lia|].
  rewrite (proj2 (Z.ltb_ge _ (Z.of_nat 7 + _))); [unfold zlen; cbn [length]; rewrite length_app; lia|].
  unfold zlen. rewrite Nat2Z.id. rewrite take_app_length. reflexivity.
Qed.

Lemma parse_complete buf f n : parseFrame buf = Complete f n →
  wire_frame f ∧ n = (frameHeaderSize + length (fr_payload f))%nat ∧ buf = packet_of f ++ drop n buf.
Proof.
  unfold parseFrame. case_match eqn:Hlen; [done|]. apply Nat.ltb_ge in Hlen. unfold frameHeaderSize in Hlen.
  destruct buf as [|t [|a [|b [|c [|d [|e [|g buf]]]]]]]; simpl in Hlen; try lia. cbn [nth take drop]. rewrite !take_0.
  case_match eqn:Ht; [done|]. apply orb_false_iff in Ht as [Ht1 Ht2]. rewrite Z.ltb_ge in Ht1. rewrite Z.ltb_ge in Ht2.
  case_match eqn:Hm; [done|]. rewrite Z.ltb_ge in Hm. case_match eqn:Hl; [done|]. rewrite Z.ltb_ge in Hl.
  intros [= <- <-]. set (len := be_value [e; g]) in *. assert (0 ≤ len) as H0 by (apply be_foldl_nonneg; lia).
  assert (length (take (Z.to_nat len) buf) = Z.to_nat len) as Htake.
  { rewrite length_take. unfold zlen in Hl. cbn [length] in Hl. unfold frameHeaderSize in Hl. lia. }
  change (drop frameHeaderSize (t :: a :: b :: c :: d :: e :: g :: buf)) with buf. split_and!.
  - split; cbn [fr_typ fr_streamID fr_payload]; [lia| |unfold zlen; rewrite Htake; lia].
    pose proof (be_bytes_value [a; b; c; d]) as Hb. pose proof (be_value_bytes 4 (be_value [a; b; c; d])) as Hv.
    cbn [length] in Hb. rewrite Hb in Hv. rewrite Hv. by apply Z.mod_pos_bound.
  - cbn [fr_payload]. by rewrite Htake.
  - rewrite frame_header. cbn [fr_typ fr_streamID fr_payload]. pose proof (be_bytes_value [a; b; c; d]) as Hb. cbn [length] in Hb. rewrite Hb. rewrite ?drop_0.
    assert (u16 (zlen (take (Z.to_nat len) buf)) = len) as ->.
    { unfold zlen. rewrite Htake. unfold u16. unfold maxPacketPayload in Hm. rewrite Z2Nat.id //. apply Z.mod_small. lia. }
    pose proof (be_bytes_value [e; g]) as Hc. cbn [length] in Hc. fold len in Hc. rewrite Hc. cbn [app Nat.add frameHeaderSize drop].
    by rewrite take_drop.
Qed.

(** C32 The packets [parseFrame] accepts are exactly the ones [appendFrame]
    writes for a known type, a 32-bit stream id and a payload within the packet
    bound, and it returns that very frame, however the buffer goes on. *)
Theorem frame_wire_format buf f n :
  parseFrame buf = Complete f n ↔
  wire_frame f ∧ n = (frameHeaderSize + length (fr_payload f))%nat ∧
  ∃ rest, buf = appendFrame [] (fr_typ f) (fr_streamID f) (fr_payload f) ++ rest.
Proof.
  split.
  - intros (Hw & Hn & Hb)%parse_complete. split_and!; [done..|]. by exists (drop n buf).
  - intros (Hw & -> & rest & ->). by apply (parse_packet f rest).
Qed.

(** ** Control payloads *)

Lemma reason_roundtrip r c : (r, c) ∈ reasonCodes → reasonCode r = c ∧ reasonFromCode c = r.
Proof. unfold reasonCodes. rewrite !elem_of_cons elem_of_nil. intros H; repeat destruct H as [[= -> ->]|H]; done. Qed.

Lemma reasonFromCode_code r : reasonFromCode (reasonCode r) = if bool_decide (r ∈ reasonCodes.*1) then r else ReasonSessionFailed.
Proof.
  case_bool_decide as Hr.
  - apply list_elem_of_fmap in Hr as ([r' c] & -> & Hin). destruct (reason_roundtrip r' c Hin) as [Hc Hf]. by rewrite /= Hc.
  - unfold reasonCode. destruct (List.find _ reasonCodes) as [[r' c]|] eqn:Hf; [|done].
    apply List.find_some in Hf as [Hin He%bool_decide_eq_true]. destruct Hr. apply list_elem_of_fmap. exists (r', c).
    split; [done|]. by apply list_elem_of_In.
Qed.

(** A close reason arrives unchanged if it has a code and as a failed session
    otherwise; its detail arrives cut at the bound. *)
Lemma close_payload_roundtrip r d :
  parseClosePayload (closePayload r d) =
  mkSessionError (if bool_decide (r ∈ reasonCodes.*1) then r else ReasonSessionFailed) (go_string (take closeDetailMax (text d))).
Proof. unfold closePayload, parseClosePayload. by rewrite reasonFromCode_code. Qed.

Lemma close_payload_bounded r d : zlen (closePayload r d) ≤ maxPacketPayload ∧ closePayload r d ≠ [].
Proof. unfold closePayload, zlen, maxPacketPayload. cbn [length]. rewrite length_take. unfold closeDetailMax. split; [lia|done]. Qed.

Lemma window_payload_roundtrip n : 0 ≤ n < 2 ^ 32 → parseWindowPayload (streamWindowPayload n) = n.
Proof.
  intros Hn. unfold parseWindowPayload, streamWindowPayload. rewrite be_bytes_length. cbn [Nat.ltb Nat.leb].
  rewrite u32_small //. rewrite take_ge; [by rewrite be_bytes_length|]. rewrite be_value_bytes. by apply Z.mod_small.
Qed.

Lemma stream_open_roundtrip port : 0 ≤ port < 2 ^ 16 → decodeStreamOpen (encodeStreamOpen port) = port.
Proof.
  intros Hn. unfold decodeStreamOpen, encodeStreamOpen. rewrite be_bytes_length. cbn [Nat.ltb Nat.leb].
  rewrite take_ge; [by rewrite be_bytes_length|]. rewrite be_value_bytes. by apply Z.mod_small.
Qed.

(** The preamble carries the execution ID as JSON text does. *)
Lemma preamble_roundtrip id : id ≠ "" → decodePreamble (encodePreamble id) = Some (json_string id).
Proof.
  intros Hid. unfold decodePreamble, encodePreamble.
  rewrite -(app_nil_r (print_value _)) parse_print_document //. cbn [as_read map fst snd].
  assert (coerce (length (text "execution_id")) (text "execution_id") = text "execution_id") as -> by reflexivity.
  cbn [foldl decode_preamble_member fst snd]. rewrite bool_decide_eq_true_2 //. cbn [mbind option_bind].
  assert (go_string (coerce (length (text id)) (text id)) = json_string id) as ->
    by (unfold json_string; by rewrite -list_byte_of_string_length).
  case_bool_decide as He; [|done]. exfalso. apply Hid.
  assert (length (text id) ≤ length (coerce (length (text id)) (text id)))%nat as Hl by by apply coerce_length.
  unfold json_string in He. apply (f_equal String.list_byte_of_string) in He.
  rewrite String.list_byte_of_string_of_list_byte in He. unfold text in Hl. rewrite list_byte_of_string_length He in Hl. destruct id; [done|]. cbn in Hl. lia.
Qed.
