(* ===== verification/Stream.v ===== *)
(** * One logical stream of a tunnel pair (internal/tunnel/yggdrasil/stream.go)

    The state of a [streamConn] and the parts of its methods that run under its
    lock.  A method that releases the lock in between is the sequence of its
    parts; StreamLink.v runs them from several goroutines on both ends. *)

From S2P Require Import Prelude GoStrings Base64 Json Framing.
From Stdlib Require Import Strings.Byte.

(** The errors the methods return. *)
Inductive conn_error :=
| ErrWriteClosed                 (* "tunnel write side is closed" *)
| ErrReadAborted                 (* tunnel.ErrReadAborted *)
| ErrEOF                         (* io.EOF *)
| ErrSession (e : SessionError)
| ErrEdgeClosed                  (* the pair is closed *)
| ErrPacket                      (* an error of the packet interface *)
| ErrNotReady.                   (* the pair cannot open streams yet *)

#[export] Instance conn_error_eq_dec : EqDecision conn_error.
Proof. solve_decision. Defined.

Definition streamWindowSize : Z := 64 * 1024.
Definition windowUpdateThreshold : Z := 16 * 1024.

Record streamConn := mkStream {
  st_inbox : bytes;
  st_eof : bool;
  st_peerErr : option conn_error;
  st_closed : bool;
  st_readDone : bool;
  st_writeEOF : bool;
  st_recvAvail : Z;
  st_grantPending : Z;
  st_peerWindow : Z
}.

Definition newStream : streamConn := mkStream [] false None false false false streamWindowSize 0 streamWindowSize.

(** ** sendOpen and sendData *)

Definition write_refused (s : streamConn) : bool := st_closed s || st_writeEOF s.

Inductive take_result :=
| Blocked
| Refused (e : conn_error)
| Taken (s : streamConn).

(** The locked part of [sendData]: the wait, its exits and the window. *)
Definition take_window (s : streamConn) (payload : bytes) : take_result :=
  if write_refused s then Refused ErrWriteClosed
  else match st_peerErr s with
  | Some err => Refused err
  | None =>
    if st_peerWindow s <? zlen payload then Blocked
    else Taken (mkStream (st_inbox s) (st_eof s) (st_peerErr s) (st_closed s) (st_readDone s) (st_writeEOF s)
                  (st_recvAvail s) (st_grantPending s) (st_peerWindow s - zlen payload))
  end.

(** ** Read *)

Inductive read_result :=
| ReadBlocked
| ReadError (e : conn_error)
| ReadTorn (e : conn_error)        (* the error after which [Read] ends the stream *)
| ReadBytes (data : bytes) (update : option Z) (s : streamConn).

Definition read_locked (s : streamConn) (n : nat) : read_result :=
  if st_readDone s then ReadError ErrReadAborted
  else match st_inbox s with
  | _ :: _ =>
    let data := take n (st_inbox s) in
    let consumed := zlen data in
    let pending := st_grantPending s + consumed in
    let sendUpdate := windowUpdateThreshold <=? pending in
    ReadBytes data (if sendUpdate then Some pending else None)
      (mkStream (drop n (st_inbox s)) (st_eof s) (st_peerErr s) (st_closed s) (st_readDone s) (st_writeEOF s)
         (st_recvAvail s + consumed) (if sendUpdate then 0 else pending) (st_peerWindow s))
  | [] =>
    match st_peerErr s with
    | Some err => ReadTorn err
    | None =>
      if st_eof s then ReadError ErrEOF
      else if st_closed s then ReadError ErrReadAborted
      else ReadBlocked
    end
  end.

(** ** Closing *)

Definition close_read (s : streamConn) : streamConn :=
  mkStream [] (st_eof s) (st_peerErr s) (st_closed s) true (st_writeEOF s)
    (st_recvAvail s) (st_grantPending s) (st_peerWindow s).

(** The locked part of [CloseWrite]; [None] when there is nothing to send. *)
Definition close_write (s : streamConn) : option streamConn :=
  if write_refused s then None
  else Some (mkStream (st_inbox s) (st_eof s) (st_peerErr s) (st_closed s) (st_readDone s) true
               (st_recvAvail s) (st_grantPending s) (st_peerWindow s)).

(** The locked part of [end]. *)
Definition mark_closed (s : streamConn) : streamConn :=
  mkStream (st_inbox s) (st_eof s) (st_peerErr s) true (st_readDone s) (st_writeEOF s)
    (st_recvAvail s) (st_grantPending s) (st_peerWindow s).

Definition set_peerErr (e : option conn_error) (s : streamConn) : streamConn :=
  mkStream (st_inbox s) (st_eof s) e (st_closed s) (st_readDone s) (st_writeEOF s)
    (st_recvAvail s) (st_grantPending s) (st_peerWindow s).

Definition violation : SessionError := mkSessionError ReasonSessionFailed "per-stream flow-control violation".

(** ** ingest *)

(** The locked part of [ingest]; [None] is a flow-control violation, after which
    the stream is ended. *)
Definition ingest_locked (s : streamConn) (f : frame) : option streamConn :=
  if bool_decide (fr_typ f = frameTypeData) then
    if st_recvAvail s <? zlen (fr_payload f) then None
    else Some (mkStream (st_inbox s ++ fr_payload f) (st_eof s) (st_peerErr s) (st_closed s) (st_readDone s) (st_writeEOF s)
                 (st_recvAvail s - zlen (fr_payload f)) (st_grantPending s) (st_peerWindow s))
  else if bool_decide (fr_typ f = frameTypeEOF) then
    Some (mkStream (st_inbox s) true (st_peerErr s) (st_closed s) (st_readDone s) (st_writeEOF s)
            (st_recvAvail s) (st_grantPending s) (st_peerWindow s))
  else if bool_decide (fr_typ f = frameTypeClose) then
    Some (match st_peerErr s, fr_payload f with
          | None, _ :: _ => set_peerErr (Some (ErrSession (parseClosePayload (fr_payload f)))) s
          | _, _ => s
          end)
  else if bool_decide (fr_typ f = frameTypeWindowUpdate) then
    Some (if (4 <=? length (fr_payload f))%nat
          then mkStream (st_inbox s) (st_eof s) (st_peerErr s) (st_closed s) (st_readDone s) (st_writeEOF s)
                 (st_recvAvail s) (st_grantPending s) (st_peerWindow s + parseWindowPayload (fr_payload f))
          else s)
  else Some s.
