(* ===== verification/StreamLink.v ===== *)
(** * The two ends of a stream

    Both ends of one stream with the goroutines that use it, joined by the two
    packet directions of the mesh, which delivers the packets of a pair in order
    and reliably (framing.go).  A step is one locked part of a method or one
    call of [writeFrame], so every interleaving of the reader, the writer, the
    closers and the read loop of both ends is a run.  The packet interface may
    refuse any packet, and either pair may be torn down at any time. *)

From S2P Require Import Prelude GoStrings Base64 Json Framing Stream.
From Stdlib Require Import Strings.Byte.

(** ** One end *)

(** The goroutine in [Write p]: at the head of its loop with [total] bytes sent,
    or holding the segment up to [stop], whose window it has taken. *)
Inductive writer :=
| WIdle
| WLoop (p : bytes) (total : nat)
| WHold (p : bytes) (total stop : nat).

(** The progress of [end]. *)
Inductive ender :=
| Running
| Notifying (e : SessionError)
| Marking
| Removing
| Finished.

Inductive status := Unopened | Registered | Removed.

#[export] Instance status_eq_dec : EqDecision status.
Proof. solve_decision. Defined.

Record side := mkSide {
  sd_conn : streamConn;
  sd_writer : writer;
  sd_granting : option Z;            (* the update [Read] is about to send *)
  sd_eof_due : bool;                 (* the EOF frame [CloseWrite] is about to send *)
  sd_ender : ender;
  sd_status : status;                (* whether the pair routes frames to the stream *)
  sd_pair_closed : bool;
  sd_terminating : option conn_error; (* the pair is being torn down, this stream not yet *)
  (* what has happened so far *)
  sd_sent : bytes;                   (* the bytes of the data frames handed to the mesh *)
  sd_reported : bytes;               (* the bytes [Write] reported as written *)
  sd_got : bytes;                    (* the bytes [Read] returned *)
  sd_discarded : Z;                  (* the bytes [CloseRead] threw away *)
  sd_lost_out : Z;                   (* window of this end's data that is gone *)
  sd_lost_in : Z;                    (* window for this end's input that is gone *)
  sd_clean_eof : bool                (* [CloseWrite] was called between two calls of [Write] *)
}.

Definition opened_side (st : status) : side :=
  mkSide newStream WIdle None false Running st false None [] [] [] 0 0 0 false.

(** *** Field updates *)

Definition with_conn (c : streamConn) (s : side) : side :=
  mkSide c (sd_writer s) (sd_granting s) (sd_eof_due s) (sd_ender s) (sd_status s) (sd_pair_closed s) (sd_terminating s)
    (sd_sent s) (sd_reported s) (sd_got s) (sd_discarded s) (sd_lost_out s) (sd_lost_in s) (sd_clean_eof s).
Definition with_writer (w : writer) (sent reported : bytes) (lost : Z) (s : side) : side :=
  mkSide (sd_conn s) w (sd_granting s) (sd_eof_due s) (sd_ender s) (sd_status s) (sd_pair_closed s) (sd_terminating s)
    sent reported (sd_got s) (sd_discarded s) lost (sd_lost_in s) (sd_clean_eof s).
Definition with_granting (g : option Z) (got : bytes) (lost : Z) (s : side) : side :=
  mkSide (sd_conn s) (sd_writer s) g (sd_eof_due s) (sd_ender s) (sd_status s) (sd_pair_closed s) (sd_terminating s)
    (sd_sent s) (sd_reported s) got (sd_discarded s) (sd_lost_out s) lost (sd_clean_eof s).
Definition with_discarded (n : Z) (s : side) : side :=
  mkSide (sd_conn s) (sd_writer s) (sd_granting s) (sd_eof_due s) (sd_ender s) (sd_status s) (sd_pair_closed s) (sd_terminating s)
    (sd_sent s) (sd_reported s) (sd_got s) n (sd_lost_out s) (sd_lost_in s) (sd_clean_eof s).
Definition with_eof_due (due clean : bool) (s : side) : side :=
  mkSide (sd_conn s) (sd_writer s) (sd_granting s) due (sd_ender s) (sd_status s) (sd_pair_closed s) (sd_terminating s)
    (sd_sent s) (sd_reported s) (sd_got s) (sd_discarded s) (sd_lost_out s) (sd_lost_in s) clean.
Definition with_ender (e : ender) (s : side) : side :=
  mkSide (sd_conn s) (sd_writer s) (sd_granting s) (sd_eof_due s) e (sd_status s) (sd_pair_closed s) (sd_terminating s)
    (sd_sent s) (sd_reported s) (sd_got s) (sd_discarded s) (sd_lost_out s) (sd_lost_in s) (sd_clean_eof s).
Definition with_pair (st : status) (closed : bool) (t : option conn_error) (s : side) : side :=
  mkSide (sd_conn s) (sd_writer s) (sd_granting s) (sd_eof_due s) (sd_ender s) st closed t
    (sd_sent s) (sd_reported s) (sd_got s) (sd_discarded s) (sd_lost_out s) (sd_lost_in s) (sd_clean_eof s).
Definition with_lost (out inn : Z) (s : side) : side :=
  mkSide (sd_conn s) (sd_writer s) (sd_granting s) (sd_eof_due s) (sd_ender s) (sd_status s) (sd_pair_closed s) (sd_terminating s)
    (sd_sent s) (sd_reported s) (sd_got s) (sd_discarded s) out inn (sd_clean_eof s).

Section link.
Context (maxSeg : nat) (id : Z).

Definition slice (p : bytes) (i j : nat) : bytes := take (j - i) (drop i p).

(** [Write] at the head of its loop: it returns when everything is sent. *)
Definition writing (p : bytes) (total : nat) (sent : bytes) (s : side) : side :=
  if (length p <=? total)%nat then with_writer WIdle sent (sd_reported s ++ p) (sd_lost_out s) s
  else with_writer (WLoop p total) sent (sd_reported s) (sd_lost_out s) s.

(** [closeOnce.Do] of [end]: only the first call does anything. *)
Definition begin_end (e : option SessionError) (s : side) : side :=
  match sd_ender s with
  | Running => with_ender (match e with Some e' => Notifying e' | None => Marking end) s
  | _ => s
  end.

Definition packet (typ : byte) (payload : bytes) : bytes := appendFrame [] typ id payload.

Inductive event :=
| Write (p : bytes)
| TakeWindow
| SendData (ok : bool)
| Read (n : nat)
| SendGrant (ok : bool)
| CloseRead
| CloseWrite
| SendEOF (ok : bool)
| CloseWithReason (e : SessionError)
| EndStep (ok : bool)
| Terminate (e : conn_error)
| TerminateStream.

(** [writeFrame]: whether the packet goes out. *)
Definition goes_out (ok : bool) (s : side) : bool := ok && negb (sd_pair_closed s).

Definition act_write (e : event) (s : side) : option (side * list bytes) :=
  match e, sd_writer s with
  | Write p, WIdle => Some (writing p 0 (sd_sent s) s, [])
  | TakeWindow, WLoop p total =>
    let stop := Nat.min (total + maxSeg) (length p) in
    match take_window (sd_conn s) (slice p total stop) with
    | Blocked => None
    | Refused _ => Some (with_writer WIdle (sd_sent s) (sd_reported s ++ take total p) (sd_lost_out s) s, [])
    | Taken c => Some (with_writer (WHold p total stop) (sd_sent s) (sd_reported s) (sd_lost_out s) (with_conn c s), [])
    end
  | SendData ok, WHold p total stop =>
    let payload := slice p total stop in
    if goes_out ok s then Some (writing p stop (sd_sent s ++ payload) s, [packet frameTypeData payload])
    else Some (with_writer WIdle (sd_sent s) (sd_reported s ++ take total p) (sd_lost_out s + zlen payload) s, [])
  | _, _ => None
  end.

Definition act_read (e : event) (s : side) : option (side * list bytes) :=
  match e, sd_granting s with
  | Read n, None =>
    match read_locked (sd_conn s) n with
    | ReadBlocked => None
    | ReadError _ => Some (s, [])
    | ReadTorn _ => Some (begin_end None s, [])
    | ReadBytes data update c => Some (with_granting update (sd_got s ++ data) (sd_lost_in s) (with_conn c s), [])
    end
  | SendGrant ok, Some n =>
    if goes_out ok s
    then Some (with_granting None (sd_got s) (sd_lost_in s) s, [packet frameTypeWindowUpdate (streamWindowPayload n)])
    else Some (with_granting None (sd_got s) (sd_lost_in s + n) s, [])
  | _, _ => None
  end.

Definition act_close (e : event) (s : side) : option (side * list bytes) :=
  match e with
  | CloseRead =>
    Some (with_discarded (sd_discarded s + zlen (st_inbox (sd_conn s))) (with_conn (close_read (sd_conn s)) s), [])
  | CloseWrite =>
    match close_write (sd_conn s) with
    | None => Some (s, [])
    | Some c => Some (with_eof_due true (match sd_writer s with WIdle => true | _ => false end) (with_conn c s), [])
    end
  | SendEOF ok =>
    if sd_eof_due s
    then Some (with_eof_due false (sd_clean_eof s) s, if goes_out ok s then [packet frameTypeEOF []] else [])
    else None
  | CloseWithReason e => Some (begin_end (Some e) s, [])
  | EndStep ok =>
    match sd_ender s with
    | Running | Finished => None
    | Notifying e =>
      Some (with_ender Marking s,
            if goes_out ok s then [packet frameTypeClose (closePayload (se_Reason e) (se_Detail e))] else [])
    | Marking => Some (with_ender Removing (with_conn (mark_closed (sd_conn s)) s), [])
    | Removing => Some (with_ender Finished (with_pair Removed (sd_pair_closed s) (sd_terminating s) s), [])
    end
  | _ => None
  end.

(** [terminate] of the pair: it collects the registered streams, then ends each. *)
Definition act_pair (e : event) (s : side) : option (side * list bytes) :=
  match e with
  | Terminate err =>
    if sd_pair_closed s then None
    else Some (match sd_status s with
               | Registered => with_pair Removed true (Some err) s
               | st => with_pair st true None s
               end, [])
  | TerminateStream =>
    match sd_terminating s with
    | Some err =>
      Some (begin_end None (with_pair (sd_status s) (sd_pair_closed s) None (with_conn (set_peerErr (Some err) (sd_conn s)) s)), [])
    | None => None
    end
  | _ => None
  end.

Definition act (e : event) (s : side) : option (side * list bytes) :=
  match e with
  | Terminate _ | TerminateStream => act_pair e s
  | _ =>
    if bool_decide (sd_status s = Unopened) then None
    else match e with
    | Write _ | TakeWindow | SendData _ => act_write e s
    | Read _ | SendGrant _ => act_read e s
    | _ => act_close e s
    end
  end.

(** What a packet carries for the window accounts. *)
Definition data_of (pkt : bytes) : bytes :=
  match parseFrame pkt with
  | Complete f _ => if bool_decide (fr_typ f = frameTypeData) then fr_payload f else []
  | _ => []
  end.
Definition grant_of (pkt : bytes) : Z :=
  match parseFrame pkt with
  | Complete f _ => if bool_decide (fr_typ f = frameTypeWindowUpdate) then parseWindowPayload (fr_payload f) else 0
  | _ => 0
  end.

(** The read loop hands one packet to the pair: [pairConn.ingest] for this
    stream. *)
Definition deliver (pkt : bytes) (s : side) : side :=
  let ignored := with_lost (sd_lost_out s + grant_of pkt) (sd_lost_in s + zlen (data_of pkt)) s in
  match parseFrame pkt with
  | Complete f _ =>
    if bool_decide (fr_typ f = frameTypeStreamOpen) then
      if bool_decide (sd_status s = Unopened)
      then with_pair (if sd_pair_closed s then Removed else Registered) (sd_pair_closed s) (sd_terminating s) s
      else s
    else if bool_decide (sd_status s = Registered) then
      match ingest_locked (sd_conn s) f with
      | Some c => with_conn c s
      | None => begin_end (Some violation) s
      end
    else ignored
  | _ => ignored
  end.

(** ** Both ends *)

Record world := mkWorld { wd_left : side; wd_right : side; wd_lr : list bytes; wd_rl : list bytes }.

(** The opener has sent the stream-open frame for an authorized port. *)
Definition start (port : Z) : world :=
  mkWorld (opened_side Registered) (opened_side Unopened) [packet frameTypeStreamOpen (encodeStreamOpen port)] [].

Inductive label := AtLeft (e : event) | AtRight (e : event) | ToLeft | ToRight.

Definition step (l : label) (w : world) : option world :=
  match l with
  | AtLeft e => '(s, out) ← act e (wd_left w); Some (mkWorld s (wd_right w) (wd_lr w ++ out) (wd_rl w))
  | AtRight e => '(s, out) ← act e (wd_right w); Some (mkWorld (wd_left w) s (wd_lr w) (wd_rl w ++ out))
  | ToLeft =>
    match wd_rl w with
    | [] => None
    | pkt :: rest => Some (mkWorld (deliver pkt (wd_left w)) (wd_right w) (wd_lr w) rest)
    end
  | ToRight =>
    match wd_lr w with
    | [] => None
    | pkt :: rest => Some (mkWorld (wd_left w) (deliver pkt (wd_right w)) rest (wd_rl w))
    end
  end.

Definition runs (w w' : world) : Prop := rtc (fun a b => ∃ l, step l a = Some b) w w'.

End link.
