(* ===== verification/StreamInv.v ===== *)
(** * What the two ends of a stream keep

    The accounts of the flow-control window and of the bytes in each direction,
    kept by every step of StreamLink.v. *)

From S2P Require Import Prelude GoStrings Base64 Json Framing Stream StreamLink.
From Stdlib Require Import Strings.Byte.

Section inv.
Context (id : Z).
Hypothesis id_bound : 0 < id < 2 ^ 32.

Local Abbreviation pkt_ typ payload := (packet id typ payload).

(** ** Packets *)

Lemma parse_own typ payload : byte_z frameTypeData ≤ byte_z typ ≤ byte_z frameTypeWindowUpdate → zlen payload ≤ maxPacketPayload →
  parseFrame (pkt_ typ payload) = Complete (mkFrame typ id payload) (frameHeaderSize + length payload).
Proof.
  intros Ht Hp. pose proof (parse_packet (mkFrame typ id payload) []) as H. rewrite app_nil_r in H. apply H.
  split; simpl; [done|lia|done].
Qed.

Definition eof_packet (pkt : bytes) : bool :=
  match parseFrame pkt with Complete f _ => bool_decide (fr_typ f = frameTypeEOF) | _ => false end.

(** The packets of this stream, which both ends write. *)
Definition stream_packet (pkt : bytes) : Prop :=
  ∃ typ payload, pkt = pkt_ typ payload ∧ byte_z frameTypeData ≤ byte_z typ ≤ byte_z frameTypeWindowUpdate ∧ zlen payload ≤ maxPacketPayload.

Lemma data_packet payload : zlen payload ≤ maxPacketPayload →
  data_of (pkt_ frameTypeData payload) = payload ∧ grant_of (pkt_ frameTypeData payload) = 0 ∧ eof_packet (pkt_ frameTypeData payload) = false.
Proof. intros H. unfold data_of, grant_of, eof_packet. rewrite parse_own //. Qed.

Lemma control_packet typ payload : byte_z frameTypeData < byte_z typ ≤ byte_z frameTypeWindowUpdate → zlen payload ≤ maxPacketPayload →
  data_of (pkt_ typ payload) = [].
Proof.
  intros H Hp. unfold data_of. rewrite parse_own; [lia|done|]. cbn [fr_typ]. rewrite bool_decide_eq_false_2 //. intros ->. lia.
Qed.

Lemma window_packet n : 0 ≤ n < 2 ^ 32 → grant_of (pkt_ frameTypeWindowUpdate (streamWindowPayload n)) = n
  ∧ data_of (pkt_ frameTypeWindowUpdate (streamWindowPayload n)) = [] ∧ eof_packet (pkt_ frameTypeWindowUpdate (streamWindowPayload n)) = false
  ∧ stream_packet (pkt_ frameTypeWindowUpdate (streamWindowPayload n)).
Proof.
  intros H. assert (zlen (streamWindowPayload n) ≤ maxPacketPayload) as Hl.
  { unfold zlen, streamWindowPayload. rewrite be_bytes_length. done. }
  unfold grant_of, data_of, eof_packet. rewrite parse_own //. cbn [fr_typ fr_payload].
  split_and!; [|done..|by eexists _, _].
  rewrite bool_decide_eq_true_2 //. by apply window_payload_roundtrip.
Qed.

Lemma grant_of_nonneg pkt : 0 ≤ grant_of pkt.
Proof.
  unfold grant_of, parseWindowPayload. repeat case_match; try lia. apply be_foldl_nonneg. lia.
Qed.

(** ** The accounts of a channel *)

Definition data_bytes (ch : list bytes) : bytes := concat (map data_of ch).
Definition grants (ch : list bytes) : Z := foldr (fun p acc => grant_of p + acc) 0 ch.

(** What follows the first EOF frame. *)
Fixpoint after_eof (ch : list bytes) : list bytes :=
  match ch with
  | [] => []
  | p :: ch' => if eof_packet p then ch' else after_eof ch'
  end.
Definition has_eof (ch : list bytes) : bool := existsb eof_packet ch.

Lemma data_bytes_app ch ch' : data_bytes (ch ++ ch') = data_bytes ch ++ data_bytes ch'.
Proof. unfold data_bytes. by rewrite map_app concat_app. Qed.
Lemma data_bytes_one p : data_bytes [p] = data_of p.
Proof. apply app_nil_r. Qed.
Lemma grants_app ch ch' : grants (ch ++ ch') = grants ch + grants ch'.
Proof. unfold grants. induction ch as [|p ch IH]; simpl; [done|]. lia. Qed.
Lemma grants_one p : grants [p] = grant_of p.
Proof. apply Z.add_0_r. Qed.
Lemma grants_nonneg ch : 0 ≤ grants ch.
Proof. unfold grants. induction ch as [|p ch IH]; simpl; [done|]. pose proof (grant_of_nonneg p). lia. Qed.
Lemma has_eof_app ch ch' : has_eof (ch ++ ch') = has_eof ch || has_eof ch'.
Proof. apply existsb_app. Qed.
Lemma after_eof_app ch ch' : after_eof (ch ++ ch') = if has_eof ch then after_eof ch ++ ch' else after_eof ch'.
Proof. unfold has_eof. induction ch as [|p ch IH]; simpl; [done|]. by destruct (eof_packet p). Qed.
Lemma zlen_app {A} (l k : list A) : zlen (l ++ k) = zlen l + zlen k.
Proof. unfold zlen. rewrite length_app. lia. Qed.
Lemma zlen_nonneg {A} (l : list A) : 0 ≤ zlen l.
Proof. unfold zlen. lia. Qed.

(** ** The accounts of a direction *)

Context (maxSeg : nat).
Hypothesis maxSeg_bound : (0 < maxSeg)%nat ∧ Z.of_nat maxSeg ≤ maxPacketPayload.

(** The window a writer has taken for the segment it holds, and the part of its
    [Write] that is already sent. *)
Definition held (w : writer) : Z := match w with WHold p i j => zlen (slice p i j) | _ => 0 end.
Definition progress (w : writer) : bytes := match w with WIdle => [] | WLoop p i | WHold p i _ => take i p end.
Definition writer_ok (w : writer) : Prop :=
  match w with
  | WIdle => True
  | WLoop p i => (i < length p)%nat
  | WHold p i j => (i < j ≤ length p)%nat ∧ (j - i ≤ maxSeg)%nat
  end.
(** No [Write] has got anywhere since the write side was closed. *)
Definition writer_quiet (w : writer) : Prop := match w with WIdle | WLoop _ O => True | _ => False end.

Definition listening (b : side) : Prop := sd_status b ≠ Removed.
Definition reading (b : side) : Prop := st_readDone (sd_conn b) = false.

Record direction (a b : side) (ch rch : list bytes) : Prop := {
  dr_flow : st_recvAvail (sd_conn b) = st_peerWindow (sd_conn a) + held (sd_writer a) + zlen (data_bytes ch) + grants rch
            + default 0 (sd_granting b) + st_grantPending (sd_conn b) + sd_lost_out a + sd_lost_in b;
  dr_signs : 0 ≤ st_peerWindow (sd_conn a) ∧ 0 ≤ default 0 (sd_granting b) ∧ 0 ≤ sd_lost_out a ∧ 0 ≤ sd_lost_in b ∧ 0 ≤ sd_discarded b
             ∧ 0 ≤ st_grantPending (sd_conn b) < windowUpdateThreshold;
  dr_window : st_recvAvail (sd_conn b) + zlen (st_inbox (sd_conn b)) + sd_discarded b = streamWindowSize;
  dr_discarded : reading b → sd_discarded b = 0;
  dr_writer : writer_ok (sd_writer a);
  dr_sent : sd_sent a = sd_reported a ++ progress (sd_writer a);
  dr_whole : listening b → reading b → sd_got b ++ st_inbox (sd_conn b) ++ data_bytes ch = sd_sent a;
  dr_prefix : (if st_readDone (sd_conn b) then sd_got b else sd_got b ++ st_inbox (sd_conn b)) `prefix_of` sd_sent a;
  dr_eof_source : st_eof (sd_conn b) || has_eof ch || sd_eof_due a = true → st_writeEOF (sd_conn a) = true;
  dr_eof_quiet : sd_clean_eof a = true → st_writeEOF (sd_conn a) = true ∧ writer_quiet (sd_writer a);
  dr_eof_last : sd_clean_eof a = true → data_bytes (after_eof ch) = [];
  dr_eof_seen : st_eof (sd_conn b) = true → sd_clean_eof a = true →
                data_bytes ch = [] ∧ (reading b → sd_got b ++ st_inbox (sd_conn b) = sd_sent a)
}.

(** A direction only depends on the sending half of one end, the receiving half
    of the other, and the data and EOF frames in between. *)
Definition tx (a : side) :=
  (st_peerWindow (sd_conn a), sd_writer a, sd_sent a, sd_reported a, sd_lost_out a, st_writeEOF (sd_conn a), sd_eof_due a, sd_clean_eof a).
Definition rx (b : side) :=
  (st_inbox (sd_conn b), st_eof (sd_conn b), st_readDone (sd_conn b), st_recvAvail (sd_conn b), st_grantPending (sd_conn b),
   sd_granting b, sd_got b, sd_discarded b, sd_lost_in b, bool_decide (sd_status b = Removed)).
Definition chan_view (ch : list bytes) := (data_bytes ch, has_eof ch, data_bytes (after_eof ch)).

Lemma listening_view b b' : bool_decide (sd_status b = Removed) = bool_decide (sd_status b' = Removed) → listening b → listening b'.
Proof. unfold listening. intros H Hl Hr. rewrite (bool_decide_eq_true_2 _ Hr) in H. by apply bool_decide_eq_true in H. Qed.

Lemma direction_ext a a' b b' ch ch' rch rch' :
  direction a b ch rch → tx a' = tx a → rx b' = rx b → chan_view ch' = chan_view ch → grants rch' = grants rch → direction a' b' ch' rch'.
Proof.
  unfold tx, rx, chan_view. intros [] [= Ha1 Ha2 Ha3 Ha4 Ha5 Ha6 Ha7 Ha8] [= Hb1 Hb2 Hb3 Hb4 Hb5 Hb6 Hb7 Hb8 Hb9 Hb10] [= Hc1 Hc2 Hc3] Hg.
  split; unfold reading in *; rewrite ?Ha1 ?Ha2 ?Ha3 ?Ha4 ?Ha5 ?Ha6 ?Ha7 ?Ha8 ?Hb1 ?Hb2 ?Hb3 ?Hb4 ?Hb5 ?Hb6 ?Hb7 ?Hb8 ?Hb9 ?Hc1 ?Hc2 ?Hc3 ?Hg //.
  intros Hl. apply dr_whole0. exact (listening_view _ _ Hb10 Hl).
Qed.

(** A stream that is no longer registered only gives up the whole account. *)
Lemma direction_removed a b b' ch rch :
  direction a b ch rch → sd_status b' = Removed → (rx b').1 = (rx b).1 → direction a b' ch rch.
Proof.
  unfold rx. intros [] Hr [= Hb1 Hb2 Hb3 Hb4 Hb5 Hb6 Hb7 Hb8 Hb9].
  split; unfold reading in *; rewrite ?Hb1 ?Hb2 ?Hb3 ?Hb4 ?Hb5 ?Hb6 ?Hb7 ?Hb8 ?Hb9 //.
Qed.
(** ** Slices *)

Lemma slice_length p i j : (i ≤ j ≤ length p)%nat → length (slice p i j) = (j - i)%nat.
Proof. intros H. unfold slice. rewrite length_take length_drop. lia. Qed.

Lemma take_slice p i j : (i ≤ j)%nat → take j p = take i p ++ slice p i j.
Proof. intros H. unfold slice. rewrite take_take_drop. f_equal. lia. Qed.

Lemma segment_bound p i j : writer_ok (WHold p i j) → zlen (slice p i j) ≤ maxPacketPayload.
Proof. simpl. intros [? ?]. unfold zlen. rewrite slice_length; lia. Qed.

(** ** Packets that carry no data *)

Definition silent (out : list bytes) : Prop := Forall (fun p => data_of p = [] ∧ eof_packet p = false) out.

Lemma silent_data out : silent out → data_bytes out = [] ∧ has_eof out = false ∧ after_eof out = [].
Proof.
  unfold has_eof. induction 1 as [|p out [Hd He] _ (IH1 & IH2 & IH3)]; [done|]. unfold data_bytes in *. cbn [map concat existsb after_eof].
  by rewrite Hd He IH1 IH2.
Qed.

Lemma no_eof_after ch : has_eof ch = false → after_eof ch = [].
Proof. unfold has_eof. induction ch as [|p ch IH]; simpl; [done|]. by destruct (eof_packet p); [|apply IH]. Qed.

Lemma silent_view ch out : silent out → chan_view (ch ++ out) = chan_view ch.
Proof.
  intros (Hd & He & Ha)%silent_data. unfold chan_view. rewrite data_bytes_app has_eof_app after_eof_app Hd He Ha app_nil_r orb_false_r.
  destruct (has_eof ch) eqn:Hc; [by rewrite data_bytes_app Hd app_nil_r|]. by rewrite no_eof_after.
Qed.

Lemma eof_view ch p : data_of p = [] → eof_packet p = true →
  data_bytes (ch ++ [p]) = data_bytes ch ∧ data_bytes (after_eof (ch ++ [p])) = data_bytes (after_eof ch).
Proof.
  intros Hd He. rewrite data_bytes_app after_eof_app data_bytes_one Hd app_nil_r. split; [done|].
  destruct (has_eof ch) eqn:Hc; [by rewrite data_bytes_app data_bytes_one Hd app_nil_r|].
  cbn [after_eof]. by rewrite He no_eof_after.
Qed.
(** ** Steps of the sending end *)

Ltac fields := cbn [with_conn with_writer with_granting with_discarded with_eof_due with_ender with_pair with_lost
  sd_conn sd_writer sd_granting sd_eof_due sd_ender sd_status sd_pair_closed sd_terminating sd_sent sd_reported sd_got
  sd_discarded sd_lost_out sd_lost_in sd_clean_eof st_inbox st_eof st_peerErr st_closed st_readDone st_writeEOF
  st_recvAvail st_grantPending st_peerWindow held progress writer_ok writer_quiet default from_option Datatypes.id] in *.

Lemma send_write a b ch rch p : direction a b ch rch → sd_writer a = WIdle → direction (writing p 0 (sd_sent a) a) b ch rch.
Proof.
  intros Hd Hw. unfold writing. case_match eqn:Hp.
  - apply Nat.leb_le in Hp. assert (p = []) as -> by (destruct p; simpl in Hp; [done|lia]).
    eapply direction_ext; [exact Hd| |done..]. unfold tx. fields. by rewrite Hw app_nil_r.
  - apply Nat.leb_gt in Hp. destruct Hd. rewrite Hw in dr_flow0 dr_sent0 dr_eof_quiet0. split; fields; try done.
Qed.

Lemma send_refused a b ch rch p i : direction a b ch rch → sd_writer a = WLoop p i →
  direction (with_writer WIdle (sd_sent a) (sd_reported a ++ take i p) (sd_lost_out a) a) b ch rch.
Proof.
  intros [] Hw. rewrite Hw in dr_flow0 dr_sent0 dr_eof_quiet0. split; fields; try done.
  - by rewrite app_nil_r.
  - intros Hc. by split; [apply dr_eof_quiet0|].
Qed.

Lemma send_taken a b ch rch p i c : direction a b ch rch → sd_writer a = WLoop p i →
  take_window (sd_conn a) (slice p i (Nat.min (i + maxSeg) (length p))) = Taken c →
  direction (with_writer (WHold p i (Nat.min (i + maxSeg) (length p))) (sd_sent a) (sd_reported a) (sd_lost_out a) (with_conn c a)) b ch rch.
Proof.
  intros [] Hw. rewrite Hw in dr_flow0 dr_sent0 dr_eof_quiet0 dr_writer0. unfold take_window, write_refused.
  destruct (st_closed _ || st_writeEOF _) eqn:Hr; [done|]. apply orb_false_iff in Hr as [_ Hr]. destruct (st_peerErr (sd_conn a)); [done|].
  destruct (Z.ltb_spec (st_peerWindow (sd_conn a)) (zlen (slice p i (Nat.min (i + maxSeg) (length p))))) as [|Hp]; [done|].
  intros [= <-]. split; fields; try done.
  - lia.
  - lia.
  - lia.
  - intros Hc. by rewrite (proj1 (dr_eof_quiet0 Hc)) in Hr.
Qed.

Lemma send_failed a b ch rch p i j : direction a b ch rch → sd_writer a = WHold p i j →
  direction (with_writer WIdle (sd_sent a) (sd_reported a ++ take i p) (sd_lost_out a + zlen (slice p i j)) a) b ch rch.
Proof.
  intros [] Hw. rewrite Hw in dr_flow0 dr_sent0 dr_eof_quiet0. pose proof (zlen_nonneg (slice p i j)). split; fields; try done.
  - lia.
  - lia.
  - by rewrite app_nil_r.
  - intros Hc. by split; [apply dr_eof_quiet0|].
Qed.
Lemma send_data a b ch rch p i j : direction a b ch rch → sd_writer a = WHold p i j →
  direction (writing p j (sd_sent a ++ slice p i j) a) b (ch ++ [pkt_ frameTypeData (slice p i j)]) rch.
Proof.
  intros Hd Hw. pose proof (dr_writer _ _ _ _ Hd) as Hok. rewrite Hw in Hok. destruct (data_packet _ (segment_bound p i j Hok)) as (Dd & Dg & De).
  set (pkt := pkt_ _ _) in *. clearbody pkt. destruct Hd. rewrite Hw in dr_flow0 dr_sent0 dr_eof_quiet0. destruct Hok as [Hij Hseg].
  assert (sd_sent a ++ slice p i j = sd_reported a ++ take j p) as Hsent.
  { rewrite dr_sent0. cbn [progress]. rewrite -app_assoc -take_slice //. lia. }
  assert (∀ w, w = WIdle ∧ (length p ≤ j)%nat ∨ w = WLoop p j ∧ (j < length p)%nat → direction
    (with_writer w (sd_sent a ++ slice p i j) (if w is WIdle then sd_reported a ++ p else sd_reported a) (sd_lost_out a) a) b (ch ++ [pkt]) rch) as Hall.
  { intros w Hcase. assert (held w = 0 ∧ writer_ok w ∧ sd_sent a ++ slice p i j = (if w is WIdle then sd_reported a ++ p else sd_reported a) ++ progress w) as (H1 & H2 & H3).
    { destruct Hcase as [[-> Hj]|[-> Hj]]; split_and!; try done; cbn [progress].
      rewrite Hsent take_ge //. by rewrite app_nil_r. }
    split; fields; rewrite ?data_bytes_app ?data_bytes_one ?Dd ?zlen_app ?has_eof_app ?after_eof_app; try done; try lia.
    - intros Hl Hr. rewrite -(dr_whole0 Hl Hr) -!app_assoc //.
    - by apply prefix_app_r.
    - unfold has_eof at 2. cbn [existsb]. by rewrite De !orb_false_r. }
  unfold writing. destruct (Nat.leb_spec (length p) j) as [Hj|Hj]; [apply (Hall WIdle)|apply (Hall (WLoop p j))]; auto.
Qed.

Lemma send_close_write a b ch rch c : direction a b ch rch → close_write (sd_conn a) = Some c →
  direction (with_eof_due true (match sd_writer a with WIdle => true | _ => false end) (with_conn c a)) b ch rch.
Proof.
  intros [] Hc. unfold close_write, write_refused in Hc. destruct (st_closed _ || st_writeEOF _) eqn:Hr; [done|].
  apply orb_false_iff in Hr as [_ Hr]. injection Hc as <-.
  assert (st_eof (sd_conn b) = false ∧ has_eof ch = false) as [He Hch].
  { split; apply not_true_is_false; intros Ht; rewrite dr_eof_source0 // in Hr; rewrite Ht ?orb_true_r //. }
  split; fields; try done.
  - by destruct (sd_writer a).
  - by rewrite no_eof_after.
  - by rewrite He.
Qed.

Lemma send_eof a b ch rch out : direction a b ch rch → sd_eof_due a = true → out = [] ∨ out = [pkt_ frameTypeEOF []] →
  direction (with_eof_due false (sd_clean_eof a) a) b (ch ++ out) rch.
Proof.
  intros [] Hdue Hout. assert (st_writeEOF (sd_conn a) = true) as Hw by (apply dr_eof_source0; rewrite Hdue orb_true_r //).
  assert (data_bytes (ch ++ out) = data_bytes ch ∧ data_bytes (after_eof (ch ++ out)) = data_bytes (after_eof ch)) as [H1 H2].
  { destruct Hout as [->| ->]; [by rewrite app_nil_r|]. apply eof_view; [by apply control_packet|]. unfold eof_packet. by rewrite parse_own. }
  split; fields; rewrite ?H1 ?H2; done.
Qed.
(** ** Steps of the receiving end *)

Lemma recv_read a b ch rch n data update c : direction a b ch rch → sd_granting b = None →
  read_locked (sd_conn b) n = ReadBytes data update c →
  direction a (with_granting update (sd_got b ++ data) (sd_lost_in b) (with_conn c b)) ch rch.
Proof.
  intros [] Hg. unfold read_locked. destruct (st_readDone (sd_conn b)) eqn:Hrd; [done|].
  destruct (st_inbox (sd_conn b)) as [|x l] eqn:Hin; [repeat case_match; done|]. set (pending := st_grantPending _ + _).
  intros [= <- <- <-]. rewrite Hg in dr_flow0 dr_signs0. pose proof (take_drop n (x :: l)) as Hsplit. set (t := take n (x :: l)) in *. set (d := drop n (x :: l)) in *.
  rewrite -Hsplit in dr_window0 dr_whole0 dr_prefix0 dr_eof_seen0. rewrite zlen_app in dr_window0. pose proof (zlen_nonneg t). clearbody t d.
  assert (default 0 (if windowUpdateThreshold <=? pending then Some pending else None)
    + (if windowUpdateThreshold <=? pending then 0 else pending) = pending ∧
    0 ≤ default 0 (if windowUpdateThreshold <=? pending then Some pending else None) ∧
    0 ≤ (if windowUpdateThreshold <=? pending then 0 else pending) < windowUpdateThreshold) as (Hp & Hp1 & Hp2).
  { fields. destruct (Z.leb_spec windowUpdateThreshold pending); simpl; subst pending; unfold windowUpdateThreshold in *; lia. }
  split; fields; try done; unfold reading in *; fields.
  - subst pending. lia.
  - lia.
  - lia.
  - intros _. by apply dr_discarded0.
  - intros Hl Hr. by rewrite -(dr_whole0 Hl) // -!app_assoc.
  - by rewrite -app_assoc.
  - intros He Hc. destruct (dr_eof_seen0 He Hc) as [Hs1 Hs2]. split; [done|]. intros _. rewrite -app_assoc. by apply Hs2.
Qed.

Lemma grant_small a b ch rch n : direction a b ch rch → sd_granting b = Some n → 0 ≤ n ≤ streamWindowSize.
Proof.
  intros [] Hg. rewrite Hg in dr_flow0 dr_signs0. fields. pose proof (zlen_nonneg (st_inbox (sd_conn b))).
  pose proof (zlen_nonneg (data_bytes ch)). pose proof (grants_nonneg rch).
  assert (0 ≤ held (sd_writer a)) by (destruct (sd_writer a); simpl; [lia..|apply zlen_nonneg]). lia.
Qed.

Lemma recv_grant a b ch rch n : direction a b ch rch → sd_granting b = Some n →
  direction a (with_granting None (sd_got b) (sd_lost_in b) b) ch (rch ++ [pkt_ frameTypeWindowUpdate (streamWindowPayload n)]).
Proof.
  intros Hd Hg. pose proof (grant_small _ _ _ _ _ Hd Hg) as Hn. unfold streamWindowSize in Hn.
  destruct (window_packet n) as (Wg & _ & _); [lia|]. set (pkt := pkt_ _ _) in *. clearbody pkt.
  destruct Hd. rewrite Hg in dr_flow0 dr_signs0. split; fields; try done.
  - rewrite grants_app grants_one Wg. lia.
  - lia.
Qed.

Lemma recv_grant_failed a b ch rch n : direction a b ch rch → sd_granting b = Some n →
  direction a (with_granting None (sd_got b) (sd_lost_in b + n) b) ch rch.
Proof. intros [] Hg. rewrite Hg in dr_flow0 dr_signs0. split; fields; try done; lia. Qed.

Lemma recv_close_read a b ch rch : direction a b ch rch →
  direction a (with_discarded (sd_discarded b + zlen (st_inbox (sd_conn b))) (with_conn (close_read (sd_conn b)) b)) ch rch.
Proof.
  intros []. pose proof (zlen_nonneg (st_inbox (sd_conn b))). split; unfold reading, close_read in *; fields; try done.
  - lia.
  - change (zlen []) with 0. lia.
  - destruct (st_readDone (sd_conn b)); [done|]. exact (prefix_app_l _ _ _ dr_prefix0).
  - intros He Hc. by destruct (dr_eof_seen0 He Hc).
Qed.
(** ** Deliveries *)

Lemma data_bytes_cons p ch : data_bytes (p :: ch) = data_of p ++ data_bytes ch.
Proof. done. Qed.
Lemma grants_cons p ch : grants (p :: ch) = grant_of p + grants ch.
Proof. done. Qed.

Lemma after_eof_cons p ch : data_bytes (after_eof (p :: ch)) = [] → data_bytes (after_eof ch) = [].
Proof.
  cbn [after_eof]. destruct (eof_packet p); [|done]. induction ch as [|q ch IH]; [done|].
  rewrite data_bytes_cons. intros [_ Hl]%app_nil. cbn [after_eof]. destruct (eof_packet q); [done|by apply IH].
Qed.

Lemma direction_lighter a b p ch rch : direction a b (p :: ch) rch → data_of p = [] →
  data_bytes (p :: ch) = data_bytes ch ∧ (has_eof ch = true → has_eof (p :: ch) = true) ∧
  (sd_clean_eof a = true → data_bytes (after_eof ch) = []).
Proof.
  intros Hd Hp. split; [by rewrite data_bytes_cons Hp|]. unfold has_eof. cbn [existsb]. split; [intros ->; by rewrite orb_true_r|].
  intros Hc. exact (after_eof_cons _ _ (dr_eof_last _ _ _ _ Hd Hc)).
Qed.

(** Taking away the head of the channel when it carries no data and the receiver
    keeps its accounts. *)
Lemma recv_control a b b' p ch rch : direction a b (p :: ch) rch → data_of p = [] → rx b' = rx b → direction a b' ch rch.
Proof.
  intros Hd Hp Hrx. destruct (direction_lighter _ _ _ _ _ Hd Hp) as (H1 & H2 & H3).
  assert (direction a b ch rch) as Hd'; [|by apply (direction_ext a a b b' ch ch rch rch Hd')]. destruct Hd. rewrite H1 in dr_flow0 dr_whole0 dr_eof_seen0.
  split; try done. intros Hs. apply dr_eof_source0. destruct (st_eof (sd_conn b)); [done|]. destruct (sd_eof_due a); [by rewrite orb_true_r|].
  rewrite !orb_false_r /= in Hs |- *. by apply H2.
Qed.

Lemma recv_data a b ch rch payload c : direction a b (pkt_ frameTypeData payload :: ch) rch → zlen payload ≤ maxPacketPayload →
  sd_status b = Registered →
  ingest_locked (sd_conn b) (mkFrame frameTypeData id payload) = Some c → direction a (with_conn c b) ch rch.
Proof.
  intros [] Hp Hs. destruct (data_packet payload Hp) as (Dd & _ & De). rewrite data_bytes_cons Dd in dr_flow0 dr_whole0 dr_eof_seen0.
  unfold has_eof in dr_eof_source0. cbn [existsb after_eof] in dr_eof_source0, dr_eof_last0. rewrite De in dr_eof_source0 dr_eof_last0.
  assert (listening b) as Hl by (unfold listening; by rewrite Hs).
  unfold ingest_locked. cbn [fr_typ fr_payload]. rewrite bool_decide_eq_true_2 //. destruct (Z.ltb_spec (st_recvAvail (sd_conn b)) (zlen payload)); [done|].
  intros [= <-]. rewrite zlen_app in dr_flow0. split; unfold reading in *; fields; rewrite ?zlen_app; try done; try lia.
  - intros _ Hr. rewrite -(dr_whole0 Hl Hr) -!app_assoc //.
  - destruct (st_readDone (sd_conn b)) eqn:Hr; [done|]. rewrite -(dr_whole0 Hl eq_refl). apply prefix_app. rewrite (app_assoc (st_inbox _)). by apply prefix_app_r.
  - intros He Hc. destruct (dr_eof_seen0 He Hc) as [[-> Hd]%app_nil Hg]. split; [done|]. by rewrite app_nil_r.
Qed.

Lemma recv_eof a b ch rch payload c : direction a b (pkt_ frameTypeEOF payload :: ch) rch → zlen payload ≤ maxPacketPayload → sd_status b = Registered →
  ingest_locked (sd_conn b) (mkFrame frameTypeEOF id payload) = Some c → direction a (with_conn c b) ch rch.
Proof.
  intros Hd Hp Hs [= <-]. assert (eof_packet (pkt_ frameTypeEOF payload) = true) as He by (unfold eof_packet; by rewrite parse_own).
  assert (data_of (pkt_ frameTypeEOF payload) = []) as Hn by by apply control_packet.
  destruct (direction_lighter _ _ _ _ _ Hd Hn) as (H1 & H2 & H3). destruct Hd. rewrite H1 in dr_flow0 dr_whole0 dr_eof_seen0.
  cbn [after_eof] in dr_eof_last0. rewrite He in dr_eof_last0.
  assert (st_writeEOF (sd_conn a) = true) as Hw by (apply dr_eof_source0; unfold has_eof; cbn [existsb]; by rewrite He orb_true_r).
  assert (listening b) as Hl by (unfold listening; by rewrite Hs).
  split; unfold reading in *; fields; try done.
  intros _ Hc. split; [by apply dr_eof_last0|]. intros Hr. rewrite -(dr_whole0 Hl Hr) dr_eof_last0 // app_nil_r //.
Qed.
Lemma held_nonneg w : 0 ≤ held w.
Proof. destruct w; simpl; [done..|apply zlen_nonneg]. Qed.

(** Data never exceeds the receiver's window. *)
Lemma no_violation a b p ch rch : direction a b (p :: ch) rch → zlen (data_of p) ≤ st_recvAvail (sd_conn b).
Proof.
  intros []. rewrite data_bytes_cons zlen_app in dr_flow0. pose proof (zlen_nonneg (data_bytes ch)). pose proof (grants_nonneg rch).
  pose proof (held_nonneg (sd_writer a)). lia.
Qed.

Lemma recv_ignored a b p ch rch out : direction a b (p :: ch) rch → sd_status b = Removed →
  direction a (with_lost out (sd_lost_in b + zlen (data_of p)) b) ch rch.
Proof.
  intros [] Hs. rewrite data_bytes_cons in dr_flow0 dr_eof_seen0. rewrite zlen_app in dr_flow0. pose proof (zlen_nonneg (data_of p)).
  split; unfold listening, reading in *; fields; try done; try lia.
  - intros He. apply dr_eof_source0. unfold has_eof in *. cbn [existsb]. destruct (st_eof _), (eof_packet p), (existsb eof_packet ch); done.
  - intros Hc. exact (after_eof_cons _ _ (dr_eof_last0 Hc)).
  - intros He Hc. by destruct (dr_eof_seen0 He Hc) as [[_ ?]%app_nil ?].
Qed.

Lemma recv_deliver a b p ch rch : direction a b (p :: ch) rch → stream_packet p →
  (sd_status b = Unopened → p = pkt_ frameTypeStreamOpen (drop frameHeaderSize p)) → direction a (deliver p b) ch rch.
Proof.
  intros Hd (typ & payload & -> & Ht & Hp) Hun. unfold deliver. rewrite parse_own //. cbn [fr_typ].
  destruct (decide (typ = frameTypeStreamOpen)) as [->|Hto].
  { rewrite bool_decide_eq_true_2 //. assert (data_of (pkt_ frameTypeStreamOpen payload) = []) as Hn by by apply control_packet.
    case_bool_decide as Hu; [|exact (recv_control _ _ _ _ _ _ Hd Hn eq_refl)]. destruct (sd_pair_closed b).
    - pose proof (recv_control _ _ _ _ _ _ Hd Hn eq_refl : direction a b ch rch) as Hd'. by apply (direction_removed a b _ ch rch Hd').
    - eapply recv_control; [exact Hd|done|]. unfold rx. fields. by rewrite Hu. }
  rewrite (bool_decide_eq_false_2 (typ = _)) //. case_bool_decide as Hs.
  2: { apply recv_ignored; [done|]. destruct (sd_status b) eqn:Hst; [|done..]. exfalso. apply Hto.
       specialize (Hun eq_refl). apply (f_equal (fun l => nth 0 l x00)) in Hun. exact Hun. }
  destruct (ingest_locked (sd_conn b) _) as [c|] eqn:Hi.
  - destruct (decide (typ = frameTypeData)) as [->|Hnd]; [exact (recv_data _ _ _ _ _ _ Hd Hp Hs Hi)|].
    destruct (decide (typ = frameTypeEOF)) as [->|Hne]; [exact (recv_eof _ _ _ _ _ _ Hd Hp Hs Hi)|].
    assert (data_of (pkt_ typ payload) = []) as Hn.
    { unfold data_of. rewrite parse_own //. cbn [fr_typ]. by rewrite bool_decide_eq_false_2. }
    eapply recv_control; [exact Hd|done|]. unfold ingest_locked in Hi. cbn [fr_typ fr_payload] in Hi.
    rewrite (bool_decide_eq_false_2 _ Hnd) (bool_decide_eq_false_2 _ Hne) in Hi. repeat case_match; injection Hi as <-; done.
  - exfalso. pose proof (no_violation _ _ _ _ _ Hd) as Hv. unfold data_of in Hv. rewrite parse_own // in Hv. cbn [fr_typ fr_payload] in Hv.
    unfold ingest_locked in Hi. cbn [fr_typ fr_payload] in Hi. case_bool_decide; [|by repeat case_match].
    case_match eqn:Hlt; [|done]. apply Z.ltb_lt in Hlt. lia.
Qed.
Lemma send_control a a' b p ch rch : direction a b ch (p :: rch) → grant_of p = 0 → tx a' = tx a → direction a' b ch rch.
Proof. intros Hd Hg Ht. apply (direction_ext a a' b b ch ch (p :: rch) rch Hd Ht); [done..|]. rewrite grants_cons. lia. Qed.

Lemma send_credit a b p ch rch c : direction a b ch (p :: rch) → st_peerWindow c = st_peerWindow (sd_conn a) + grant_of p →
  st_writeEOF c = st_writeEOF (sd_conn a) → direction (with_conn c a) b ch rch.
Proof.
  intros [] Hw He. rewrite grants_cons in dr_flow0. pose proof (grant_of_nonneg p). split; fields; rewrite ?Hw ?He; try done; lia.
Qed.

Lemma send_ignored a b p ch rch inn : direction a b ch (p :: rch) → direction (with_lost (sd_lost_out a + grant_of p) inn a) b ch rch.
Proof. intros []. rewrite grants_cons in dr_flow0. pose proof (grant_of_nonneg p). split; fields; try done; lia. Qed.

Lemma tx_begin_end e a : tx (begin_end e a) = tx a.
Proof. unfold begin_end. by destruct (sd_ender a). Qed.
Lemma rx_begin_end e b : rx (begin_end e b) = rx b.
Proof. unfold begin_end. by destruct (sd_ender b). Qed.

Lemma send_deliver a b p ch rch : direction a b ch (p :: rch) → stream_packet p → direction (deliver p a) b ch rch.
Proof.
  intros Hd (typ & payload & -> & Ht & Hp). unfold deliver. rewrite parse_own //. cbn [fr_typ].
  assert (typ ≠ frameTypeWindowUpdate → grant_of (pkt_ typ payload) = 0) as Hn.
  { intros Hn. unfold grant_of. rewrite parse_own //. cbn [fr_typ]. by rewrite bool_decide_eq_false_2. }
  case_bool_decide as Ho; [subst typ; case_bool_decide; eapply send_control; try exact Hd; by [apply Hn|]|].
  case_bool_decide as Hs; [|by apply send_ignored].
  destruct (ingest_locked (sd_conn a) _) as [c|] eqn:Hi.
  2: { eapply send_control; [exact Hd| |apply tx_begin_end]. apply Hn. intros ->. done. }
  destruct (decide (typ = frameTypeWindowUpdate)) as [->|Hw].
  - injection Hi as <-. eapply send_credit; [exact Hd|..].
    + unfold grant_of. rewrite parse_own //. cbn [fr_typ fr_payload]. rewrite bool_decide_eq_true_2 //. unfold parseWindowPayload.
      destruct payload as [|? [|? [|? [|? ?]]]]; cbn; lia.
    + by destruct payload as [|? [|? [|? [|? ?]]]].
  - eapply send_control; [exact Hd|by apply Hn|]. unfold ingest_locked in Hi. cbn [fr_typ fr_payload] in Hi.
    rewrite (bool_decide_eq_false_2 _ Hw) in Hi. repeat case_match; simplify_eq; done.
Qed.

(** ** Any step of an end *)

Lemma act_sender e a b ch rch a' out : direction a b ch rch → act maxSeg id e a = Some (a', out) →
  (∀ n, sd_granting a = Some n → 0 ≤ n < 2 ^ 32) → direction a' b (ch ++ out) rch.
Proof.
  intros Hd Hact Hg.
  assert (tx a' = tx a → silent out → direction a' b (ch ++ out) rch) as Hsame.
  { intros Ht Hs. by apply (direction_ext a a' b b ch _ rch rch Hd Ht); [|apply silent_view|]. }
  assert (silent []) as Hnil by constructor.
  unfold act in Hact. destruct e; try (case_bool_decide; [done|]); cbn [act_write act_read act_close act_pair] in Hact.
  - destruct (sd_writer a) eqn:Hw; simplify_eq. rewrite app_nil_r. by apply send_write.
  - destruct (sd_writer a) as [|q i|] eqn:Hw; [done| |done]. case_match eqn:Ht; simplify_eq; rewrite app_nil_r; [by apply send_refused|by apply send_taken].
  - destruct (sd_writer a) as [| |q i j] eqn:Hw; [done..|]. case_match; simplify_eq; [by apply send_data|]. rewrite app_nil_r. by apply send_failed.
  - destruct (sd_granting a); [done|]. destruct (read_locked _ _) as [| | |data u c] eqn:Hr; simplify_eq; try by apply Hsame.
    + apply Hsame; [apply tx_begin_end|done].
    + apply Hsame; [|done]. unfold read_locked in Hr. repeat case_match; simplify_eq; done.
  - destruct (sd_granting a) as [n|] eqn:Hn; [|done]. case_match; simplify_eq; apply Hsame; [done| |done|done].
    destruct (window_packet n (Hg _ eq_refl)) as (_ & Hw1 & Hw2 & _). by repeat constructor.
  - simplify_eq. by apply Hsame.
  - destruct (close_write _) as [c|] eqn:Hc; simplify_eq; rewrite app_nil_r; [by apply send_close_write|done].
  - destruct (sd_eof_due a) eqn:Hdue; simplify_eq. apply send_eof; [done..|]. destruct (goes_out _ _); auto.
  - simplify_eq. apply Hsame; [apply tx_begin_end|done].
  - destruct (sd_ender a) as [|e| | |] eqn:He; simplify_eq; apply Hsame; try done. case_match; [|done].
    destruct (close_payload_bounded (se_Reason e) (se_Detail e)) as [Hb _].
    constructor; [|constructor]. split; [by apply control_packet|]. unfold eof_packet. by rewrite parse_own.
  - destruct (sd_pair_closed a); simplify_eq. apply Hsame; [|done]. by destruct (sd_status a).
  - destruct (sd_terminating a); simplify_eq. apply Hsame; [|done]. by rewrite tx_begin_end.
Qed.
(** The packets an end writes. *)
Lemma act_packets e a b ch rch a' out : direction a b ch rch → act maxSeg id e a = Some (a', out) →
  (∀ n, sd_granting a = Some n → 0 ≤ n < 2 ^ 32) → Forall stream_packet out.
Proof.
  intros Hd Hact Hg. assert (Forall stream_packet []) as Hnil by constructor.
  assert (∀ typ payload, byte_z frameTypeData ≤ byte_z typ ≤ byte_z frameTypeWindowUpdate → zlen payload ≤ maxPacketPayload →
    Forall stream_packet [pkt_ typ payload]) as Hone by (intros; constructor; [by eexists _, _|done]).
  unfold act in Hact. destruct e; try (case_bool_decide; [done|]); cbn [act_write act_read act_close act_pair] in Hact.
  2: { destruct (sd_writer a); [done| |done]. by repeat case_match; simplify_eq. }
  2: { pose proof (dr_writer _ _ _ _ Hd) as Hw. destruct (sd_writer a) as [| |q i j]; [done..|]. case_match; simplify_eq; [|done].
       apply Hone; [done|by apply segment_bound]. }
  3: { destruct (sd_granting a) as [n|] eqn:Hn; [|done]. case_match; simplify_eq; [|done].
       destruct (window_packet n (Hg _ eq_refl)) as (_ & _ & _ & Hw). by constructor. }
  7: { destruct (sd_ender a) as [|e| | |]; simplify_eq; try done. case_match; [|done]. apply Hone; [done|]. apply close_payload_bounded. }
  all: repeat case_match; simplify_eq; try done. by apply Hone.
Qed.

Lemma act_receiver e a b ch rch b' out : direction a b ch rch → act maxSeg id e b = Some (b', out) →
  writer_ok (sd_writer b) → direction a b' ch (rch ++ out).
Proof.
  intros Hd Hact Hok.
  assert (rx b' = rx b → grants out = 0 → direction a b' ch (rch ++ out)) as Hsame.
  { intros Ht Hs. apply (direction_ext a a b b' ch ch rch _ Hd); [done..|]. rewrite grants_app. lia. }
  assert (∀ typ payload, byte_z frameTypeData ≤ byte_z typ < byte_z frameTypeWindowUpdate → zlen payload ≤ maxPacketPayload →
    grants [pkt_ typ payload] = 0) as Hzero.
  { intros typ payload Ht Hp. rewrite grants_one. unfold grant_of. rewrite parse_own; [lia|done|]. cbn [fr_typ].
    rewrite bool_decide_eq_false_2 //. intros ->. lia. }
  unfold act in Hact. destruct e; try (case_bool_decide; [done|]); cbn [act_write act_read act_close act_pair] in Hact.
  - destruct (sd_writer b); simplify_eq. apply Hsame; [|done]. unfold writing. by case_match.
  - destruct (sd_writer b) as [|q i|]; [done| |done]. destruct (take_window _ _) as [| |c] eqn:Ht; simplify_eq; apply Hsame; [done..| |done].
    unfold take_window in Ht. repeat case_match; simplify_eq; done.
  - destruct (sd_writer b) as [| |q i j]; [done..|]. case_match; simplify_eq; apply Hsame; try done.
    + unfold writing. by case_match.
    + apply Hzero; [done|]. by apply segment_bound.
  - destruct (sd_granting b) eqn:Hg; [done|]. destruct (read_locked _ _) as [| | |data u c] eqn:Hr; simplify_eq; try by apply Hsame.
    + apply Hsame; [apply rx_begin_end|done].
    + rewrite app_nil_r. exact (recv_read _ _ _ _ _ _ _ _ Hd Hg Hr).
  - destruct (sd_granting b) as [n|] eqn:Hn; [|done]. case_match; simplify_eq; [by apply recv_grant|].
    rewrite app_nil_r. by apply recv_grant_failed.
  - simplify_eq. rewrite app_nil_r. by apply recv_close_read.
  - destruct (close_write _) as [c|] eqn:Hc; simplify_eq; apply Hsame; try done. unfold close_write in Hc. destruct (write_refused _); [done|]. by injection Hc as <-.
  - destruct (sd_eof_due b); simplify_eq. apply Hsame; [done|]. case_match; [|done]. by apply Hzero.
  - simplify_eq. apply Hsame; [apply rx_begin_end|done].
  - destruct (sd_ender b) as [|e| | |] eqn:He; simplify_eq; try (apply Hsame; [done|]); [|done|].
    + case_match; [|done]. apply Hzero; [done|]. apply close_payload_bounded.
    + rewrite app_nil_r. by apply (direction_removed a b _ ch rch Hd).
  - destruct (sd_pair_closed b); simplify_eq. rewrite app_nil_r.
    destruct (sd_status b) eqn:Hs; [|by apply (direction_removed a b _ ch rch Hd)|];
      apply (direction_ext a a b _ ch ch rch rch Hd); try done; unfold rx; fields; by rewrite Hs.
  - destruct (sd_terminating b); simplify_eq. apply Hsame; [|done]. by rewrite rx_begin_end.
Qed.
End inv.
