(* ===== verification/StreamSafe.v ===== *)
(** * Guarantees of a tunnel stream

    What holds of the two ends of a stream in every run: the window is never
    exceeded, bytes arrive in order and complete, an EOF means that everything
    has arrived, and a writer that waits for window can always get it from a
    reader that reads. *)

From S2P Require Import Prelude GoStrings Base64 Json Framing Stream StreamLink StreamInv.
From Stdlib Require Import Strings.Byte.

(** The sender, the receiver and the two packet directions, seen from the left
    ([true]) or from the right. *)
Definition ends (d : bool) (w : world) : side * side * list bytes * list bytes :=
  if d then (wd_left w, wd_right w, wd_lr w, wd_rl w) else (wd_right w, wd_left w, wd_rl w, wd_lr w).

(** The segment size [newPair] allows. *)
Definition segment_size (maxSeg : nat) : Prop := (0 < maxSeg)%nat ∧ Z.of_nat maxSeg ≤ maxPacketPayload.
Definition stream_id (id : Z) : Prop := 0 < id < 2 ^ 32.

Section safe.
Context (maxSeg : nat) (id : Z).
Hypothesis maxSeg_bound : segment_size maxSeg.
Hypothesis id_bound : stream_id id.

Local Abbreviation runs := (runs maxSeg id).
Local Abbreviation start := (start id).
Local Abbreviation step := (step maxSeg id).

(** Until its stream is opened, an end has the stream-open frame coming. *)
Definition opening (b : side) (ch : list bytes) : Prop :=
  sd_status b = Unopened → ∃ p ch', ch = p :: ch' ∧ p = packet id frameTypeStreamOpen (drop frameHeaderSize p).

Record link_inv (w : world) : Prop := {
  li_lr : direction maxSeg (wd_left w) (wd_right w) (wd_lr w) (wd_rl w);
  li_rl : direction maxSeg (wd_right w) (wd_left w) (wd_rl w) (wd_lr w);
  li_packets : Forall (stream_packet id) (wd_lr w) ∧ Forall (stream_packet id) (wd_rl w);
  li_opening : opening (wd_right w) (wd_lr w) ∧ opening (wd_left w) (wd_rl w)
}.

Lemma link_inv_start port : link_inv (start port).
Proof.
  assert (zlen (encodeStreamOpen port) ≤ maxPacketPayload) as Hl by (unfold zlen, encodeStreamOpen; by rewrite be_bytes_length).
  assert (data_of (packet id frameTypeStreamOpen (encodeStreamOpen port)) = []) as Hd.
  { unfold data_of. by rewrite parse_own. }
  assert (grant_of (packet id frameTypeStreamOpen (encodeStreamOpen port)) = 0) as Hg.
  { unfold grant_of. by rewrite parse_own. }
  assert (eof_packet (packet id frameTypeStreamOpen (encodeStreamOpen port)) = false) as He.
  { unfold eof_packet. by rewrite parse_own. }
  unfold start. set (p := packet _ _ _) in *.
  assert (data_bytes [p] = []) as Hd' by by rewrite data_bytes_one. assert (grants [p] = 0) as Hg' by by rewrite grants_one.
  assert (has_eof [p] = false) as He' by (unfold has_eof; cbn [existsb]; by rewrite He).
  split; cbn [wd_left wd_right wd_lr wd_rl].
  - split; rewrite ?Hd' ?no_eof_after // ?He'; try done.
  - split; rewrite ?Hg' //.
  - split; [|done]. constructor; [|done]. by eexists _, _.
  - split; [|done]. intros _. by exists p, [].
Qed.

Lemma act_opens e s s' out : act maxSeg id e s = Some (s', out) → sd_status s' = Unopened → sd_status s = Unopened ∧ out = [].
Proof.
  unfold act. intros Hact. destruct e; try (case_bool_decide as Hs; [done|]); cbn [act_write act_read act_close act_pair] in Hact.
  1-10: unfold writing, begin_end in Hact; repeat case_match; simplify_eq; done.
  all: unfold begin_end in Hact; repeat case_match; simplify_eq; cbn [with_pair with_ender with_conn sd_status] in *; done.
Qed.

Lemma act_keeps e a b ch rch a' out :
  direction maxSeg a b ch rch → direction maxSeg b a rch ch → act maxSeg id e a = Some (a', out) →
  direction maxSeg a' b (ch ++ out) rch ∧ direction maxSeg b a' rch (ch ++ out) ∧ Forall (stream_packet id) out.
Proof.
  intros H1 H2 Hact. assert (∀ n, sd_granting a = Some n → 0 ≤ n < 2 ^ 32) as Hg.
  { intros n Hn. assert (0 ≤ n ≤ streamWindowSize) by (eapply grant_small; eassumption). unfold streamWindowSize in *. lia. }
  split_and!; [exact (act_sender id id_bound maxSeg maxSeg_bound e a b ch rch a' out H1 Hact Hg)|exact (act_receiver id id_bound maxSeg maxSeg_bound e b a rch ch a' out H2 Hact (dr_writer _ _ _ _ _ H1))|exact (act_packets id id_bound maxSeg maxSeg_bound e a b ch rch a' out H1 Hact Hg)].
Qed.

Lemma deliver_opens p s : sd_status s ≠ Unopened ∨ p = packet id frameTypeStreamOpen (drop frameHeaderSize p) ∧ stream_packet id p →
  sd_status (deliver p s) ≠ Unopened.
Proof.
  unfold deliver. intros [Hs|[Hp Hk]].
  - case_match; [|by destruct s..]. case_bool_decide; [by rewrite bool_decide_eq_false_2|].
    case_bool_decide; [|done]. case_match; [done|]. unfold begin_end. by destruct (sd_ender s).
  - destruct Hk as (typ & payload & -> & Ht & Hl). assert (typ = frameTypeStreamOpen) as ->.
    { by apply (f_equal (fun l => nth 0 l x00)) in Hp. }
    rewrite parse_own //. cbn [fr_typ]. rewrite bool_decide_eq_true_2 //. case_bool_decide; [by destruct (sd_pair_closed s)|done].
Qed.

Lemma deliver_keeps p a b ch rch :
  direction maxSeg a b (p :: ch) rch → direction maxSeg b a rch (p :: ch) → stream_packet id p → opening b (p :: ch) →
  direction maxSeg a (deliver p b) ch rch ∧ direction maxSeg (deliver p b) a rch ch ∧ sd_status (deliver p b) ≠ Unopened.
Proof.
  intros H1 H2 Hp Ho.
  assert (sd_status b = Unopened → p = packet id frameTypeStreamOpen (drop frameHeaderSize p)) as Ho'.
  { intros Hu. by destruct (Ho Hu) as (? & ? & [= <- <-] & ?). }
  split_and!; [eapply recv_deliver; eassumption|eapply send_deliver; eassumption|].
  apply deliver_opens. destruct (decide (sd_status b = Unopened)) as [Hu|]; [right; auto|by left].
Qed.

Lemma opening_app b ch out : opening b ch → opening b (ch ++ out).
Proof. intros H Hu. destruct (H Hu) as (p & ch' & -> & Hp). by exists p, (ch' ++ out). Qed.

Lemma act_opening e a a' ch out : act maxSeg id e a = Some (a', out) → opening a ch → opening a' ch.
Proof. intros Hact H Hu. apply H. by apply (act_opens e a a' out Hact). Qed.

Lemma link_inv_step l w w' : link_inv w → step l w = Some w' → link_inv w'.
Proof.
  intros [H1 H2 [P1 P2] [O1 O2]]. destruct l as [e|e| |]; unfold step; intros Hs.
  - destruct (act _ _ e _) as [[s out]|] eqn:Ha; simplify_eq/=. destruct (act_keeps e _ _ _ _ _ _ H1 H2 Ha) as (K1 & K2 & K3).
    split; cbn; [done..| |]; split; [by apply Forall_app|done|by apply opening_app|exact (act_opening _ _ _ _ _ Ha O2)].
  - destruct (act _ _ e _) as [[s out]|] eqn:Ha; simplify_eq/=. destruct (act_keeps e _ _ _ _ _ _ H2 H1 Ha) as (K1 & K2 & K3).
    split; cbn; [done..| |]; split; [done|by apply Forall_app|exact (act_opening _ _ _ _ _ Ha O1)|by apply opening_app].
  - destruct (wd_rl w) as [|p rest]; simplify_eq/=. apply Forall_cons in P2 as [Hp P2]. destruct (deliver_keeps p _ _ _ _ H2 H1 Hp O2) as (K1 & K2 & K3).
    split; cbn; [done..| |]; by split.
  - destruct (wd_lr w) as [|p rest]; simplify_eq/=. apply Forall_cons in P1 as [Hp P1]. destruct (deliver_keeps p _ _ _ _ H1 H2 Hp O1) as (K1 & K2 & K3).
    split; cbn; [done..| |]; by split.
Qed.

Lemma link_inv_runs port w : runs (start port) w → link_inv w.
Proof.
  intros Hr. remember (start port) as w0 eqn:Hw0. assert (link_inv w0) as H0 by (subst; apply link_inv_start). clear Hw0.
  induction Hr as [|w0 w1 w2 [l Hs] _ IH]; [done|]. apply IH. exact (link_inv_step _ _ _ H0 Hs).
Qed.

Lemma link_direction d w : link_inv w → let '(a, b, ch, rch) := ends d w in direction maxSeg a b ch rch ∧ Forall (stream_packet id) ch.
Proof. intros [? ? [? ?] _]. by destruct d. Qed.

(** C29 In every interleaving of the readers, writers, closers and read loops of
    both ends, the bytes a stream buffers, has in flight or is about to send in
    one direction never exceed the 64 KiB window, the sender's window stays
    within it, and no packet on its way is a flow-control violation. *)
Theorem flow_control_safe port w d : runs (start port) w →
  let '(a, b, ch, rch) := ends d w in
  zlen (st_inbox (sd_conn b)) + zlen (data_bytes ch) + held (sd_writer a) ≤ streamWindowSize ∧
  0 ≤ st_peerWindow (sd_conn a) ≤ streamWindowSize ∧
  ∀ p ch' f n, ch = p :: ch' → parseFrame p = Complete f n → is_Some (ingest_locked (sd_conn b) f).
Proof.
  intros Hr. pose proof (link_direction d w (link_inv_runs _ _ Hr)) as Hd. destruct (ends d w) as [[[a b] ch] rch]. destruct Hd as [Hd _].
  pose proof (zlen_nonneg (data_bytes ch)). pose proof (grants_nonneg rch). pose proof (held_nonneg (sd_writer a)).
  pose proof (zlen_nonneg (st_inbox (sd_conn b))). split_and!; [destruct Hd; lia..|].
  intros p ch' f n -> Hp. apply (no_violation maxSeg maxSeg_bound) in Hd. unfold data_of in Hd. rewrite Hp in Hd. unfold ingest_locked.
  destruct (bool_decide (fr_typ f = frameTypeData)); [|by repeat case_match].
  destruct (Z.ltb_spec (st_recvAvail (sd_conn b)) (zlen (fr_payload f))); [lia|done].
Qed.

(** C30 What [Read] has returned is always a prefix of what the other end has
    sent, [Write] reports exactly what it has sent, and as long as the stream is
    registered and its read side open, no byte is missing: read, buffered and
    travelling bytes together are the bytes sent. *)
Theorem stream_integrity port w d : runs (start port) w →
  let '(a, b, ch, rch) := ends d w in
  sd_got b `prefix_of` sd_sent a ∧ sd_sent a = sd_reported a ++ progress (sd_writer a) ∧
  (sd_status b = Registered → st_readDone (sd_conn b) = false → sd_got b ++ st_inbox (sd_conn b) ++ data_bytes ch = sd_sent a).
Proof.
  intros Hr. pose proof (link_direction d w (link_inv_runs _ _ Hr)) as Hd. destruct (ends d w) as [[[a b] ch] rch]. destruct Hd as [[] _].
  split_and!; [|done|].
  - destruct (st_readDone (sd_conn b)); [done|]. exact (prefix_app_l _ _ _ dr_prefix).
  - intros Hs. apply dr_whole. unfold listening. by rewrite Hs.
Qed.

(** ** End of file *)

Lemma act_frozen e a b ch rch a' out : direction maxSeg a b ch rch → sd_clean_eof a = true →
  act maxSeg id e a = Some (a', out) → sd_clean_eof a' = true ∧ sd_sent a' = sd_sent a.
Proof.
  intros [] Hc Hact. destruct (dr_eof_quiet Hc) as [Hw Hq]. unfold act in Hact.
  destruct e; try (case_bool_decide; [done|]); cbn [act_write act_read act_close act_pair] in Hact;
    unfold writing, begin_end, close_write, write_refused in Hact; rewrite ?Hw ?orb_true_r in Hact;
    repeat case_match; simplify_eq; done.
Qed.

Lemma deliver_frozen p a : sd_clean_eof (deliver p a) = sd_clean_eof a ∧ sd_sent (deliver p a) = sd_sent a.
Proof. unfold deliver, begin_end. repeat case_match; done. Qed.

Lemma eof_freezes d w w' : link_inv w → runs w w' → sd_clean_eof (ends d w).1.1.1 = true → sd_sent (ends d w').1.1.1 = sd_sent (ends d w).1.1.1.
Proof.
  intros Hi Hr. induction Hr as [|w w1 w2 [l Hs] Hr IH]; [done|]. intros Hc.
  assert (sd_clean_eof (ends d w1).1.1.1 = true ∧ sd_sent (ends d w1).1.1.1 = sd_sent (ends d w).1.1.1) as [Hc1 Hs1].
  2: { rewrite IH //. exact (link_inv_step _ _ _ Hi Hs). }
  destruct Hi as [H1 H2 _ _]. destruct l as [e|e| |]; unfold step in Hs.
  - destruct (act _ _ e _) as [[s out]|] eqn:Ha; simplify_eq/=. destruct d; simpl in *; [exact (act_frozen _ _ _ _ _ _ _ H1 Hc Ha)|done].
  - destruct (act _ _ e _) as [[s out]|] eqn:Ha; simplify_eq/=. destruct d; simpl in *; [done|exact (act_frozen _ _ _ _ _ _ _ H2 Hc Ha)].
  - destruct (wd_rl w) as [|p rest]; simplify_eq/=. destruct d; simpl in *; [|done]. destruct (deliver_frozen p (wd_left w)) as [-> ->]. done.
  - destruct (wd_lr w) as [|p rest]; simplify_eq/=. destruct d; simpl in *; [done|]. destruct (deliver_frozen p (wd_right w)) as [-> ->]. done.
Qed.

(** When [Read] reports the end of the stream and the other end half-closed
    between two calls of [Write], the reader has received exactly what [Write]
    reported as written, and nothing is ever sent after it. *)
Theorem eof_means_complete port w d n : runs (start port) w →
  let '(a, b, ch, rch) := ends d w in
  read_locked (sd_conn b) n = ReadError ErrEOF → sd_clean_eof a = true →
  sd_got b = sd_reported a ∧ ∀ w', runs w w' → sd_sent (ends d w').1.1.1 = sd_reported a.
Proof.
  intros Hr. pose proof (link_inv_runs _ _ Hr) as Hi. pose proof (link_direction d w Hi) as Hd. pose proof (eof_freezes d w) as Hf.
  destruct (ends d w) as [[[a b] ch] rch]. destruct Hd as [[] _]. cbn [fst] in Hf. intros Hread Hc.
  assert (st_readDone (sd_conn b) = false ∧ st_inbox (sd_conn b) = [] ∧ st_eof (sd_conn b) = true) as (Hrd & Hin & He).
  { unfold read_locked in Hread. repeat case_match; simplify_eq; done. }
  destruct (dr_eof_seen He Hc) as [_ Hg]. specialize (Hg Hrd). rewrite Hin app_nil_r in Hg.
  destruct (dr_eof_quiet Hc) as [_ Hq]. assert (progress (sd_writer a) = []) as Hp by by destruct (sd_writer a) as [|? []|].
  rewrite Hp app_nil_r in dr_sent. split; [congruence|]. intros w' Hr'. rewrite Hf //.
Qed.
End safe.
