(* ===== verification/StreamLive.v ===== *)
(** * Progress of a tunnel stream

    A [Write] of any length on a healthy stream can always run to its end with
    every byte read by the other side: the window never leaves a writer waiting
    for a reader that has read everything. *)

From S2P Require Import Prelude GoStrings Base64 Json Framing Stream StreamLink StreamInv StreamSafe.
From Stdlib Require Import Strings.Byte.

Section live.
Context (maxSeg : nat) (id : Z).
Hypothesis maxSeg_bound : segment_size maxSeg.
Hypothesis id_bound : stream_id id.

Local Abbreviation runs := (runs maxSeg id).
Local Abbreviation act := (act maxSeg id).
Local Abbreviation direction := (direction maxSeg).

Abbreviation quad := (side * side * list bytes * list bytes)%type.

(** A step seen from one direction. *)
Inductive dstep : quad → quad → Prop :=
| at_sender e a a' b ch rch out : act e a = Some (a', out) → dstep (a, b, ch, rch) (a', b, ch ++ out, rch)
| at_receiver e a b b' ch rch out : act e b = Some (b', out) → dstep (a, b, ch, rch) (a, b', ch, rch ++ out)
| to_receiver p a b ch rch : dstep (a, b, p :: ch, rch) (a, deliver p b, ch, rch)
| to_sender p a b ch rch : dstep (a, b, ch, p :: rch) (deliver p a, b, ch, rch).

Lemma dstep_world d w q : dstep (ends d w) q → ∃ w', (∃ l, step maxSeg id l w = Some w') ∧ ends d w' = q.
Proof.
  destruct w as [l r lr rl]. unfold ends. destruct d; cbn [wd_left wd_right wd_lr wd_rl]; intros Hs; inversion Hs as [e ? ? ? ? ? out Ha|e ? ? ? ? ? out Ha| |]; subst.
  - eexists. split; [exists (AtLeft e); cbn; by rewrite Ha|done].
  - eexists. split; [exists (AtRight e); cbn; by rewrite Ha|done].
  - eexists. split; [by exists ToRight|done].
  - eexists. split; [by exists ToLeft|done].
  - eexists. split; [exists (AtRight e); cbn; by rewrite Ha|done].
  - eexists. split; [exists (AtLeft e); cbn; by rewrite Ha|done].
  - eexists. split; [by exists ToLeft|done].
  - eexists. split; [by exists ToRight|done].
Qed.

Lemma dsteps_world d w q : rtc dstep (ends d w) q → ∃ w', runs w w' ∧ ends d w' = q.
Proof.
  intros Hr. remember (ends d w) as q0 eqn:Hq. revert w Hq. induction Hr as [q0|q0 q1 q2 Hs _ IH]; intros w ->.
  - exists w. split; [apply rtc_refl|done].
  - destruct (dstep_world d w q1 Hs) as (w1 & Hl & <-). destruct (IH w1 eq_refl) as (w' & Hr & He). exists w'. split; [|done].
    exact (rtc_l _ _ _ _ Hl Hr).
Qed.

Definition close_packet (p : bytes) : bool :=
  match parseFrame p with Complete f _ => bool_decide (fr_typ f = frameTypeClose) | _ => false end.

(** Neither end is closed or torn down, the receiver still reads, no packet was
    refused and no close frame is on its way to the sender. *)
Definition usable (q : quad) : bool :=
  let '(a, b, ch, rch) := q in
  bool_decide (sd_status a = Registered) && bool_decide (sd_status b = Registered) &&
  negb (sd_pair_closed a) && negb (sd_pair_closed b) && negb (st_readDone (sd_conn b)) &&
  negb (write_refused (sd_conn a)) && bool_decide (st_peerErr (sd_conn a) = None) &&
  (sd_lost_out a =? 0) && (sd_lost_in b =? 0) && forallb (fun p => negb (close_packet p)) rch.

(** The accounts of both directions. *)
Record accounts (q : quad) : Prop := {
  ac_out : let '(a, b, ch, rch) := q in direction a b ch rch;
  ac_in : let '(a, b, ch, rch) := q in direction b a rch ch;
  ac_packets : let '(a, b, ch, rch) := q in Forall (stream_packet id) ch ∧ Forall (stream_packet id) rch
}.

Record healthy (q : quad) : Prop := { hl_accounts : accounts q; hl_usable : usable q = true }.

Lemma usable_split a b ch rch : usable (a, b, ch, rch) = true ↔
  sd_status a = Registered ∧ sd_status b = Registered ∧ sd_pair_closed a = false ∧ sd_pair_closed b = false ∧
  st_readDone (sd_conn b) = false ∧ write_refused (sd_conn a) = false ∧ st_peerErr (sd_conn a) = None ∧
  sd_lost_out a = 0 ∧ sd_lost_in b = 0 ∧ forallb (fun p => negb (close_packet p)) rch = true.
Proof. unfold usable. rewrite !andb_true_iff !negb_true_iff !bool_decide_eq_true !Z.eqb_eq. tauto. Qed.

(** Every step keeps the accounts. *)
Lemma accounts_step q q' : accounts q → (let '(a, b, _, _) := q in sd_status a ≠ Unopened ∧ sd_status b ≠ Unopened) → dstep q q' →
  accounts q' ∧ let '(a, b, _, _) := q' in sd_status a ≠ Unopened ∧ sd_status b ≠ Unopened.
Proof.
  intros Hacc Hop Hs. destruct Hs as [e a a' b ch rch out Ha|e a b b' ch rch out Ha|p a b ch rch|p a b ch rch]; destruct Hop as [Oa Ob];
    destruct Hacc as [H1 H2 [P1 P2]].
  - destruct (act_keeps maxSeg id maxSeg_bound id_bound e _ _ _ _ _ _ H1 H2 Ha) as (K1 & K2 & K3).
    split; [split; [done..|split; [by apply Forall_app|done]]|]. split; [|done]. intros Hu. by destruct (act_opens maxSeg id e _ _ _ Ha Hu).
  - destruct (act_keeps maxSeg id maxSeg_bound id_bound e _ _ _ _ _ _ H2 H1 Ha) as (K1 & K2 & K3).
    split; [split; [done..|split; [done|by apply Forall_app]]|]. split; [done|]. intros Hu. by destruct (act_opens maxSeg id e _ _ _ Ha Hu).
  - apply Forall_cons in P1 as [Hp P1]. destruct (deliver_keeps maxSeg id maxSeg_bound id_bound p _ _ _ _ H1 H2 Hp) as (K1 & K2 & K3); [|by split].
    intros Hun. done.
  - apply Forall_cons in P2 as [Hp P2]. destruct (deliver_keeps maxSeg id maxSeg_bound id_bound p _ _ _ _ H2 H1 Hp) as (K1 & K2 & K3); [|by split].
    intros Hun. done.
Qed.
(** A step that keeps the stream usable keeps it healthy. *)
Lemma healthy_step q q' : healthy q → dstep q q' → usable q' = true → healthy q'.
Proof.
  intros [Ha Hu] Hs Hu'. split; [|done]. destruct (accounts_step q q' Ha) as [? _]; [|done..].
  destruct q as [[[a b] ch] rch]. apply usable_split in Hu as (Sa & Sb & _). by rewrite Sa Sb.
Qed.

Lemma deliver_registered p x y ch rch : direction y x (p :: ch) rch → stream_packet id p → sd_status x = Registered →
  ∃ c, deliver p x = with_conn c x ∧ st_readDone c = st_readDone (sd_conn x) ∧ write_refused c = write_refused (sd_conn x) ∧
       (close_packet p = false → st_peerErr c = st_peerErr (sd_conn x)).
Proof.
  intros Hd (typ & payload & -> & Ht & Hl) Hs. apply (no_violation maxSeg maxSeg_bound) in Hd. unfold data_of in Hd. unfold deliver, close_packet.
  rewrite parse_own // in Hd |- *. cbn [fr_typ fr_payload] in *. rewrite Hs.
  destruct (decide (typ = frameTypeStreamOpen)) as [->|Hno]. { exists (sd_conn x). split_and!; [by destruct x|done..]. }
  rewrite (bool_decide_eq_false_2 _ Hno) (bool_decide_eq_true_2 (Registered = _)) //. unfold ingest_locked. cbn [fr_typ fr_payload].
  destruct (decide (typ = frameTypeData)) as [->|Hnd].
  { rewrite bool_decide_eq_true_2 // in Hd |- *. destruct (Z.ltb_spec (st_recvAvail (sd_conn x)) (zlen payload)); [lia|]. by eexists. }
  rewrite (bool_decide_eq_false_2 _ Hnd). destruct (bool_decide (typ = frameTypeEOF)); [by eexists|].
  destruct (bool_decide (typ = frameTypeClose)).
  { eexists. split; [done|]. by destruct (st_peerErr (sd_conn x)), payload. }
  destruct (bool_decide (typ = frameTypeWindowUpdate)); [|by eexists]. eexists. split; [done|]. by destruct (4 <=? length payload)%nat.
Qed.

(** ** Quiescence *)

Lemma drain_data a b ch rch : healthy (a, b, ch, rch) → ∃ b', rtc dstep (a, b, ch, rch) (a, b', [], rch) ∧ healthy (a, b', [], rch).
Proof.
  revert b. induction ch as [|p ch IH]; intros b Hh; [exists b; split; [apply rtc_refl|done]|].
  pose proof (to_receiver p a b ch rch) as Hs. pose proof (healthy_step _ _ Hh Hs) as Hn.
  destruct Hh as [[H1 _ [P1 _]] (Sa & Sb & Ca & Cb & Rb & Wa & Ea & Lo & Li & Nc)%usable_split].
  destruct (deliver_registered p b a ch rch H1 (Forall_inv P1) Sb) as (c & Hc & Hrd & _). rewrite Hc in Hs Hn.
  destruct (IH (with_conn c b)) as (b' & Hr & Hb'); [|exists b'; split; [exact (rtc_l _ _ _ _ Hs Hr)|done]].
  apply Hn. apply usable_split. cbn [with_conn sd_status sd_pair_closed sd_conn sd_lost_in]. by rewrite Hrd.
Qed.

Lemma drain_grants a b rch : healthy (a, b, [], rch) → st_inbox (sd_conn b) = [] → sd_granting b = None →
  ∃ a', rtc dstep (a, b, [], rch) (a', b, [], []) ∧ healthy (a', b, [], []) ∧
        sd_writer a' = sd_writer a ∧ sd_sent a' = sd_sent a ∧ sd_reported a' = sd_reported a.
Proof.
  intros Hh Hin Hg. revert a Hh. induction rch as [|p rch IH]; intros a Hh; [exists a; split; [apply rtc_refl|done]|].
  pose proof (to_sender p a b [] rch) as Hs. pose proof (healthy_step _ _ Hh Hs) as Hn.
  destruct Hh as [[_ H2 [_ P2]] (Sa & Sb & Ca & Cb & Rb & Wa & Ea & Lo & Li & Nc)%usable_split].
  cbn [forallb] in Nc. apply andb_true_iff in Nc as [Np%negb_true_iff Nc].
  destruct (deliver_registered p a b rch [] H2 (Forall_inv P2) Sa) as (c & Hc & _ & Hw & He). rewrite Hc in Hs Hn.
  destruct (IH (with_conn c a)) as (a' & Hr & Ha'); [|exists a'; split; [exact (rtc_l _ _ _ _ Hs Hr)|done]].
  apply Hn. apply usable_split. cbn [with_conn sd_status sd_pair_closed sd_conn sd_lost_out]. by rewrite Hw He.
Qed.

Lemma window_not_close n : 0 ≤ n < 2 ^ 32 → close_packet (packet id frameTypeWindowUpdate (streamWindowPayload n)) = false.
Proof.
  intros _. unfold close_packet. by rewrite parse_own.
Qed.

Lemma drain_granting a b rch : healthy (a, b, [], rch) → ∃ b' rch', rtc dstep (a, b, [], rch) (a, b', [], rch') ∧ healthy (a, b', [], rch') ∧
  sd_granting b' = None ∧ st_inbox (sd_conn b') = st_inbox (sd_conn b).
Proof.
  intros Hh. destruct (sd_granting b) as [n|] eqn:Hg; [|exists b, rch; split; [apply rtc_refl|done]].
  assert (0 ≤ n < 2 ^ 32) as Hb.
  { destruct Hh as [[H1 _ _] _]. assert (0 ≤ n ≤ streamWindowSize) as Hn by (eapply grant_small; eassumption). unfold streamWindowSize in Hn. lia. }
  pose proof (hl_usable _ Hh) as (Sa & Sb & Ca & Cb & Rb & Wa & Ea & Lo & Li & Nc)%usable_split.
  assert (act (SendGrant true) b = Some (with_granting None (sd_got b) (sd_lost_in b) b, [packet id frameTypeWindowUpdate (streamWindowPayload n)])) as Ha.
  { unfold StreamLink.act. rewrite Sb bool_decide_eq_false_2 //. unfold act_read, goes_out. by rewrite Hg Cb. }
  pose proof (at_receiver _ a b _ [] rch _ Ha) as Hs. eexists _, _. split; [exact (rtc_once _ _ Hs)|]. split; [|done].
  apply (healthy_step _ _ Hh Hs). apply usable_split. cbn [with_granting sd_status sd_pair_closed sd_conn sd_lost_in]. split_and!; try done.
  rewrite forallb_app Nc. cbn [forallb]. by rewrite window_not_close.
Qed.

Lemma drain_inbox a b rch : healthy (a, b, [], rch) → sd_granting b = None →
  ∃ b', rtc dstep (a, b, [], rch) (a, b', [], rch) ∧ healthy (a, b', [], rch) ∧ st_inbox (sd_conn b') = [].
Proof.
  intros Hh Hg. destruct (st_inbox (sd_conn b)) as [|x l] eqn:Hin; [exists b; split; [apply rtc_refl|done]|].
  pose proof (hl_usable _ Hh) as (Sa & Sb & Ca & Cb & Rb & Wa & Ea & Lo & Li & Nc)%usable_split.
  destruct (read_locked (sd_conn b) (length (x :: l))) as [| | |data u c] eqn:Hr; try (unfold read_locked in Hr; by rewrite Rb Hin in Hr).
  assert (act (Read (length (x :: l))) b = Some (with_granting u (sd_got b ++ data) (sd_lost_in b) (with_conn c b), [])) as Ha.
  { unfold StreamLink.act. rewrite Sb bool_decide_eq_false_2 //. unfold act_read. by rewrite Hg Hr. }
  pose proof (at_receiver _ a b _ [] rch _ Ha) as Hs. rewrite app_nil_r in Hs.
  assert (st_inbox c = [] ∧ st_readDone c = false) as [Hc1 Hc2].
  { unfold read_locked in Hr. rewrite Rb Hin drop_all in Hr. by injection Hr as _ _ <-. }
  eexists. split; [exact (rtc_once _ _ Hs)|]. split; [|done]. apply (healthy_step _ _ Hh Hs). apply usable_split. done.
Qed.

(** Everything that is on its way can be delivered, read and granted back. *)
Lemma settle a b ch rch : healthy (a, b, ch, rch) → ∃ a' b', rtc dstep (a, b, ch, rch) (a', b', [], []) ∧ healthy (a', b', [], []) ∧
  sd_writer a' = sd_writer a ∧ sd_sent a' = sd_sent a ∧ sd_reported a' = sd_reported a ∧ sd_got b' = sd_sent a' ∧
  (held (sd_writer a) = 0 → maxPacketPayload ≤ st_peerWindow (sd_conn a')).
Proof.
  intros H0. destruct (drain_data _ _ _ _ H0) as (b1 & R1 & H1). destruct (drain_granting _ _ _ H1) as (b2 & r2 & R2 & H2 & G2 & _).
  destruct (drain_inbox _ _ _ H2 G2) as (b3 & R3 & H3 & I3). destruct (drain_granting _ _ _ H3) as (b4 & r4 & R4 & H4 & G4 & I4).
  rewrite I3 in I4. destruct (drain_grants _ _ _ H4 I4 G4) as (a5 & R5 & H5 & W5 & S5 & P5).
  exists a5, b4. split; [|split; [done|]].
  { do 3 (etrans; [eassumption|]). etrans; [exact R4|exact R5]. }
  destruct H5 as [[[] _ _] (Sa & Sb & Ca & Cb & Rb & Wa & Ea & Lo & Li & Nc)%usable_split].
  split_and!; [done..| |].
  - assert (listening b4) as Hl by (unfold listening; by rewrite Sb). pose proof (dr_whole Hl Rb) as Hg. by rewrite I4 !app_nil_r in Hg.
  - intros Hh. rewrite W5 Hh G4 Lo Li in dr_flow. rewrite I4 (dr_discarded Rb) in dr_window. change (zlen (data_bytes [])) with 0 in dr_flow.
    change (grants []) with 0 in dr_flow. change (zlen []) with 0 in dr_window. simpl in dr_flow.
    clear -dr_flow dr_window dr_signs. unfold streamWindowSize, windowUpdateThreshold, maxPacketPayload in *. lia.
Qed.

(** One segment goes out. *)
Lemma send_segment a b p i : healthy (a, b, [], []) → sd_writer a = WLoop p i → maxPacketPayload ≤ st_peerWindow (sd_conn a) →
  let j := Nat.min (i + maxSeg) (length p) in
  ∃ a' ch, rtc dstep (a, b, [], []) (a', b, ch, []) ∧ healthy (a', b, ch, []) ∧
    (if (length p <=? j)%nat then sd_writer a' = WIdle ∧ sd_reported a' = sd_reported a ++ p
     else sd_writer a' = WLoop p j ∧ sd_reported a' = sd_reported a).
Proof.
  intros Hh Hw Hwin j. pose proof (hl_usable _ Hh) as (Sa & Sb & Ca & Cb & Rb & Wa & Ea & Lo & Li & Nc)%usable_split.
  pose proof (dr_writer _ _ _ _ _ (ac_out _ (hl_accounts _ Hh))) as Hok. rewrite Hw in Hok. cbn in Hok.
  assert (zlen (slice p i j) ≤ maxPacketPayload) as Hseg. { apply (segment_bound maxSeg maxSeg_bound). destruct maxSeg_bound. subst j. cbn. lia. }
  destruct (take_window (sd_conn a) (slice p i j)) as [| |c] eqn:Ht;
    try (unfold take_window in Ht; rewrite Wa Ea in Ht; case_match eqn:Hlt; [apply Z.ltb_lt in Hlt; lia|done]).
  set (a1 := with_writer (WHold p i j) (sd_sent a) (sd_reported a) (sd_lost_out a) (with_conn c a)).
  assert (write_refused c = false ∧ st_peerErr c = None) as [Hc1 Hc2].
  { unfold take_window in Ht. rewrite Wa Ea in Ht. case_match; [done|]. by injection Ht as <-. }
  assert (act TakeWindow a = Some (a1, [])) as A1.
  { unfold StreamLink.act. rewrite Sa bool_decide_eq_false_2 //. unfold act_write. rewrite Hw. fold j. by rewrite Ht. }
  pose proof (at_sender _ _ _ b [] [] _ A1) as S1. cbn [app] in S1.
  assert (healthy (a1, b, [], [])) as H1 by (apply (healthy_step _ _ Hh S1), usable_split; done).
  assert (act (SendData true) a1 = Some (writing p j (sd_sent a1 ++ slice p i j) a1, [packet id frameTypeData (slice p i j)])) as A2.
  { unfold StreamLink.act. cbn [sd_status a1 with_writer with_conn]. rewrite Sa bool_decide_eq_false_2 //. unfold act_write, goes_out.
    cbn [sd_writer a1 with_writer sd_pair_closed with_conn]. by rewrite Ca. }
  pose proof (at_sender _ _ _ b [] [] _ A2) as S2. cbn [app] in S2.
  eexists _, _. split; [etrans; [exact (rtc_once _ _ S1)|exact (rtc_once _ _ S2)]|]. split.
  - apply (healthy_step _ _ H1 S2), usable_split. unfold writing. destruct (_ <=? _)%nat; done.
  - unfold writing. by destruct (_ <=? _)%nat.
Qed.

Lemma write_loop n : ∀ a b ch rch p i, (length p - i ≤ n)%nat → healthy (a, b, ch, rch) → sd_writer a = WLoop p i →
  ∃ a' b', rtc dstep (a, b, ch, rch) (a', b', [], []) ∧ healthy (a', b', [], []) ∧
    sd_writer a' = WIdle ∧ sd_reported a' = sd_reported a ++ p ∧ sd_got b' = sd_sent a'.
Proof.
  induction n as [|n IH]; intros a b ch rch p i Hn Hh Hw;
    pose proof (dr_writer _ _ _ _ _ (ac_out _ (hl_accounts _ Hh))) as Hok; rewrite Hw in Hok; cbn in Hok; [lia|].
  destruct (settle _ _ _ _ Hh) as (a1 & b1 & R1 & H1 & W1 & _ & P1 & _ & Hwin). rewrite Hw in W1 Hwin. specialize (Hwin eq_refl).
  destruct (send_segment _ _ _ _ H1 W1 Hwin) as (a2 & ch2 & R2 & H2 & Hcase).
  destruct (Nat.leb_spec (length p) (Nat.min (i + maxSeg) (length p))) as [Hj|Hj]; destruct Hcase as [W2 P2].
  - destruct (settle _ _ _ _ H2) as (a3 & b3 & R3 & H3 & W3 & _ & P3 & G3 & _). exists a3, b3. rewrite W2 in W3.
    split_and!; [etrans; [exact R1|etrans; [exact R2|exact R3]]|done..| |done]. congruence.
  - assert (length p - Nat.min (i + maxSeg) (length p) ≤ n)%nat as Hn' by (destruct maxSeg_bound; lia).
    destruct (IH a2 b1 ch2 [] p _ Hn' H2 W2) as (a3 & b3 & R3 & H3 & W3 & P3 & G3).
    exists a3, b3. split_and!; [etrans; [exact R1|etrans; [exact R2|exact R3]]|done..| |done]. congruence.
Qed.

(** C31 No deadlock: on a usable stream a [Write] of any length, from any
    reachable state and however much window is used up, can run to its end with
    the other side reading: it reports every byte as written and the reader has
    received all of them. *)
Theorem write_completes port w d p : runs (start id port) w →
  let '(a, b, ch, rch) := ends d w in
  usable (a, b, ch, rch) = true → sd_writer a = WIdle →
  ∃ w', runs w w' ∧ let '(a', b', _, _) := ends d w' in
    sd_writer a' = WIdle ∧ sd_reported a' = sd_reported a ++ p ∧ sd_got b' = sd_reported a'.
Proof.
  intros Hr. pose proof (link_inv_runs maxSeg id maxSeg_bound id_bound _ _ Hr) as Hi. pose proof (dsteps_world d w) as Hdw.
  assert (let '(a, b, ch, rch) := ends d w in accounts (a, b, ch, rch)) as Hacc by (destruct Hi as [? ? [? ?] _]; by destruct d).
  destruct (ends d w) as [[[a b] ch] rch]. intros Hu Hw. assert (healthy (a, b, ch, rch)) as Hh by by split.
  assert (∃ a' b', rtc dstep (a, b, ch, rch) (a', b', [], []) ∧ healthy (a', b', [], []) ∧
    sd_writer a' = WIdle ∧ sd_reported a' = sd_reported a ++ p ∧ sd_got b' = sd_sent a') as (a' & b' & R & H & W & P & G).
  { pose proof (hl_usable _ Hh) as (Sa & _)%usable_split.
    assert (act (Write p) a = Some (writing p 0 (sd_sent a) a, [])) as Ha.
    { unfold StreamLink.act. rewrite Sa bool_decide_eq_false_2 //. unfold act_write. by rewrite Hw. }
    pose proof (at_sender _ _ _ b ch rch _ Ha) as Hs. rewrite app_nil_r in Hs.
    assert (healthy (writing p 0 (sd_sent a) a, b, ch, rch)) as Hh1.
    { apply (healthy_step _ _ Hh Hs). apply usable_split in Hu. apply usable_split. unfold writing. destruct (_ <=? _)%nat; done. }
    unfold writing in Hs, Hh1. destruct (Nat.leb_spec (length p) 0) as [Hp|Hp].
    - destruct (settle _ _ _ _ Hh1) as (a' & b' & R & H & W & S & P & G & _). exists a', b'. split; [exact (rtc_l _ _ _ _ Hs R)|done].
    - destruct (write_loop _ _ _ _ _ p 0 (le_n _) Hh1 eq_refl) as (a' & b' & R & H & W & P & G). exists a', b'. split; [exact (rtc_l _ _ _ _ Hs R)|done]. }
  destruct (Hdw _ R) as (w' & Hrw & He). exists w'. split; [done|]. rewrite He. split_and!; [done..|].
  pose proof (dr_sent _ _ _ _ _ (ac_out _ (hl_accounts _ H))) as Hs. rewrite W app_nil_r in Hs. congruence.
Qed.

(** ** A receiver that has stopped reading *)

Definition segment (p : bytes) (i : nat) : bytes := slice p i (Nat.min (i + maxSeg) (length p)).
Definition ended (s : side) : Prop := write_refused (sd_conn s) = true ∨ st_peerErr (sd_conn s) ≠ None.
Definition waiting (p : bytes) (i : nat) (s : side) : Prop := sd_writer s = WLoop p i ∧ st_peerWindow (sd_conn s) < zlen (segment p i).
Definition deaf (b : side) (rch : list bytes) : Prop := st_readDone (sd_conn b) = true ∧ sd_granting b = None ∧ grants rch = 0.

Lemma act_ended e a a' out : act e a = Some (a', out) → ended a → ended a'.
Proof.
  intros Hact. assert (∀ c : streamConn, st_closed c = st_closed (sd_conn a) → st_writeEOF c = st_writeEOF (sd_conn a) → st_peerErr c = st_peerErr (sd_conn a) →
    sd_conn a' = c → ended a → ended a') as Hsame.
  { unfold ended, write_refused. intros c H1 H2 H3 ->. by rewrite H1 H2 H3. }
  unfold StreamLink.act in Hact. destruct e; try (case_bool_decide; [done|]); cbn [act_write act_read act_close act_pair] in Hact;
    unfold writing, begin_end, take_window, read_locked, close_write, goes_out in Hact; repeat case_match; simplify_eq;
    try (intros He; eapply Hsame; [| | |reflexivity|exact He]; cbn; congruence).
  all: intros _; unfold ended, write_refused; cbn; rewrite ?orb_true_r; by [left|right].
Qed.

Lemma ingest_keeps s f c : ingest_locked s f = Some c →
  write_refused c = write_refused s ∧ st_readDone c = st_readDone s ∧ (st_peerErr s ≠ None → st_peerErr c ≠ None).
Proof. unfold ingest_locked, write_refused. intros Hi. repeat case_match; simplify_eq; cbn; split_and!; congruence. Qed.

Lemma deliver_conn p s : (∃ f c, ingest_locked (sd_conn s) f = Some c ∧ sd_conn (deliver p s) = c) ∨ sd_conn (deliver p s) = sd_conn s.
Proof.
  unfold deliver. destruct (parseFrame p) as [f n| |]; [|by right..]. case_bool_decide; [by case_bool_decide; right|].
  case_bool_decide; [|by right]. destruct (ingest_locked (sd_conn s) f) as [c|] eqn:Hi; [left; by exists f, c|].
  right. unfold begin_end. by destruct (sd_ender s).
Qed.

Lemma deliver_ended p a : ended a → ended (deliver p a).
Proof.
  unfold ended. destruct (deliver_conn p a) as [(f & c & Hi & ->)| ->]; [|done]. destruct (ingest_keeps _ _ _ Hi) as (-> & _ & Hk). intuition.
Qed.

Lemma act_waiting e p i a a' out : act e a = Some (a', out) → waiting p i a → ended a' ∨ waiting p i a'.
Proof.
  intros Hact [Hw Hwin]. unfold ended, waiting. unfold StreamLink.act in Hact.
  destruct e; try (case_bool_decide; [done|]); cbn [act_write act_read act_close act_pair] in Hact; rewrite ?Hw in Hact; try done.
  2-10: unfold begin_end, read_locked, close_write, goes_out in Hact; repeat case_match; simplify_eq; cbn; by auto.
  unfold take_window in Hact. destruct (write_refused (sd_conn a)) eqn:Hr; [simplify_eq; by left; left|].
  destruct (st_peerErr (sd_conn a)) eqn:He; [simplify_eq; left; right; cbn; by rewrite He|].
  destruct (Z.ltb_spec (st_peerWindow (sd_conn a)) (zlen (slice p i ((i + maxSeg) `min` length p)))); [done|]. unfold segment in Hwin. lia.
Qed.

Lemma deliver_window p s : sd_writer (deliver p s) = sd_writer s ∧ sd_granting (deliver p s) = sd_granting s ∧
  (st_peerWindow (sd_conn (deliver p s)) = st_peerWindow (sd_conn s) ∨ st_peerWindow (sd_conn (deliver p s)) = st_peerWindow (sd_conn s) + grant_of p).
Proof.
  split_and!; [by unfold deliver, begin_end; repeat case_match..|]. unfold deliver, grant_of.
  destruct (parseFrame p) as [f n| |]; [|by left..]. case_bool_decide; [case_bool_decide; by left|].
  case_bool_decide; [|by left]. destruct (ingest_locked (sd_conn s) f) as [c|] eqn:Hi; [|left; unfold begin_end; by destruct (sd_ender s)].
  cbn [with_conn sd_conn]. unfold ingest_locked in Hi. repeat case_match; simplify_eq; cbn; auto.
Qed.

Lemma deliver_waiting p q i a rch : waiting q i a → grants (p :: rch) = 0 → waiting q i (deliver p a) ∧ grants rch = 0.
Proof.
  intros [Hw Hwin] Hg. rewrite grants_cons in Hg. pose proof (grant_of_nonneg p). pose proof (grants_nonneg rch).
  destruct (deliver_window p a) as (Hw' & _ & Hc). unfold waiting. rewrite Hw'. split; [split; [done|]|]; lia.
Qed.

Lemma act_deaf e b a rch ch b' out : act e b = Some (b', out) → direction b a rch ch → deaf b rch → deaf b' (rch ++ out).
Proof.
  intros Hact Hd (Hr & Hg & H0). unfold deaf. rewrite grants_app H0.
  assert (∀ typ payload, byte_z frameTypeData ≤ byte_z typ < byte_z frameTypeWindowUpdate → zlen payload ≤ maxPacketPayload →
    grants [packet id typ payload] = 0) as Hzero.
  { intros typ payload Ht Hp. rewrite grants_one. unfold grant_of. rewrite parse_own; [done|lia|done|]. cbn [fr_typ].
    rewrite bool_decide_eq_false_2 //. intros ->. lia. }
  unfold StreamLink.act in Hact. destruct e; try (case_bool_decide; [done|]); cbn [act_write act_read act_close act_pair] in Hact; rewrite ?Hg in Hact; try done.
  3: { pose proof (dr_writer _ _ _ _ _ Hd) as Hok. destruct (sd_writer b) as [| |q i j]; [done..|]. unfold writing in Hact.
       apply (segment_bound maxSeg maxSeg_bound) in Hok.
       repeat case_match; simplify_eq; rewrite ?Hzero //. }
  3: { unfold read_locked in Hact. rewrite Hr in Hact. by simplify_eq. }
  7: { destruct (sd_ender b) as [|e| | |]; simplify_eq; try done. destruct (close_payload_bounded (se_Reason e) (se_Detail e)).
       case_match; rewrite ?Hzero //. }
  5: { destruct (sd_eof_due b); simplify_eq. case_match; rewrite ?Hzero //. }
  all: unfold writing, begin_end, take_window, close_write, close_read in Hact; repeat case_match; simplify_eq; cbn; done.
Qed.

(** The state from which the writer never comes back while both ends stay open. *)
Definition stuck (p : bytes) (i : nat) (q : quad) : Prop :=
  accounts q ∧ let '(a, b, ch, rch) := q in sd_status a ≠ Unopened ∧ sd_status b ≠ Unopened ∧ deaf b rch ∧ (ended a ∨ waiting p i a).

Lemma stuck_step p i q q' : stuck p i q → dstep q q' → stuck p i q'.
Proof.
  intros [Hacc Hst] Hs. destruct q as [[[a b] ch] rch]. destruct Hst as (Oa & Ob & Hdeaf & Hw).
  destruct (accounts_step _ q' Hacc (conj Oa Ob) Hs) as [Hacc' Hop]. split; [done|]. destruct q' as [[[a' b'] ch'] rch']. destruct Hop as [Oa' Ob'].
  split; [done|]. split; [done|]. inversion Hs as [e ? ? ? ? ? out Ha|e ? ? ? ? ? out Ha| |]; subst.
  - split; [done|]. destruct Hw as [Hw|Hw]; [left; exact (act_ended _ _ _ _ Ha Hw)|exact (act_waiting _ _ _ _ _ _ Ha Hw)].
  - split; [|done]. exact (act_deaf _ _ _ _ _ _ _ Ha (ac_in _ Hacc) Hdeaf).
  - split; [|done]. destruct Hdeaf as (Hr & Hg & H0). destruct (deliver_window p0 b) as (_ & Hg' & _). split_and!; [|by rewrite Hg'|done].
    destruct (deliver_conn p0 b) as [(f & c & Hi & ->)| ->]; [|done]. by destruct (ingest_keeps _ _ _ Hi) as (_ & -> & _).
  - destruct Hdeaf as (Hr & Hg & H0). rewrite grants_cons in H0. pose proof (grant_of_nonneg p0). pose proof (grants_nonneg rch').
    split; [split_and!; [done..|lia]|]. destruct Hw as [Hw|Hw]; [left; by apply deliver_ended|]. right.
    apply (deliver_waiting p0 p i a rch' Hw). rewrite grants_cons. lia.
Qed.

Lemma world_dstep d w w' l : step maxSeg id l w = Some w' → dstep (ends d w) (ends d w').
Proof.
  destruct w as [wl wr lr rl]. destruct l as [e|e| |]; unfold step; cbn [wd_left wd_right wd_lr wd_rl].
  1-2: destruct (StreamLink.act _ _ e _) as [[s out]|] eqn:Ha; intros [= <-]; destruct d; cbn; econstructor; exact Ha.
  - destruct rl as [|p rest]; intros [= <-]; destruct d; cbn; constructor.
  - destruct lr as [|p rest]; intros [= <-]; destruct d; cbn; constructor.
Qed.

(** Once the reader has aborted its side and no window is on its way, a writer
    that waits for window waits for ever: in every continuation it is still
    waiting in the same place, unless one of the ends closes the stream. *)
Theorem close_read_strands_writer port w d p i : runs (start id port) w →
  let '(a, b, ch, rch) := ends d w in
  sd_status a ≠ Unopened → sd_status b ≠ Unopened →
  st_readDone (sd_conn b) = true → sd_granting b = None → grants rch = 0 →
  sd_writer a = WLoop p i → take_window (sd_conn a) (segment p i) = Blocked →
  ∀ w', runs w w' →
  let '(a', _, _, _) := ends d w' in
  write_refused (sd_conn a') = true ∨ st_peerErr (sd_conn a') ≠ None ∨
  sd_writer a' = WLoop p i ∧ take_window (sd_conn a') (segment p i) = Blocked.
Proof.
  intros Hr. pose proof (link_inv_runs maxSeg id maxSeg_bound id_bound _ _ Hr) as Hi.
  assert (accounts (ends d w)) as Hacc by (destruct Hi as [? ? [? ?] _]; by destruct d).
  destruct (ends d w) as [[[a b] ch] rch] eqn:He. intros Oa Ob Hrd Hg H0 Hw Ht w' Hr'.
  assert (stuck p i (ends d w)) as Hst.
  { rewrite He. split; [done|]. split_and!; [done..|]. right. split; [done|]. unfold take_window in Ht. repeat case_match; simplify_eq. by apply Z.ltb_lt. }
  clear -Hr' Hst maxSeg_bound id_bound. induction Hr' as [w|w w1 w2 [l Hs] _ IH].
  - destruct (ends d w) as [[[a b] ch] rch]. destruct Hst as (_ & _ & _ & _ & [[?|?]|[Hw Hwin]]); [by auto..|].
    unfold take_window. destruct (write_refused (sd_conn a)); [by auto|]. destruct (st_peerErr (sd_conn a)); [by auto|]. right; right.
    split; [done|]. by rewrite (proj2 (Z.ltb_lt _ _)).
  - apply IH. exact (stuck_step _ _ _ _ Hst (world_dstep d _ _ _ Hs)).
Qed.
End live.

(** ** Witnesses *)

Fixpoint run_labels (maxSeg : nat) (id : Z) (ls : list label) (w : world) : option world :=
  match ls with
  | [] => Some w
  | l :: ls' => w' ← step maxSeg id l w; run_labels maxSeg id ls' w'
  end.

Lemma run_labels_runs maxSeg id ls w w' : run_labels maxSeg id ls w = Some w' → runs maxSeg id w w'.
Proof.
  revert w. induction ls as [|l ls IH]; simpl; intros w; [intros [= ->]; apply rtc_refl|].
  destruct (step maxSeg id l w) as [w1|] eqn:Hs; [|done]. cbn. intros H. refine (rtc_l _ _ w1 _ _ (IH w1 H)). by exists l.
Qed.

Definition full : nat := Z.to_nat 16384.
Definition example_start : world := start 1 8080.
Definition after (ls : list label) : world := default example_start (run_labels full 1 ls example_start).

(** A write of 20000 bytes, partly sent and read; then the half-close, read to
    its end; and a writer whose reader has gone. *)
Definition some_bytes (n : Z) : bytes := replicate (Z.to_nat n) x2a.
Definition one_segment : list label := [AtLeft TakeWindow; AtLeft (SendData true); ToRight].
Definition example_sending : list label := ToRight :: AtLeft (Write (some_bytes 20000)) :: one_segment ++ [AtRight (Read (Z.to_nat 1000)); AtLeft TakeWindow].
Definition example_closing : list label :=
  ToRight :: AtLeft (Write (some_bytes 5)) :: one_segment ++ [AtLeft CloseWrite; AtLeft (SendEOF true); ToRight; AtRight (Read 10)].
Definition example_aborting : list label :=
  ToRight :: AtLeft (Write (some_bytes 70000)) :: AtRight CloseRead :: one_segment ++ one_segment ++ one_segment ++ one_segment.

Lemma full_segment : segment_size full.
Proof. split; [apply Nat.ltb_lt|]; by vm_compute. Qed.
Lemma example_id : stream_id 1.
Proof. unfold stream_id. lia. Qed.

Lemma after_runs ls : runs full 1 example_start (after ls).
Proof.
  unfold after. destruct (run_labels full 1 ls example_start) as [w|] eqn:H; [by apply run_labels_runs in H|apply rtc_refl].
Qed.

Lemma flow_control_safe_witness :
  zlen (st_inbox (sd_conn (wd_right (after example_sending)))) = 15384 ∧ held (sd_writer (wd_left (after example_sending))) = 3616 ∧
  st_peerWindow (sd_conn (wd_left (after example_sending))) ≤ streamWindowSize.
Proof.
  split; [by vm_compute|]. split; [by vm_compute|].
  apply (flow_control_safe full 1 full_segment example_id 8080 (after example_sending) true (after_runs example_sending)).
Defined.

Lemma stream_integrity_witness :
  sd_got (wd_right (after example_sending)) `prefix_of` sd_sent (wd_left (after example_sending)) ∧
  length (sd_got (wd_right (after example_sending))) = Z.to_nat 1000.
Proof.
  split; [|by vm_compute].
  apply (stream_integrity full 1 full_segment example_id 8080 (after example_sending) true (after_runs example_sending)).
Defined.

(** A state the steps lead to, known by a check of it. *)
Lemma reach ls (P : world → bool) :
  match run_labels full 1 ls example_start with Some w => P w | None => false end = true → ∃ w, runs full 1 example_start w ∧ P w = true.
Proof.
  destruct (run_labels full 1 ls example_start) as [w|] eqn:H; [|done]. intros HP. exists w. split; [by apply run_labels_runs in H|done].
Qed.

Definition at_eof (w : world) : bool :=
  match read_locked (sd_conn (wd_right w)) 10 with ReadError ErrEOF => true | _ => false end
  && sd_clean_eof (wd_left w) && bool_decide (sd_got (wd_right w) = some_bytes 5).

Lemma eof_means_complete_witness :
  ∃ w, runs full 1 example_start w ∧ at_eof w = true ∧ sd_reported (wd_left w) = some_bytes 5 ∧ sd_got (wd_right w) = some_bytes 5.
Proof.
  destruct (reach example_closing at_eof ltac:(vm_compute; reflexivity)) as (w & Hr & HP). exists w. split; [exact Hr|]. split; [exact HP|].
  apply andb_true_iff in HP as [[HR Hc]%andb_true_iff Hg%bool_decide_eq_true].
  assert (read_locked (sd_conn (wd_right w)) 10 = ReadError ErrEOF) as Hread by (destruct (read_locked _ _) as [|[]| |]; done).
  destruct (eof_means_complete full 1 full_segment example_id 8080 w true 10 Hr Hread Hc) as [H _]. cbn in H. split; [|exact Hg]. by rewrite -H.
Defined.

Lemma write_completes_witness : ∃ w', runs full 1 (after [ToRight]) w' ∧
  sd_reported (wd_left w') = some_bytes 100000 ∧ sd_got (wd_right w') = some_bytes 100000.
Proof.
  destruct (write_completes full 1 full_segment example_id 8080 (after [ToRight]) true (some_bytes 100000) (after_runs [ToRight])
    ltac:(vm_compute; reflexivity) ltac:(vm_compute; reflexivity)) as (w' & Hr & _ & Hp & Hg).
  exists w'. split; [exact Hr|]. split; [exact Hp|]. rewrite Hg. exact Hp.
Defined.

Definition blocked_now (a : side) : bool :=
  match sd_writer a with
  | WLoop p i => match take_window (sd_conn a) (segment full p i) with Blocked => true | _ => false end
  | _ => false
  end.
Definition stranded (w : world) : bool :=
  bool_decide (sd_status (wd_left w) = Registered) && bool_decide (sd_status (wd_right w) = Registered) && st_readDone (sd_conn (wd_right w)) &&
  bool_decide (sd_granting (wd_right w) = None) && (grants (wd_rl w) =? 0) && blocked_now (wd_left w).

Lemma close_read_strands_writer_witness : ∃ w, runs full 1 example_start w ∧ stranded w = true ∧
  ∀ w', runs full 1 w w' →
  write_refused (sd_conn (wd_left w')) = true ∨ st_peerErr (sd_conn (wd_left w')) ≠ None ∨ blocked_now (wd_left w') = true.
Proof.
  destruct (reach example_aborting stranded ltac:(vm_compute; reflexivity)) as (w & Hr & HP). exists w. split; [exact Hr|]. split; [exact HP|].
  unfold stranded in HP. rewrite !andb_true_iff !bool_decide_eq_true Z.eqb_eq in HP. destruct HP as (((((H1 & H2) & H3) & H4) & H5) & Hb).
  unfold blocked_now in Hb. destruct (sd_writer (wd_left w)) as [|p i|] eqn:Hw; [done| |done].
  destruct (take_window _ (segment full p i)) eqn:Ht; [|done..]. intros w' Hr'.
  assert (sd_status (wd_left w) ≠ Unopened) as H1' by by rewrite H1. assert (sd_status (wd_right w) ≠ Unopened) as H2' by by rewrite H2.
  pose proof (close_read_strands_writer full 1 full_segment example_id 8080 w true p i Hr H1' H2' H3 H4 H5 Hw Ht w' Hr') as H. cbn [ends] in H.
  unfold blocked_now. destruct H as [H|[H|[-> ->]]]; [by left|right; by left|right; by right].
Defined.
