(* ===== verification/Concur.v ===== *)
(** * Goroutines

    A goroutine is a program made of atomic steps: the code between two points
    at which another goroutine may run.  A step sees the shared state and an
    input that stands for everything the program does not decide (what arrives,
    whether a call fails, which ready case a [select] takes); it may wait, and it
    may start another goroutine.  Programs are written in continuation-passing
    style, so that a method of the source is one definition that reads like it.

    The second half is a rely-guarantee logic: a program is safe in a state when
    each of its steps, from any state the others may have moved to, keeps the
    invariant and moves the state only forward. *)

From S2P Require Import Prelude.

Section concur.
Context {St Input : Type}.

Inductive prog :=
| Stop
| Step (f : Input → St → option (St * option prog * prog)).

Definition P (A : Type) : Type := (A → prog) → prog.

#[global] Instance P_ret : MRet P := fun A a k => k a.
#[global] Instance P_bind : MBind P := fun A B f m k => m (fun a => f a k).

(** One atomic step; [None] when it has to wait. *)
Definition atomic {A} (f : Input → St → option (St * A)) : P A := fun k =>
  Step (fun c s => match f c s with Some (s', a) => Some (s', None, k a) | None => None end).

(** A step that never waits and reads nothing from outside. *)
Definition locked {A} (f : St → St * A) : P A := atomic (fun _ s => Some (f s)).

(** [go m()] *)
Definition go (m : P unit) : P unit := fun k => Step (fun _ s => Some (s, Some (m (fun _ => Stop)), k tt)).

(** The goroutine does nothing any more. *)
Definition halt {A} : P A := fun _ => Stop.

Fixpoint for_each {A} (f : A → P unit) (l : list A) : P unit :=
  match l with
  | [] => mret tt
  | x :: l' => f x ≫= fun _ => for_each f l'
  end.

(** A goroutine of its own. *)
Definition thread (m : P unit) : prog := m (fun _ => Stop).

(** ** Runs *)

(** The goroutine at [i] makes a step on the input [c]. *)
Definition run_step (i : nat) (c : Input) (w : St * list prog) : option (St * list prog) :=
  match w.2 !! i with
  | Some (Step f) =>
    match f c w.1 with
    | Some (s', spawned, p') => Some (s', <[i := p']> w.2 ++ match spawned with Some q => [q] | None => [] end)
    | None => None
    end
  | _ => None
  end.

(** A move of the program, of its surroundings, or a call that begins. *)
Inductive moves (env : St → St → Prop) (api : prog → Prop) : St * list prog → St * list prog → Prop :=
| moves_run i c w w' : run_step i c w = Some w' → moves env api w w'
| moves_env s s' ts : env s s' → moves env api (s, ts) (s', ts)
| moves_call s ts p : api p → moves env api (s, ts) (s, ts ++ [p]).

(** ** Safety *)

Context (Inv : St → Prop) (grows : St → St → Prop) `{!PreOrder grows}.

Fixpoint safe (p : prog) (s : St) : Prop :=
  match p with
  | Stop => True
  | Step f => ∀ c s1, grows s s1 → Inv s1 →
    match f c s1 with
    | None => True
    | Some (s2, spawned, p') =>
      Inv s2 ∧ grows s1 s2 ∧ match spawned with Some q => safe q s2 | None => True end ∧ safe p' s2
    end
  end.

Lemma safe_grows p s s' : safe p s → grows s s' → safe p s'.
Proof. destruct p as [|f]; [done|]. cbn. intros H Hg c s1 Hg1. apply H. etransitivity; eassumption. Qed.

(** [m], called in [s], keeps the rules and returns only what [Q] allows. *)
Definition spec {A} (m : P A) (s : St) (Q : A → St → Prop) : Prop :=
  ∀ k, (∀ a s', grows s s' → Q a s' → safe (k a) s') → safe (m k) s.

Lemma spec_ret {A} (a : A) s (Q : A → St → Prop) : Q a s → spec (mret a) s Q.
Proof. intros HQ k Hk. by apply Hk; [reflexivity|]. Qed.

Lemma spec_bind {A B} (m : P A) (f : A → P B) s (Q : B → St → Prop) :
  spec m s (fun a s' => spec (f a) s' Q) → spec (m ≫= f) s Q.
Proof.
  intros Hm k Hk. apply Hm. intros a s1 Hg Ha. apply Ha. intros b s2 Hg2. apply Hk. etransitivity; eassumption.
Qed.

Lemma spec_weaken {A} (m : P A) s (Q Q' : A → St → Prop) :
  spec m s Q → (∀ a s', grows s s' → Q a s' → Q' a s') → spec m s Q'.
Proof. intros Hm HQ k Hk. apply Hm. intros a s' Hg Ha. apply Hk; [done|]. by apply HQ. Qed.

Lemma spec_atomic {A} (f : Input → St → option (St * A)) s (Q : A → St → Prop) :
  (∀ c s1 s2 a, grows s s1 → Inv s1 → f c s1 = Some (s2, a) → Inv s2 ∧ grows s1 s2 ∧ Q a s2) →
  spec (atomic f) s Q.
Proof.
  intros H k Hk c s1 Hg Hi. destruct (f c s1) as [[s2 a]|] eqn:E; [|done].
  destruct (H c s1 s2 a Hg Hi E) as (Hi2 & Hg2 & Ha). split_and!; [done..|]. apply Hk; [|done]. etransitivity; eassumption.
Qed.

Lemma spec_locked {A} (f : St → St * A) s (Q : A → St → Prop) :
  (∀ s1, grows s s1 → Inv s1 → Inv (f s1).1 ∧ grows s1 (f s1).1 ∧ Q (f s1).2 (f s1).1) → spec (locked f) s Q.
Proof. intros H. apply spec_atomic. intros c s1 s2 a Hg Hi [= E]. destruct (H s1 Hg Hi) as (?&?&?). by rewrite E in H0 H1 H2. Qed.

Lemma spec_go (m : P unit) s (Q : unit → St → Prop) :
  spec m s (fun _ _ => True) → (∀ s', grows s s' → Inv s' → Q tt s') → spec (go m) s Q.
Proof.
  intros Hm HQ k Hk c s1 Hg Hi. split_and!; [done|reflexivity| |].
  - apply (safe_grows _ s); [|done]. by apply Hm.
  - apply Hk; [done|]. by apply HQ.
Qed.

Lemma spec_halt {A} s (Q : A → St → Prop) : spec halt s Q.
Proof. by intros k Hk. Qed.

Lemma spec_for_each {A} (f : A → P unit) l s (K : St → Prop) :
  K s → (∀ x s', x ∈ l → grows s s' → K s' → spec (f x) s' (fun _ => K)) →
  spec (for_each f l) s (fun _ => K).
Proof.
  revert s. induction l as [|x l IH]; intros s HK Hf; cbn [for_each]; [by apply spec_ret|].
  apply spec_bind. eapply spec_weaken; [apply Hf; [left|reflexivity|done]|].
  intros ? s' Hg HK'. apply IH; [done|]. intros y s'' Hy Hg'. apply Hf; [by right|]. etransitivity; eassumption.
Qed.

Lemma spec_thread (m : P unit) s : spec m s (fun _ _ => True) → safe (thread m) s.
Proof. intros Hm. by apply Hm. Qed.

(** A pool of safe goroutines keeps the invariant, whatever order they run in. *)
Theorem moves_safe env api w w' :
  (∀ s s', Inv s → env s s' → Inv s' ∧ grows s s') → (∀ p s, Inv s → api p → safe p s) →
  rtc (moves env api) w w' →
  Inv w.1 → Forall (fun p => safe p w.1) w.2 → Inv w'.1 ∧ Forall (fun p => safe p w'.1) w'.2 ∧ grows w.1 w'.1.
Proof.
  intros Henv Hapi. induction 1 as [w|w1 w2 w3 Hstep _ IH]; intros Hi Hs; [by split_and!; [..|reflexivity]|].
  cut (Inv w2.1 ∧ Forall (fun p => safe p w2.1) w2.2 ∧ grows w1.1 w2.1).
  { intros (Hi2 & Hs2 & Hg2). destruct (IH Hi2 Hs2) as (?&?&?). split_and!; [done..|]. etransitivity; eassumption. }
  clear IH. assert (∀ s, grows w1.1 s → Forall (fun p => safe p s) w1.2) as Hall.
  { intros s Hg. eapply Forall_impl; [exact Hs|]. intros p Hp. by apply (safe_grows p w1.1). }
  destruct Hstep as [i c [s ts] w' Hrun|s s' ts He|s ts p Hp]; cbn in *.
  - unfold run_step in Hrun. cbn in Hrun. destruct (ts !! i) as [[|f]|] eqn:Hl; [done| |done].
    pose proof (Forall_lookup_1 _ _ _ _ Hs Hl) as Hf. cbn in Hf. specialize (Hf c s ltac:(reflexivity) Hi).
    destruct (f c s) as [[[s2 sp] p']|]; [|done]. injection Hrun as <-. cbn. destruct Hf as (Hi2 & Hg & Hq & Hp).
    split_and!; [done| |done]. apply Forall_app. split; [apply Forall_insert; [by apply Hall|done]|].
    destruct sp; by repeat constructor.
  - destruct (Henv s s' Hi He) as [? Hg]. split_and!; [done|by apply Hall|done].
  - split_and!; [done| |reflexivity]. apply Forall_app. split; [done|]. constructor; [by apply Hapi|done].
Qed.

End concur.

Arguments prog : clear implicits.
Arguments P : clear implicits.
