(* ===== verification/Edge.v ===== *)
(** * The tunnel edge (internal/tunnel/yggdrasil: mux.go, pair.go,
      pair_handshake.go, pair_streams.go, listen.go, dial.go; cmd/r1sd:
      tunnel_edge.go)

    The packet multiplexer of a node, its authenticated pairs and their streams,
    with the daemon's loop that checks each inbound pair against the tunnel
    registry and connects its streams to container ports.  Every goroutine is a
    program of atomic steps (Concur.v); the packets that arrive, the clock, the
    timers, failing calls and the answers of the allocator about its executions
    are the inputs of the steps.

    Pairs, pending records and streams are pointers shared between goroutines:
    they live in heaps and a pointer is a handle.  A timer may fire at any time.
    The last three fields of a state are not part of the program: they record the
    frames that were sent, the bindings that were declared and the container
    ports that were dialled. *)

From S2P Require Import Prelude GoStrings Wire Errors Protocol Registry Base64 Json Framing Stream Concur.
From Stdlib Require Import Strings.Byte.

Definition maxIncomingStreams : nat := 64.
Definition maxPendingSessions : nat := 8.
Definition pendingSessionTimeout : Z := 30 * 10 ^ 9.

(** ** State *)

(** [sync.Once] *)
Inductive once := Fresh | Busy | Over.

(** [IncomingStream]; [is_session] is the session its target was resolved in. *)
Record IncomingStream := mkIncoming { is_Conn : nat; is_Target : Target; is_ID : Z; is_session : nat }.

(** [pairConn].  The remote address is the peer's key.  [p_heard] are the
    pair-level frames that were put into [p_raw] so far. *)
Record pairConn := mkPair {
  p_peer : bytes;
  p_maxSeg : Z;
  p_streams : gmap Z nat;
  p_nextID : Z;
  p_closed : bool;
  p_closeErr : option conn_error;
  p_session : option nat;
  p_clientReady : bool;
  p_incoming : list IncomingStream;
  p_stopped : bool;
  p_once : once;
  p_raw : bytes;
  p_heard : list frame
}.

(** [streamConn] as the pair sees it: whose it is, its state, its [closeOnce]. *)
Record streamCell := mkCell { sc_pair : nat; sc_id : Z; sc_conn : streamConn; sc_once : once }.

Record pendingPair := mkPending { pd_pair : nat; pd_remote : string; pd_deadline : Z }.

Record mux := mkMux {
  m_pairs : gmap string nat;
  m_pending : gmap string nat;
  m_inbound : list nat;
  m_closed : bool                 (* also whether [closeCh] is closed *)
}.

Record binding := mkBinding { b_execution : string; b_key : bytes; b_targets : list Target }.
Record dial := mkDial { d_pair : nat; d_session : nat; d_execution : string; d_port : Z }.

Record Edge := mkEdge {
  e_conns : gmap nat pairConn;
  e_streams : gmap nat streamCell;
  e_pendings : gmap nat pendingPair;
  e_cancelled : gset nat;         (* the contexts that are done *)
  e_next : nat;
  e_mux : mux;
  e_registry : Registry;
  h_out : list (bytes * frame);
  h_bound : list binding;
  h_dials : list dial
}.

Inductive received :=
| Packet (from : option bytes) (data : bytes)   (* an address that is no mesh key is [None] *)
| ReadError (detail : string).

Record input := mkInput {
  i_ok : bool;                    (* the call succeeds *)
  i_pick : bool;                  (* the timer fires, or the later ready case is taken *)
  i_now : Z;
  i_recv : option received;
  i_text : string                 (* the text of an error from outside *)
}.

Abbreviation E := (P Edge input).

(** *** Field updates *)

Definition with_conns (m : gmap nat pairConn) (s : Edge) : Edge :=
  mkEdge m (e_streams s) (e_pendings s) (e_cancelled s) (e_next s) (e_mux s) (e_registry s) (h_out s) (h_bound s) (h_dials s).
Definition with_streams (m : gmap nat streamCell) (s : Edge) : Edge :=
  mkEdge (e_conns s) m (e_pendings s) (e_cancelled s) (e_next s) (e_mux s) (e_registry s) (h_out s) (h_bound s) (h_dials s).
Definition with_pendings (m : gmap nat pendingPair) (s : Edge) : Edge :=
  mkEdge (e_conns s) (e_streams s) m (e_cancelled s) (e_next s) (e_mux s) (e_registry s) (h_out s) (h_bound s) (h_dials s).
Definition with_cancelled (c : gset nat) (s : Edge) : Edge :=
  mkEdge (e_conns s) (e_streams s) (e_pendings s) c (e_next s) (e_mux s) (e_registry s) (h_out s) (h_bound s) (h_dials s).
Definition with_next (n : nat) (s : Edge) : Edge :=
  mkEdge (e_conns s) (e_streams s) (e_pendings s) (e_cancelled s) n (e_mux s) (e_registry s) (h_out s) (h_bound s) (h_dials s).
Definition with_mux (m : mux) (s : Edge) : Edge :=
  mkEdge (e_conns s) (e_streams s) (e_pendings s) (e_cancelled s) (e_next s) m (e_registry s) (h_out s) (h_bound s) (h_dials s).
Definition with_registry (r : Registry) (s : Edge) : Edge :=
  mkEdge (e_conns s) (e_streams s) (e_pendings s) (e_cancelled s) (e_next s) (e_mux s) r (h_out s) (h_bound s) (h_dials s).
Definition with_out (l : list (bytes * frame)) (s : Edge) : Edge :=
  mkEdge (e_conns s) (e_streams s) (e_pendings s) (e_cancelled s) (e_next s) (e_mux s) (e_registry s) l (h_bound s) (h_dials s).
Definition with_bound (l : list binding) (s : Edge) : Edge :=
  mkEdge (e_conns s) (e_streams s) (e_pendings s) (e_cancelled s) (e_next s) (e_mux s) (e_registry s) (h_out s) l (h_dials s).
Definition with_dials (l : list dial) (s : Edge) : Edge :=
  mkEdge (e_conns s) (e_streams s) (e_pendings s) (e_cancelled s) (e_next s) (e_mux s) (e_registry s) (h_out s) (h_bound s) l.

Definition p_with_streams (m : gmap Z nat) (next : Z) (p : pairConn) : pairConn :=
  mkPair (p_peer p) (p_maxSeg p) m next (p_closed p) (p_closeErr p) (p_session p) (p_clientReady p)
    (p_incoming p) (p_stopped p) (p_once p) (p_raw p) (p_heard p).
Definition p_with_closed (e : conn_error) (p : pairConn) : pairConn :=
  mkPair (p_peer p) (p_maxSeg p) ∅ (p_nextID p) true (Some e) (p_session p) (p_clientReady p)
    (p_incoming p) (p_stopped p) (p_once p) [] (p_heard p).
Definition p_with_session (h : nat) (p : pairConn) : pairConn :=
  mkPair (p_peer p) (p_maxSeg p) (p_streams p) (p_nextID p) (p_closed p) (p_closeErr p) (Some h) (p_clientReady p)
    (p_incoming p) (p_stopped p) (p_once p) (p_raw p) (p_heard p).
Definition p_with_ready (p : pairConn) : pairConn :=
  mkPair (p_peer p) (p_maxSeg p) (p_streams p) (p_nextID p) (p_closed p) (p_closeErr p) (p_session p) true
    (p_incoming p) (p_stopped p) (p_once p) (p_raw p) (p_heard p).
Definition p_with_incoming (l : list IncomingStream) (p : pairConn) : pairConn :=
  mkPair (p_peer p) (p_maxSeg p) (p_streams p) (p_nextID p) (p_closed p) (p_closeErr p) (p_session p) (p_clientReady p)
    l (p_stopped p) (p_once p) (p_raw p) (p_heard p).
Definition p_with_stopped (p : pairConn) : pairConn :=
  mkPair (p_peer p) (p_maxSeg p) (p_streams p) (p_nextID p) (p_closed p) (p_closeErr p) (p_session p) (p_clientReady p)
    (p_incoming p) true (p_once p) (p_raw p) (p_heard p).
Definition p_with_once (o : once) (p : pairConn) : pairConn :=
  mkPair (p_peer p) (p_maxSeg p) (p_streams p) (p_nextID p) (p_closed p) (p_closeErr p) (p_session p) (p_clientReady p)
    (p_incoming p) (p_stopped p) o (p_raw p) (p_heard p).
Definition p_with_raw (raw : bytes) (heard : list frame) (p : pairConn) : pairConn :=
  mkPair (p_peer p) (p_maxSeg p) (p_streams p) (p_nextID p) (p_closed p) (p_closeErr p) (p_session p) (p_clientReady p)
    (p_incoming p) (p_stopped p) (p_once p) raw heard.

Definition m_with_pairs (m : gmap string nat) (x : mux) : mux := mkMux m (m_pending x) (m_inbound x) (m_closed x).
Definition m_with_pending (m : gmap string nat) (x : mux) : mux := mkMux (m_pairs x) m (m_inbound x) (m_closed x).
Definition m_with_inbound (l : list nat) (x : mux) : mux := mkMux (m_pairs x) (m_pending x) l (m_closed x).

Section edge.
Context `{Externals} (mtu : Z).

(** ** Pairs *)

(** A locked part of a pair's method.  A handle always leads to its pair. *)
Definition pair_locked {A} (p : nat) (f : Edge → pairConn → pairConn * A) : E A :=
  atomic (fun _ s => pc ← e_conns s !! p; let '(pc', a) := f s pc in Some (with_conns (<[p := pc']> (e_conns s)) s, a)).

(** [newPair] *)
Definition newPair (peer : bytes) : pairConn :=
  let maxSeg := mtu - Z.of_nat frameHeaderSize in
  let maxSeg := if (maxSeg <=? 0) || (maxPacketPayload <? maxSeg) then maxPacketPayload else maxSeg in
  mkPair peer maxSeg ∅ 1 false None None false [] false Fresh [] [].

Definition edge_closed : gerror := EOpaque "yggdrasil tunnel edge is closed".

(** [writeFrame]: the error, if any. *)
Definition writeFrame (p : nat) (typ : byte) (streamID : Z) (payload : bytes) : E error :=
  remote ← pair_locked p (fun _ pc => (pc, if p_closed pc then None else Some (p_peer pc)));
  match remote with
  | None => mret (Some edge_closed)
  | Some to =>
    atomic (fun c s =>
      if i_ok c then Some (with_out (h_out s ++ [(to, mkFrame typ streamID payload)]) s, None)
      else Some (s, Some (EOpaque (i_text c))))
  end.

(** [remove] *)
Definition remove (p : nat) (id : Z) : E unit :=
  pair_locked p (fun _ pc => (p_with_streams (delete id (p_streams pc)) (p_nextID pc) pc, tt)).

(** *** Streams *)

Definition cell_locked {A} (st : nat) (f : streamCell → streamCell * A) : E A :=
  atomic (fun _ s => sc ← e_streams s !! st; let '(sc', a) := f sc in Some (with_streams (<[st := sc']> (e_streams s)) s, a)).

(** Entering [closeOnce.Do]: the first caller runs the function, a later one
    waits for it to return. *)
Definition enter (o : once) : option (once * bool) :=
  match o with Fresh => Some (Busy, true) | Busy => None | Over => Some (Over, false) end.

Definition stream_enter (st : nat) : E bool :=
  atomic (fun _ s => sc ← e_streams s !! st; '(o, first) ← enter (sc_once sc);
    Some (with_streams (<[st := mkCell (sc_pair sc) (sc_id sc) (sc_conn sc) o]> (e_streams s)) s, first)).

(** [end] *)
Definition stream_end (st : nat) (peerErr : option SessionError) : E unit :=
  first ← stream_enter st;
  match first with
  | false => mret tt
  | true =>
    owner ← cell_locked st (fun sc => (sc, (sc_pair sc, sc_id sc)));
    _ ← match peerErr with
        | Some e => writeFrame owner.1 frameTypeClose owner.2 (closePayload (se_Reason e) (se_Detail e))
        | None => mret None
        end;
    cell_locked st (fun sc => (mkCell (sc_pair sc) (sc_id sc) (mark_closed (sc_conn sc)) (sc_once sc), tt));;
    remove owner.1 owner.2;;
    cell_locked st (fun sc => (mkCell (sc_pair sc) (sc_id sc) (sc_conn sc) Over, tt))
  end.

(** [streamConn.ingest] *)
Definition stream_ingest (st : nat) (f : frame) : E unit :=
  ok ← cell_locked st (fun sc =>
    match ingest_locked (sc_conn sc) f with
    | Some conn => (mkCell (sc_pair sc) (sc_id sc) conn (sc_once sc), true)
    | None => (sc, false)
    end);
  match ok with true => mret tt | false => stream_end st (Some violation) end.

(** *** Teardown *)

(** [removePair] *)
Definition removePair (key : string) : E unit :=
  locked (fun s => (with_mux (mkMux (delete key (m_pairs (e_mux s))) (delete key (m_pending (e_mux s)))
                                (m_inbound (e_mux s)) (m_closed (e_mux s))) s, tt)).

Definition pair_enter (p : nat) : E bool :=
  atomic (fun _ s => pc ← e_conns s !! p; '(o, first) ← enter (p_once pc);
    Some (with_conns (<[p := p_with_once o pc]> (e_conns s)) s, first)).

(** [terminate]; the streams end in the order of their ids. *)
Definition terminate (p : nat) (sessionErr : option SessionError) (notifyPeer : bool) : E unit :=
  first ← pair_enter p;
  match first with
  | false => mret tt
  | true =>
    _ ← match sessionErr, notifyPeer with
        | Some e, true => writeFrame p frameTypeClose streamIDNone (closePayload (se_Reason e) (se_Detail e))
        | _, _ => mret None
        end;
    let closeErr := match sessionErr with Some e => ErrSession e | None => ErrEOF end in
    taken ← pair_locked p (fun _ pc => (p_with_closed closeErr pc, ((map_to_list (p_streams pc)).*2, p_peer pc)));
    pair_locked p (fun _ pc => (p_with_stopped pc, tt));;
    for_each (fun st =>
      cell_locked st (fun sc => (mkCell (sc_pair sc) (sc_id sc) (set_peerErr (Some closeErr) (sc_conn sc)) (sc_once sc), tt));;
      stream_end st None) taken.1;;
    removePair (go_string taken.2);;
    pair_locked p (fun _ pc => (p_with_once Over pc, tt))
  end.

(** [pairConn.endAll] *)
Definition endAll (p : nat) (reason : Reason) (detail : string) : E unit :=
  terminate p (Some (mkSessionError reason detail)) true.

(** ** Frames of a pair *)

(** [ingestPairFrame] *)
Definition ingestPairFrame (p : nat) (f : frame) : E unit :=
  if bool_decide (fr_typ f = frameTypeClose) then terminate p (Some (parseClosePayload (fr_payload f))) false
  else
    flood ← pair_locked p (fun _ pc =>
      if bool_decide (fr_typ f = frameTypePreamble) || bool_decide (fr_typ f = frameTypeAccept) then
        if maxPacketPayload <=? zlen (p_raw pc) then (pc, true)
        else (p_with_raw (p_raw pc ++ appendFrame [] (fr_typ f) (fr_streamID f) (fr_payload f)) (p_heard pc ++ [f]) pc, false)
      else (pc, false));
    match flood with
    | true => endAll p ReasonSessionFailed "stray handshake frame flood"
    | false => mret tt
    end.

(** What [openAllocatorStream] finds under the lock. *)
Inductive opening := Unvalidated | Duplicate | In_session (h : nat).

Definition find_session (f : frame) (pc : pairConn) : opening :=
  if p_closed pc then Unvalidated
  else match p_session pc with
  | None => Unvalidated
  | Some h => match p_streams pc !! fr_streamID f with Some _ => Duplicate | None => In_session h end
  end.

(** The stream is created and, on an open pair, registered. *)
Definition register_stream (p : nat) (id : Z) : E (option nat) :=
  atomic (fun _ s => pc ← e_conns s !! p;
    if p_closed pc then Some (s, None)
    else let st := e_next s in
      Some (with_next (S st) (with_streams (<[st := mkCell p id newStream Fresh]> (e_streams s))
              (with_conns (<[p := p_with_streams (<[id := st]> (p_streams pc)) (p_nextID pc) pc]> (e_conns s)) s)), Some st)).

(** [openAllocatorStream] *)
Definition openAllocatorStream (p : nat) (f : frame) : E unit :=
  found ← pair_locked p (fun _ pc => (pc, find_session f pc));
  match found with
  | Unvalidated =>
    _ ← writeFrame p frameTypeClose (fr_streamID f) (closePayload ReasonUnauthorized "unvalidated mesh session"); mret tt
  | Duplicate => mret tt
  | In_session h =>
    target ← locked (fun s => (s, session ← reg_sessions (e_registry s) !! h; ResolveTarget session (decodeStreamOpen (fr_payload f))));
    match target with
    | None =>
      _ ← writeFrame p frameTypeClose (fr_streamID f) (closePayload ReasonUnauthorized "target port was not pre-authorized");
      remove p (fr_streamID f)
    | Some t =>
      created ← register_stream p (fr_streamID f);
      match created with
      | None => mret tt
      | Some st =>
        queued ← pair_locked p (fun _ pc =>
          if (length (p_incoming pc) <? maxIncomingStreams)%nat
          then (p_with_incoming (p_incoming pc ++ [mkIncoming st t (fr_streamID f) h]) pc, true)
          else (pc, false));
        match queued with
        | true => mret tt
        | false =>
          remove p (fr_streamID f);;
          _ ← writeFrame p frameTypeClose (fr_streamID f) (closePayload ReasonSessionFailed "allocator edge is not accepting streams");
          mret tt
        end
      end
    end
  end.

(** [pairConn.ingest] *)
Definition ingest (p : nat) (packet : bytes) : E unit :=
  match parseFrame packet with
  | Malformed reason => endAll p ReasonSessionFailed (frame_error_text reason)
  | Incomplete => endAll p ReasonSessionFailed (frame_error_text "short frame")
  | Complete f _ =>
    if fr_streamID f =? streamIDNone then ingestPairFrame p f
    else if bool_decide (fr_typ f = frameTypeStreamOpen) then openAllocatorStream p f
    else
      stream ← pair_locked p (fun _ pc => (pc, p_streams pc !! fr_streamID f));
      match stream with None => mret tt | Some st => stream_ingest st f end
  end.

(** ** The handshake *)

Inductive handshake_error :=
| H_closed (e : option conn_error)   (* the reason the pair was closed with *)
| H_session (e : SessionError)
| H_frame (reason : string)
| H_refused.                         (* another frame than the expected one *)

(** [readPairFrame]: it waits until a frame is there, the pair is closed or the
    timer fires. *)
Definition readPairFrame (p : nat) : E (result handshake_error frame) :=
  atomic (fun c s => pc ← e_conns s !! p;
    match parseFrame (p_raw pc) with
    | Malformed reason => Some (s, Err (H_frame reason))
    | Complete f consumed =>
      Some (with_conns (<[p := p_with_raw (drop consumed (p_raw pc)) (p_heard pc) pc]> (e_conns s)) s, Ok f)
    | Incomplete =>
      if p_closed pc then Some (s, Err (H_closed (p_closeErr pc)))
      else if i_pick c then Some (s, Err (H_frame "handshake frame timeout"))
      else None
    end).

(** [awaitAccept] *)
Definition awaitAccept (p : nat) : E (option handshake_error) :=
  r ← readPairFrame p;
  mret (match r with
        | Err e => Some e
        | Ok f =>
          if bool_decide (fr_typ f = frameTypeAccept) then None
          else if bool_decide (fr_typ f = frameTypeClose) then Some (H_session (parseClosePayload (fr_payload f)))
          else Some H_refused
        end).

(** [WritePreamble]: whether the preamble was accepted. *)
Fixpoint WritePreamble (fuel : nat) (p : nat) (executionID : string) : E bool :=
  match fuel with
  | O => halt
  | S fuel' =>
    sent ← writeFrame p frameTypePreamble streamIDNone (encodePreamble executionID);
    match sent with
    | Some _ => mret false
    | None =>
      answer ← awaitAccept p;
      match answer with
      | None => pair_locked p (fun _ pc => (p_with_ready pc, true))
      | Some (H_session _) | Some (H_closed _) => mret false
      | Some _ =>
        again ← atomic (fun c s => pc ← e_conns s !! p; Some (s, negb (p_stopped pc || i_pick c)));
        match again with true => WritePreamble fuel' p executionID | false => mret false end
      end
    end
  end.

(** [readPreamble]: the execution the peer names. *)
Definition readPreamble (p : nat) : E (option string) :=
  r ← readPairFrame p;
  mret (match r with
        | Err _ => None
        | Ok f => if bool_decide (fr_typ f = frameTypePreamble) then decodePreamble (fr_payload f) else None
        end).

(** ** Streams of a pair *)

(** [openStream]: the stream, if the pair is ready. *)
Definition openStream (p : nat) (targetPort : Z) : E (option nat) :=
  opened ← atomic (fun _ s => pc ← e_conns s !! p;
    if p_closed pc || negb (p_clientReady pc) then Some (s, None)
    else let st := e_next s in let id := p_nextID pc in
      Some (with_next (S st) (with_streams (<[st := mkCell p id newStream Fresh]> (e_streams s))
              (with_conns (<[p := p_with_streams (<[id := st]> (p_streams pc)) (u32 (id + 1)) pc]> (e_conns s)) s)),
            Some (st, id)));
  match opened with
  | None => mret None
  | Some (st, id) =>
    refused ← cell_locked st (fun sc => (sc, write_refused (sc_conn sc)));
    failed ← match refused with
             | true => mret (Some (EOpaque "tunnel write side is closed"))
             | false => writeFrame p frameTypeStreamOpen id (encodeStreamOpen targetPort)
             end;
    match failed with
    | Some _ => remove p id;; mret None
    | None => mret (Some st)
    end
  end.

Definition session_over (h : nat) (s : Edge) : bool :=
  match reg_sessions (e_registry s) !! h with Some session => s_done session | None => true end.

(** The goroutine [Authorize] starts: the end of the session ends the pair. *)
Definition watch_session (p h : nat) : E unit :=
  ended ← atomic (fun c s => pc ← e_conns s !! p;
    if session_over h s && (negb (p_stopped pc) || i_pick c) then Some (s, true)
    else if p_stopped pc then Some (s, false)
    else None);
  match ended with true => endAll p ReasonExecutionEnded "" | false => mret tt end.

(** [Authorize] *)
Definition Authorize (p h : nat) : E error :=
  refused ← pair_locked p (fun s pc =>
    if p_closed pc || session_over h s then (pc, true) else (p_with_session h pc, false));
  match refused with
  | true => mret (Some edge_closed)
  | false => go (watch_session p h);; writeFrame p frameTypeAccept streamIDNone []
  end.

(** [AcceptStream] *)
Definition AcceptStream (p : nat) : E (option IncomingStream) :=
  next ← atomic (fun c s => pc ← e_conns s !! p;
    match p_incoming pc with
    | stream :: rest =>
      if p_stopped pc && i_pick c then Some (s, None)
      else Some (with_conns (<[p := p_with_incoming rest pc]> (e_conns s)) s, Some stream)
    | [] => if p_stopped pc then Some (s, None) else None
    end);
  match next with
  | None => mret None
  | Some stream =>
    state ← pair_locked p (fun _ pc => (pc, (p_closed pc, p_session pc)));
    match state with
    | (true, _) => mret None
    | (false, None) => mret (Some stream)
    | (false, Some h) => locked (fun s => (s, if session_over h s then None else Some stream))
    end
  end.

(** ** The multiplexer *)

(** [dropPending] *)
Definition dropPending (key : string) : E unit :=
  dropped ← locked (fun s =>
    (with_mux (m_with_pending (delete key (m_pending (e_mux s))) (e_mux s)) s,
     h ← m_pending (e_mux s) !! key; e_pendings s !! h));
  match dropped with
  | Some pending => endAll (pd_pair pending) ReasonSessionFailed "accept timed out"
  | None => mret tt
  end.

(** [openPending]: a pending record for a new peer, which is fed its first
    packet and queued; the queue may be full. *)
Definition openPending (remote packet : bytes) : E unit :=
  let key := go_string remote in
  opened ← atomic (fun c s =>
    if m_closed (e_mux s) || (maxPendingSessions <=? size (m_pending (e_mux s)))%nat then Some (s, None)
    else let p := e_next s in let h := S p in
      Some (with_next (S h)
              (with_mux (m_with_pending (<[key := h]> (m_pending (e_mux s))) (e_mux s))
                (with_pendings (<[h := mkPending p key (i_now c + pendingSessionTimeout)]> (e_pendings s))
                  (with_conns (<[p := newPair remote]> (e_conns s)) s))),
            Some (p, h)));
  match opened with
  | None => mret tt
  | Some (p, h) =>
    ingest p packet;;
    expired ← atomic (fun c s =>
      if (length (m_inbound (e_mux s)) <? maxPendingSessions)%nat && negb (m_closed (e_mux s) && i_pick c)
      then Some (with_mux (m_with_inbound (m_inbound (e_mux s) ++ [h]) (e_mux s)) s, false)
      else if m_closed (e_mux s) then Some (s, false)
      else if i_pick c then Some (s, true)
      else None);
    match expired with true => dropPending key | false => mret tt end
  end.

(** [mux.endAll]; the pairs end in the order of their keys. *)
Definition mux_endAll (reason : Reason) (detail : string) : E unit :=
  pairs ← locked (fun s =>
    (with_mux (mkMux ∅ ∅ (m_inbound (e_mux s)) (m_closed (e_mux s))) s, (map_to_list (m_pairs (e_mux s))).*2));
  for_each (fun p => endAll p reason detail) pairs.

(** [close] *)
Definition mux_close : E unit :=
  already ← locked (fun s =>
    (with_mux (mkMux (m_pairs (e_mux s)) (m_pending (e_mux s)) (m_inbound (e_mux s)) true) s, m_closed (e_mux s)));
  match already with true => mret tt | false => mux_endAll ReasonMeshUnreachable "edge closed" end.

(** [readLoop] *)
Fixpoint readLoop (fuel : nat) : E unit :=
  match fuel with
  | O => halt
  | S fuel' =>
    read ← atomic (fun c s => r ← i_recv c; Some (s, r));
    match read with
    | ReadError detail => mux_endAll ReasonMeshUnreachable detail
    | Packet None _ | Packet _ [] => readLoop fuel'
    | Packet (Some remote) data =>
      let packet := take (frameHeaderSize + Z.to_nat maxPacketPayload) data in
      let key := go_string remote in
      route ← locked (fun s =>
        (s, (m_closed (e_mux s), m_pairs (e_mux s) !! key, h ← m_pending (e_mux s) !! key; e_pendings s !! h)));
      match route with
      | (true, _, _) => mret tt
      | (false, Some p, _) => ingest p packet;; readLoop fuel'
      | (false, None, Some pending) => ingest (pd_pair pending) packet;; readLoop fuel'
      | (false, None, None) => openPending remote packet;; readLoop fuel'
      end
    end
  end.

(** [promote]; [h] is the pointer to the record. *)
Definition promote (h : nat) (pending : pendingPair) : E error :=
  locked (fun s =>
    let m := e_mux s in
    let key := pd_remote pending in
    if m_closed m then (s, Some edge_closed)
    else if negb (bool_decide (m_pending m !! key = Some h)) then (s, Some (ESentinel ErrSessionBusy))
    else match m_pairs m !! key with
    | Some _ => (s, Some (ESentinel ErrSessionBusy))
    | None => (with_mux (mkMux (<[key := pd_pair pending]> (m_pairs m)) (delete key (m_pending m)) (m_inbound m) (m_closed m)) s, None)
    end).

(** [mux.accept] *)
Fixpoint accept (fuel : nat) : E (option (nat * pendingPair)) :=
  match fuel with
  | O => halt
  | S fuel' =>
    taken ← atomic (fun c s =>
      match m_inbound (e_mux s) with
      | h :: rest =>
        if m_closed (e_mux s) && i_pick c then Some (s, None)
        else pending ← e_pendings s !! h;
             Some (with_mux (m_with_inbound rest (e_mux s)) s, Some (h, pending, pd_deadline pending <? i_now c))
      | [] => if m_closed (e_mux s) then Some (s, None) else None
      end);
    match taken with
    | None => mret None
    | Some (h, pending, true) => dropPending (pd_remote pending);; accept fuel'
    | Some (h, pending, false) => mret (Some (h, pending))
    end
  end.

(** [register]; [None] when the mux is closed or the peer has a pair. *)
Definition register (remote : bytes) : E (option nat) :=
  locked (fun s =>
    let m := e_mux s in
    if m_closed m then (s, None)
    else match m_pairs m !! go_string remote with
    | Some _ => (s, None)
    | None =>
      let p := e_next s in
      (with_next (S p) (with_mux (m_with_pairs (<[go_string remote := p]> (m_pairs m)) m)
        (with_conns (<[p := newPair remote]> (e_conns s)) s)), Some p)
    end).

(** [awaitPath]: the mesh knows a path, the context ends or the timer fires. *)
Definition awaitPath : E error :=
  atomic (fun c s =>
    if i_ok c then Some (s, None)
    else if i_pick c then Some (s, Some (EOpaque (i_text c)))
    else None).

(** [Dial]; the context's own error at the start is an input. *)
Definition Dial (address pubKey : bytes) : E (option nat) :=
  if (zlen address =? 0) || (zlen pubKey =? 0) then mret None
  else
    cancelled ← atomic (fun c s => Some (s, negb (i_ok c)));
    match cancelled with
    | true => mret None
    | false =>
      failed ← awaitPath;
      match failed with
      | Some _ => mret None
      | None => register address
      end
    end.

(** ** The listener *)

Record IncomingSession := mkSessionIn { ns_pair : nat; ns_handle : nat; ns_pending : pendingPair; ns_preamble : string }.

(** [Listener.Accept] *)
Fixpoint Accept (fuel : nat) : E (option IncomingSession) :=
  match fuel with
  | O => halt
  | S fuel' =>
    taken ← accept fuel';
    match taken with
    | None => mret None
    | Some (h, pending) =>
      named ← readPreamble (pd_pair pending);
      match named with
      | Some executionID => mret (Some (mkSessionIn (pd_pair pending) h pending executionID))
      | None =>
        endAll (pd_pair pending) ReasonUnauthorized "invalid routing preamble";;
        dropPending (pd_remote pending);;
        Accept fuel'
      end
    end
  end.

(** [Promote] *)
Definition Promote (n : IncomingSession) (h : nat) : E error :=
  refused ← promote (ns_handle n) (ns_pending n);
  match refused with
  | Some e => mret (Some e)
  | None => Authorize (ns_pair n) h
  end.

(** ** The daemon's loop (cmd/r1sd/tunnel_edge.go) *)

(** [OpenTunnelSession] of the allocator, cut where it releases its lock: the
    phase it reads of the execution is an input. *)
Definition open_session (executionID : string) (peerKey : bytes) : E (result gerror nat) :=
  refused ← atomic (fun c s => Some (s,
    if i_ok c then None
    else if i_pick c then Some (EWrap ErrExecutionNotFound [Quoted executionID])
    else Some (EWrap ErrInvalidTransition [Txt "execution "; Quoted executionID; Txt " is "; Txt (i_text c)])));
  match refused with
  | Some e => mret (Err e)
  | None =>
    opened ← locked (fun s =>
      match Open (e_registry s) executionID peerKey with
      | Ok (h, r) => (with_registry r s, Ok h)
      | Err e => (s, Err e)
      end);
    match opened with
    | Err e => mret (Err e)
    | Ok h =>
      atomic (fun c s =>
        if i_ok c then Some (s, Ok h)
        else Some (with_registry (CloseSession (e_registry s) executionID) s,
                   Err (EWrap ErrInvalidTransition [Txt "execution "; Quoted executionID; Txt " is no longer live"])))
    end
  end.

(** [CloseTunnel] *)
Definition close_tunnel (h : nat) : E unit := locked (fun s => (with_registry (Release (e_registry s) h) s, tt)).

(** [classifyRejection] *)
Definition classifyRejection (e : gerror) : Reason :=
  if is_err ErrUnauthorized e || is_err ErrPeerKeyMismatch e || is_err ErrUnknownTargetPort e then ReasonUnauthorized
  else if is_err ErrTunnelNotBound e || is_err ErrSessionBusy e then ReasonGrantRejected
  else if is_err ErrExecutionNotFound e || is_err ErrInvalidTransition e then ReasonExecutionEnded
  else ReasonSessionFailed.

(** [DialTunnelTarget] of the allocator: the check under its lock, the dial, and
    the check after it. *)
Definition dial_target (p h : nat) (port : Z) : E error :=
  checked ← atomic (fun c s => Some (
    if negb (Active (e_registry s) (Some h)) then (s, Some (ESentinel ErrUnauthorized))
    else match reg_sessions (e_registry s) !! h with
    | None => (s, Some (ESentinel ErrUnauthorized))
    | Some session =>
      if negb (i_ok c) then (s, Some (ESentinel ErrInvalidTransition))
      else match ResolveTarget session port with
      | None => (s, Some (ESentinel ErrUnauthorized))
      | Some _ => (with_dials (h_dials s ++ [mkDial p h (s_ExecutionID session) port]) s, None)
      end
    end));
  match checked with
  | Some e => mret (Some e)
  | None =>
    dialled ← atomic (fun c s => Some (s,
      if i_ok c then None else if i_pick c then Some (ESentinel RtErrTunnelUnsupported) else Some (EOpaque (i_text c))));
    match dialled with
    | Some e => mret (Some e)
    | None => locked (fun s => (s, if Active (e_registry s) (Some h) then None else Some (ESentinel ErrInvalidTransition)))
    end
  end.

(** [context.WithCancel], [cancel] and [<-ctx.Done()] *)
Definition new_context : E nat := locked (fun s => (with_next (S (e_next s)) s, e_next s)).
Definition cancel (ctx : nat) : E unit := locked (fun s => (with_cancelled ({[ctx]} ∪ e_cancelled s) s, tt)).
Definition await_context (ctx : nat) : E unit :=
  atomic (fun _ s => if bool_decide (ctx ∈ e_cancelled s) then Some (s, tt) else None).

(** [spliceToTarget].  The relay copies bytes with the stream's own methods
    until both directions have ended. *)
Definition spliceToTarget (ctx p h : nat) (stream : IncomingStream) : E unit :=
  failed ← dial_target p h (target_port (is_Target stream));
  match failed with
  | Some e =>
    stream_end (is_Conn stream) (Some (mkSessionError ReasonSessionFailed ("dial target: " +:+ error_text e)))
  | None =>
    go (await_context ctx;; stream_end (is_Conn stream) (Some (mkSessionError ReasonClosed "")));;
    atomic (fun c s => if i_ok c then Some (s, tt) else None)
  end;;
  stream_end (is_Conn stream) (Some (mkSessionError ReasonClosed "")).

(** The loop of [spliceSessionStreams]. *)
Fixpoint splice_streams (fuel : nat) (ctx p h : nat) : E unit :=
  match fuel with
  | O => halt
  | S fuel' =>
    next ← AcceptStream p;
    match next with
    | None => mret tt
    | Some stream => go (spliceToTarget ctx p h stream);; splice_streams fuel' ctx p h
    end
  end.

(** [spliceSessionStreams]; the daemon's own context is done when [ctx0] is. *)
Definition spliceSessionStreams (fuel : nat) (ctx0 p h : nat) : E unit :=
  ctx ← new_context;
  go (atomic (fun _ s =>
        if session_over h s || bool_decide (ctx ∈ e_cancelled s) || bool_decide (ctx0 ∈ e_cancelled s)
        then Some (s, tt) else None);;
      cancel ctx;;
      endAll p ReasonExecutionEnded "tunnel session ended");;
  splice_streams fuel ctx p h;;
  cancel ctx;;
  close_tunnel h.

(** [runAcceptLoop] *)
Fixpoint runAcceptLoop (fuel : nat) (ctx0 : nat) : E unit :=
  match fuel with
  | O => halt
  | S fuel' =>
    arrived ← Accept fuel';
    match arrived with
    | None => mret tt
    | Some incoming =>
      peerKey ← pair_locked (ns_pair incoming) (fun _ pc => (pc, p_peer pc));
      opened ← open_session (ns_preamble incoming) peerKey;
      match opened with
      | Err e => endAll (ns_pair incoming) (classifyRejection e) (error_text e);; runAcceptLoop fuel' ctx0
      | Ok h =>
        refused ← Promote incoming h;
        match refused with
        | Some e =>
          close_tunnel h;;
          endAll (ns_pair incoming) ReasonSessionFailed (error_text e);;
          runAcceptLoop fuel' ctx0
        | None => go (spliceSessionStreams fuel' ctx0 (ns_pair incoming) h);; runAcceptLoop fuel' ctx0
        end
      end
    end
  end.

(** ** The surroundings *)

(** A stream's own methods (Stream.v) as its user calls them, with the frames
    they send: data, EOF and window updates, never one that opens a stream. *)
Inductive stream_use : streamConn → streamConn → list frame → Prop :=
| use_read c n data update c' id : read_locked c n = ReadBytes data update c' →
    stream_use c c' (match update with Some n => [mkFrame frameTypeWindowUpdate id (streamWindowPayload n)] | None => [] end)
| use_write c payload c' id : take_window c payload = Taken c' → stream_use c c' [mkFrame frameTypeData id payload]
| use_close_read c : stream_use c (close_read c) []
| use_close_write c c' id : close_write c = Some c' → stream_use c c' [mkFrame frameTypeEOF id []].

(** What happens beside the edge: the owner of an execution declares a binding,
    the allocator ends sessions, a context is cancelled, a stream is used. *)
Inductive env : Edge → Edge → Prop :=
| env_bind s ex key targets ep r : Bind (e_registry s) ex key targets ep = Ok r →
    env s (with_bound (h_bound s ++ [mkBinding ex key targets]) (with_registry r s))
| env_close s ex : env s (with_registry (CloseSession (e_registry s) ex) s)
| env_invalidate s ex : env s (with_registry (Invalidate (e_registry s) ex) s)
| env_release s h : env s (with_registry (Release (e_registry s) h) s)
| env_cancel s ctx : env s (with_cancelled ({[ctx]} ∪ e_cancelled s) s)
| env_use s st sc pc c' frames : e_streams s !! st = Some sc → e_conns s !! sc_pair sc = Some pc →
    stream_use (sc_conn sc) c' frames →
    env s (with_out (h_out s ++ map (fun f => (p_peer pc, mkFrame (fr_typ f) (sc_id sc) (fr_payload f))) frames)
             (with_streams (<[st := mkCell (sc_pair sc) (sc_id sc) c' (sc_once sc)]> (e_streams s)) s)).

(** The calls that may begin at any time: the edge is closed, a pair is closed,
    a client dials, declares its execution and opens a stream. *)
Inductive api : prog Edge input → Prop :=
| api_close : api (thread mux_close)
| api_close_pair p reason detail : api (thread (endAll p reason detail))
| api_dial address pubKey : api (thread (_ ← Dial address pubKey; mret tt))
| api_preamble fuel p executionID : api (thread (_ ← WritePreamble fuel p executionID; mret tt))
| api_stream p port : api (thread (_ ← openStream p port; mret tt)).

Definition newEdge : Edge := mkEdge ∅ ∅ ∅ ∅ 1 (mkMux ∅ ∅ [] false) NewRegistry [] [] [].

(** The daemon's edge: the read loop and the accept loop, each for [fuel] turns,
    under the daemon's context 0. *)
Definition start (fuel : nat) : Edge * list (prog Edge input) :=
  (newEdge, [thread (readLoop fuel); thread (runAcceptLoop fuel 0)]).

Definition edge_runs (fuel : nat) (w : Edge * list (prog Edge input)) : Prop := rtc (moves env api) (start fuel) w.

End edge.
