(* ===== verification/EdgeSafe.v ===== *)
(** * Guarantees of the tunnel edge

    Over every interleaving of the goroutines of Edge.v, whatever packets arrive
    from whatever keys: a container port is dialled only for a peer whose key the
    execution's owner has bound and that has named the execution itself, no
    stream is opened before the handshake, and what unknown peers can make the
    edge keep is bounded. *)

From S2P Require Import Prelude GoStrings Wire Errors Protocol Registry Base64 Json Framing Stream Concur Edge.
From Stdlib Require Import Strings.Byte.

(** ** What only grows *)

Definition same_session (a b : Session) : Prop :=
  s_ExecutionID b = s_ExecutionID a ∧ s_PeerKey b = s_PeerKey a ∧ s_Targets b = s_Targets a.

Definition sessions_kept (r r' : Registry) : Prop :=
  ∀ h a, reg_sessions r !! h = Some a → ∃ b, reg_sessions r' !! h = Some b ∧ same_session a b.

Record grows (s s' : Edge) : Prop := {
  g_conns p pc : e_conns s !! p = Some pc →
    ∃ pc', e_conns s' !! p = Some pc' ∧ p_peer pc' = p_peer pc ∧ p_heard pc ⊆ p_heard pc';
  g_pendings h x : e_pendings s !! h = Some x → e_pendings s' !! h = Some x;
  g_cells st sc : e_streams s !! st = Some sc →
    ∃ sc', e_streams s' !! st = Some sc' ∧ sc_pair sc' = sc_pair sc ∧ sc_id sc' = sc_id sc;
  g_sessions : sessions_kept (e_registry s) (e_registry s');
  g_bound : h_bound s ⊆ h_bound s'
}.

#[export] Instance same_session_preorder : PreOrder same_session.
Proof. split; [done|]. intros a b c (?&?&?) (?&?&?). unfold same_session. split_and!; congruence. Qed.

#[export] Instance sessions_kept_preorder : PreOrder sessions_kept.
Proof.
  split; [intros r h a Ha; by exists a|]. intros r1 r2 r3 H12 H23 h a Ha.
  destruct (H12 h a Ha) as (b & Hb & Hab), (H23 h b Hb) as (c & Hc & Hbc). exists c. split; [done|]. etrans; eassumption.
Qed.

#[export] Instance grows_preorder : PreOrder grows.
Proof.
  split.
  - intros s. split; [intros p pc Hp; by exists pc|done|intros st sc Hs; by exists sc|reflexivity|done].
  - intros s1 s2 s3 [C1 P1 D1 S1 B1] [C2 P2 D2 S2 B2]. split; [|eauto| |etrans; eassumption|set_solver].
    + intros p pc Hp. destruct (C1 p pc Hp) as (pc2 & H2 & E2 & I2), (C2 p pc2 H2) as (pc3 & H3 & E3 & I3).
      exists pc3. split_and!; [done|congruence|set_solver].
    + intros st sc Hs. destruct (D1 st sc Hs) as (c2 & H2 & E2 & I2), (D2 st c2 H2) as (c3 & H3 & E3 & I3).
      exists c3. split_and!; congruence.
Qed.

(** ** The invariant *)

(** The peer of the pair named the session's execution, and its key is the one
    the session was opened with. *)
Definition authorised (s : Edge) (pc : pairConn) (h : nat) : Prop :=
  ∃ session f, reg_sessions (e_registry s) !! h = Some session ∧ s_PeerKey session = p_peer pc ∧
    f ∈ p_heard pc ∧ fr_typ f = frameTypePreamble ∧ decodePreamble (fr_payload f) = Some (s_ExecutionID session).

Definition entitled (s : Edge) (p h : nat) : Prop := ∃ pc, e_conns s !! p = Some pc ∧ authorised s pc h.

Definition accepted (s : Edge) (p : nat) : Prop :=
  ∃ pc f, e_conns s !! p = Some pc ∧ f ∈ p_heard pc ∧ fr_typ f = frameTypeAccept.

(** A queued stream leads to a port of a session of this very peer. *)
Definition queued_ok (s : Edge) (peer : bytes) (x : IncomingStream) : Prop :=
  ∃ session, reg_sessions (e_registry s) !! is_session x = Some session ∧
    s_PeerKey session = peer ∧ is_Target x ∈ s_Targets session.

(** The handshake bytes are whole frames that were heard. *)
Definition raw_ok (pc : pairConn) : Prop :=
  ∃ fs, p_raw pc = concat (map packet_of fs) ∧ Forall (fun f => wire_frame f ∧ f ∈ p_heard pc) fs.

Record pair_ok (s : Edge) (pc : pairConn) : Prop := {
  po_raw : raw_ok pc;
  po_bytes : zlen (p_raw pc) < 2 * maxPacketPayload + Z.of_nat frameHeaderSize;
  po_queue : (length (p_incoming pc) ≤ maxIncomingStreams)%nat;
  po_queued : Forall (queued_ok s (p_peer pc)) (p_incoming pc);
  po_session h : p_session pc = Some h → authorised s pc h;
  po_ready : p_clientReady pc = true → ∃ f, f ∈ p_heard pc ∧ fr_typ f = frameTypeAccept
}.

Definition sent_ok (s : Edge) (x : bytes * frame) : Prop :=
  (fr_typ x.2 = frameTypeAccept → ∃ p pc h, e_conns s !! p = Some pc ∧ p_peer pc = x.1 ∧ authorised s pc h) ∧
  (fr_typ x.2 = frameTypeStreamOpen →
     ∃ p pc f, e_conns s !! p = Some pc ∧ p_peer pc = x.1 ∧ f ∈ p_heard pc ∧ fr_typ f = frameTypeAccept).

Definition dial_ok (s : Edge) (d : dial) : Prop :=
  entitled s (d_pair d) (d_session d) ∧
  ∃ session, reg_sessions (e_registry s) !! d_session d = Some session ∧
    s_ExecutionID session = d_execution d ∧ ∃ t, t ∈ s_Targets session ∧ target_port t = d_port d.

Definition bound_ok (s : Edge) : Prop :=
  (∀ ex rec, reg_records (e_registry s) !! ex = Some rec → mkBinding ex (r_peerKey rec) (r_targets rec) ∈ h_bound s) ∧
  (∀ h a, reg_sessions (e_registry s) !! h = Some a → mkBinding (s_ExecutionID a) (s_PeerKey a) (s_Targets a) ∈ h_bound s).

Record mux_ok (s : Edge) (m : mux) : Prop := {
  mo_pairs k p : m_pairs m !! k = Some p → ∃ pc, e_conns s !! p = Some pc ∧ go_string (p_peer pc) = k;
  mo_pending k h : m_pending m !! k = Some h → ∃ x, e_pendings s !! h = Some x ∧ pd_remote x = k;
  mo_size : (size (m_pending m) ≤ maxPendingSessions)%nat;
  mo_inbound : (length (m_inbound m) ≤ maxPendingSessions)%nat
}.

Record edge_inv (s : Edge) : Prop := {
  ei_conns p pc : e_conns s !! p = Some pc → (p < e_next s)%nat ∧ pair_ok s pc;
  ei_pendings h x : e_pendings s !! h = Some x →
    (h < e_next s)%nat ∧ ∃ pc, e_conns s !! pd_pair x = Some pc ∧ go_string (p_peer pc) = pd_remote x;
  ei_cells st sc : e_streams s !! st = Some sc → (st < e_next s)%nat ∧ ∃ pc, e_conns s !! sc_pair sc = Some pc;
  ei_streams p pc id st : e_conns s !! p = Some pc → p_streams pc !! id = Some st →
    ∃ sc, e_streams s !! st = Some sc ∧ sc_pair sc = p ∧ sc_id sc = id;
  ei_mux : mux_ok s (e_mux s);
  ei_registry : registry_ok (e_registry s);
  ei_bound : bound_ok s;
  ei_out : Forall (sent_ok s) (h_out s);
  ei_dials : Forall (dial_ok s) (h_dials s)
}.

(** *** The invariant's parts survive growth *)

Lemma authorised_grows s s' pc pc' h :
  authorised s pc h → grows s s' → p_peer pc' = p_peer pc → p_heard pc ⊆ p_heard pc' → authorised s' pc' h.
Proof.
  intros (a & f & Ha & Hk & Hf & Ht & Hd) Hg Hp Hh. destruct (g_sessions _ _ Hg h a Ha) as (b & Hb & He & Hkb & _).
  exists b, f. split_and!; [done|congruence|by apply Hh|done|congruence].
Qed.

Lemma entitled_grows s s' p h : entitled s p h → grows s s' → entitled s' p h.
Proof.
  intros (pc & Hp & Ha) Hg. destruct (g_conns _ _ Hg p pc Hp) as (pc' & Hp' & He & Hh).
  exists pc'. split; [done|]. eapply authorised_grows; eassumption.
Qed.

Lemma accepted_grows s s' p : accepted s p → grows s s' → accepted s' p.
Proof.
  intros (pc & f & Hp & Hf & Ht) Hg. destruct (g_conns _ _ Hg p pc Hp) as (pc' & Hp' & He & Hh).
  exists pc', f. split_and!; [done|by apply Hh|done].
Qed.

Lemma queued_ok_grows s s' peer x : queued_ok s peer x → grows s s' → queued_ok s' peer x.
Proof.
  intros (a & Ha & Hk & Ht) Hg. destruct (g_sessions _ _ Hg _ a Ha) as (b & Hb & _ & Hkb & Htb).
  exists b. split_and!; congruence.
Qed.

Lemma pair_ok_grows s s' pc : pair_ok s pc → grows s s' → pair_ok s' pc.
Proof.
  intros [] Hg. split; try done.
  - eapply Forall_impl; [eassumption|]. intros x Hx. eapply queued_ok_grows; eassumption.
  - intros h Hh. eapply authorised_grows; eauto.
Qed.

Lemma sent_ok_grows s s' x : sent_ok s x → grows s s' → sent_ok s' x.
Proof.
  intros [Ha Ho] Hg. split; intros Ht.
  - destruct (Ha Ht) as (p & pc & h & Hp & Hk & Hau). destruct (g_conns _ _ Hg p pc Hp) as (pc' & Hp' & He & Hh).
    exists p, pc', h. split_and!; [done|congruence|]. eapply authorised_grows; eassumption.
  - destruct (Ho Ht) as (p & pc & f & Hp & Hk & Hf & Hft). destruct (g_conns _ _ Hg p pc Hp) as (pc' & Hp' & He & Hh).
    exists p, pc', f. split_and!; [done|congruence|by apply Hh|done].
Qed.

Lemma dial_ok_grows s s' d : dial_ok s d → grows s s' → dial_ok s' d.
Proof.
  intros (He & a & Ha & Hx & Ht) Hg. split; [eapply entitled_grows; eassumption|].
  destruct (g_sessions _ _ Hg _ a Ha) as (b & Hb & Heb & _ & Htb). exists b. rewrite Heb Htb. done.
Qed.

Lemma mux_ok_grows s s' m : mux_ok s m → grows s s' → mux_ok s' m.
Proof.
  intros [Hp Hq Hs Hi] Hg. split; [| |done|done].
  - intros k p Hk. destruct (Hp k p Hk) as (pc & Hc & He). destruct (g_conns _ _ Hg p pc Hc) as (pc' & Hc' & He' & _).
    exists pc'. split; [done|congruence].
  - intros k h Hk. destruct (Hq k h Hk) as (x & Hx & He). exists x. split; [eapply g_pendings; eassumption|done].
Qed.

Lemma pendings_grows s s' h x :
  edge_inv s → grows s s' → e_pendings s !! h = Some x →
  ∃ pc, e_conns s' !! pd_pair x = Some pc ∧ go_string (p_peer pc) = pd_remote x.
Proof.
  intros Hi Hg Hx. destruct (ei_pendings _ Hi h x Hx) as (_ & pc & Hp & Hr).
  destruct (g_conns _ _ Hg _ pc Hp) as (pc' & Hp' & He & _). exists pc'. split; [done|congruence].
Qed.

Lemma cells_grows s s' st sc :
  edge_inv s → grows s s' → e_streams s !! st = Some sc → ∃ pc, e_conns s' !! sc_pair sc = Some pc.
Proof.
  intros Hi Hg Hx. destruct (ei_cells _ Hi st sc Hx) as (_ & pc & Hp).
  destruct (g_conns _ _ Hg _ pc Hp) as (pc' & Hp' & _). by exists pc'.
Qed.

(** What the histories and the mux say stays true in a state that has grown. *)
Lemma history_grows s s' :
  edge_inv s → grows s s' →
  mux_ok s' (e_mux s) ∧ Forall (sent_ok s') (h_out s) ∧ Forall (dial_ok s') (h_dials s).
Proof.
  intros [] Hg. split_and!; [eapply mux_ok_grows; eassumption| |]; (eapply Forall_impl; [eassumption|]); intros x Hx;
    [eapply sent_ok_grows; eassumption|eapply dial_ok_grows; eassumption].
Qed.

(** ** Steps that keep the invariant *)

Definition good_step (s s' : Edge) : Prop := edge_inv s' ∧ grows s s'.

(** Growth when the heaps of pairs and streams change at one place. *)
Lemma conns_grow s p pc' :
  (∀ pc, e_conns s !! p = Some pc → p_peer pc' = p_peer pc ∧ p_heard pc ⊆ p_heard pc') →
  grows s (with_conns (<[p := pc']> (e_conns s)) s).
Proof.
  intros H. split; [|done|intros st sc Hs; by exists sc|reflexivity|done]. cbn. intros q qc Hq.
  destruct (decide (p = q)) as [<-|Hne]; [exists pc'; by rewrite lookup_insert_eq; split; [|apply H]|].
  exists qc. by rewrite lookup_insert_ne.
Qed.

Lemma conn_step s p pc pc' :
  edge_inv s → e_conns s !! p = Some pc → p_peer pc' = p_peer pc → p_heard pc ⊆ p_heard pc' →
  p_streams pc' ⊆ p_streams pc → pair_ok s pc' →
  good_step s (with_conns (<[p := pc']> (e_conns s)) s).
Proof.
  intros Hi Hp Hk Hh Hst Hok. assert (grows s (with_conns (<[p := pc']> (e_conns s)) s)) as Hg.
  { apply conns_grow. intros qc Hq. by simplify_eq. }
  destruct (history_grows _ _ Hi Hg) as (Hm & Ho & Hd). split; [|done]. split; cbn; try done; try by destruct Hi.
  - intros q qc. rewrite lookup_insert_Some. intros [[<- <-]|[_ Hq]].
    + split; [eapply ei_conns; eassumption|]. eapply pair_ok_grows; eassumption.
    + destruct (ei_conns _ Hi q qc Hq) as [Hlt Hq']. split; [done|]. eapply pair_ok_grows; eassumption.
  - intros h x Hx. split; [eapply ei_pendings; eassumption|]. exact (pendings_grows _ _ h x Hi Hg Hx).
  - intros st sc Hs. split; [eapply ei_cells; eassumption|]. exact (cells_grows _ _ st sc Hi Hg Hs).
  - intros q qc id st. rewrite lookup_insert_Some. intros [[<- <-]|[_ Hq]] Hl; [|eapply ei_streams; eassumption].
    apply (ei_streams _ Hi p pc id st Hp). eapply lookup_weaken; eassumption.
Qed.

Lemma cell_step s st sc sc' :
  edge_inv s → e_streams s !! st = Some sc → sc_pair sc' = sc_pair sc → sc_id sc' = sc_id sc →
  good_step s (with_streams (<[st := sc']> (e_streams s)) s).
Proof.
  intros Hi Hs Hp Hid. assert (grows s (with_streams (<[st := sc']> (e_streams s)) s)) as Hg.
  { split; cbn; [intros q qc Hq; by exists qc|done| |reflexivity|done]. intros q qc Hq.
    destruct (decide (st = q)) as [<-|Hne]; [exists sc'; rewrite lookup_insert_eq; simplify_eq; done|].
    exists qc. by rewrite lookup_insert_ne. }
  destruct (history_grows _ _ Hi Hg) as (Hm & Ho & Hd). split; [|done]. split; cbn; try done; try by destruct Hi.
  - intros q qc Hq. destruct (ei_conns _ Hi q qc Hq) as [? ?]. split; [done|]. eapply pair_ok_grows; eassumption.
  - intros q qc. rewrite lookup_insert_Some. intros [[<- <-]|[_ Hq]]; [|eapply ei_cells; eassumption].
    rewrite Hp. eapply ei_cells; eassumption.
  - intros p pc id q Hpc Hl. destruct (ei_streams _ Hi _ _ _ _ Hpc Hl) as (qc & Hq & Hqp & Hqi).
    destruct (decide (st = q)) as [<-|Hne]; [|exists qc; by rewrite lookup_insert_ne].
    exists sc'. rewrite lookup_insert_eq. split_and!; congruence.
Qed.

(** A state whose heaps, registry and bindings are the same. *)
Lemma same_grows s s' :
  e_conns s' = e_conns s → e_streams s' = e_streams s → e_pendings s' = e_pendings s → e_registry s' = e_registry s →
  h_bound s' = h_bound s → grows s s'.
Proof.
  intros H1 H2 H3 H4 H5. split; rewrite ?H1 ?H2 ?H3 ?H4 ?H5;
    [intros q qc Hq; by exists qc|done|intros q qc Hq; by exists qc|reflexivity|done].
Qed.

Lemma same_step s s' :
  edge_inv s → e_conns s' = e_conns s → e_streams s' = e_streams s → e_pendings s' = e_pendings s →
  e_registry s' = e_registry s → h_bound s' = h_bound s → (e_next s ≤ e_next s')%nat →
  mux_ok s (e_mux s') → Forall (sent_ok s) (h_out s') → Forall (dial_ok s) (h_dials s') →
  good_step s s'.
Proof.
  intros Hi H1 H2 H3 H4 H5 Hn Hm Ho Hd. pose proof (same_grows s s' H1 H2 H3 H4 H5) as Hg. split; [|done].
  split; rewrite ?H1 ?H2 ?H3 ?H4.
  - intros p pc Hp. destruct (ei_conns _ Hi p pc Hp) as [? ?]. split; [lia|]. eapply pair_ok_grows; eassumption.
  - intros h x Hx. destruct (ei_pendings _ Hi h x Hx) as [? ?]. split; [lia|done].
  - intros h x Hx. destruct (ei_cells _ Hi h x Hx) as [? ?]. split; [lia|done].
  - intros p pc. by apply (ei_streams _ Hi p pc).
  - eapply mux_ok_grows; eassumption.
  - by destruct Hi.
  - unfold bound_ok. rewrite H4 H5. by destruct Hi.
  - eapply Forall_impl; [eassumption|]. intros x Hx. eapply sent_ok_grows; eassumption.
  - eapply Forall_impl; [eassumption|]. intros x Hx. eapply dial_ok_grows; eassumption.
Qed.

Lemma mux_step s m : edge_inv s → mux_ok s m → good_step s (with_mux m s).
Proof. intros Hi Hm. apply same_step; try done; by destruct Hi. Qed.

Lemma out_step s l : edge_inv s → Forall (sent_ok s) l → good_step s (with_out (h_out s ++ l) s).
Proof. intros Hi Hl. apply same_step; try done; try by destruct Hi. apply Forall_app. split; [by destruct Hi|done]. Qed.

Lemma dial_step s d : edge_inv s → dial_ok s d → good_step s (with_dials (h_dials s ++ [d]) s).
Proof. intros Hi Hd. apply same_step; try done; try by destruct Hi. apply Forall_app. split; [by destruct Hi|by constructor]. Qed.

Lemma idle_step s : edge_inv s → good_step s s.
Proof. intros Hi. split; [done|reflexivity]. Qed.

(** The registry moves on. *)
Lemma registry_moves s r l :
  edge_inv s → registry_ok r → sessions_kept (e_registry s) r →
  bound_ok (with_bound (h_bound s ++ l) (with_registry r s)) →
  good_step s (with_bound (h_bound s ++ l) (with_registry r s)).
Proof.
  intros Hi Hr Hk Hb. assert (grows s (with_bound (h_bound s ++ l) (with_registry r s))) as Hg.
  { split; cbn; [intros q qc Hq; by exists qc|done|intros q qc Hq; by exists qc|done|set_solver]. }
  destruct (history_grows _ _ Hi Hg) as (Hm & Ho & Hd). split; [|done]. split; cbn; try done; try by destruct Hi.
  intros p pc Hp. destruct (ei_conns _ Hi p pc Hp) as [? ?]. split; [done|]. eapply pair_ok_grows; eassumption.
Qed.

(** *** The registry *)

(** Nothing new: every binding and every session was there before. *)
Definition ends_sessions (r r' : Registry) : Prop :=
  sessions_kept r r' ∧
  (∀ ex rec', reg_records r' !! ex = Some rec' →
     ∃ rec, reg_records r !! ex = Some rec ∧ r_peerKey rec' = r_peerKey rec ∧ r_targets rec' = r_targets rec) ∧
  (∀ h b, reg_sessions r' !! h = Some b → ∃ a, reg_sessions r !! h = Some a ∧ same_session a b).

#[export] Instance ends_sessions_preorder : PreOrder ends_sessions.
Proof.
  split.
  - intros r. split_and!; [reflexivity|intros ex rec Hr; by exists rec|intros h a Ha; by exists a].
  - intros r1 r2 r3 (K1 & R1 & S1) (K2 & R2 & S2). split_and!; [etrans; eassumption| |].
    + intros ex rec3 H3. destruct (R2 ex rec3 H3) as (rec2 & H2 & ? & ?), (R1 ex rec2 H2) as (rec1 & H1 & ? & ?).
      exists rec1. split_and!; congruence.
    + intros h c Hc. destruct (S2 h c Hc) as (b & Hb & ?), (S1 h b Hb) as (a & Ha & ?). exists a. split; [done|].
      etrans; eassumption.
Qed.

Lemma close_done_ends r h : ends_sessions r (close_done r h).
Proof.
  unfold close_done. destruct (reg_sessions r !! h) as [a|] eqn:Ha; [|reflexivity]. split_and!; cbn.
  - intros g b Hb. destruct (decide (h = g)) as [<-|Hne]; [|exists b; by rewrite lookup_insert_ne].
    exists (closed a). rewrite lookup_insert_eq. by simplify_eq.
  - intros ex rec Hr. by exists rec.
  - intros g b. rewrite lookup_insert_Some. intros [[<- <-]|[_ Hb]]; [by exists a|by exists b].
Qed.

(** New records that keep the bindings of old ones. *)
Lemma with_records_ends r m :
  (∀ ex rec', m !! ex = Some rec' →
     ∃ rec, reg_records r !! ex = Some rec ∧ r_peerKey rec' = r_peerKey rec ∧ r_targets rec' = r_targets rec) →
  ends_sessions r (with_records r m).
Proof. intros H. split_and!; [|done|]; intros h b Hb; by exists b. Qed.

Lemma detach_ends r ex rec h :
  reg_records r !! ex = Some rec →
  ends_sessions r (with_records (close_done r h) (<[ex := with_session rec None]> (reg_records (close_done r h)))).
Proof.
  intros Hr. etrans; [apply (close_done_ends r h)|]. apply with_records_ends. intros ex' rec'.
  assert (reg_records (close_done r h) = reg_records r) as -> by (unfold close_done; by case_match).
  rewrite lookup_insert_Some. intros [[<- <-]|[_ Hr']]; [by exists rec|by exists rec'].
Qed.

Lemma CloseSession_ends r ex : ends_sessions r (CloseSession r ex).
Proof.
  unfold CloseSession. destruct (reg_records r !! ex) as [rec|] eqn:Hr; [|reflexivity].
  destruct (r_session rec) as [h|]; [|reflexivity]. by apply detach_ends.
Qed.

Lemma Release_ends r h : ends_sessions r (Release r h).
Proof.
  unfold Release. destruct (reg_sessions r !! h) as [a|]; [|reflexivity].
  destruct (reg_records r !! s_ExecutionID a) as [rec|] eqn:Hr; [|reflexivity].
  case_decide; [|reflexivity]. by apply detach_ends.
Qed.

Lemma Invalidate_ends r ex : ends_sessions r (Invalidate r ex).
Proof.
  unfold Invalidate.
  set (r1 := match reg_records r !! ex with
             | Some rec => match r_session rec with Some h => close_done r h | None => r end
             | None => r end).
  assert (ends_sessions r r1) as H1.
  { unfold r1. destruct (reg_records r !! ex) as [rec|]; [|reflexivity]. destruct (r_session rec); [|reflexivity].
    apply close_done_ends. }
  etrans; [exact H1|]. apply with_records_ends. intros ex' rec'. rewrite lookup_delete_Some. intros [_ Hr]. by exists rec'.
Qed.

Lemma bound_ok_ends s r : bound_ok s → ends_sessions (e_registry s) r → bound_ok (with_registry r s).
Proof.
  intros [Hr Hs] (_ & R & S). split; cbn.
  - intros ex rec' Hx. destruct (R ex rec' Hx) as (rec & Hrec & -> & ->). by apply Hr.
  - intros h b Hb. destruct (S h b Hb) as (a & Ha & -> & -> & ->). exact (Hs h a Ha).
Qed.

Lemma registry_step_ends s r :
  edge_inv s → registry_ok r → ends_sessions (e_registry s) r → good_step s (with_registry r s).
Proof.
  intros Hi Hr He. pose proof (bound_ok_ends s r (ei_bound _ Hi) He) as Hb.
  assert (with_registry r s = with_bound (h_bound s ++ []) (with_registry r s)) as Heq by (rewrite app_nil_r; by destruct s).
  rewrite Heq. apply registry_moves; [done..|by apply He|]. by rewrite -Heq.
Qed.

(** A new session has the key and the ports of a binding that was declared. *)
Lemma registry_step_open s ex key h r :
  edge_inv s → Open (e_registry s) ex key = Ok (h, r) →
  good_step s (with_registry r s) ∧
  ∃ a, reg_sessions r !! h = Some a ∧ s_ExecutionID a = ex ∧ s_PeerKey a = key.
Proof.
  intros Hi Ho. pose proof (Open_ok _ _ _ _ _ (ei_registry _ Hi) Ho) as Hok. pose proof (gk_next _ (ei_registry _ Hi)) as Hfresh.
  destruct (ei_bound _ Hi) as [Hr Hs]. unfold Open in Ho. case_match; [done|].
  destruct (reg_records (e_registry s) !! ex) as [rec|] eqn:Hrec; [|done]. destruct (negb _) eqn:Hk; [done|].
  apply negb_false_iff, bool_decide_eq_true in Hk. destruct (r_session rec); [done|]. injection Ho as <- <-.
  split; [|eexists; split; [apply lookup_insert_eq|done]].
  assert (∀ r, with_registry r s = with_bound (h_bound s ++ []) (with_registry r s)) as Heq by (intros; rewrite app_nil_r; by destruct s).
  rewrite Heq. apply registry_moves; [done..| |].
  - intros g a Ha. exists a. split; [|done]. cbn. rewrite lookup_insert_ne //. pose proof (Hfresh _ _ Ha). lia.
  - rewrite -Heq. split; cbn.
    + intros ex' rec'. rewrite lookup_insert_Some. intros [[<- <-]|[_ Hr']]; [exact (Hr _ _ Hrec)|exact (Hr _ _ Hr')].
    + intros g a. rewrite lookup_insert_Some. intros [[<- <-]|[_ Ha]]; [|exact (Hs g a Ha)]. cbn. rewrite -Hk. by apply Hr.
Qed.

Lemma registry_step_bind s ex key targets ep r :
  edge_inv s → Bind (e_registry s) ex key targets ep = Ok r →
  good_step s (with_bound (h_bound s ++ [mkBinding ex key targets]) (with_registry r s)).
Proof.
  intros Hi Hb. pose proof (Bind_ok _ _ _ _ _ _ (ei_registry _ Hi) Hb) as Hok. destruct (ei_bound _ Hi) as [Hr Hs].
  unfold Bind in Hb. do 3 (case_match; [done|]). injection Hb as <-. apply registry_moves; [done|done|intros g a Ha; by exists a|].
  split; cbn.
  - intros ex' rec'. rewrite lookup_insert_Some. intros [[<- <-]|[_ Hr']]; [set_solver|]. apply elem_of_app. left. by apply Hr.
  - intros g a Ha. apply elem_of_app. left. exact (Hs g a Ha).
Qed.

(** *** New pairs and streams *)

Lemma newPair_ok s mtu peer : pair_ok s (newPair mtu peer).
Proof.
  split; cbn; [by exists []|done|unfold maxIncomingStreams; lia|constructor|done|done].
Qed.

Lemma fresh_conn s : edge_inv s → ∀ n, (e_next s ≤ n)%nat → e_conns s !! n = None.
Proof. intros Hi n Hn. destruct (e_conns s !! n) as [pc|] eqn:E; [|done]. destruct (ei_conns _ Hi n pc E). lia. Qed.

Lemma fresh_cell s : edge_inv s → ∀ n, (e_next s ≤ n)%nat → e_streams s !! n = None.
Proof. intros Hi n Hn. destruct (e_streams s !! n) as [pc|] eqn:E; [|done]. destruct (ei_cells _ Hi n pc E). lia. Qed.

Lemma fresh_pending s : edge_inv s → ∀ n, (e_next s ≤ n)%nat → e_pendings s !! n = None.
Proof. intros Hi n Hn. destruct (e_pendings s !! n) as [pc|] eqn:E; [|done]. destruct (ei_pendings _ Hi n pc E). lia. Qed.

Lemma stream_step s p pc id next :
  edge_inv s → e_conns s !! p = Some pc →
  good_step s (with_next (S (e_next s)) (with_streams (<[e_next s := mkCell p id newStream Fresh]> (e_streams s))
    (with_conns (<[p := p_with_streams (<[id := e_next s]> (p_streams pc)) next pc]> (e_conns s)) s))).
Proof.
  intros Hi Hp. set (s' := with_next _ _). pose proof (fresh_cell s Hi _ (le_n _)) as Hfresh.
  destruct (ei_conns _ Hi p pc Hp) as [Hlt Hok].
  assert (grows s s') as Hg.
  { split; cbn; [|done| |reflexivity|done].
    - intros q qc Hq. destruct (decide (p = q)) as [<-|Hne]; [|exists qc; by rewrite lookup_insert_ne].
      eexists. rewrite lookup_insert_eq. split; [done|]. by simplify_eq.
    - intros q qc Hq. exists qc. rewrite lookup_insert_ne //. congruence. }
  destruct (history_grows _ _ Hi Hg) as (Hm & Ho & Hd). split; [|done]. split; cbn; try done; try by destruct Hi.
  - intros q qc. rewrite lookup_insert_Some. intros [[<- <-]|[_ Hq]].
    + split; [lia|]. apply (pair_ok_grows s); [|done]. by destruct Hok.
    + destruct (ei_conns _ Hi q qc Hq). split; [lia|]. eapply pair_ok_grows; eassumption.
  - intros h x Hx. destruct (ei_pendings _ Hi h x Hx). split; [lia|]. exact (pendings_grows _ _ h x Hi Hg Hx).
  - intros q qc. rewrite lookup_insert_Some. intros [[<- <-]|[_ Hq]].
    + split; [lia|]. cbn. eexists. apply lookup_insert_eq.
    + destruct (ei_cells _ Hi q qc Hq). split; [lia|]. exact (cells_grows _ _ q qc Hi Hg Hq).
  - intros q qc i t. rewrite lookup_insert_Some. intros [[<- <-]|[Hne Hq]] Hl.
    + cbn in Hl. apply lookup_insert_Some in Hl as [[<- <-]|[_ Hl]]; [eexists; by rewrite lookup_insert_eq|].
      destruct (ei_streams _ Hi _ _ _ _ Hp Hl) as (sc & Hs & ?). exists sc. rewrite lookup_insert_ne //. congruence.
    + destruct (ei_streams _ Hi _ _ _ _ Hq Hl) as (sc & Hs & ?). exists sc. rewrite lookup_insert_ne //. congruence.
Qed.

(** A new pair for [peer] at the next free place, with or without a pending
    record behind it. *)
Lemma pair_step s s' mtu peer :
  edge_inv s → e_conns s' = <[e_next s := newPair mtu peer]> (e_conns s) → e_streams s' = e_streams s →
  e_registry s' = e_registry s → h_bound s' = h_bound s → h_out s' = h_out s → h_dials s' = h_dials s →
  (e_next s < e_next s')%nat →
  (∀ h x, e_pendings s !! h = Some x → e_pendings s' !! h = Some x) →
  (∀ h x, e_pendings s' !! h = Some x → e_pendings s !! h = Some x ∨
     ((h < e_next s')%nat ∧ pd_pair x = e_next s ∧ pd_remote x = go_string peer)) →
  mux_ok s' (e_mux s') → good_step s s'.
Proof.
  intros Hi H1 H2 H3 H4 H5 H6 Hn Hkeep Hnew Hm. pose proof (fresh_conn s Hi _ (le_n _)) as Hfresh.
  assert (grows s s') as Hg.
  { split; rewrite ?H1 ?H2 ?H3 ?H4; [|done|intros q qc Hq; by exists qc|reflexivity|done].
    intros q qc Hq. exists qc. rewrite lookup_insert_ne //. congruence. }
  destruct (history_grows _ _ Hi Hg) as (_ & Ho & Hd). split; [|done]. split; rewrite ?H2 ?H3 ?H5 ?H6; try done; try by destruct Hi.
  - intros q qc. rewrite H1 lookup_insert_Some. intros [[<- <-]|[_ Hq]]; [split; [lia|apply newPair_ok]|].
    destruct (ei_conns _ Hi q qc Hq). split; [lia|]. eapply pair_ok_grows; eassumption.
  - intros h x [Hx|(Hlt & Hp & Hr)]%Hnew.
    + destruct (ei_pendings _ Hi h x Hx). split; [lia|]. exact (pendings_grows _ _ h x Hi Hg Hx).
    + split; [done|]. rewrite Hp H1 lookup_insert_eq. by eexists.
  - intros st sc Hs. destruct (ei_cells _ Hi st sc Hs). split; [lia|]. exact (cells_grows _ _ st sc Hi Hg Hs).
  - intros q qc i t. rewrite H1 lookup_insert_Some. intros [[<- <-]|[_ Hq]] Hl; [by cbn in Hl; rewrite lookup_empty in Hl|].
    by apply (ei_streams _ Hi q qc).
  - unfold bound_ok. rewrite H3 H4. by destruct Hi.
Qed.

(** ** The methods *)

Abbreviation edge_spec := (spec edge_inv grows).

(** A method that needs to know nothing and promises only the rules. *)
Definition quiet {A} (m : E A) : Prop := ∀ s, edge_spec m s (fun _ _ => True).

Create HintDb edge.

Lemma quiet_return {A} (a : A) : quiet (mret a).
Proof. intros s. by apply spec_ret; [apply _|]. Qed.

Lemma quiet_seq {A B} (m : E A) (f : A → E B) : quiet m → (∀ a, quiet (f a)) → quiet (m ≫= f).
Proof. intros Hm Hf s. apply spec_bind; [apply _|]. eapply spec_weaken; [apply Hm|]. intros a s' _ _. apply Hf. Qed.

Lemma quiet_go m : quiet m → quiet (go m).
Proof. intros Hm s. apply spec_go; [apply _|apply Hm|done]. Qed.

Lemma quiet_halt {A} : quiet (halt : E A).
Proof. intros s. apply spec_halt. Qed.

Lemma quiet_for_each {A} (f : A → E unit) l : (∀ x, quiet (f x)) → quiet (for_each f l).
Proof. intros Hf s. apply spec_for_each; [apply _|done|]. intros x s' _ _ _. apply Hf. Qed.

#[export] Hint Resolve quiet_return quiet_halt : edge.

Lemma quiet_atomic {A} (f : input → Edge → option (Edge * A)) :
  (∀ c s s' a, edge_inv s → f c s = Some (s', a) → good_step s s') → quiet (atomic f).
Proof. intros H s. apply spec_atomic; [apply _|]. intros c s1 s2 a Hg Hi Hf. destruct (H c s1 s2 a Hi Hf). done. Qed.

Lemma quiet_locked {A} (f : Edge → Edge * A) : (∀ s, edge_inv s → good_step s (f s).1) → quiet (locked f).
Proof. intros H. apply quiet_atomic. intros c s s' a Hi [= Hf]. specialize (H s Hi). by rewrite Hf in H. Qed.

(** Walk through a method whose parts are quiet. *)
Ltac quietly := repeat first
  [ match goal with |- ∀ _, _ => intros ? end
  | match goal with |- quiet (mbind _ _) => apply quiet_seq end
  | match goal with |- quiet (let _ := _ in _) => cbv zeta end
  | match goal with |- quiet (for_each _ _) => apply quiet_for_each end
  | match goal with |- quiet (go _) => apply quiet_go end
  | solve [auto with edge]
  | match goal with |- quiet (match ?x with _ => _ end) => destruct x end ].

(** How a locked part may change a pair. *)
Definition pair_moves (s : Edge) (pc pc' : pairConn) : Prop :=
  p_peer pc' = p_peer pc ∧ p_heard pc ⊆ p_heard pc' ∧ p_streams pc' ⊆ p_streams pc ∧ pair_ok s pc'.

Lemma spec_pair {A} p (f : Edge → pairConn → pairConn * A) s (Q : A → Edge → Prop) :
  (∀ s1 pc, grows s s1 → edge_inv s1 → e_conns s1 !! p = Some pc → pair_ok s1 pc →
     pair_moves s1 pc (f s1 pc).1 ∧ Q (f s1 pc).2 (with_conns (<[p := (f s1 pc).1]> (e_conns s1)) s1)) →
  edge_spec (pair_locked p f) s Q.
Proof.
  intros H. apply spec_atomic; [apply _|]. intros c s1 s2 a Hg Hi. destruct (e_conns s1 !! p) as [pc|] eqn:Hp; [|done]. cbn.
  destruct (H s1 pc Hg Hi Hp (proj2 (ei_conns _ Hi p pc Hp))) as ((?&?&?&?) & HQ).
  destruct (f s1 pc) as [pc' a']. intros [= <- <-]. destruct (conn_step s1 p pc pc') as [? ?]; done.
Qed.

Lemma quiet_pair {A} p (f : Edge → pairConn → pairConn * A) :
  (∀ s pc, edge_inv s → pair_ok s pc → pair_moves s pc (f s pc).1) → quiet (pair_locked p f).
Proof. intros H s. apply spec_pair. intros s1 pc _ Hi _ Hok. split; [by apply H|done]. Qed.

Lemma moves_same s pc : pair_ok s pc → pair_moves s pc pc.
Proof. done. Qed.

Lemma moves_streams s pc m next : pair_ok s pc → m ⊆ p_streams pc → pair_moves s pc (p_with_streams m next pc).
Proof. intros [] Hm. split_and!; done. Qed.

Lemma moves_closed s pc e : pair_ok s pc → pair_moves s pc (p_with_closed e pc).
Proof. intros []. split_and!; [done..|cbn; apply map_empty_subseteq|]. split; cbn; try done. by exists []. Qed.

Lemma moves_stopped s pc : pair_ok s pc → pair_moves s pc (p_with_stopped pc).
Proof. by intros []. Qed.

Lemma moves_once s pc o : pair_ok s pc → pair_moves s pc (p_with_once o pc).
Proof. by intros []. Qed.

Lemma moves_session s pc h : pair_ok s pc → authorised s pc h → pair_moves s pc (p_with_session h pc).
Proof. intros [] Ha. split_and!; [done..|]. split; cbn; try done. by intros h' [= <-]. Qed.

Lemma moves_ready s pc f : pair_ok s pc → f ∈ p_heard pc → fr_typ f = frameTypeAccept → pair_moves s pc (p_with_ready pc).
Proof. intros [] Hf Ht. split_and!; [done..|]. split; cbn; try done. intros _. by exists f. Qed.

Lemma moves_incoming s pc l :
  pair_ok s pc → (length l ≤ maxIncomingStreams)%nat → Forall (queued_ok s (p_peer pc)) l →
  pair_moves s pc (p_with_incoming l pc).
Proof. intros [] Hn Hl. by split_and!. Qed.

#[export] Hint Resolve moves_same moves_stopped moves_closed moves_once : edge.

Lemma packet_length f : length (packet_of f) = (frameHeaderSize + length (fr_payload f))%nat.
Proof. unfold packet_of, appendFrame, frameHeaderSize. rewrite !length_app !be_bytes_length. done. Qed.

Lemma moves_hear s pc f :
  pair_ok s pc → wire_frame f → zlen (p_raw pc) < maxPacketPayload →
  pair_moves s pc (p_with_raw (p_raw pc ++ packet_of f) (p_heard pc ++ [f]) pc).
Proof.
  intros [(fs & Hraw & Hfs) Hb Hq Hqs Hs Hr] Hw Hlt. split_and!; cbn; [done|set_solver|done|]. split; cbn [p_with_raw p_raw p_heard p_incoming p_session p_clientReady p_peer]; try done.
  - unfold raw_ok. cbn [p_with_raw p_raw p_heard]. exists (fs ++ [f]). rewrite map_app concat_app /= app_nil_r Hraw. split; [done|]. apply Forall_app. split.
    + eapply Forall_impl; [eassumption|]. intros x [? ?]. split; [done|set_solver].
    + repeat constructor; try apply Hw. set_solver.
  - pose proof (wf_payload _ Hw) as Hp. unfold zlen in *. rewrite length_app packet_length. lia.
  - intros h Hh. destruct (Hs h Hh) as (a & g & ?&?&?&?&?). exists a, g. split_and!; try done. set_solver.
  - intros Hrd. destruct (Hr Hrd) as (g & ? & ?). exists g. set_solver.
Qed.

(** *** Sending *)

(** What has to be known before a frame of type [typ] goes out on [p]. *)
Definition may_send (s : Edge) (p : nat) (typ : byte) : Prop :=
  (typ = frameTypeAccept → ∃ h, entitled s p h) ∧ (typ = frameTypeStreamOpen → accepted s p).

Lemma may_send_sent s p pc typ id payload :
  may_send s p typ → e_conns s !! p = Some pc → sent_ok s (p_peer pc, mkFrame typ id payload).
Proof.
  intros [Ha Ho] Hp. split; cbn; intros ->.
  - destruct (Ha eq_refl) as (h & pc' & Hp' & Hau). simplify_eq. by exists p, pc, h.
  - destruct (Ho eq_refl) as (pc' & f & Hp' & Hf & Ht). simplify_eq. by exists p, pc, f.
Qed.

Lemma may_send_grows s s' p typ : may_send s p typ → grows s s' → may_send s' p typ.
Proof.
  intros [Ha Ho] Hg. split; intros Ht.
  - destruct (Ha Ht) as [h Hh]. exists h. eapply entitled_grows; eassumption.
  - specialize (Ho Ht). eapply accepted_grows; eassumption.
Qed.

Lemma spec_write p typ id payload s : may_send s p typ → edge_spec (writeFrame p typ id payload) s (fun _ _ => True).
Proof.
  intros Hm. apply spec_bind; [apply _|].
  eapply (spec_weaken _ _ _ _ (fun remote s' => match remote with
    | Some to => ∃ pc, e_conns s' !! p = Some pc ∧ p_peer pc = to | None => True end)).
  - apply spec_pair. intros s1 pc Hg Hi Hp Hok. split; [by apply moves_same|]. cbn. destruct (p_closed pc); [done|].
    exists pc. by rewrite lookup_insert_eq.
  - intros [to|] s' Hg Hto; [|by apply spec_ret; [apply _|]]. apply spec_atomic; [apply _|].
    intros c s1 s2 a Hg1 Hi. destruct Hto as (pc & Hp & <-). destruct (g_conns _ _ Hg1 p pc Hp) as (pc' & Hp' & <- & _).
    destruct (i_ok c); intros [= <- <-]; [|by destruct (idle_step s1 Hi)].
    destruct (out_step s1 [(p_peer pc', mkFrame typ id payload)] Hi); [|done]. constructor; [|done].
    apply (may_send_sent _ p); [|done]. eapply may_send_grows; [|exact Hg1]. eapply may_send_grows; eassumption.
Qed.

Lemma quiet_write p typ id payload : typ ≠ frameTypeAccept → typ ≠ frameTypeStreamOpen → quiet (writeFrame p typ id payload).
Proof. intros Ha Ho s. by apply spec_write. Qed.

#[export] Hint Extern 1 (quiet (writeFrame _ _ _ _)) => apply quiet_write; discriminate : edge.

(** *** Streams *)

Lemma quiet_remove p id : quiet (remove p id).
Proof. apply quiet_pair. intros s pc _ Hok. apply moves_streams; [done|apply delete_subseteq]. Qed.

Lemma quiet_cell {A} st (f : streamCell → streamCell * A) :
  (∀ sc, sc_pair (f sc).1 = sc_pair sc ∧ sc_id (f sc).1 = sc_id sc) → quiet (cell_locked st f).
Proof.
  intros H. apply quiet_atomic. intros c s s' a Hi. destruct (e_streams s !! st) as [sc|] eqn:Hs; [|done]. cbn.
  destruct (H sc) as [Hp Hid]. destruct (f sc) as [sc' b]. intros [= <- <-]. by apply (cell_step s st sc).
Qed.

Lemma quiet_stream_enter st : quiet (stream_enter st).
Proof.
  apply quiet_atomic. intros c s s' a Hi. destruct (e_streams s !! st) as [sc|] eqn:Hs; [|done]. cbn.
  destruct (enter (sc_once sc)) as [[o first]|]; [|done]. cbn. intros [= <- <-]. by apply (cell_step s st sc).
Qed.

#[export] Hint Extern 1 (quiet (cell_locked _ _)) => apply quiet_cell; intros ?; cbn; try case_match; done : edge.
#[export] Hint Resolve quiet_remove quiet_stream_enter : edge.

Lemma quiet_stream_end st e : quiet (stream_end st e).
Proof. unfold stream_end. quietly. Qed.

#[export] Hint Resolve quiet_stream_end : edge.

Lemma quiet_stream_ingest st f : quiet (stream_ingest st f).
Proof. unfold stream_ingest. quietly. Qed.

#[export] Hint Resolve quiet_stream_ingest : edge.

(** *** Teardown *)

Lemma mux_delete s m k : mux_ok s m → mux_ok s (mkMux (delete k (m_pairs m)) (delete k (m_pending m)) (m_inbound m) (m_closed m)).
Proof.
  intros [Hp Hq Hs Hi]. split; cbn; [intros k' p; rewrite lookup_delete_Some; naive_solver..| |done].
  etrans; [|exact Hs]. apply map_subseteq_size, delete_subseteq.
Qed.

Lemma quiet_removePair k : quiet (removePair k).
Proof. apply quiet_locked. intros s Hi. cbn. apply mux_step; [done|]. apply mux_delete. by destruct Hi. Qed.

Lemma quiet_pair_enter p : quiet (pair_enter p).
Proof.
  apply quiet_atomic. intros c s s' a Hi. destruct (e_conns s !! p) as [pc|] eqn:Hp; [|done]. cbn.
  destruct (enter (p_once pc)) as [[o first]|]; [|done]. cbn. intros [= <- <-].
  destruct (moves_once s pc o) as (?&?&?&?); [apply (ei_conns _ Hi p pc Hp)|]. by apply (conn_step s p pc).
Qed.

#[export] Hint Extern 1 (quiet (pair_locked _ _)) => apply quiet_pair; intros; cbn; solve [auto with edge] : edge.
#[export] Hint Resolve quiet_removePair quiet_pair_enter : edge.

Lemma quiet_terminate p e n : quiet (terminate p e n).
Proof. unfold terminate. quietly. Qed.

#[export] Hint Resolve quiet_terminate : edge.

Lemma quiet_endAll p r d : quiet (endAll p r d).
Proof. apply quiet_terminate. Qed.

#[export] Hint Resolve quiet_endAll : edge.

(** *** Frames of a pair *)

Lemma quiet_ingestPairFrame p f : wire_frame f → quiet (ingestPairFrame p f).
Proof.
  intros Hw. unfold ingestPairFrame. case_match; [auto with edge|]. apply quiet_seq; [|quietly].
  apply quiet_pair. intros s pc _ Hok. case_match; [|by apply moves_same]. case_match eqn:Hl; [by apply moves_same|].
  apply Z.leb_gt in Hl. by apply (moves_hear s pc f).
Qed.

Lemma quiet_register_stream p id : quiet (register_stream p id).
Proof.
  apply quiet_atomic. intros c s s' a Hi. destruct (e_conns s !! p) as [pc|] eqn:Hp; [|done]. cbn.
  destruct (p_closed pc); intros [= <- <-]; [by apply idle_step|]. by apply stream_step.
Qed.

#[export] Hint Resolve quiet_register_stream : edge.

(** The target [t] belongs to a session of the pair's peer. *)
Definition offers (s : Edge) (p h : nat) (t : Target) : Prop :=
  ∃ pc session, e_conns s !! p = Some pc ∧ reg_sessions (e_registry s) !! h = Some session ∧
    s_PeerKey session = p_peer pc ∧ t ∈ s_Targets session.

Lemma offers_grows s s' p h t : offers s p h t → grows s s' → offers s' p h t.
Proof.
  intros (pc & a & Hp & Ha & Hk & Ht) Hg. destruct (g_conns _ _ Hg p pc Hp) as (pc' & Hp' & He & _).
  destruct (g_sessions _ _ Hg h a Ha) as (b & Hb & _ & Hkb & Htb). exists pc', b. split_and!; [done..|congruence|congruence].
Qed.

Lemma quiet_queue s p h t st id :
  offers s p h t →
  edge_spec (pair_locked p (fun _ pc =>
    if (length (p_incoming pc) <? maxIncomingStreams)%nat
    then (p_with_incoming (p_incoming pc ++ [mkIncoming st t id h]) pc, true) else (pc, false))) s (fun _ _ => True).
Proof.
  intros Ho. apply spec_pair. intros s1 pc Hg Hi Hp Hok. split; [|done].
  destruct (length (p_incoming pc) <? maxIncomingStreams)%nat eqn:Hl; [|by apply moves_same]. apply Nat.ltb_lt in Hl.
  destruct (offers_grows _ _ _ _ _ Ho Hg) as (pc' & a & Hp' & Ha & Hk & Ht). simplify_eq.
  apply moves_incoming; [done|rewrite length_app /=; lia|]. apply Forall_app. split; [by destruct Hok|].
  constructor; [|done]. by exists a.
Qed.

(** A quiet method in front. *)
Lemma spec_quietly {A B} (m : E A) (f : A → E B) s (Q : B → Edge → Prop) :
  quiet m → (∀ a s', grows s s' → edge_spec (f a) s' Q) → edge_spec (m ≫= f) s Q.
Proof. intros Hm Hf. apply spec_bind; [apply _|]. eapply spec_weaken; [apply Hm|]. intros a s' Hg _. by apply Hf. Qed.

(** A method with a known result in front. *)
Lemma spec_then {A B} (m : E A) (f : A → E B) s (R : A → Edge → Prop) (Q : B → Edge → Prop) :
  edge_spec m s R → (∀ a s', grows s s' → R a s' → edge_spec (f a) s' Q) → edge_spec (m ≫= f) s Q.
Proof. intros Hm Hf. apply spec_bind; [apply _|]. eapply spec_weaken; [apply Hm|]. intros a s' Hg Ha. by apply Hf. Qed.

Lemma silent {A} (m : E A) s : quiet m → edge_spec m s (fun _ _ => True).
Proof. done. Qed.

(** The session of a pair that opens a stream, and the target it resolves. *)
Lemma spec_find_session p f s :
  edge_spec (pair_locked p (fun _ pc => (pc, find_session f pc))) s
    (fun found s' => match found with In_session h => entitled s' p h | _ => True end).
Proof.
  apply spec_pair. intros s1 pc Hg Hi Hp Hok. split; [by apply moves_same|]. cbn. unfold find_session.
  destruct (p_closed pc); [done|]. destruct (p_session pc) as [h|] eqn:Hs; [|done]. destruct (p_streams pc !! _); [done|].
  exists pc. cbn. split; [apply lookup_insert_eq|]. apply (po_session _ _ Hok h Hs).
Qed.

Lemma ResolveTarget_in a port t : ResolveTarget a port = Some t → t ∈ s_Targets a ∧ target_port t = port ∧ s_done a = false.
Proof.
  unfold ResolveTarget. destruct (s_done a); [done|]. intros Hf. apply List.find_some in Hf as [Hin Ht].
  split_and!; [by apply list_elem_of_In|lia|done].
Qed.

Lemma spec_resolve p h port s :
  entitled s p h →
  edge_spec (locked (fun s => (s, session ← reg_sessions (e_registry s) !! h; ResolveTarget session port)) : E (option Target)) s
    (fun target s' => match target with Some t => offers s' p h t | None => True end).
Proof.
  intros He. apply spec_locked; [apply _|]. intros s1 Hg Hi. cbn. destruct (idle_step s1 Hi) as [_ Hid]. split_and!; [done..|].
  destruct (entitled_grows _ _ _ _ He Hg) as (pc & Hp & a & f & Ha & Hk & _). rewrite Ha. cbn.
  destruct (ResolveTarget a port) as [t|] eqn:Hr; [|done]. apply ResolveTarget_in in Hr as (Hin & _). by exists pc, a.
Qed.

Lemma quiet_openAllocatorStream p f : quiet (openAllocatorStream p f).
Proof.
  intros s. eapply spec_then; [apply spec_find_session|]. intros [| |h] s1 Hg1 He.
  - apply silent. quietly.
  - apply silent. quietly.
  - eapply spec_then; [apply (spec_resolve p h _ _ He)|]. intros [t|] s2 Hg2 Ho; [|apply silent; quietly].
    apply spec_quietly; [auto with edge|]. intros [st|] s3 Hg3; [|apply quiet_return].
    eapply spec_then; [apply quiet_queue; eapply offers_grows; eassumption|].
    intros [] s4 _ _; apply silent; quietly.
Qed.

#[export] Hint Resolve quiet_openAllocatorStream : edge.

Lemma quiet_ingest p packet : quiet (ingest p packet).
Proof.
  unfold ingest. destruct (parseFrame packet) as [f n| |reason] eqn:Hp; [|auto with edge..].
  apply parse_complete in Hp as (Hw & _). case_match; [by apply quiet_ingestPairFrame|]. case_match; quietly.
Qed.

#[export] Hint Resolve quiet_ingest : edge.

(** *** The handshake *)

Lemma raw_head s pc f n :
  pair_ok s pc → parseFrame (p_raw pc) = Complete f n →
  f ∈ p_heard pc ∧ pair_moves s pc (p_with_raw (drop n (p_raw pc)) (p_heard pc) pc).
Proof.
  intros [(fs & Hraw & Hfs) Hb Hq Hqs Hs Hr] Hc. destruct fs as [|g fs]; [by rewrite Hraw in Hc|].
  inversion Hfs as [|?? [Hw Hin] Hfs']; subst. cbn [map concat] in Hraw.
  pose proof (parse_packet g (concat (map packet_of fs)) Hw) as Hp. rewrite Hraw Hp in Hc.
  assert (n = length (packet_of g)) as -> by (rewrite packet_length; congruence). assert (f = g) as -> by congruence.
  split; [done|]. rewrite Hraw drop_app_length. split_and!; [done..|]. split; cbn; try done.
  - by exists fs.
  - rewrite Hraw in Hb. unfold zlen in *. rewrite length_app in Hb. lia.
Qed.

(** The pair has heard [f]. *)
Definition heard (s : Edge) (p : nat) (f : frame) : Prop := ∃ pc, e_conns s !! p = Some pc ∧ f ∈ p_heard pc.

Lemma heard_grows s s' p f : heard s p f → grows s s' → heard s' p f.
Proof.
  intros (pc & Hp & Hf) Hg. destruct (g_conns _ _ Hg p pc Hp) as (pc' & Hp' & _ & Hh). exists pc'. split; [done|by apply Hh].
Qed.

Lemma spec_readPairFrame p s :
  edge_spec (readPairFrame p) s (fun r s' => match r with Ok f => heard s' p f | Err _ => True end).
Proof.
  apply spec_atomic; [apply _|]. intros c s1 s2 r Hg Hi. destruct (e_conns s1 !! p) as [pc|] eqn:Hp; [|done]. cbn.
  destruct (ei_conns _ Hi p pc Hp) as [_ Hok]. destruct (parseFrame (p_raw pc)) as [f n| |reason] eqn:Hf.
  - destruct (raw_head s1 pc f n Hok Hf) as (Hin & ? & ? & ? & ?). intros [= <- <-].
    destruct (conn_step s1 p pc (p_with_raw (drop n (p_raw pc)) (p_heard pc) pc)) as [? ?]; try done.
    split_and!; [done..|]. eexists. split; [apply lookup_insert_eq|done].
  - destruct (p_closed pc); [intros [= <- <-]; by destruct (idle_step s1 Hi)|].
    destruct (i_pick c); intros [=]; subst. by destruct (idle_step s2 Hi).
  - intros [= <- <-]. by destruct (idle_step s1 Hi).
Qed.

Lemma spec_awaitAccept p s :
  edge_spec (awaitAccept p) s (fun r s' => match r with None => accepted s' p | Some _ => True end).
Proof.
  eapply spec_then; [apply spec_readPairFrame|]. intros r s' _ Hr. apply spec_ret; [apply _|].
  destruct r as [f|e]; [|done]. case_bool_decide as Ht; [|by destruct (bool_decide _)].
  destruct Hr as (pc & Hp & Hf). by exists pc, f.
Qed.

Lemma quiet_await_step {A} (f : input → Edge → A) : quiet (atomic (fun c s => Some (s, f c s))).
Proof. apply quiet_atomic. intros c s s' a Hi [= <- _]. by apply idle_step. Qed.

Lemma quiet_again p : quiet (atomic (fun c s => pc ← e_conns s !! p; Some (s, negb (p_stopped pc || i_pick c)))).
Proof. apply quiet_atomic. intros c s s' a Hi. destruct (e_conns s !! p); [|done]. intros [= <- _]. by apply idle_step. Qed.

#[export] Hint Resolve quiet_await_step quiet_again : edge.

Lemma quiet_WritePreamble fuel p ex : quiet (WritePreamble fuel p ex).
Proof.
  induction fuel as [|fuel IH]; [apply quiet_halt|]. intros s. apply spec_quietly; [auto with edge|].
  intros [err|] s1 _; [apply quiet_return|]. eapply spec_then; [apply spec_awaitAccept|].
  intros [e|] s2 _ Ha; [apply silent; quietly|].
  apply spec_pair. intros s3 pc Hg Hi Hp Hok. split; [|done]. cbn.
  destruct (accepted_grows _ _ _ Ha Hg) as (pc' & f & Hp' & Hf & Ht). simplify_eq. by apply (moves_ready s3 pc f).
Qed.

(** The peer of the pair has named the execution. *)
Definition named (s : Edge) (p : nat) (ex : string) : Prop :=
  ∃ f, heard s p f ∧ fr_typ f = frameTypePreamble ∧ decodePreamble (fr_payload f) = Some ex.

Lemma named_grows s s' p ex : named s p ex → grows s s' → named s' p ex.
Proof. intros (f & Hh & Ht & Hd) Hg. exists f. split_and!; [eapply heard_grows; eassumption|done..]. Qed.

Lemma spec_readPreamble p s :
  edge_spec (readPreamble p) s (fun r s' => match r with Some ex => named s' p ex | None => True end).
Proof.
  eapply spec_then; [apply spec_readPairFrame|]. intros r s' _ Hr. apply spec_ret; [apply _|].
  destruct r as [f|e]; [|done]. case_bool_decide as Ht; [|done]. destruct (decodePreamble _) as [ex|] eqn:Hd; [|done].
  by exists f.
Qed.

(** *** Streams of a pair *)

Lemma quiet_openStream p port : quiet (openStream p port).
Proof.
  intros s. apply (spec_then _ _ _ (fun r s' => match r with Some _ => accepted s' p | None => True end)).
  - apply spec_atomic; [apply _|]. intros c s1 s2 r Hg Hi. destruct (e_conns s1 !! p) as [pc|] eqn:Hp; [|done]. cbn.
    destruct (p_closed pc || negb (p_clientReady pc)) eqn:Hc; intros [= <- <-]; [by destruct (idle_step s1 Hi)|].
    apply orb_false_iff in Hc as [_ Hready%negb_false_iff]. destruct (ei_conns _ Hi p pc Hp) as [_ Hok].
    destruct (stream_step s1 p pc (p_nextID pc) (u32 (p_nextID pc + 1)) Hi Hp) as [Hi' Hg']. split_and!; [done..|].
    destruct (po_ready _ _ Hok Hready) as (f & Hf & Ht). eexists _, f. split; [apply lookup_insert_eq|done].
  - intros [[st id]|] s1 _ Ha; [|apply quiet_return]. apply spec_quietly; [auto with edge|]. intros refused s2 Hg2.
    apply (spec_then _ _ _ (fun _ _ => True)); [|intros failed s3 _ _; apply silent; quietly].
    destruct refused; [apply quiet_return|]. apply spec_write. split; [done|]. intros _. eapply accepted_grows; eassumption.
Qed.

Lemma quiet_watch_session p h : quiet (watch_session p h).
Proof.
  apply quiet_seq; [|quietly]. apply quiet_atomic. intros c s s' a Hi. destruct (e_conns s !! p) as [pc|]; [|done]. cbn.
  case_match; [intros [= <- _]; by apply idle_step|]. case_match; [|done]. intros [= <- _]. by apply idle_step.
Qed.

#[export] Hint Resolve quiet_WritePreamble quiet_openStream quiet_watch_session : edge.

Lemma quiet_AcceptStream p : quiet (AcceptStream p).
Proof.
  apply quiet_seq.
  - apply quiet_atomic. intros c s s' a Hi. destruct (e_conns s !! p) as [pc|] eqn:Hp; [|done]. cbn.
    destruct (ei_conns _ Hi p pc Hp) as [_ Hok].
    destruct (p_incoming pc) as [|x rest] eqn:Hin; [case_match; [intros [= <- _]; by apply idle_step|done]|].
    case_match; intros [= <- _]; [by apply idle_step|].
    destruct (moves_incoming s pc rest Hok) as (?&?&?&?); [..|by apply (conn_step s p pc)].
    + destruct Hok as [_ _ Hq]. rewrite Hin /= in Hq. lia.
    + destruct Hok as [_ _ _ Hq]. rewrite Hin in Hq. by inversion Hq.
  - intros [x|]; [|apply quiet_return]. apply quiet_seq; [auto with edge|]. intros [[] [h|]]; quietly.
    apply quiet_locked. intros s Hi. by apply idle_step.
Qed.

#[export] Hint Resolve quiet_AcceptStream : edge.

(** *** The multiplexer *)

Section mux.
Context `{Externals} (mtu : Z).

Lemma quiet_dropPending k : quiet (dropPending k).
Proof.
  apply quiet_seq; [|quietly]. apply quiet_locked. intros s Hi. cbn. apply mux_step; [done|].
  destruct (ei_mux _ Hi) as [Hp Hq Hs Hn]. split; cbn; [done|intros k' h; rewrite lookup_delete_Some; naive_solver| |done].
  etrans; [|exact Hs]. apply map_subseteq_size, delete_subseteq.
Qed.

Hint Resolve quiet_dropPending : edge.

Lemma quiet_open_pending_step remote :
  quiet (atomic (fun c s =>
    if m_closed (e_mux s) || (maxPendingSessions <=? size (m_pending (e_mux s)))%nat then Some (s, None)
    else let p := e_next s in let h := S p in
      Some (with_next (S h)
              (with_mux (m_with_pending (<[go_string remote := h]> (m_pending (e_mux s))) (e_mux s))
                (with_pendings (<[h := mkPending p (go_string remote) (i_now c + pendingSessionTimeout)]> (e_pendings s))
                  (with_conns (<[p := newPair mtu remote]> (e_conns s)) s))),
            Some (p, h)))).
Proof.
  apply quiet_atomic. intros c s s' a Hi. destruct (m_closed _ || _) eqn:Hc; intros [= <- <-]; [by apply idle_step|].
  apply orb_false_iff in Hc as [_ Hsz%Nat.leb_gt]. pose proof (fresh_pending s Hi (S (e_next s)) ltac:(lia)) as Hfresh.
  apply (pair_step s _ mtu remote); try done; cbn; [lia| | |].
  - intros h x Hx. rewrite lookup_insert_ne //. congruence.
  - intros h x. rewrite lookup_insert_Some. intros [[<- <-]|[_ Hx]]; [right|by left]. split_and!; [lia|done..].
  - destruct (ei_mux _ Hi) as [Hp Hq Hs Hn]. split; cbn; [| | |done].
    + intros k p Hk. destruct (Hp k p Hk) as (pc & Hpc & He). exists pc. split; [|done].
      rewrite lookup_insert_ne //. destruct (ei_conns _ Hi p pc Hpc). lia.
    + intros k h. rewrite lookup_insert_Some. intros [[<- <-]|[_ Hk]]; [eexists; by rewrite lookup_insert_eq|].
      destruct (Hq k h Hk) as (x & Hx & He). exists x. split; [|done]. rewrite lookup_insert_ne //. congruence.
    + rewrite map_size_insert. case_match; cbn; lia.
Qed.

Lemma quiet_inbound_step h :
  quiet (atomic (fun c s =>
      if (length (m_inbound (e_mux s)) <? maxPendingSessions)%nat && negb (m_closed (e_mux s) && i_pick c)
      then Some (with_mux (m_with_inbound (m_inbound (e_mux s) ++ [h]) (e_mux s)) s, false)
      else if m_closed (e_mux s) then Some (s, false)
      else if i_pick c then Some (s, true)
      else None)).
Proof.
  apply quiet_atomic. intros c s s' a Hi. destruct (_ && _) eqn:Hc.
  - intros [= <- _]. apply andb_true_iff in Hc as [Hl%Nat.ltb_lt _]. apply mux_step; [done|].
    destruct (ei_mux _ Hi) as [Hp Hq Hs Hn]. split; cbn; [done..|]. rewrite length_app /=. lia.
  - case_match; [intros [= <- _]; by apply idle_step|]. case_match; [|done]. intros [= <- _]. by apply idle_step.
Qed.

Hint Resolve quiet_open_pending_step quiet_inbound_step : edge.

Lemma quiet_openPending remote packet : quiet (openPending mtu remote packet).
Proof. unfold openPending. quietly. Qed.

Lemma quiet_mux_endAll r d : quiet (mux_endAll r d).
Proof.
  apply quiet_seq; [|quietly]. apply quiet_locked. intros s Hi. cbn. apply mux_step; [done|].
  destruct (ei_mux _ Hi) as [Hp Hq Hs Hn]. split; cbn; [intros k p Hk; by rewrite lookup_empty in Hk..| |done].
  rewrite map_size_empty. lia.
Qed.

Hint Resolve quiet_openPending quiet_mux_endAll : edge.

Lemma quiet_mux_close : quiet mux_close.
Proof.
  apply quiet_seq; [|quietly]. apply quiet_locked. intros s Hi. cbn. apply mux_step; [done|]. by destruct (ei_mux _ Hi).
Qed.

Lemma quiet_read {A} (f : input → Edge → option A) : quiet (atomic (fun c s => r ← f c s; Some (s, r))).
Proof. apply quiet_atomic. intros c s s' a Hi. destruct (f c s); [|done]. intros [= <- _]. by apply idle_step. Qed.

Lemma quiet_look {A} (f : Edge → A) : quiet (locked (fun s => (s, f s))).
Proof. apply quiet_locked. intros s Hi. by apply idle_step. Qed.

Hint Resolve quiet_mux_close quiet_look : edge.
Hint Extern 1 (quiet (atomic (fun c s => i_recv c ≫= _))) => apply (quiet_read (fun c _ => i_recv c)) : edge.

Lemma quiet_readLoop fuel : quiet (readLoop mtu fuel).
Proof.
  induction fuel as [|fuel IH]; [apply quiet_halt|]. cbn [readLoop]. quietly.
Qed.

Lemma quiet_register remote : quiet (register mtu remote).
Proof.
  apply quiet_locked. intros s Hi. cbn. case_match; [by apply idle_step|].
  destruct (m_pairs (e_mux s) !! go_string remote) eqn:Hk; [by apply idle_step|].
  apply (pair_step s _ mtu remote); try done; cbn; [by left|].
  destruct (ei_mux _ Hi) as [Hp Hq Hs Hn]. split; cbn; [|done..]. intros k p. rewrite lookup_insert_Some.
  intros [[<- <-]|[_ Hk']]; [eexists; by rewrite lookup_insert_eq|].
  destruct (Hp k p Hk') as (pc & Hpc & He). exists pc. split; [|done].
  rewrite lookup_insert_ne //. destruct (ei_conns _ Hi p pc Hpc). lia.
Qed.

Hint Resolve quiet_register : edge.

Lemma quiet_Dial address pubKey : quiet (Dial mtu address pubKey).
Proof.
  unfold Dial. quietly. apply quiet_atomic. intros c s s' a Hi.
  case_match; [intros [= <- _]; by apply idle_step|]. case_match; [|done]. intros [= <- _]. by apply idle_step.
Qed.

Lemma spec_promote h pending s : e_pendings s !! h = Some pending → edge_spec (promote h pending) s (fun _ _ => True).
Proof.
  intros Hx. apply spec_locked; [apply _|]. intros s1 Hg Hi. pose proof (g_pendings _ _ Hg h pending Hx) as Hx1.
  cut (good_step s1 (let m := e_mux s1 in let key := pd_remote pending in
    if m_closed m then (s1, Some edge_closed)
    else if negb (bool_decide (m_pending m !! key = Some h)) then (s1, Some (ESentinel ErrSessionBusy))
    else match m_pairs m !! key with
    | Some _ => (s1, Some (ESentinel ErrSessionBusy))
    | None => (with_mux (mkMux (<[key := pd_pair pending]> (m_pairs m)) (delete key (m_pending m)) (m_inbound m) (m_closed m)) s1, None)
    end).1); [by intros []|]. cbv zeta.
  case_match; [by apply idle_step|]. case_match; [by apply idle_step|]. case_match; [by apply idle_step|].
  apply mux_step; [done|]. destruct (ei_mux _ Hi) as [Hp Hq Hs Hn]. split; cbn; [| | |done].
  - intros k p. rewrite lookup_insert_Some. intros [[<- <-]|[_ Hk]]; [|by apply Hp]. apply (ei_pendings _ Hi h pending Hx1).
  - intros k g. rewrite lookup_delete_Some. intros [_ Hk]. by apply Hq.
  - etrans; [|exact Hs]. apply map_subseteq_size, delete_subseteq.
Qed.

Lemma spec_accept fuel s :
  edge_spec (accept fuel) s (fun r s' => match r with Some (h, x) => e_pendings s' !! h = Some x | None => True end).
Proof.
  revert s. induction fuel as [|fuel IH]; intros s; [apply spec_halt|].
  apply (spec_then _ _ _ (fun r s' => match r with Some (h, x, _) => e_pendings s' !! h = Some x | None => True end)).
  - apply spec_atomic; [apply _|]. intros c s1 s2 r Hg Hi. destruct (idle_step s1 Hi) as [_ Hid].
    destruct (m_inbound (e_mux s1)) as [|h rest] eqn:Hin; [by case_match; [intros [= <- <-]|]|].
    case_match; [by intros [= <- <-]|]. destruct (e_pendings s1 !! h) as [x|] eqn:Hx; [|done]. intros [= <- <-].
    destruct (mux_step s1 (m_with_inbound rest (e_mux s1)) Hi) as [? ?]; [|done].
    destruct (ei_mux _ Hi) as [Hp Hq Hs Hn]. split; cbn; [done..|]. rewrite Hin /= in Hn. lia.
  - intros [[[h x] []]|] s1 Hg Hx; [|by apply spec_ret; [apply _|]..].
    apply spec_quietly; [auto with edge|]. intros _ s2 _. apply IH.
Qed.

(** *** The listener *)

(** An inbound session is a pending record whose peer has named an execution. *)
Definition arrived (s : Edge) (n : IncomingSession) : Prop :=
  e_pendings s !! ns_handle n = Some (ns_pending n) ∧ ns_pair n = pd_pair (ns_pending n) ∧ named s (ns_pair n) (ns_preamble n).

Lemma arrived_grows s s' n : arrived s n → grows s s' → arrived s' n.
Proof. intros (Hp & He & Hn) Hg. split_and!; [by apply (g_pendings _ _ Hg)|done|eapply named_grows; eassumption]. Qed.

Lemma spec_Accept fuel s :
  edge_spec (Accept fuel) s (fun r s' => match r with Some n => arrived s' n | None => True end).
Proof.
  revert s. induction fuel as [|fuel IH]; intros s; [apply spec_halt|].
  eapply spec_then; [apply spec_accept|]. intros [[h x]|] s1 Hg1 Hx; [|by apply spec_ret; [apply _|]].
  eapply spec_then; [apply spec_readPreamble|]. intros [ex|] s2 Hg2 Hn.
  - apply spec_ret; [apply _|]. split_and!; [by apply (g_pendings _ _ Hg2)|done..].
  - apply spec_quietly; [auto with edge|]. intros _ s3 _. apply spec_quietly; [auto with edge|]. intros _ s4 _. apply IH.
Qed.

Lemma spec_Authorize p h s : entitled s p h → edge_spec (Authorize p h) s (fun _ _ => True).
Proof.
  intros He. apply (spec_then _ _ _ (fun _ _ => True)).
  - apply spec_pair. intros s1 pc Hg Hi Hp Hok. split; [|done]. case_match; [by apply moves_same|].
    destruct (entitled_grows _ _ _ _ He Hg) as (pc' & Hp' & Ha). simplify_eq. by apply moves_session.
  - intros [] s1 Hg1 _; [apply quiet_return|]. apply spec_quietly; [apply quiet_go; auto with edge|]. intros _ s2 Hg2.
    apply spec_write. split; [|done]. intros _. exists h. eapply entitled_grows; [|exact Hg2]. eapply entitled_grows; eassumption.
Qed.

(** *** The daemon's loop *)

Definition holds (s : Edge) (h : nat) (ex : string) (key : bytes) : Prop :=
  ∃ a, reg_sessions (e_registry s) !! h = Some a ∧ s_ExecutionID a = ex ∧ s_PeerKey a = key.

Lemma holds_grows s s' h ex key : holds s h ex key → grows s s' → holds s' h ex key.
Proof.
  intros (a & Ha & He & Hk) Hg. destruct (g_sessions _ _ Hg h a Ha) as (b & Hb & ? & ? & _). exists b. split_and!; congruence.
Qed.

Lemma spec_open_session ex key s :
  edge_spec (open_session ex key) s (fun r s' => match r with Ok h => holds s' h ex key | Err _ => True end).
Proof.
  apply spec_quietly; [auto with edge|]. intros [e|] s1 _; [by apply spec_ret; [apply _|]|].
  apply (spec_then _ _ _ (fun r s' => match r with Ok h => holds s' h ex key | Err _ => True end)).
  - apply spec_locked; [apply _|]. intros s2 Hg Hi. cbn. destruct (Open (e_registry s2) ex key) as [[h r]|e] eqn:Ho.
    + destruct (registry_step_open s2 ex key h r Hi Ho) as ([? ?] & a & Ha). split_and!; [done..|]. by exists a.
    + by destruct (idle_step s2 Hi).
  - intros [h|e] s2 _ Hh; [|by apply spec_ret; [apply _|]]. apply spec_atomic; [apply _|]. intros c s3 s4 r Hg Hi.
    destruct (i_ok c); intros [= <- <-]; [destruct (idle_step s3 Hi); split_and!; [done..|]; eapply holds_grows; eassumption|].
    destruct (registry_step_ends s3 (CloseSession (e_registry s3) ex) Hi) as [? ?]; [|apply CloseSession_ends|done].
    apply CloseSession_ok. by destruct Hi.
Qed.

Lemma quiet_close_tunnel h : quiet (close_tunnel h).
Proof.
  apply quiet_locked. intros s Hi. cbn. apply registry_step_ends; [done| |apply Release_ends]. apply Release_ok. by destruct Hi.
Qed.

Lemma spec_dial_target p h port s : entitled s p h → edge_spec (dial_target p h port) s (fun _ _ => True).
Proof.
  intros He. apply (spec_then _ _ _ (fun _ _ => True)).
  - apply spec_atomic; [apply _|]. intros c s1 s2 r Hg Hi Heq. cut (good_step s1 s2); [by intros []|]. apply (inj Some) in Heq. revert Heq.
    destruct (negb (Active _ _)); [intros [= <- _]; by apply idle_step|].
    destruct (reg_sessions (e_registry s1) !! h) as [a|] eqn:Ha; [|intros [= <- _]; by apply idle_step].
    case_match; [intros [= <- _]; by apply idle_step|].
    destruct (ResolveTarget a port) as [t|] eqn:Hr; intros [= <- _]; [|by apply idle_step].
    apply dial_step; [done|]. split; [eapply entitled_grows; eassumption|]. exists a. split_and!; [done..|].
    apply ResolveTarget_in in Hr as (? & ? & _). by exists t.
  - intros [e|] s1 _ _; apply silent; quietly.
Qed.

Lemma quiet_new_context : quiet new_context.
Proof. apply quiet_locked. intros s Hi. cbn. apply same_step; try done; [cbn; lia|by destruct Hi..]. Qed.

Lemma quiet_cancel ctx : quiet (cancel ctx).
Proof. apply quiet_locked. intros s Hi. cbn. apply same_step; try done; by destruct Hi. Qed.

(** Waiting for a condition. *)
Lemma quiet_wait (b : input → Edge → bool) : quiet (atomic (fun c s => if b c s then Some (s, tt) else None)).
Proof. apply quiet_atomic. intros c s s' a Hi. case_match; [|done]. intros [= <- _]. by apply idle_step. Qed.

Hint Resolve quiet_close_tunnel quiet_new_context quiet_cancel quiet_wait : edge.
Hint Extern 1 (quiet (await_context _)) => apply (quiet_wait (fun _ s => bool_decide (_ ∈ e_cancelled s))) : edge.

Lemma spec_spliceToTarget ctx p h x s : entitled s p h → edge_spec (spliceToTarget ctx p h x) s (fun _ _ => True).
Proof.
  intros He. eapply spec_then; [by apply spec_dial_target|]. intros failed s1 _ _. apply silent. quietly.
Qed.

Lemma spec_splice_streams fuel ctx p h s : entitled s p h → edge_spec (splice_streams fuel ctx p h) s (fun _ _ => True).
Proof.
  revert s. induction fuel as [|fuel IH]; intros s He; [apply spec_halt|].
  apply spec_quietly; [auto with edge|]. intros [x|] s1 Hg; [|apply quiet_return].
  pose proof (entitled_grows _ _ _ _ He Hg) as He1.
  apply (spec_then _ _ _ (fun _ _ => True)); [apply spec_go; [apply _|by apply spec_spliceToTarget|done]|]. intros _ s2 Hg2 _. apply IH.
  eapply entitled_grows; eassumption.
Qed.

Lemma spec_spliceSessionStreams fuel ctx0 p h s :
  entitled s p h → edge_spec (spliceSessionStreams fuel ctx0 p h) s (fun _ _ => True).
Proof.
  intros He. apply spec_quietly; [auto with edge|]. intros ctx s1 Hg1. apply spec_quietly.
  - quietly.
  - intros _ s2 Hg2. eapply spec_then; [apply spec_splice_streams|intros _ s3 _ _; apply silent; quietly].
    eapply entitled_grows; [|exact Hg2]. eapply entitled_grows; eassumption.
Qed.

Lemma spec_peer p s :
  edge_spec (pair_locked p (fun _ pc => (pc, p_peer pc))) s (fun key s' => ∃ pc, e_conns s' !! p = Some pc ∧ p_peer pc = key).
Proof.
  apply spec_pair. intros s1 pc Hg Hi Hp Hok. split; [by apply moves_same|]. exists pc. cbn. by rewrite lookup_insert_eq.
Qed.

(** A pair whose peer named [ex], with a session of that execution and key. *)
Lemma holds_entitled s p h ex pc :
  e_conns s !! p = Some pc → named s p ex → holds s h ex (p_peer pc) → entitled s p h.
Proof.
  intros Hp (f & (pc' & Hp' & Hf) & Ht & Hd) (a & Ha & He & Hk). simplify_eq. exists pc. split; [done|]. by exists a, f.
Qed.

Lemma quiet_runAcceptLoop fuel ctx0 : quiet (runAcceptLoop fuel ctx0).
Proof.
  induction fuel as [|fuel IH]; [apply quiet_halt|]. intros s.
  eapply spec_then; [apply spec_Accept|]. intros [n|] s1 Hg1 Hn; [|apply quiet_return].
  eapply spec_then; [apply spec_peer|]. intros key s2 Hg2 (pc & Hp & <-).
  eapply spec_then; [apply spec_open_session|]. intros [h|e] s3 Hg3 Hh; [|apply silent; quietly].
  assert (entitled s3 (ns_pair n) h) as He.
  { destruct (g_conns _ _ Hg3 _ _ Hp) as (pc' & Hp' & Hk & _). rewrite -Hk in Hh. apply (holds_entitled s3 _ h (ns_preamble n) pc'); [done| |done].
    eapply named_grows; [|exact Hg3]. eapply named_grows; [|exact Hg2]. apply Hn. }
  apply (spec_then _ _ _ (fun _ _ => True)).
  - eapply spec_then; [apply spec_promote|].
    { apply (g_pendings _ _ Hg3), (g_pendings _ _ Hg2), Hn. }
    intros [e|] s4 Hg4 _; [apply quiet_return|]. apply spec_Authorize. eapply entitled_grows; eassumption.
  - intros [e|] s4 Hg4 _; [apply silent; quietly|].
    apply (spec_then _ _ _ (fun _ _ => True)); [|intros _ s5 _ _; apply IH].
    apply spec_go; [apply _| |done]. apply spec_spliceSessionStreams. eapply entitled_grows; eassumption.
Qed.

(** ** Runs *)

Lemma env_good s s' : edge_inv s → env s s' → good_step s s'.
Proof.
  intros Hi. destruct 1 as [s ex key ts ep r Hb|s ex|s ex|s h|s ctx|s st sc pc c' frames Hs Hp Hu].
  - exact (registry_step_bind s ex key ts ep r Hi Hb).
  - apply registry_step_ends; [done| |apply CloseSession_ends]. apply CloseSession_ok. by destruct Hi.
  - apply registry_step_ends; [done| |apply Invalidate_ends]. apply Invalidate_ok. by destruct Hi.
  - apply registry_step_ends; [done| |apply Release_ends]. apply Release_ok. by destruct Hi.
  - apply same_step; try done; by destruct Hi.
  - destruct (cell_step s st sc (mkCell (sc_pair sc) (sc_id sc) c' (sc_once sc)) Hi Hs) as [Hi1 Hg1]; [done..|].
    set (s1 := with_streams _ s) in *.
    destruct (out_step s1 (map (fun f => (p_peer pc, mkFrame (fr_typ f) (sc_id sc) (fr_payload f))) frames) Hi1) as [Hi2 Hg2].
    + apply Forall_forall. intros x. rewrite list_elem_of_In in_map_iff. intros (f & <- & Hf%list_elem_of_In).
      assert (fr_typ f ≠ frameTypeAccept ∧ fr_typ f ≠ frameTypeStreamOpen) as [Ha Ho].
      { destruct Hu; repeat case_match; set_solver. }
      split; cbn; done.
    + split; [done|]. etrans; eassumption.
Qed.

Lemma api_quiet p s : api mtu p → safe edge_inv grows p s.
Proof.
  assert (∀ m : E unit, quiet m → safe edge_inv grows (thread m) s) as Ht.
  { intros m Hm. apply spec_thread. apply Hm. }
  destruct 1; apply Ht; quietly; apply quiet_Dial.
Qed.

Lemma start_inv : edge_inv newEdge.
Proof.
  split; cbn; [intros ??; rewrite lookup_empty; done..| | | |constructor|constructor].
  - split; cbn; [intros ??; rewrite lookup_empty; done..| |unfold maxPendingSessions; lia]. rewrite map_size_empty. lia.
  - apply NewRegistry_ok.
  - split; cbn; intros ??; rewrite lookup_empty; done.
Qed.

Lemma start_safe fuel : Forall (fun p => safe edge_inv grows p newEdge) (start mtu fuel).2.
Proof.
  constructor; [apply spec_thread, quiet_readLoop|]. constructor; [apply spec_thread, quiet_runAcceptLoop|constructor].
Qed.

Lemma runs_inv fuel w : edge_runs mtu fuel w → edge_inv w.1.
Proof.
  intros Hr. refine (proj1 (moves_safe edge_inv grows env (api mtu) (start mtu fuel) w _ _ Hr start_inv (start_safe fuel))).
  - exact env_good.
  - intros p s _. apply api_quiet.
Qed.

(** ** Properties *)

(** C4 Whoever sends packets to a daemon and whatever they say: each container
    port it dials was declared by a binding of that execution which pins the key
    of the peer the stream came from, and that peer named the execution in its
    preamble.  A peer is sent an accept frame only if its key is bound in this
    way, the streams waiting to be connected lead to ports of sessions of that
    key, and a client sends a stream-open only to a peer that has sent it an
    accept frame. *)
Theorem tunnel_authorised fuel w :
  edge_runs mtu fuel w → let s := w.1 in
  (∀ d, d ∈ h_dials s → ∃ pc f b t,
     e_conns s !! d_pair d = Some pc ∧ f ∈ p_heard pc ∧ fr_typ f = frameTypePreamble ∧
     decodePreamble (fr_payload f) = Some (d_execution d) ∧
     b ∈ h_bound s ∧ b_execution b = d_execution d ∧ b_key b = p_peer pc ∧ t ∈ b_targets b ∧ target_port t = d_port d) ∧
  (∀ to f, (to, f) ∈ h_out s → fr_typ f = frameTypeAccept → ∃ b, b ∈ h_bound s ∧ b_key b = to) ∧
  (∀ p pc x, e_conns s !! p = Some pc → x ∈ p_incoming pc →
     ∃ b, b ∈ h_bound s ∧ b_key b = p_peer pc ∧ is_Target x ∈ b_targets b) ∧
  (∀ to f, (to, f) ∈ h_out s → fr_typ f = frameTypeStreamOpen →
     ∃ p pc g, e_conns s !! p = Some pc ∧ p_peer pc = to ∧ g ∈ p_heard pc ∧ fr_typ g = frameTypeAccept).
Proof.
  intros Hr s. assert (edge_inv s) as Hi by exact (runs_inv fuel w Hr). clearbody s. clear Hr.
  destruct (ei_bound _ Hi) as [_ Hb]. split_and!.
  - intros d Hd. pose proof (proj1 (Forall_forall _ _) (ei_dials _ Hi) d Hd) as ((pc & Hp & a & f & Ha & Hk & Hf & Ht & Hdec) & a' & Ha' & He & t & Hin & Htp).
    assert (a' = a) as -> by congruence. exists pc, f, (mkBinding (s_ExecutionID a) (s_PeerKey a) (s_Targets a)), t.
    rewrite -He. split_and!; try done. exact (Hb _ _ Ha).
  - intros to f Hx Ht. destruct (proj1 (Forall_forall _ _) (ei_out _ Hi) _ Hx) as [Hacc _].
    destruct (Hacc Ht) as (p & pc & h & Hp & Hk & a & g & Ha & Hka & _). eexists. split; [exact (Hb _ _ Ha)|]. cbn in *. congruence.
  - intros p pc x Hp Hx. destruct (ei_conns _ Hi p pc Hp) as [_ [_ _ _ Hq _ _]].
    destruct (proj1 (Forall_forall _ _) Hq x Hx) as (a & Ha & Hk & Ht). eexists. split; [exact (Hb _ _ Ha)|done].
  - intros to f Hx Ht. destruct (proj1 (Forall_forall _ _) (ei_out _ Hi) _ Hx) as [_ Hopen]. exact (Hopen Ht).
Qed.

(** C36 What peers can make an edge keep is bounded: at most eight pending
    records and eight queued ones, and for each pair at most two packets of
    handshake bytes and 64 streams waiting to be connected.  A pair is routed
    under its peer's own key only. *)
Theorem edge_bounded fuel w :
  edge_runs mtu fuel w → let s := w.1 in
  (size (m_pending (e_mux s)) ≤ maxPendingSessions)%nat ∧ (length (m_inbound (e_mux s)) ≤ maxPendingSessions)%nat ∧
  (∀ p pc, e_conns s !! p = Some pc →
     zlen (p_raw pc) < 2 * maxPacketPayload + Z.of_nat frameHeaderSize ∧
     (length (p_incoming pc) ≤ maxIncomingStreams)%nat) ∧
  (∀ k p, m_pairs (e_mux s) !! k = Some p → ∃ pc, e_conns s !! p = Some pc ∧ go_string (p_peer pc) = k) ∧
  (∀ k h, m_pending (e_mux s) !! k = Some h →
     ∃ x pc, e_pendings s !! h = Some x ∧ e_conns s !! pd_pair x = Some pc ∧ go_string (p_peer pc) = k).
Proof.
  intros Hr s. assert (edge_inv s) as Hi by exact (runs_inv fuel w Hr). clearbody s. clear Hr. destruct (ei_mux _ Hi) as [Hp Hq Hs Hn]. split_and!; [done..| |done|].
  - intros p pc Hpc. by destruct (ei_conns _ Hi p pc Hpc) as [_ []].
  - intros k h Hk. destruct (Hq k h Hk) as (x & Hx & <-). destruct (ei_pendings _ Hi h x Hx) as (_ & pc & ? & ?). by exists x, pc.
Qed.

End mux.
