(* ===== verification/EdgeRuns.v ===== *)
(** * Runs of the tunnel edge

    A client's tunnel from its first packet to the dialled port, and a run in
    which packets from unknown keys keep the read loop from serving it. *)

From S2P Require Import Prelude GoStrings Wire Errors Protocol Registry Base64 Json Framing Stream Concur Edge EdgeSafe.
From Stdlib Require Import Strings.Byte.

Abbreviation pool := (Edge * list (prog Edge input))%type.

Definition calm : input := mkInput true false 0 None "".
Definition arrives (from : bytes) (f : frame) : input := mkInput true false 0 (Some (Packet (Some from) (packet_of f))) "".

Section drive.
Context `{Externals}.

(** The goroutine at [i] runs until it waits. *)
Fixpoint run_on (fuel : nat) (i : nat) (w : pool) : pool :=
  match fuel with
  | O => w
  | S fuel' => match run_step i calm w with Some w' => run_on fuel' i w' | None => w end
  end.

(** A packet arrives and the read loop handles it. *)
Definition receive (from : bytes) (f : frame) (w : pool) : pool :=
  match run_step 0 (arrives from f) w with Some w' => run_on 100 0 w' | None => w end.

Definition declare (ex : string) (key : bytes) (port : Z) (w : pool) : pool :=
  match Bind (e_registry w.1) ex key [mkTarget port] (mkEndpoint [] []) with
  | Ok r => (with_bound (h_bound w.1 ++ [mkBinding ex key [mkTarget port]]) (with_registry r w.1), w.2)
  | Err _ => w
  end.

Definition reached (w : pool) : Prop := edge_runs 1280 20 w.

Lemma reached_step i c w w' : reached w → run_step i c w = Some w' → reached w'.
Proof. intros Hw Hs. eapply rtc_r; [exact Hw|]. exact (moves_run _ _ i c w w' Hs). Qed.

Lemma reached_run_on fuel i w : reached w → reached (run_on fuel i w).
Proof.
  revert w. induction fuel as [|fuel IH]; intros w Hw; cbn [run_on]; [done|].
  destruct (run_step i calm w) as [w'|] eqn:Hs; [|done]. apply IH. exact (reached_step i calm w w' Hw Hs).
Qed.

Lemma reached_receive from f w : reached w → reached (receive from f w).
Proof.
  intros Hw. unfold receive. destruct (run_step 0 _ w) as [w'|] eqn:Hs; [|done]. apply reached_run_on.
  exact (reached_step 0 _ w w' Hw Hs).
Qed.

Lemma reached_declare ex key port w : reached w → reached (declare ex key port w).
Proof.
  destruct w as [s ts]. intros Hw. unfold declare. cbn. destruct (Bind _ _ _ _ _) as [r|e] eqn:Hb; [|done].
  eapply rtc_r; [exact Hw|]. apply moves_env, (env_bind s ex key [mkTarget port] (mkEndpoint [] []) r Hb).
Qed.

Lemma reached_start : reached (start 1280 20).
Proof. apply rtc_refl. Qed.

(** ** A tunnel *)

Definition owner : bytes := [x01; x02].
Definition preamble : frame := mkFrame frameTypePreamble 0 (encodePreamble "x1").
Definition stream_open : frame := mkFrame frameTypeStreamOpen 1 (encodeStreamOpen 80).

(** The owner binds its key and port 80, its preamble and its stream-open
    arrive; goroutine 1 is the accept loop, 3 the session's and 5 the stream's. *)
Definition established : pool := run_on 100 1 (receive owner preamble (declare "x1" owner 80 (start 1280 20))).
Definition spliced : pool := run_on 100 5 (run_on 100 3 (receive owner stream_open established)).

Lemma established_reached : reached established.
Proof. apply reached_run_on, reached_receive, reached_declare, reached_start. Qed.

Lemma spliced_reached : reached spliced.
Proof. apply reached_run_on, reached_run_on, reached_receive, established_reached. Qed.

(** ** Packets of unknown keys *)

Definition silent_peer : bytes := [x03].
Definition noisy_peer : bytes := [x04].
Definition other_frame : frame := mkFrame frameTypeData 5 [].
Definition garbage : frame := mkFrame x00 0 [].

(** One peer sends a frame that is no preamble, so that the accept loop waits for
    its preamble; another sends nine packets that are no frames. *)
Definition stalled : pool :=
  Nat.iter 9 (receive noisy_peer garbage) (run_on 100 1 (receive silent_peer other_frame established)).

Lemma reached_flood n w : reached w → reached (Nat.iter n (receive noisy_peer garbage) w).
Proof. intros Hw. induction n as [|n IH]; [exact Hw|]. exact (reached_receive _ _ _ IH). Qed.

Lemma stalled_reached : reached stalled.
Proof. exact (reached_flood _ _ (reached_run_on _ _ _ (reached_receive _ _ _ established_reached))). Qed.

(** Each malformed packet leaves a dead record in the queue of the accept loop.
    With the queue full the read loop itself waits: until a timer fires, no
    packet of any peer is read, also none of the established tunnel. *)
Lemma read_loop_stalls :
  reached stalled ∧
  (∃ p pc, m_pairs (e_mux stalled.1) !! go_string owner = Some p ∧ e_conns stalled.1 !! p = Some pc ∧
     p_session pc = Some 0%nat ∧ p_closed pc = false) ∧
  (∀ c, i_pick c = false → run_step 0 c stalled = None ∧ run_step 1 c stalled = None).
Proof.
  split; [exact stalled_reached|split].
  - exists 1%nat, (default (newPair 1280 owner) (e_conns stalled.1 !! 1%nat)).
    split; [|split; [|split]]; vm_compute; reflexivity.
  - intros [ok pick now recv txt] Hp. change (pick = false) in Hp. subst pick. split; vm_compute; reflexivity.
Qed.

End drive.

(** ** The properties at these runs *)

#[local] Existing Instance concrete_externals.

Lemma tunnel_authorised_witness :
  h_dials spliced.1 = [mkDial 1 0 "x1" 80] ∧
  ∃ b t, b ∈ h_bound spliced.1 ∧ b_execution b = "x1" ∧ b_key b = owner ∧ t ∈ b_targets b ∧ target_port t = 80.
Proof.
  assert (h_dials spliced.1 = [mkDial 1 0 "x1" 80]) as Hd by (vm_compute; reflexivity). split; [exact Hd|].
  destruct (proj1 (tunnel_authorised 1280 20 spliced spliced_reached) (mkDial 1 0 "x1" 80))
    as (pc & f & b & t & Hp & _ & _ & _ & Hb & He & Hk & Ht & Hport); [rewrite Hd; left|].
  exists b, t. assert (p_peer <$> e_conns spliced.1 !! 1%nat = Some owner) as Ho by (vm_compute; reflexivity).
  change (e_conns spliced.1 !! 1%nat = Some pc) in Hp. rewrite Hp in Ho. injection Ho as Ho. rewrite -Ho.
  exact (conj Hb (conj He (conj Hk (conj Ht Hport)))).
Defined.

Lemma edge_bounded_witness : length (m_inbound (e_mux stalled.1)) = 8%nat ∧ (8 ≤ maxPendingSessions)%nat.
Proof.
  assert (length (m_inbound (e_mux stalled.1)) = 8%nat) as He by (vm_compute; reflexivity). split; [exact He|]. rewrite -He.
  exact (proj1 (proj2 (edge_bounded 1280 20 stalled stalled_reached))).
Defined.
