(* ===== verification/Tail.v ===== *)
(** * Following the logs of a run (cmd/r1s/run_tail.go)

    The goroutine that copies the retained output of the active execution to the
    terminal or to the file of a detached run, one bounded chunk per stream and
    poll, and the calls of [SetActive] that switch it to a further attempt.  A
    step is a locked part of a method or one read; a switch may come between any
    two of them.  The log of an execution is what its container wrote; a read
    returns some bytes of it from the offset on, or fails.

    The last field of a state is not part of the program: it records what was
    shown, piece by piece. *)

From stdpp Require Import pretty.
From S2P Require Import Prelude GoStrings Base64 Json.
From Stdlib Require Import Strings.Byte.

Definition MaxLogChunkBytes : Z := Z.shiftl 64 10.

(** ** State *)

(** [runTail]; a nil destination is [false]. *)
Record runTail := mkTail {
  t_file : bool;
  t_stdoutTarget : bool;
  t_stderrTarget : bool;
  t_active : string;
  t_seen : string;
  t_off : gmap string Z;
  t_runID : string;
  t_attempt : Z
}.

Definition newForegroundTail : runTail := mkTail false true true "" "" ∅ "" 0.
Definition newDetachedTail : runTail := mkTail true false false "" "" ∅ "" 0.

(** Where [poll] is: between polls, before the next stream, with a chunk that is
    to be checked, with a chunk that is to be written. *)
Inductive point :=
| Rest
| Next (ex : string) (offsets : gmap string Z) (todo : list string)
| Fetched (ex : string) (offsets : gmap string Z) (stream : string) (data : bytes) (todo : list string)
| Passed (ex : string) (offsets : gmap string Z) (stream : string) (data : bytes) (todo : list string).

Inductive piece :=
| Attempt (ex : string) (marker : bytes)
| Data (stream : string) (data : bytes).

Record tailing := mkTailing {
  tg_tail : runTail;
  tg_point : point;
  tg_stopped : bool;
  tg_stdout : bytes;
  tg_stderr : bytes;
  tg_file : bytes;
  h_pieces : list piece
}.

Definition start (t : runTail) : tailing := mkTailing t Rest false [] [] [] [].

(** ** Operations *)

Definition offset_of (stream : string) (off : gmap string Z) : Z := default 0 (off !! stream).

Definition with_off (off : gmap string Z) (t : runTail) : runTail :=
  mkTail (t_file t) (t_stdoutTarget t) (t_stderrTarget t) (t_active t) (t_seen t) off (t_runID t) (t_attempt t).

Definition with_point (p : point) (s : tailing) : tailing :=
  mkTailing (tg_tail s) p (tg_stopped s) (tg_stdout s) (tg_stderr s) (tg_file s) (h_pieces s).

Definition marker (first : bool) (runID : string) (attempt : Z) : bytes :=
  text (if first then "[r1s] run=" +:+ runID +:+ " attempt=" +:+ pretty attempt
        else "[r1s] rescheduled attempt=" +:+ pretty attempt) ++ [x0a].

(** [SetActive] *)
Definition SetActive (executionID runID : string) (attempt : Z) (s : tailing) : tailing :=
  let t := tg_tail s in
  let runID' := if bool_decide (runID = "") then t_runID t else runID in
  if bool_decide (executionID = t_seen t) then
    mkTailing (mkTail (t_file t) (t_stdoutTarget t) (t_stderrTarget t) executionID (t_seen t) (t_off t) runID' attempt)
      (tg_point s) (tg_stopped s) (tg_stdout s) (tg_stderr s) (tg_file s) (h_pieces s)
  else
    let line := if t_file t then marker (bool_decide (t_seen t = "")) runID' attempt else [] in
    mkTailing
      (mkTail (t_file t) (t_stdoutTarget t) (t_stderrTarget t) executionID executionID
         (<["stdout" := 0]> (<["stderr" := 0]> ∅)) runID' attempt)
      (tg_point s) (tg_stopped s) (tg_stdout s) (tg_stderr s) (tg_file s ++ line) (h_pieces s ++ [Attempt executionID line]).

(** The first locked part of [poll]. *)
Definition poll_begin (s : tailing) : tailing :=
  let t := tg_tail s in
  if bool_decide (t_active t = "") then s else with_point (Next (t_active t) (t_off t) ["stdout"; "stderr"]) s.

Definition resume (ex : string) (offsets : gmap string Z) (todo : list string) : point :=
  match todo with [] => Rest | _ => Next ex offsets todo end.

(** The comparison of the offset before a chunk is written. *)
Definition poll_check (ex : string) (offsets : gmap string Z) (stream : string) (data : bytes) (todo : list string)
    (s : tailing) : tailing :=
  if offset_of stream (t_off (tg_tail s)) =? offset_of stream offsets
  then with_point (Passed ex offsets stream data todo) s
  else with_point (resume ex offsets todo) s.

(** [write]; the destination takes [n] bytes, which nobody looks at. *)
Definition write (stream : string) (data : bytes) (n : nat) (s : tailing) : tailing :=
  let t := tg_tail s in
  let shown := take n data in
  let off := <[stream := (offset_of stream (t_off t) + zlen data) mod 2 ^ 64]> (t_off t) in
  let put out err file :=
    mkTailing (with_off off t) (tg_point s) (tg_stopped s) (tg_stdout s ++ out) (tg_stderr s ++ err) (tg_file s ++ file)
      (h_pieces s ++ [Data stream shown]) in
  if t_file t then put [] [] shown
  else if bool_decide (stream = "stdout") then (if t_stdoutTarget t then put shown [] [] else s)
  else (if t_stderrTarget t then put [] shown [] else s).

(** ** Steps *)

Section tail.
Context (log : string → string → bytes).

(** [tailChunk]: at most [n] bytes of the log from the offset on. *)
Definition tailChunk (ex stream : string) (offset : Z) (n : nat) : bytes :=
  take (Z.to_nat (Z.min (Z.of_nat n) MaxLogChunkBytes)) (drop (Z.to_nat offset) (log ex stream)).

Inductive label :=
| Switch (executionID runID : string) (attempt : Z)
| Tick
| Fetch (answer : option nat)        (* [None] is a failed read *)
| Check
| Put (n : nat)
| Halt.                              (* the run has ended *)

Definition step (l : label) (s : tailing) : option tailing :=
  match l, tg_point s with
  | Switch ex run attempt, _ => Some (SetActive ex run attempt s)
  | Tick, Rest => if tg_stopped s then None else Some (poll_begin s)
  | Fetch answer, Next ex offsets (stream :: todo) =>
    match answer with
    | None => Some (with_point (resume ex offsets todo) s)
    | Some n =>
      match tailChunk ex stream (offset_of stream offsets) n with
      | [] => Some (with_point (resume ex offsets todo) s)
      | data => Some (with_point (Fetched ex offsets stream data todo) s)
      end
    end
  | Check, Fetched ex offsets stream data todo => Some (poll_check ex offsets stream data todo s)
  | Put n, Passed ex offsets stream data todo => Some (with_point (resume ex offsets todo) (write stream data n s))
  | Halt, Rest =>
    Some (mkTailing (tg_tail s) Rest true (tg_stdout s) (tg_stderr s) (tg_file s) (h_pieces s))
  | _, _ => None
  end.

Definition runs (ls : list label) (s : tailing) : option tailing := foldl (fun r l => r ≫= step l) (Some s) ls.

(** A step in which no poll is under way when the execution changes, and the
    destination takes all it is given. *)
Definition undisturbed (l : label) (s : tailing) : Prop :=
  match l, tg_point s with
  | Switch ex _ _, Rest => True
  | Switch ex _ _, _ => ex = t_seen (tg_tail s)
  | Put n, Passed _ _ _ data _ => (length data ≤ n)%nat
  | _, _ => True
  end.

Definition calm_step (s s' : tailing) : Prop := ∃ l, undisturbed l s ∧ step l s = Some s'.

(** ** What was shown *)

Definition streams : list string := ["stdout"; "stderr"].

(** The execution whose output is being shown, and what was shown of it. *)
Definition last_attempt (l : list piece) : option string :=
  foldl (fun acc p => match p with Attempt ex _ => Some ex | Data _ _ => acc end) None l.

Definition since (stream : string) (l : list piece) : bytes :=
  foldl (fun acc p => match p with
                      | Attempt _ _ => []
                      | Data st d => if bool_decide (st = stream) then acc ++ d else acc
                      end) [] l.

Definition bytes_of (stream : string) (l : list piece) : bytes :=
  concat (map (fun p => match p with Data st d => if bool_decide (st = stream) then d else [] | Attempt _ _ => [] end) l).

Definition render (l : list piece) : bytes :=
  concat (map (fun p => match p with Attempt _ m => m | Data _ d => d end) l).

Definition shown_ok (s : tailing) : Prop :=
  if t_file (tg_tail s) then tg_file s = render (h_pieces s)
  else tg_stdout s = bytes_of "stdout" (h_pieces s) ∧ tg_stderr s = bytes_of "stderr" (h_pieces s).

(** Every chunk goes on where the output of its attempt stopped. *)
Definition continues (l : list piece) : Prop :=
  ∀ l1 stream d l2, l = l1 ++ Data stream d :: l2 →
    ∃ ex, last_attempt l1 = Some ex ∧ since stream l1 ++ d `prefix_of` log ex stream.

Lemma continues_attempt l ex m : continues l → continues (l ++ [Attempt ex m]).
Proof.
  intros Hc l1 st d l2 Heq. destruct l2 as [|x l2 _] using rev_ind; [by apply app_inj_tail in Heq as [_ [=]]|].
  rewrite app_comm_cons app_assoc in Heq. apply app_inj_tail in Heq as [Heq _]. by apply (Hc l1 st d l2).
Qed.

Lemma continues_data l ex st d :
  continues l → last_attempt l = Some ex → since st l ++ d `prefix_of` log ex st → continues (l ++ [Data st d]).
Proof.
  intros Hc Hl Hp l1 st' d' l2 Heq. destruct l2 as [|x l2 _] using rev_ind.
  - apply app_inj_tail in Heq as [-> [= <- <-]]. by exists ex.
  - rewrite app_comm_cons app_assoc in Heq. apply app_inj_tail in Heq as [Heq _]. by apply (Hc l1 st' d' l2).
Qed.

Lemma last_attempt_snoc l p : last_attempt (l ++ [p]) = match p with Attempt ex _ => Some ex | Data _ _ => last_attempt l end.
Proof. unfold last_attempt. by rewrite foldl_app. Qed.

Lemma since_snoc st l p :
  since st (l ++ [p]) = match p with
                        | Attempt _ _ => []
                        | Data st' d => if bool_decide (st' = st) then since st l ++ d else since st l
                        end.
Proof. unfold since. by rewrite foldl_app. Qed.

Lemma bytes_of_snoc st l p :
  bytes_of st (l ++ [p]) = bytes_of st l ++ match p with Data st' d => if bool_decide (st' = st) then d else [] | Attempt _ _ => [] end.
Proof. unfold bytes_of. rewrite map_app concat_app /= app_nil_r. done. Qed.

Lemma render_snoc l p : render (l ++ [p]) = render l ++ match p with Attempt _ m => m | Data _ d => d end.
Proof. unfold render. rewrite map_app concat_app /= app_nil_r. done. Qed.

(** ** The invariant *)

(** What [poll] holds fits the execution that is being shown. *)
Definition point_ok (s : tailing) : Prop :=
  let t := tg_tail s in
  let agrees ex offsets todo :=
    ex = t_seen t ∧ ex ≠ "" ∧ NoDup todo ∧ Forall (fun st => st ∈ streams ∧ offset_of st offsets = offset_of st (t_off t)) todo in
  match tg_point s with
  | Rest => True
  | Next ex offsets todo => agrees ex offsets todo
  | Fetched ex offsets stream data todo | Passed ex offsets stream data todo =>
    agrees ex offsets (stream :: todo) ∧
    data `prefix_of` drop (Z.to_nat (offset_of stream offsets)) (log ex stream)
  end.

Record tail_inv (s : tailing) : Prop := {
  ti_shown : shown_ok s;
  ti_continues : continues (h_pieces s);
  ti_active : t_active (tg_tail s) = t_seen (tg_tail s);
  ti_current : t_seen (tg_tail s) ≠ "" → last_attempt (h_pieces s) = Some (t_seen (tg_tail s));
  ti_offsets st : st ∈ streams → offset_of st (t_off (tg_tail s)) = zlen (since st (h_pieces s));
  ti_prefix st : st ∈ streams → since st (h_pieces s) `prefix_of` log (t_seen (tg_tail s)) st;
  ti_point : point_ok s;
  ti_targets : t_file (tg_tail s) = false → t_stdoutTarget (tg_tail s) = true ∧ t_stderrTarget (tg_tail s) = true
}.

Lemma inv_point s p : tail_inv s → point_ok (with_point p s) → tail_inv (with_point p s).
Proof. intros [] Hp. by split. Qed.

Lemma inv_resume s ex offsets todo :
  tail_inv s → point_ok (with_point (Next ex offsets todo) s) → tail_inv (with_point (resume ex offsets todo) s).
Proof. intros Hi Hp. apply inv_point; [done|]. by destruct todo. Qed.

(** The same execution again: only the names change. *)
Lemma inv_same_execution s run attempt : tail_inv s → tail_inv (SetActive (t_seen (tg_tail s)) run attempt s).
Proof. intros []. unfold SetActive. rewrite bool_decide_eq_true_2 //. Qed.

Lemma inv_switch s ex run attempt : tail_inv s → tg_point s = Rest → tail_inv (SetActive ex run attempt s).
Proof.
  intros Hi Hr. destruct (decide (ex = t_seen (tg_tail s))) as [->|Hne]; [by apply inv_same_execution|].
  destruct Hi as [Hsh Hc Ha Hcur Ho Hp Hpt Htg]. unfold SetActive. rewrite bool_decide_eq_false_2 //.
  split; cbn [tg_tail h_pieces t_seen t_active t_off t_file t_stdoutTarget t_stderrTarget]; try done.
  - revert Hsh. unfold shown_ok. cbn [tg_tail t_file tg_file tg_stdout tg_stderr h_pieces]. destruct (t_file (tg_tail s)).
    + intros ->. by rewrite render_snoc.
    + rewrite !bytes_of_snoc !app_nil_r. done.
  - by apply continues_attempt.
  - by rewrite last_attempt_snoc.
  - intros st Hst. rewrite since_snoc. unfold streams in Hst. set_unfold in Hst. by destruct Hst as [->|[->|[]]].
  - intros st _. rewrite since_snoc. apply prefix_nil.
  - unfold point_ok. cbn [tg_point]. by rewrite Hr.
Qed.

(** ** Writing *)

Context (bounded : ∀ ex st, zlen (log ex st) < 2 ^ 64).

Lemma chunk_fits s ex st data :
  tail_inv s → ex = t_seen (tg_tail s) → st ∈ streams →
  data `prefix_of` drop (Z.to_nat (offset_of st (t_off (tg_tail s)))) (log ex st) →
  since st (h_pieces s) ++ data `prefix_of` log ex st ∧
  (offset_of st (t_off (tg_tail s)) + zlen data) mod 2 ^ 64 = zlen (since st (h_pieces s) ++ data).
Proof.
  intros Hi -> Hst [k Hk]. rewrite (ti_offsets _ Hi st Hst) in Hk |- *. destruct (ti_prefix _ Hi st Hst) as [r Hr].
  assert (log (t_seen (tg_tail s)) st = (since st (h_pieces s) ++ data) ++ k) as Hl.
  { rewrite Hr. unfold zlen in Hk. rewrite Nat2Z.id Hr drop_app_length in Hk. by rewrite Hk app_assoc. }
  split; [by exists k|]. pose proof (bounded (t_seen (tg_tail s)) st) as Hb. rewrite Hl in Hb. unfold zlen in *.
  rewrite !length_app in Hb. rewrite !length_app. rewrite Z.mod_small; lia.
Qed.

(** The state after a chunk was written, wherever it went. *)
Lemma inv_put s ex offsets st data todo out err file :
  tail_inv s → tg_point s = Passed ex offsets st data todo →
  let l := h_pieces s ++ [Data st data] in
  (if t_file (tg_tail s) then tg_file s ++ file = render l
   else tg_stdout s ++ out = bytes_of "stdout" l ∧ tg_stderr s ++ err = bytes_of "stderr" l) →
  tail_inv (mkTailing
    (with_off (<[st := (offset_of st (t_off (tg_tail s)) + zlen data) mod 2 ^ 64]> (t_off (tg_tail s))) (tg_tail s))
    (resume ex offsets todo) (tg_stopped s) (tg_stdout s ++ out) (tg_stderr s ++ err) (tg_file s ++ file) l).
Proof.
  intros Hi Hpt l Hshow. pose proof (ti_point _ Hi) as Hok. unfold point_ok in Hok. rewrite Hpt in Hok.
  destruct Hok as ((Hex & Hne & Hnd & Hall) & Hpre). inversion Hall as [|?? [Hst Hoff] Hall']; subst.
  rewrite Hoff in Hpre. destruct (chunk_fits s _ st data Hi eq_refl Hst Hpre) as [Hfit ->].
  apply NoDup_cons in Hnd as [Hnin Hnd].
  assert (∀ st', offset_of st' (<[st := zlen (since st (h_pieces s) ++ data)]> (t_off (tg_tail s))) =
    if bool_decide (st = st') then zlen (since st (h_pieces s) ++ data) else offset_of st' (t_off (tg_tail s))) as Hins.
  { intros st'. unfold offset_of. rewrite lookup_insert. by repeat case_decide; case_bool_decide. }
  destruct Hi as [Hsh Hc Ha Hcur Ho Hp _ Htg].
  split; cbn [tg_tail h_pieces with_off t_seen t_active t_off t_file t_stdoutTarget t_stderrTarget]; try done.
  - by apply (continues_data _ (t_seen (tg_tail s))); [|apply Hcur|].
  - intros _. rewrite last_attempt_snoc. by apply Hcur.
  - intros st' Hst'. rewrite Hins since_snoc. case_bool_decide; [by subst|by apply Ho].
  - intros st' Hst'. rewrite since_snoc. case_bool_decide; [by subst|by apply Hp].
  - destruct todo as [|st' todo]; [done|]. split_and!; [done..|]. cbn [tg_tail with_off t_off]. rewrite Forall_forall in Hall'.
    apply Forall_forall. intros x Hx. destruct (Hall' x Hx) as [Hxs Hxo]. split; [done|]. rewrite Hins bool_decide_eq_false_2 //.
    congruence.
Qed.

Lemma inv_write s ex offsets st data n todo :
  tail_inv s → tg_point s = Passed ex offsets st data todo → (length data ≤ n)%nat →
  tail_inv (with_point (resume ex offsets todo) (write st data n s)).
Proof.
  intros Hi Hpt Hn. pose proof (ti_point _ Hi) as Hok. unfold point_ok in Hok. rewrite Hpt in Hok.
  destruct Hok as ((_ & _ & _ & Hall) & _). inversion Hall as [|?? [Hst _] _]; subst.
  pose proof (ti_shown _ Hi) as Hsh. pose proof (ti_targets _ Hi) as Htg. unfold write. rewrite take_ge //. unfold shown_ok in Hsh.
  destruct (t_file (tg_tail s)) eqn:Hf.
  - apply (inv_put s ex offsets st data todo); [done..|]. by rewrite Hf render_snoc Hsh.
  - destruct (Htg eq_refl) as [-> ->]. destruct Hsh as [Ho He].
    assert (st = "stdout" ∨ st = "stderr") as [->| ->] by (unfold streams in Hst; set_solver).
    + rewrite bool_decide_eq_true_2 //. apply (inv_put s ex offsets "stdout" data todo); [done..|].
      by rewrite Hf !bytes_of_snoc Ho He.
    + rewrite bool_decide_eq_false_2 //. apply (inv_put s ex offsets "stderr" data todo); [done..|].
      by rewrite Hf !bytes_of_snoc Ho He.
Qed.

Lemma tail_inv_step l s s' : tail_inv s → undisturbed l s → step l s = Some s' → tail_inv s'.
Proof.
  intros Hi Hu. pose proof (ti_point _ Hi) as Hok. unfold step, undisturbed, point_ok in *.
  destruct l as [ex run attempt| |answer| |n|]; destruct (tg_point s) as [|ex' offs todo|ex' offs st d todo|ex' offs st d todo] eqn:Hp; try done.
  - intros [= <-]. by apply inv_switch.
  - intros [= <-]. subst. by apply inv_same_execution.
  - intros [= <-]. subst. by apply inv_same_execution.
  - intros [= <-]. subst. by apply inv_same_execution.
  - destruct (tg_stopped s); [done|]. intros [= <-]. unfold poll_begin. case_bool_decide as Ha; [done|].
    apply inv_point; [done|]. rewrite (ti_active _ Hi) in Ha |- *. split_and!; [done..| |].
    + repeat constructor; set_solver.
    + repeat constructor; unfold streams; set_solver.
  - destruct todo as [|st todo]; [done|]. destruct Hok as (Hex & Hne & Hnd & Hall). inversion Hnd. inversion Hall. subst.
    assert (tail_inv (with_point (resume (t_seen (tg_tail s)) offs todo) s)) as Hres by (by apply inv_resume).
    destruct answer as [n|]; [|by intros [= <-]]. destruct (tailChunk _ _ _ _) as [|b data] eqn:Hc; [by intros [= <-]|].
    intros [= <-]. apply inv_point; [done|]. split; [done|]. rewrite -Hc. unfold tailChunk. apply prefix_take.
  - intros [= <-]. destruct Hok as ((Hex & Hne & Hnd & Hall) & Hd). inversion Hnd. inversion Hall. subst.
    unfold poll_check. case_match; [by apply inv_point|]. by apply inv_resume.
  - intros [= <-]. by apply (inv_write s ex' offs st d n todo).
  - intros [= <-]. destruct Hi. by split.
Qed.

Lemma inv_start t : t = newForegroundTail ∨ t = newDetachedTail → tail_inv (start t).
Proof.
  intros [->| ->]; split; cbn; try done; try (intros st Hst; apply prefix_nil);
    try (intros l1 st d l2 Heq; by destruct l1).
Qed.

(** ** Properties *)

(** As long as no poll is under way when the execution changes and every write
    is taken whole: what is shown of each attempt is a prefix of what its
    container wrote, without a gap or a repetition, the offset of a stream is the
    number of its bytes that were shown, and the terminal (or the file of a
    detached run) holds exactly the pieces shown, in order.  Failed and short
    reads do not matter. *)
Theorem tail_exact t s :
  t = newForegroundTail ∨ t = newDetachedTail → rtc calm_step (start t) s →
  (∀ l1 stream d l2, h_pieces s = l1 ++ Data stream d :: l2 →
     ∃ ex, last_attempt l1 = Some ex ∧ since stream l1 ++ d `prefix_of` log ex stream) ∧
  (∀ st, st ∈ streams → offset_of st (t_off (tg_tail s)) = zlen (since st (h_pieces s)) ∧
     since st (h_pieces s) `prefix_of` log (t_active (tg_tail s)) st) ∧
  (if t_file (tg_tail s) then tg_file s = render (h_pieces s)
   else tg_stdout s = bytes_of "stdout" (h_pieces s) ∧ tg_stderr s = bytes_of "stderr" (h_pieces s)).
Proof.
  intros Ht Hr. assert (tail_inv s) as [Hsh Hc Ha Hcur Ho Hp _ _].
  { apply inv_start in Ht. revert Ht. induction Hr as [|s1 s2 s3 (l & Hu & Hs) _ IH]; [done|].
    intros Hi. apply IH. exact (tail_inv_step l s1 s2 Hi Hu Hs). }
  split_and!; [done| |done]. intros st Hst. rewrite Ha. split; [by apply Ho|by apply Hp].
Qed.

End tail.

(** A run's tail that is stopped shows nothing more, whatever was left unread. *)
Lemma stopped_shows_nothing log s s' :
  rtc (fun a b => ∃ l, step log l a = Some b) s s' → tg_stopped s = true → tg_point s = Rest →
  tg_stdout s' = tg_stdout s ∧ tg_stderr s' = tg_stderr s.
Proof.
  induction 1 as [|s1 s2 s3 (l & Hs) _ IH]; [done|]. intros Hst Hr. unfold step in Hs. rewrite Hr Hst in Hs.
  destruct l; try done; injection Hs as <-; [|by apply IH].
  assert (∀ ex run n, let s2 := SetActive ex run n s1 in tg_stopped s2 = true ∧ tg_point s2 = Rest ∧
    tg_stdout s2 = tg_stdout s1 ∧ tg_stderr s2 = tg_stderr s1) as HS
    by (intros ex run n; unfold SetActive; cbv zeta; by destruct (bool_decide (ex = t_seen (tg_tail s1)))).
  destruct (HS executionID runID attempt) as (H1 & H2 & <- & <-). by apply IH.
Qed.

(** A chunk that was read for one attempt and arrives after the switch to the
    next one is shown as output of the next one: the comparison of the offsets
    cannot tell two attempts apart that are both at their beginning.  The offset
    of the new attempt moves by the length of the old chunk, so as many bytes at
    the beginning of its log are never read. *)
Theorem stale_chunk_shown log e1 e2 run n data :
  e1 ≠ "" → e1 ≠ e2 → e2 ≠ "" → tailChunk log e1 "stdout" 0 n = data → data ≠ [] →
  ∃ s, runs log [Switch e1 run 1; Tick; Fetch (Some n); Switch e2 run 2; Check; Put (length data)] (start newForegroundTail) = Some s ∧
    t_active (tg_tail s) = e2 ∧ tg_stdout s = data ∧
    offset_of "stdout" (t_off (tg_tail s)) = zlen data mod 2 ^ 64 ∧
    last_attempt (h_pieces s) = Some e2 ∧ since "stdout" (h_pieces s) = data.
Proof.
  intros H1 Hne H2 Hd Hnil. set (off := <["stdout" := 0]> (<["stderr" := 0]> ∅) : gmap string Z).
  set (r := if bool_decide (run = "") then "" else run). set (r' := if bool_decide (run = "") then r else run).
  set (w1 := mkTailing (mkTail false true true e1 e1 off r 1) Rest false [] [] [] [Attempt e1 []]).
  set (w2 := mkTailing (mkTail false true true e2 e2 off r' 2) (Fetched e1 off "stdout" data ["stderr"]) false [] [] []
               [Attempt e1 []; Attempt e2 []]).
  assert (step log (Switch e1 run 1) (start newForegroundTail) = Some w1) as E1.
  { unfold step, SetActive. cbn [start newForegroundTail tg_tail t_seen tg_point]. by rewrite bool_decide_eq_false_2. }
  assert (step log Tick w1 = Some (with_point (Next e1 off ["stdout"; "stderr"]) w1)) as E2.
  { unfold step, poll_begin. cbn [w1 tg_point tg_stopped tg_tail t_active t_off]. by rewrite bool_decide_eq_false_2. }
  assert (step log (Fetch (Some n)) (with_point (Next e1 off ["stdout"; "stderr"]) w1) =
    Some (with_point (Fetched e1 off "stdout" data ["stderr"]) w1)) as E3.
  { unfold step. cbn [with_point tg_point]. change (offset_of "stdout" off) with 0. rewrite Hd. by destruct data. }
  assert (step log (Switch e2 run 2) (with_point (Fetched e1 off "stdout" data ["stderr"]) w1) = Some w2) as E4.
  { unfold step, SetActive. cbn [with_point w1 tg_tail t_seen tg_point]. rewrite bool_decide_eq_false_2; [congruence|done]. }
  assert (step log Check w2 = Some (with_point (Passed e1 off "stdout" data ["stderr"]) w2)) as E5.
  { unfold step, poll_check. cbn [w2 tg_point tg_tail t_off]. by rewrite Z.eqb_refl. }
  unfold runs. cbn [foldl mbind option_bind]. rewrite E1. cbn [mbind option_bind]. rewrite E2. cbn [mbind option_bind]. rewrite E3.
  cbn [mbind option_bind]. rewrite E4. cbn [mbind option_bind]. rewrite E5. cbn [mbind option_bind].
  eexists. split; [reflexivity|]. unfold write. cbn [with_point w2 tg_tail t_file t_stdoutTarget]. rewrite bool_decide_eq_true_2 //.
  cbn [with_point tg_tail with_off t_active tg_stdout t_off h_pieces app]. rewrite firstn_all. by split_and!.
Qed.

(** ** The properties at concrete logs *)

Definition demo_log (ex stream : string) : bytes :=
  if bool_decide (ex = "x1") then [x61; x62; x63] else [x64; x65].

Lemma demo_log_bounded ex st : zlen (demo_log ex st) < 2 ^ 64.
Proof. unfold demo_log. by case_bool_decide. Qed.

Ltac calmly l := eapply rtc_l; [exists l; split; [cbn; repeat constructor|vm_compute; reflexivity]|].

(** Two bytes, a failed read, the rest. *)
Definition demo_tail : tailing :=
  default (start newForegroundTail)
    (runs demo_log [Switch "x1" "r" 1; Tick; Fetch (Some 2%nat); Check; Put 2%nat; Fetch None;
                    Tick; Fetch (Some 5%nat); Check; Put 5%nat] (start newForegroundTail)).

Lemma demo_calm : rtc (calm_step demo_log) (start newForegroundTail) demo_tail.
Proof.
  calmly (Switch "x1" "r" 1). calmly Tick. calmly (Fetch (Some 2%nat)). calmly Check. calmly (Put 2%nat). calmly (Fetch None).
  calmly Tick. calmly (Fetch (Some 5%nat)). calmly Check. calmly (Put 5%nat).
  refine (eq_rect _ (rtc _ _) (rtc_refl _ _) _ _). vm_compute. reflexivity.
Qed.

Lemma tail_exact_witness :
  tg_stdout demo_tail = demo_log "x1" "stdout" ∧ since "stdout" (h_pieces demo_tail) `prefix_of` demo_log "x1" "stdout".
Proof.
  split; [vm_compute; reflexivity|].
  exact (proj2 (proj1 (proj2 (tail_exact demo_log demo_log_bounded newForegroundTail _ (or_introl eq_refl) demo_calm)) "stdout" (list_elem_of_here _ _))).
Defined.

Lemma stale_chunk_shown_witness :
  ∃ s, tg_stdout s = [x61; x62] ∧ t_active (tg_tail s) = "x2".
Proof.
  destruct (stale_chunk_shown demo_log "x1" "x2" "r" 2 [x61; x62]) as (s & _ & Ha & Ho & _); [done..|]. by exists s.
Defined.
