(* ===== verification/Sha256.v ===== *)
(** * SHA-256

    [crypto/sha256] of the Go library, on 32-bit words with their wrap-around
    written out.  Log directories, container names and execution fingerprints
    are made with it. *)

From S2P Require Import Prelude GoStrings Base64 Json Framing.
From Stdlib Require Import Strings.Byte.

Definition add32 (x y : Z) : Z := u32 (x + y).
Definition rotr32 (n x : Z) : Z := Z.lor (Z.shiftr x n) (u32 (Z.shiftl x (32 - n))).
Definition not32 (x : Z) : Z := Z.lxor x (2 ^ 32 - 1).

(** The constants of the standard: the first 32 bits of the fractional parts of
    the cube and square roots of the first primes. *)
Definition small_primes : list Z :=
  filter (fun n => forallb (fun d => negb (n mod d =? 0)) (Z.of_nat <$> seq 2 (Z.to_nat n - 2)) = true) (Z.of_nat <$> seq 2 310).

(** The integer cube root, bit by bit. *)
Fixpoint cube_root (bits : nat) (root n : Z) : Z :=
  match bits with
  | O => root
  | S k => let r := root + 2 ^ Z.of_nat k in cube_root k (if r ^ 3 <=? n then r else root) n
  end.

Definition round_constants : list Z := Eval vm_compute in (fun p => u32 (cube_root 36 0 (p * 2 ^ 96))) <$> small_primes.
Definition initial_digest : list Z := Eval vm_compute in (fun p => u32 (Z.sqrt (p * 2 ^ 64))) <$> take 8 small_primes.

(** The message schedule, newest word first. *)
Definition next_word (w : list Z) : Z :=
  let at_ i := nth i w 0 in
  let v1 := at_ 1%nat in
  let t1 := Z.lxor (Z.lxor (rotr32 17 v1) (rotr32 19 v1)) (Z.shiftr v1 10) in
  let v2 := at_ 14%nat in
  let t2 := Z.lxor (Z.lxor (rotr32 7 v2) (rotr32 18 v2)) (Z.shiftr v2 3) in
  add32 (add32 t1 (at_ 6%nat)) (add32 t2 (at_ 15%nat)).

Fixpoint schedule (n : nat) (w : list Z) : list Z :=
  match n with O => w | S n' => schedule n' (next_word w :: w) end.

Definition round (s : list Z) (kw : Z * Z) : list Z :=
  match s with
  | [a; b; c; d; e; f; g; h] =>
    let t1 := add32 (add32 (add32 h (Z.lxor (Z.lxor (rotr32 6 e) (rotr32 11 e)) (rotr32 25 e)))
                           (Z.lxor (Z.land e f) (Z.land (not32 e) g)))
                    (add32 (fst kw) (snd kw)) in
    let t2 := add32 (Z.lxor (Z.lxor (rotr32 2 a) (rotr32 13 a)) (rotr32 22 a))
                    (Z.lxor (Z.lxor (Z.land a b) (Z.land a c)) (Z.land b c)) in
    [add32 t1 t2; a; b; c; add32 d t1; e; f; g]
  | _ => s
  end.

Fixpoint words (n : nat) (l : bytes) : list Z :=
  match n with O => [] | S n' => be_value (take 4 l) :: words n' (drop 4 l) end.

Definition block (digest : list Z) (chunk : bytes) : list Z :=
  let w := rev (schedule 48 (rev (words 16 chunk))) in
  zip_with add32 digest (foldl round digest (zip round_constants w)).

(** The padding: a one bit, zeros and the length in bits. *)
Definition pad (l : bytes) : bytes :=
  l ++ [x80] ++ replicate (Z.to_nat ((55 - zlen l) mod 64)) x00 ++ be_bytes 8 (u64 (8 * zlen l)).

Fixpoint blocks (n : nat) (digest : list Z) (l : bytes) : list Z :=
  match n with O => digest | S n' => blocks n' (block digest (take 64 l)) (drop 64 l) end.

Definition sha256 (l : bytes) : bytes :=
  let p := pad l in
  flat_map (be_bytes 4) (blocks (length p / 64) initial_digest p).

(** The published test vectors. *)
Lemma sha256_empty : hex_encode (sha256 []) = "e3b0c44298fc1c149afbf4c8996fb92427ae41e4649b934ca495991b7852b855".
Proof. by vm_compute. Qed.
Lemma sha256_abc : hex_encode (sha256 (text "abc")) = "ba7816bf8f01cfea414140de5dae2223b00361a396177a9cb410ff61f20015ad".
Proof. by vm_compute. Qed.
Lemma sha256_two_blocks :
  hex_encode (sha256 (text "abcdbcdecdefdefgefghfghighijhijkijkljklmklmnlmnomnopnopq")) =
  "248d6a61d20638b8e5c026930c3e6039a33ce45964ff2167f6ecedd419db06c1".
Proof. by vm_compute. Qed.
