(* ===== verification/ExecSpec.v ===== *)
(** * Execution specifications (internal/runtime/containerd/specification.go)

    The validation of a start request, the fingerprint that identifies what was
    asked for, and the environment of the container.  The image reference parser
    and the Protobuf encoder are third-party: they are the class [Images]. *)

From stdpp Require Import pretty.
From S2P Require Import Prelude GoStrings Ordering Wire Errors Admission Utf8 AllocTypes Base64 Json Decimal Framing Sha256.
From Stdlib Require Import Strings.Byte Strings.Ascii.

(** [pinnedDigest] of an image reference and the deterministic encoding of the
    two messages. *)
Class Images := {
  pinned : string → bool;
  proto_workload : Workload → option bytes;
  proto_policy : ExecutionPolicy → option bytes
}.

(** The encoding is faithful. *)
Class ImagesLaws `{Images} := {
  proto_workload_inj w w' b : proto_workload w = Some b → proto_workload w' = Some b → w = w'
}.

Section spec.
Context `{Images}.

Inductive spec_error := InvalidRequest (detail : string) | InvalidResources.

(** ** Fingerprint *)

Definition hash_part (value : bytes) : bytes := be_bytes 8 (u64 (zlen value)) ++ value.

Definition resources_json (r : Resources) : bytes :=
  print_value (JObj [(text "memory_bytes", JNum (text (pretty (MemoryBytes r)))); (text "cpu_milli", JNum (text (pretty (CPUMilli r))));
                     (text "pids", JNum (text (pretty (Pids r))))]).

(** What is written to the hash. *)
Definition fingerprint_input (r : StartRequest) (workload policy : bytes) : bytes :=
  hash_part (st_Client r) ++ hash_part (text (st_RunID r)) ++ hash_part (be_bytes 8 (st_Attempt r)) ++
  hash_part workload ++ hash_part policy ++
  (if decide (st_Resources r = zero_resources) then [] else hash_part (resources_json (st_Resources r))).

Definition fingerprint (r : StartRequest) (w : Workload) (p : ExecutionPolicy) : result spec_error string :=
  match proto_workload w with
  | None => Err (InvalidRequest "marshal workload")
  | Some workload =>
    match proto_policy p with
    | None => Err (InvalidRequest "marshal policy")
    | Some policy => Ok (hex_encode (sha256 (fingerprint_input r workload policy)))
    end
  end.

(** ** Validation *)

Record executionSpec := mkSpec { sp_request : StartRequest; sp_fingerprint : string; sp_startedAt : time }.

Definition prepareExecution (request : StartRequest) (has_reporter : bool) : result spec_error executionSpec :=
  if blank (st_ExecutionID request) then Err (InvalidRequest "execution ID is required")
  else if blank (st_RunID request) || (st_Attempt request =? 0) then Err (InvalidRequest "run ID and positive attempt are required")
  else if negb has_reporter then Err (InvalidRequest "completion reporter is required")
  else match st_Workload request, st_Policy request with
  | Some workload, Some policy =>
    if negb (pinned (wl_image workload)) then Err (InvalidRequest "image must be pinned by digest")
    else match Resources_Validate (st_Resources request) with
    | Err _ => Err InvalidResources
    | Ok _ => try fp ← fingerprint request workload policy; Ok (mkSpec request fp (st_StartedAt request))
    end
  | _, _ => Err (InvalidRequest "workload and policy are required")
  end.
End spec.

(** ** Environment *)

Definition runEnv : string := "R1S_RUN_ID".
Definition attemptEnv : string := "R1S_ATTEMPT".

Definition environment (workload : Workload) (runID : string) (attempt : Z) : list string :=
  let env := wl_environment workload in
  let keys := sort_strings (map_to_list env).*1 in
  map (fun key => key +:+ "=" +:+ default "" (env !! key)) (List.filter (fun key => negb (bool_decide (key = runEnv) || bool_decide (key = attemptEnv))) keys)
  ++ [runEnv +:+ "=" +:+ runID; attemptEnv +:+ "=" +:+ pretty attempt].

(** ** The fingerprint determines the request *)

Lemma be_bytes_inj w m n : 0 ≤ m < 2 ^ (8 * Z.of_nat w) → 0 ≤ n < 2 ^ (8 * Z.of_nat w) → be_bytes w m = be_bytes w n → m = n.
Proof. intros Hm Hn He. apply (f_equal be_value) in He. by rewrite !be_value_bytes !Z.mod_small in He. Qed.

(** The length prefix tells the parts apart. *)
Lemma hash_part_inj a b k k' : zlen a < 2 ^ 64 → zlen b < 2 ^ 64 → hash_part a ++ k = hash_part b ++ k' → a = b ∧ k = k'.
Proof.
  intros Ha Hb. unfold hash_part. rewrite !u64_small; [unfold zlen in *; lia..|]. rewrite -!app_assoc. intros He.
  apply app_inj_1 in He as [Hl He]; [|by rewrite !be_bytes_length]. apply be_bytes_inj in Hl; [|unfold zlen in *; simpl; lia..].
  apply app_inj_1 in He; [done|]. unfold zlen in Hl. lia.
Qed.

Lemma text_inj (x y : string) : text x = text y → x = y.
Proof. unfold text. intros E. by rewrite -(String.string_of_list_byte_of_string x) E String.string_of_list_byte_of_string. Qed.

Lemma resources_json_inj r r' :
  0 ≤ MemoryBytes r → 0 ≤ CPUMilli r → 0 ≤ Pids r → 0 ≤ MemoryBytes r' → 0 ≤ CPUMilli r' → 0 ≤ Pids r' →
  resources_json r = resources_json r' → r = r'.
Proof.
  intros H1 H2 H3 H1' H2' H3' He.
  assert (∀ x, 0 ≤ MemoryBytes x → 0 ≤ CPUMilli x → 0 ≤ Pids x → ∃ k1 k2 k3, parse_document (resources_json x) =
    Some (JObj [(k1, JNum (text (pretty (MemoryBytes x)))); (k2, JNum (text (pretty (CPUMilli x)))); (k3, JNum (text (pretty (Pids x))))])) as Hp.
  { intros x X1 X2 X3. unfold resources_json. rewrite -(app_nil_r (print_value _)) parse_print_document; [|done|].
    - cbn [writable forallb snd]. by rewrite !(proj1 (pretty_nonneg _ _)).
    - cbn [as_read map fst snd]. by eexists _, _, _. }
  destruct (Hp r) as (a1 & a2 & a3 & P); [done..|]. destruct (Hp r') as (b1 & b2 & b3 & P'); [done..|].
  rewrite He P' in P. injection P as _ E1 _ E2 _ E3.
  apply text_inj in E1, E2, E3. apply (inj pretty) in E1, E2, E3. destruct r, r'; simpl in *; congruence.
Qed.

Lemma validated_nonneg r u : Resources_Validate r = Ok u → 0 ≤ MemoryBytes r ∧ 0 ≤ CPUMilli r ∧ 0 ≤ Pids r.
Proof.
  unfold Resources_Validate. case_decide as Hz; [by subst|]. destruct (_ || _) eqn:Hb; [done|]. intros _.
  rewrite !orb_false_iff !Z.leb_gt !Z.ltb_ge in Hb. change (Z.shiftl 1 20) with 1048576 in Hb. lia.
Qed.

Section binding.
Context `{Images, !ImagesLaws}.

(** What prepareExecution hashes for a request, and the sizes a Go program can
    hold. *)
Definition hashed (r : StartRequest) : option bytes :=
  w ← st_Workload r ≫= proto_workload; p ← st_Policy r ≫= proto_policy; Some (fingerprint_input r w p).

Record sized (r : StartRequest) : Prop := {
  sz_client : zlen (st_Client r) < 2 ^ 63;
  sz_run : zlen (text (st_RunID r)) < 2 ^ 63;
  sz_attempt : 0 ≤ st_Attempt r < 2 ^ 64;
  sz_workload w : st_Workload r ≫= proto_workload = Some w → zlen w < 2 ^ 63;
  sz_policy p : st_Policy r ≫= proto_policy = Some p → zlen p < 2 ^ 63
}.

Lemma prepared r s : prepareExecution r true = Ok s →
  ∃ w p wb pb u, st_Workload r = Some w ∧ st_Policy r = Some p ∧ proto_workload w = Some wb ∧ proto_policy p = Some pb ∧
    Resources_Validate (st_Resources r) = Ok u ∧ hashed r = Some (fingerprint_input r wb pb) ∧
    sp_fingerprint s = hex_encode (sha256 (fingerprint_input r wb pb)).
Proof.
  unfold prepareExecution, fingerprint, hashed. intros Hp. destruct (blank _); [done|]. destruct (_ || _); [done|]. cbn [negb] in Hp.
  destruct (st_Workload r) as [w|]; [|done]. destruct (st_Policy r) as [p|]; [|done]. destruct (negb _); [done|].
  destruct (Resources_Validate _) as [u|] eqn:Hr; [|done]. cbn. destruct (proto_workload w) as [wb|] eqn:Hw; [|done].
  destruct (proto_policy p) as [pb|] eqn:Hpb; [|done]. injection Hp as <-.
  exists w, p, wb, pb, u. split_and!; try done; cbn; by rewrite Hw /= Hpb.
Qed.

Lemma resources_part_inj r r' u u' : Resources_Validate r = Ok u → Resources_Validate r' = Ok u' →
  (if decide (r = zero_resources) then [] else hash_part (resources_json r)) =
  (if decide (r' = zero_resources) then [] else hash_part (resources_json r')) → r = r'.
Proof.
  intros (H1 & H2 & H3)%validated_nonneg (H1' & H2' & H3')%validated_nonneg. do 2 case_decide; intros He; [congruence|done..|].
  unfold hash_part in He. apply app_inj_1 in He as [_ He]; [|by rewrite !be_bytes_length]. by apply resources_json_inj.
Qed.

End binding.

(** ** The identity variables of the container *)

(** The name of an entry: what comes before the first equals sign. *)
Fixpoint name_of (entry : string) : string :=
  match entry with
  | EmptyString => ""
  | String c rest => if Ascii.eqb c "="%char then "" else String c (name_of rest)
  end.
Fixpoint has_equals (s : string) : bool :=
  match s with EmptyString => false | String c rest => Ascii.eqb c "="%char || has_equals rest end.

Lemma name_of_entry key value : has_equals key = false → name_of (key +:+ "=" +:+ value) = key.
Proof.
  induction key as [|c key IH]; [done|]. cbn [has_equals]. intros [Hc Hk]%orb_false_iff.
  change (String c key +:+ "=" +:+ value) with (String c (key +:+ "=" +:+ value)). cbn [name_of]. by rewrite Hc IH.
Qed.

(** The workload cannot set the identity variables of its container, as long as
    its own variables have no equals sign in their names: the entries for the
    run ID and the attempt are the allocator's. *)
Theorem environment_authentic workload runID attempt entry :
  (∀ key value, wl_environment workload !! key = Some value → has_equals key = false) →
  entry ∈ environment workload runID attempt →
  (name_of entry = runEnv → entry = runEnv +:+ "=" +:+ runID) ∧
  (name_of entry = attemptEnv → entry = attemptEnv +:+ "=" +:+ pretty attempt).
Proof.
  intros Hk. unfold environment. rewrite elem_of_app !elem_of_cons elem_of_nil. intros [Hin|[->|[->|[]]]].
  - apply list_elem_of_In, in_map_iff in Hin as (key & <- & [Hin Hf]%filter_In).
    apply list_elem_of_In in Hin. rewrite elem_of_sort_strings list_elem_of_fmap in Hin. destruct Hin as ([k v] & -> & Hin).
    apply elem_of_map_to_list in Hin. rewrite name_of_entry; [exact (Hk k v Hin)|]. cbn [fst] in *.
    apply negb_true_iff, orb_false_iff in Hf as [H1%bool_decide_eq_false H2%bool_decide_eq_false]. by split.
  - rewrite name_of_entry //.
  - rewrite name_of_entry //.
Qed.

Definition forging_workload : Workload := mkWorkload "image@sha256:00" [] [] {["R1S_RUN_ID=forged" := "x"]} "".

(** A name with an equals sign passes: the forged run ID comes before the real one. *)
Lemma environment_forged : environment forging_workload "run-1" 1 = ["R1S_RUN_ID=forged=x"; "R1S_RUN_ID=run-1"; "R1S_ATTEMPT=1"].
Proof. by vm_compute. Qed.

(** ** Witnesses *)

Definition example_images : Images :=
  {| pinned image := bool_decide (image ≠ "");
     proto_workload w := match w with mkWorkload image [] [] env "" => if bool_decide (env = ∅) then Some (text image) else None | _ => None end;
     proto_policy _ := Some [] |}.

Lemma example_images_laws : @ImagesLaws example_images.
Proof.
  split. intros [i [] [] e d] [i' [] [] e' d'] b; cbn; try done; destruct d, d'; try done; do 2 case_bool_decide; try done.
  intros [= <-] [= E%text_inj]. congruence.
Qed.

Definition example_request (run : string) : StartRequest :=
  mkStart "exec-1" run 1 [x01] (Some (mkWorkload "image@sha256:00" [] [] ∅ "")) (Some mkPolicy) zero_resources 0.


Lemma environment_authentic_witness :
  "R1S_RUN_ID=run-1" ∈ environment (mkWorkload "i" [] [] {["R1S_RUN_ID" := "forged"; "A" := "b"]} "") "run-1" 1 ∧
  ¬ "R1S_RUN_ID=forged" ∈ environment (mkWorkload "i" [] [] {["R1S_RUN_ID" := "forged"; "A" := "b"]} "") "run-1" 1.
Proof.
  split; [apply (bool_decide_eq_true_1 (_ ∈ _)); vm_compute; reflexivity|].
  intros Hin. destruct (environment_authentic (mkWorkload "i" [] [] {["R1S_RUN_ID" := "forged"; "A" := "b"]} "") "run-1" 1 "R1S_RUN_ID=forged") as [H _].
  - intros key value Hv. cbn in Hv. apply lookup_insert_Some in Hv as [[<- _]|[_ Hv]]; [done|]. by apply lookup_singleton_Some in Hv as [<- _].
  - exact Hin.
  - by specialize (H eq_refl).
Defined.
