(* ===== verification/Manager.v ===== *)
(** * The execution manager (internal/runtime/containerd)

    The registry of running containers (execution_manager.go) and the goroutine
    that waits for each of them (completion_monitor.go).  A step is one locked
    part of a call, one call of the backend, or one wait; the calls of [Start],
    [Recover], [Stop], [Forget] and [Close] and the monitors interleave freely.
    The backend and the process handles talk to containerd: what they answer is
    part of the step. *)

From S2P Require Import Prelude GoStrings Wire Errors Admission AllocTypes ExecSpec.
From Stdlib Require Import Strings.Byte.

Inductive rt_error :=
| ErrClosed
| ErrConflict
| ErrRequest (e : spec_error)
| ErrContext                      (* ctx.Err() *)
| ErrCleanupActive
| ErrBackend (code : Z).          (* an error of containerd or of the reporter *)

(** A Go error built with [errors.Join]: nil is the empty list. *)
Abbreviation rt_errors := (list rt_error).

(** ** State *)

(** [execution]; a channel is whether it is closed. *)
Record execution := mkExec {
  ex_fingerprint : string;
  ex_ready : bool;
  ex_done : bool;
  ex_process : bool;              (* the handle is set *)
  ex_startErr : rt_errors;
  ex_doneErr : rt_errors;
  ex_stopping : bool;
  ex_finishing : bool;
  ex_stopFailure : rt_errors;
  (* what has happened so far *)
  ex_id : string;
  ex_owner : nat;                 (* the goroutine that starts or monitors it *)
  ex_exited : bool;
  ex_decided : option bool;       (* what the monitor read from [stopping] *)
  ex_reports : list rt_errors;    (* the answers of the reporter *)
  ex_cleanups : nat
}.

(** The goroutines. *)
Inductive thread :=
| T_Start (recovering : bool) (request : StartRequest) (has_reporter : bool)
| T_Claim (recovering : bool) (id fingerprint : string)
| T_Ready (o : nat)
| T_Backend (recovering : bool) (id : string) (o : nat)
| T_Finish (id : string) (o : nat) (err : rt_errors)
| T_Monitor (o : nat)
| T_Decide (o : nat) (err : rt_errors)
| T_Report (o : nat) (stopping : bool) (err : rt_errors)
| T_Cleanup (o : nat) (stopping : bool) (reportErr : rt_errors)
| T_Done (o : nat) (err : rt_errors)
| T_Stop (id : string)
| T_Look (id : string)
| T_BackendStop (id : string)
| T_AwaitReady (id : string) (o : nat)
| T_AwaitDone (o : nat)
| T_Kill (o : nat)
| T_KillFailed (o : nat) (err : rt_errors)
| T_AwaitKilled (o : nat)
| T_GiveUp (o : nat)
| T_Forget (id : string)
| T_Close
| T_CloseBackend
| Returned (err : rt_errors).

Record executionManager := mkManager {
  mg_closed : bool;
  mg_entries : gmap string nat;
  mg_heap : list execution;
  mg_threads : list thread;
  mg_panic : bool                 (* a closed channel was closed or a nil handle used *)
}.

Definition newExecutionManager : executionManager := mkManager false ∅ [] [] false.

(** What the environment decides in a step: the answer of the backend, and
    whether the caller's context is over. *)
Record choice := mkChoice { ch_answer : rt_errors; ch_late : bool }.

(** *** Field updates *)

Definition upd_start (process : bool) (err : rt_errors) (x : execution) : execution :=
  mkExec (ex_fingerprint x) true (ex_done x) process err (ex_doneErr x) (ex_stopping x) (ex_finishing x) (ex_stopFailure x)
    (ex_id x) (ex_owner x) (ex_exited x) (ex_decided x) (ex_reports x) (ex_cleanups x).
Definition upd_owner (t : nat) (x : execution) : execution :=
  mkExec (ex_fingerprint x) (ex_ready x) (ex_done x) (ex_process x) (ex_startErr x) (ex_doneErr x) (ex_stopping x) (ex_finishing x) (ex_stopFailure x)
    (ex_id x) t (ex_exited x) (ex_decided x) (ex_reports x) (ex_cleanups x).
Definition upd_exited (x : execution) : execution :=
  mkExec (ex_fingerprint x) (ex_ready x) (ex_done x) (ex_process x) (ex_startErr x) (ex_doneErr x) (ex_stopping x) (ex_finishing x) (ex_stopFailure x)
    (ex_id x) (ex_owner x) true (ex_decided x) (ex_reports x) (ex_cleanups x).
Definition upd_decided (x : execution) : execution :=
  mkExec (ex_fingerprint x) (ex_ready x) (ex_done x) (ex_process x) (ex_startErr x) (ex_doneErr x) (ex_stopping x) true (ex_stopFailure x)
    (ex_id x) (ex_owner x) (ex_exited x) (Some (ex_stopping x)) (ex_reports x) (ex_cleanups x).
Definition upd_reported (err : rt_errors) (x : execution) : execution :=
  mkExec (ex_fingerprint x) (ex_ready x) (ex_done x) (ex_process x) (ex_startErr x) (ex_doneErr x) (ex_stopping x) (ex_finishing x) (ex_stopFailure x)
    (ex_id x) (ex_owner x) (ex_exited x) (ex_decided x) (ex_reports x ++ [err]) (ex_cleanups x).
Definition upd_cleaned (x : execution) : execution :=
  mkExec (ex_fingerprint x) (ex_ready x) (ex_done x) (ex_process x) (ex_startErr x) (ex_doneErr x) (ex_stopping x) (ex_finishing x) (ex_stopFailure x)
    (ex_id x) (ex_owner x) (ex_exited x) (ex_decided x) (ex_reports x) (S (ex_cleanups x)).
Definition upd_done (err : rt_errors) (x : execution) : execution :=
  mkExec (ex_fingerprint x) (ex_ready x) true (ex_process x) (ex_startErr x) err (ex_stopping x) (ex_finishing x) (ex_stopFailure x)
    (ex_id x) (ex_owner x) (ex_exited x) (ex_decided x) (ex_reports x) (ex_cleanups x).
Definition upd_stopping (stopping : bool) (failure : rt_errors) (x : execution) : execution :=
  mkExec (ex_fingerprint x) (ex_ready x) (ex_done x) (ex_process x) (ex_startErr x) (ex_doneErr x) stopping (ex_finishing x) failure
    (ex_id x) (ex_owner x) (ex_exited x) (ex_decided x) (ex_reports x) (ex_cleanups x).

Definition set_entries (e : gmap string nat) (m : executionManager) : executionManager :=
  mkManager (mg_closed m) e (mg_heap m) (mg_threads m) (mg_panic m).
Definition at_object (o : nat) (f : execution → execution) (m : executionManager) : executionManager :=
  mkManager (mg_closed m) (mg_entries m) (alter f o (mg_heap m)) (mg_threads m) (mg_panic m).
Definition set_closed (m : executionManager) : executionManager :=
  mkManager true (mg_entries m) (mg_heap m) (mg_threads m) (mg_panic m).
Definition panics_if (b : bool) (m : executionManager) : executionManager :=
  mkManager (mg_closed m) (mg_entries m) (mg_heap m) (mg_threads m) (mg_panic m || b).
Definition allocate (x : execution) (m : executionManager) : executionManager :=
  mkManager (mg_closed m) (<[ex_id x := length (mg_heap m)]> (mg_entries m)) (mg_heap m ++ [x]) (mg_threads m) (mg_panic m).
Definition spawn (t : thread) (m : executionManager) : executionManager :=
  mkManager (mg_closed m) (mg_entries m) (mg_heap m) (mg_threads m ++ [t]) (mg_panic m).
Definition goto (i : nat) (t : thread) (m : executionManager) : executionManager :=
  mkManager (mg_closed m) (mg_entries m) (mg_heap m) (<[i := t]> (mg_threads m)) (mg_panic m).

Section manager.
Context `{Images}.

(** ** Starting and recovering *)

(** [claim] *)
Definition claim (i : nat) (recovering : bool) (id fingerprint : string) (m : executionManager) : executionManager :=
  if mg_closed m then goto i (Returned [ErrClosed]) m
  else match mg_entries m !! id with
  | Some o =>
    match mg_heap m !! o with
    | Some current =>
      if bool_decide (ex_fingerprint current = fingerprint) then goto i (T_Ready o) m else goto i (Returned [ErrConflict]) m
    | None => panics_if true m
    end
  | None =>
    let o := length (mg_heap m) in
    goto i (T_Backend recovering id o)
      (allocate (mkExec fingerprint false false false [] [] false false [] id i false None [] 0) m)
  end.

(** [finishStart], and what follows it in [start] and [recover]: the monitor is
    started or the error returned. *)
Definition finish_start (i : nat) (id : string) (o : nat) (err : rt_errors) (current : execution) (m : executionManager) : executionManager :=
  let m1 := panics_if (ex_ready current) (at_object o (upd_start (bool_decide (err = [])) err) m) in
  if bool_decide (err = [])
  then at_object o (upd_owner (length (mg_threads m))) (spawn (T_Monitor o) (goto i (Returned []) m1))
  else goto i (Returned err) (set_entries (delete id (mg_entries m1)) m1).

Definition step_start (c : choice) (i : nat) (t : thread) (m : executionManager) : option executionManager :=
  match t with
  | T_Start recovering request has_reporter =>
    Some (match prepareExecution request has_reporter with
          | Err e => goto i (Returned [ErrRequest e]) m
          | Ok spec => goto i (T_Claim recovering (st_ExecutionID request) (sp_fingerprint spec)) m
          end)
  | T_Claim recovering id fingerprint => Some (claim i recovering id fingerprint m)
  | T_Ready o =>
    current ← mg_heap m !! o;
    if ch_late c then Some (goto i (Returned [ErrContext]) m)
    else if ex_ready current then Some (goto i (Returned (ex_startErr current)) m) else None
  | T_Backend recovering id o => Some (goto i (T_Finish id o (ch_answer c)) m)
  | T_Finish id o err => current ← mg_heap m !! o; Some (finish_start i id o err current m)
  | _ => None
  end.

(** ** [monitor] *)

Definition step_monitor (c : choice) (i : nat) (t : thread) (m : executionManager) : option executionManager :=
  match t with
  | T_Monitor o => Some (goto i (T_Decide o (ch_answer c)) (at_object o upd_exited m))
  | T_Decide o err =>
    current ← mg_heap m !! o;
    Some (goto i (T_Report o (ex_stopping current) (err ++ ex_stopFailure current)) (at_object o upd_decided m))
  | T_Report o stopping err =>
    Some (if stopping then goto i (T_Cleanup o stopping []) m
          else goto i (T_Cleanup o stopping (ch_answer c)) (at_object o (upd_reported (ch_answer c)) m))
  | T_Cleanup o stopping reportErr =>
    Some (if stopping || bool_decide (reportErr = [])
          then goto i (T_Done o (ch_answer c ++ reportErr)) (at_object o upd_cleaned m)
          else goto i (T_Done o reportErr) m)
  | T_Done o err =>
    current ← mg_heap m !! o;
    Some (goto i (Returned []) (panics_if (ex_done current) (at_object o (upd_done err) m)))
  | _ => None
  end.

(** ** [stop] *)

Definition look (i : nat) (id : string) (m : executionManager) : executionManager :=
  if mg_closed m then goto i (Returned [ErrClosed]) m
  else match mg_entries m !! id with
  | None => goto i (T_BackendStop id) m
  | Some o =>
    match mg_heap m !! o with
    | None => panics_if true m
    | Some current =>
      if negb (ex_ready current) then goto i (T_AwaitReady id o) m
      else if ex_done current then goto i (Returned []) m
      else if ex_finishing current then goto i (T_AwaitDone o) m
      else goto i (T_Kill o) (panics_if (negb (ex_process current)) (at_object o (upd_stopping true []) m))
    end
  end.

Definition step_stop (c : choice) (i : nat) (t : thread) (m : executionManager) : option executionManager :=
  match t with
  | T_Stop id =>
    Some (if blank id then goto i (Returned [ErrRequest (InvalidRequest "execution ID is required")]) m else goto i (T_Look id) m)
  | T_Look id => Some (look i id m)
  | T_BackendStop id => Some (goto i (Returned (ch_answer c)) m)
  | T_AwaitReady id o =>
    current ← mg_heap m !! o;
    if ch_late c then Some (goto i (Returned [ErrContext]) m)
    else if ex_ready current then Some (goto i (T_Look id) m) else None
  | T_AwaitDone o =>
    current ← mg_heap m !! o;
    if ch_late c then Some (goto i (Returned [ErrContext]) m)
    else if ex_done current then Some (goto i (Returned []) m) else None
  | T_Kill o =>
    Some (if bool_decide (ch_answer c = []) then goto i (T_AwaitKilled o) m else goto i (T_KillFailed o (ch_answer c)) m)
  | T_KillFailed o err =>
    current ← mg_heap m !! o;
    Some (goto i (Returned err) (if ex_done current then m else at_object o (upd_stopping false (ex_stopFailure current)) m))
  | T_AwaitKilled o =>
    current ← mg_heap m !! o;
    if ch_late c then Some (goto i (T_GiveUp o) m)
    else if ex_done current then Some (goto i (Returned (ex_doneErr current)) m) else None
  | T_GiveUp o =>
    current ← mg_heap m !! o;
    Some (goto i (Returned [ErrContext]) (if ex_done current then m else at_object o (upd_stopping false [ErrContext]) m))
  | _ => None
  end.

(** ** [forget] and [close] *)

Definition forget (i : nat) (id : string) (m : executionManager) : executionManager :=
  match mg_entries m !! id with
  | None => goto i (Returned []) m
  | Some o =>
    match mg_heap m !! o with
    | None => panics_if true m
    | Some current =>
      if negb (ex_done current) then goto i (Returned [ErrCleanupActive]) m
      else if bool_decide (ex_doneErr current = []) then goto i (Returned []) (set_entries (delete id (mg_entries m)) m)
      else goto i (Returned (ex_doneErr current)) m
    end
  end.

Definition step_admin (c : choice) (i : nat) (t : thread) (m : executionManager) : option executionManager :=
  match t with
  | T_Forget id => Some (if ch_late c then goto i (Returned [ErrContext]) m else forget i id m)
  | T_Close => Some (if mg_closed m then goto i (Returned []) m else goto i T_CloseBackend (set_closed m))
  | T_CloseBackend => Some (goto i (Returned (ch_answer c)) m)
  | _ => None
  end.

(** ** Runs *)

Inductive label := Call (t : thread) | Run (i : nat) (c : choice).

(** The calls of the runtime interface. *)
Definition entry_point (t : thread) : bool :=
  match t with T_Start _ _ _ | T_Stop _ | T_Forget _ | T_Close => true | _ => false end.

Definition step_thread (c : choice) (i : nat) (t : thread) (m : executionManager) : option executionManager :=
  match t with
  | T_Start _ _ _ | T_Claim _ _ _ | T_Ready _ | T_Backend _ _ _ | T_Finish _ _ _ => step_start c i t m
  | T_Monitor _ | T_Decide _ _ | T_Report _ _ _ | T_Cleanup _ _ _ | T_Done _ _ => step_monitor c i t m
  | T_Forget _ | T_Close | T_CloseBackend => step_admin c i t m
  | _ => step_stop c i t m
  end.

Definition step (l : label) (m : executionManager) : option executionManager :=
  match l with
  | Call t => if entry_point t then Some (spawn t m) else None
  | Run i c => t ← mg_threads m !! i; step_thread c i t m
  end.

Definition runs (m m' : executionManager) : Prop := rtc (fun a b => ∃ l, step l a = Some b) m m'.

End manager.
