(* ===== verification/ManagerSafe.v ===== *)
(** * Guarantees of the execution manager

    The invariant of Manager.v over all interleavings, and what it gives: one
    container per execution, one report and one cleanup per container, no double
    close of a channel and no use of a missing process. *)

From S2P Require Import Prelude GoStrings Wire Errors Admission AllocTypes ExecSpec Manager.
From Stdlib Require Import Strings.Byte.

(** The execution a goroutine is responsible for. *)
Definition owned (t : thread) : option nat :=
  match t with
  | T_Backend _ _ o | T_Finish _ o _ | T_Monitor o | T_Decide o _ | T_Report o _ _ | T_Cleanup o _ _ | T_Done o _ => Some o
  | _ => None
  end.

(** Being started, or started and not yet done. *)
Definition live (x : execution) : bool := negb (ex_ready x) || (bool_decide (ex_startErr x = []) && negb (ex_done x)).

Definition untouched (x : execution) : Prop := ex_decided x = None ∧ ex_reports x = [] ∧ ex_cleanups x = 0%nat.
Definition started (x : execution) : Prop := ex_ready x = true ∧ ex_startErr x = [] ∧ ex_process x = true ∧ ex_done x = false.

(** The books of an execution whose monitor has finished with [err]. *)
Definition settled (x : execution) (err : rt_errors) : Prop :=
  ex_exited x = true ∧
  (ex_decided x = Some true ∧ ex_reports x = [] ∧ ex_cleanups x = 1%nat ∨
   ex_decided x = Some false ∧ ∃ e, ex_reports x = [e] ∧ ex_cleanups x = (if bool_decide (e = []) then 1 else 0)%nat ∧ (err = [] → e = [])).

Definition phase_ok (t : thread) (x : execution) : Prop :=
  match t with
  | T_Backend _ id _ | T_Finish id _ _ =>
    id = ex_id x ∧ ex_ready x = false ∧ ex_done x = false ∧ ex_exited x = false ∧ untouched x
  | T_Monitor _ => started x ∧ ex_exited x = false ∧ untouched x
  | T_Decide _ _ => started x ∧ ex_exited x = true ∧ untouched x
  | T_Report _ s _ => started x ∧ ex_exited x = true ∧ ex_decided x = Some s ∧ ex_reports x = [] ∧ ex_cleanups x = 0%nat
  | T_Cleanup _ s e =>
    started x ∧ ex_exited x = true ∧ ex_decided x = Some s ∧ ex_reports x = (if s then [] else [e]) ∧ (s = true → e = []) ∧ ex_cleanups x = 0%nat
  | T_Done _ err => started x ∧ settled x err
  | _ => True
  end.

(** What holds of an execution apart from its goroutine. *)
Definition object_ok (x : execution) : Prop :=
  (ex_done x = true → ex_ready x = true ∧ ex_startErr x = [] ∧ ex_process x = true ∧ settled x (ex_doneErr x)) ∧
  (ex_ready x = true → ex_startErr x ≠ [] → ex_done x = false ∧ ex_exited x = false ∧ untouched x).

Record manager_inv (m : executionManager) : Prop := {
  mi_object o x : mg_heap m !! o = Some x → object_ok x;
  mi_live o x : mg_heap m !! o = Some x → live x = true →
    mg_entries m !! ex_id x = Some o ∧ ∃ t, mg_threads m !! ex_owner x = Some t ∧ owned t = Some o;
  mi_owner i t o : mg_threads m !! i = Some t → owned t = Some o →
    ∃ x, mg_heap m !! o = Some x ∧ ex_owner x = i ∧ phase_ok t x;
  mi_entry id o : mg_entries m !! id = Some o →
    ∃ x, mg_heap m !! o = Some x ∧ ex_id x = id ∧ (ex_ready x = true → ex_startErr x = []);
  mi_panic : mg_panic m = false
}.

Lemma manager_inv_new : manager_inv newExecutionManager.
Proof. by split. Qed.

(** ** Steps that leave the books alone *)

Lemma inv_goto m i t t' : manager_inv m → mg_threads m !! i = Some t → owned t = None → owned t' = None → manager_inv (goto i t' m).
Proof.
  intros [] Hi Ht Ht'. split; cbn; [done| | |done|done].
  - intros o x Hx Hl. destruct (mi_live0 o x Hx Hl) as (He & t0 & H0 & Ho). split; [done|]. exists t0. split; [|done].
    rewrite list_lookup_insert_ne //. intros Hij. rewrite -Hij in H0. congruence.
  - intros j u o Hj Ho. apply list_lookup_insert_Some in Hj as [(<- & <- & _)|[_ Hj]]; [congruence|exact (mi_owner0 _ _ _ Hj Ho)].
Qed.

Lemma inv_spawn m t : manager_inv m → owned t = None → manager_inv (spawn t m).
Proof.
  intros [] Ht. split; cbn; [done| | |done|done].
  - intros o x Hx Hl. destruct (mi_live0 o x Hx Hl) as (He & t0 & H0 & Ho). split; [done|]. exists t0. split; [|done]. by apply lookup_app_l_Some.
  - intros j u o Hj Ho. apply lookup_app_Some in Hj as [Hj|[_ Hj]]; [exact (mi_owner0 _ _ _ Hj Ho)|].
    apply list_lookup_singleton_Some in Hj as [_ <-]. congruence.
Qed.

Lemma inv_closed m : manager_inv m → manager_inv (set_closed m).
Proof. intros []. by split. Qed.

(** ** Updates of one execution *)

(** The identity of an execution never changes. *)
Definition keeps (f : execution → execution) : Prop := ∀ x, ex_id (f x) = ex_id x ∧ ex_owner (f x) = ex_owner x.

Lemma alter_cases (f : execution → execution) (o o' : nat) (l : list execution) x : alter f o l !! o' = Some x →
  (o' = o ∧ ∃ x0, l !! o = Some x0 ∧ x = f x0) ∨ (o' ≠ o ∧ l !! o' = Some x).
Proof.
  destruct (decide (o' = o)) as [->|Hne]; [rewrite list_lookup_alter_eq|rewrite list_lookup_alter_ne //; auto].
  intros (x0 & -> & Hx)%fmap_Some. left. eauto.
Qed.

(** The goroutine of [o] moves on and writes its execution. *)
Lemma inv_owner_step m i t t' o f x : manager_inv m → keeps f → mg_threads m !! i = Some t → owned t = Some o → owned t' = Some o →
  mg_heap m !! o = Some x → live x = true → phase_ok t' (f x) → object_ok (f x) → live (f x) = true → (ex_ready (f x) = true → ex_startErr (f x) = []) →
  manager_inv (goto i t' (at_object o f m)).
Proof.
  intros [] Hk Hi Ht Ht' Hx Hl Hp Ho Hl' Hs. destruct (Hk x) as [Kid Kow].
  assert (ex_owner x = i) as Hown by (destruct (mi_owner0 i t o Hi Ht) as (y & Hy & <- & _); congruence).
  split; cbn; [| | | |done].
  - intros o' y [(-> & x0 & H0 & ->)|[_ Hy]]%alter_cases; [|exact (mi_object0 _ _ Hy)]. congruence.
  - intros o' y [(-> & x0 & H0 & ->)|[Hne Hy]]%alter_cases Hly.
    + assert (x0 = x) as -> by congruence. rewrite Kid Kow Hown. destruct (mi_live0 o x Hx Hl) as [He _]. split; [done|]. exists t'. split; [|done].
      apply list_lookup_insert_eq. exact (lookup_lt_Some _ _ _ Hi).
    + destruct (mi_live0 o' y Hy Hly) as (He & u & Hu & Hou). split; [done|]. exists u. split; [|done].
      rewrite list_lookup_insert_ne //. intros Hij. rewrite -Hij in Hu. congruence.
  - intros j u o' Hj Hou. apply list_lookup_insert_Some in Hj as [(<- & <- & _)|[Hne Hj]].
    + assert (o' = o) as -> by congruence. exists (f x). rewrite list_lookup_alter_eq Hx. split; [done|]. by rewrite Kow.
    + destruct (mi_owner0 j u o' Hj Hou) as (y & Hy & Hyo & Hyp). exists y. rewrite list_lookup_alter_ne //. intros <-. congruence.
  - intros id o' He. destruct (mi_entry0 id o' He) as (y & Hy & Hid & Hr). destruct (decide (o' = o)) as [->|Hne].
    + exists (f x). rewrite list_lookup_alter_eq Hx. assert (y = x) as -> by congruence. by rewrite Kid.
    + exists y. rewrite list_lookup_alter_ne //. congruence.
Qed.

(** The other goroutines only write what the monitor has not read yet. *)
Lemma inv_stopping m o b e : manager_inv m → manager_inv (at_object o (upd_stopping b e) m).
Proof.
  intros []. split; cbn; [| | | |done].
  - intros o' y [(-> & x0 & H0 & ->)|[_ Hy]]%alter_cases; [exact (mi_object0 _ _ H0)|exact (mi_object0 _ _ Hy)].
  - intros o' y [(-> & x0 & H0 & ->)|[_ Hy]]%alter_cases Hl; [exact (mi_live0 _ _ H0 Hl)|exact (mi_live0 _ _ Hy Hl)].
  - intros j t o' Hj Ho. destruct (mi_owner0 j t o' Hj Ho) as (x & Hx & Hi & Hp). destruct (decide (o = o')) as [->|Hne].
    + exists (upd_stopping b e x). rewrite list_lookup_alter_eq Hx. split_and!; [done..|]. by destruct t.
    + exists x. by rewrite list_lookup_alter_ne.
  - intros id o' He. destruct (mi_entry0 id o' He) as (x & Hx & Hid & Hr). destruct (decide (o = o')) as [->|Hne].
    + exists (upd_stopping b e x). by rewrite list_lookup_alter_eq Hx.
    + exists x. by rewrite list_lookup_alter_ne.
Qed.

Lemma inv_panics_if m b : manager_inv m → b = false → manager_inv (panics_if b m).
Proof. intros [] ->. split; cbn; [done..|]. by rewrite mi_panic0. Qed.

(** ** Claiming and finishing a start *)

Definition fresh (id fp : string) (i : nat) : execution := mkExec fp false false false [] [] false false [] id i false None [] 0.

Lemma inv_allocate m i t recovering id fp : manager_inv m → mg_threads m !! i = Some t → owned t = None → mg_entries m !! id = None →
  manager_inv (goto i (T_Backend recovering id (length (mg_heap m))) (allocate (fresh id fp i) m)).
Proof.
  intros [] Hi Ht Hn. split; cbn; [| | | |done].
  - intros o x [Hx|[_ Hx]]%lookup_app_Some; [exact (mi_object0 _ _ Hx)|]. apply list_lookup_singleton_Some in Hx as [_ <-]. by split.
  - intros o x [Hx|[Hle Hx]]%lookup_app_Some Hl.
    + destruct (mi_live0 o x Hx Hl) as (He & u & Hu & Ho). split; [rewrite lookup_insert_ne //; congruence|]. exists u. split; [|done].
      rewrite list_lookup_insert_ne //. intros Hij. rewrite -Hij in Hu. congruence.
    + apply list_lookup_singleton_Some in Hx as [H0 <-]. assert (o = length (mg_heap m)) as -> by lia. cbn. split; [by rewrite lookup_insert_eq|].
      eexists. split; [apply list_lookup_insert_eq; exact (lookup_lt_Some _ _ _ Hi)|done].
  - intros j u o Hj Ho. apply list_lookup_insert_Some in Hj as [(<- & <- & _)|[Hne Hj]].
    + injection Ho as <-. exists (fresh id fp i). rewrite lookup_app_r // Nat.sub_diag. done.
    + destruct (mi_owner0 j u o Hj Ho) as (x & Hx & H1 & H2). exists x. split; [by apply lookup_app_l_Some|done].
  - intros id' o [[<- <-]|[Hne He]]%lookup_insert_Some.
    + exists (fresh id fp i). rewrite lookup_app_r // Nat.sub_diag. done.
    + destruct (mi_entry0 id' o He) as (x & Hx & H1 & H2). exists x. split; [by apply lookup_app_l_Some|done].
Qed.

Lemma inv_claim m i t recovering id fp : manager_inv m → mg_threads m !! i = Some t → owned t = None → manager_inv (claim i recovering id fp m).
Proof.
  intros Hm Hi Ht. unfold claim. destruct (mg_closed m); [by apply (inv_goto m i t)|]. destruct (mg_entries m !! id) as [o|] eqn:He; [|by apply (inv_allocate m i t)].
  destruct (mi_entry _ Hm id o He) as (x & -> & _). case_bool_decide; by apply (inv_goto m i t).
Qed.

Lemma inv_finish_failed m i id o err x : manager_inv m → mg_threads m !! i = Some (T_Finish id o err) → mg_heap m !! o = Some x → err ≠ [] →
  manager_inv (goto i (Returned err) (set_entries (delete id (mg_entries m)) (at_object o (upd_start false err) m))).
Proof.
  intros [] Hi Hx Herr. destruct (mi_owner0 i _ o Hi eq_refl) as (y & Hy & Hown & Hid & Hr & Hd & He & Hu). assert (y = x) as -> by congruence.
  assert (live x = true) as Hl by (unfold live; by rewrite Hr). destruct (mi_live0 o x Hx Hl) as [Hent _].
  split; cbn; [| | | |done].
  - intros o' y [(-> & x0 & H0 & ->)|[_ Hy']]%alter_cases; [|exact (mi_object0 _ _ Hy')]. assert (x0 = x) as -> by congruence.
    split; cbn; [by rewrite Hd|done].
  - intros o' y [(-> & x0 & H0 & ->)|[Hne Hy']]%alter_cases Hly.
    + exfalso. assert (x0 = x) as -> by congruence. unfold live in Hly. cbn in Hly. by rewrite bool_decide_eq_false_2 in Hly.
    + destruct (mi_live0 o' y Hy' Hly) as (E & u & Hu' & Hou). split; [rewrite lookup_delete_ne //; congruence|]. exists u. split; [|done].
      rewrite list_lookup_insert_ne //. intros Hij. rewrite -Hij Hi in Hu'. injection Hu' as <-. cbn in Hou. congruence.
  - intros j u o' Hj Hou. apply list_lookup_insert_Some in Hj as [(<- & <- & _)|[Hne Hj]]; [done|].
    destruct (mi_owner0 j u o' Hj Hou) as (z & Hz & Hzi & Hzp). exists z. rewrite list_lookup_alter_ne //. congruence.
  - intros id' o' E. apply lookup_delete_Some in E as [Hne E]. destruct (mi_entry0 id' o' E) as (z & Hz & Hzi & Hzr). exists z.
    rewrite list_lookup_alter_ne //. congruence.
Qed.

Lemma inv_finish_started m i id o x : manager_inv m → mg_threads m !! i = Some (T_Finish id o []) → mg_heap m !! o = Some x →
  manager_inv (at_object o (upd_owner (length (mg_threads m))) (spawn (T_Monitor o) (goto i (Returned []) (at_object o (upd_start true []) m)))).
Proof.
  intros [] Hi Hx. destruct (mi_owner0 i _ o Hi eq_refl) as (y & Hy & Hown & Hid & Hr & Hd & He & Hu). assert (y = x) as -> by congruence.
  assert (live x = true) as Hl by (unfold live; by rewrite Hr). destruct (mi_live0 o x Hx Hl) as [Hent _].
  set (x' := upd_owner (length (mg_threads m)) (upd_start true [] x)).
  assert (∀ o' y, alter (upd_owner (length (mg_threads m))) o (alter (upd_start true []) o (mg_heap m)) !! o' = Some y →
    o' = o ∧ y = x' ∨ o' ≠ o ∧ mg_heap m !! o' = Some y) as Hheap.
  { intros o' y [(-> & x0 & H0 & ->)|[Hne Hy']]%alter_cases; [left; split; [done|]|].
    - apply alter_cases in H0 as [(_ & x1 & H1 & ->)|[? _]]; [|done]. by assert (x1 = x) as -> by congruence.
    - apply alter_cases in Hy' as [[-> _]|[_ Hy']]; [done|]. by right. }
  assert (alter (upd_owner (length (mg_threads m))) o (alter (upd_start true []) o (mg_heap m)) !! o = Some x') as Hnew.
  { by rewrite list_lookup_alter_eq list_lookup_alter_eq Hx. }
  split; cbn; [| | | |done].
  - intros o' y [[-> ->]|[_ Hy']]%Hheap; [|exact (mi_object0 _ _ Hy')]. split; cbn; [by rewrite Hd|done].
  - intros o' y [[-> ->]|[Hne Hy']]%Hheap Hly.
    + cbn. split; [done|]. exists (T_Monitor o). split; [|done]. rewrite lookup_app_r length_insert // Nat.sub_diag //.
    + destruct (mi_live0 o' y Hy' Hly) as (E & u & Hu' & Hou). split; [done|]. exists u. split; [|done]. apply lookup_app_l_Some.
      rewrite list_lookup_insert_ne //. intros Hij. rewrite -Hij Hi in Hu'. injection Hu' as <-. cbn in Hou. congruence.
  - intros j u o' Hj Hou. apply lookup_app_Some in Hj as [Hj|[Hle Hj]].
    + apply list_lookup_insert_Some in Hj as [(<- & <- & _)|[Hne Hj]]; [done|].
      destruct (mi_owner0 j u o' Hj Hou) as (z & Hz & Hzi & Hzp). exists z. assert (o ≠ o') by congruence. rewrite !list_lookup_alter_ne //.
    + rewrite length_insert in Hle Hj. apply list_lookup_singleton_Some in Hj as [Hj <-]. injection Hou as <-. exists x'. split; [done|].
      split; [cbn; lia|]. cbn. by rewrite He.
  - intros id' o' E. destruct (mi_entry0 id' o' E) as (z & Hz & Hzi & Hzr). destruct (decide (o' = o)) as [->|Hne].
    + exists x'. split; [done|]. by assert (z = x) as -> by congruence.
    + exists z. assert (o ≠ o') by congruence. rewrite !list_lookup_alter_ne //.
Qed.

(** ** The last step of a monitor, and forgetting *)

Lemma inv_done m i o err x : manager_inv m → mg_threads m !! i = Some (T_Done o err) → mg_heap m !! o = Some x →
  manager_inv (goto i (Returned []) (at_object o (upd_done err) m)).
Proof.
  intros [] Hi Hx. destruct (mi_owner0 i _ o Hi eq_refl) as (y & Hy & Hown & (Hr & Hse & Hpr & Hd) & Hset). assert (y = x) as -> by congruence.
  split; cbn; [| | | |done].
  - intros o' y [(-> & x0 & H0 & ->)|[_ Hy']]%alter_cases; [|exact (mi_object0 _ _ Hy')]. assert (x0 = x) as -> by congruence. by split.
  - intros o' y [(-> & x0 & H0 & ->)|[Hne Hy']]%alter_cases Hly.
    + exfalso. assert (x0 = x) as -> by congruence. unfold live in Hly. cbn in Hly. rewrite Hr in Hly. by rewrite andb_false_r in Hly.
    + destruct (mi_live0 o' y Hy' Hly) as (E & u & Hu' & Hou). split; [done|]. exists u. split; [|done].
      rewrite list_lookup_insert_ne //. intros Hij. rewrite -Hij Hi in Hu'. injection Hu' as <-. cbn in Hou. congruence.
  - intros j u o' Hj Hou. apply list_lookup_insert_Some in Hj as [(<- & <- & _)|[Hne Hj]]; [done|].
    destruct (mi_owner0 j u o' Hj Hou) as (z & Hz & Hzi & Hzp). exists z. rewrite list_lookup_alter_ne //. congruence.
  - intros id' o' E. destruct (mi_entry0 id' o' E) as (z & Hz & Hzi & Hzr). destruct (decide (o' = o)) as [->|Hne].
    + exists (upd_done err x). rewrite list_lookup_alter_eq Hx. by assert (z = x) as -> by congruence.
    + exists z. rewrite list_lookup_alter_ne //. congruence.
Qed.

Lemma inv_forget_done m id o x : manager_inv m → mg_entries m !! id = Some o → mg_heap m !! o = Some x → ex_done x = true →
  manager_inv (set_entries (delete id (mg_entries m)) m).
Proof.
  intros [] He Hx Hd. destruct (mi_object0 o x Hx) as [Hdone _]. destruct (Hdone Hd) as (Hr & Hse & _). split; cbn; [done| |done| |done].
  - intros o' y Hy Hl. destruct (mi_live0 o' y Hy Hl) as [E Hu]. split; [|done]. rewrite lookup_delete_ne //. intros ->.
    assert (o' = o) as -> by congruence. assert (y = x) as -> by congruence. unfold live in Hl. by rewrite Hr Hd andb_false_r in Hl.
  - intros id' o' [_ E]%lookup_delete_Some. exact (mi_entry0 _ _ E).
Qed.

(** The goroutine of an execution that is started and not done finds it in its
    phase. *)
Lemma owner_object m i t o : manager_inv m → mg_threads m !! i = Some t → owned t = Some o →
  ∃ x, mg_heap m !! o = Some x ∧ object_ok x ∧ phase_ok t x.
Proof. intros Hm Hi Ht. destruct (mi_owner _ Hm i t o Hi Ht) as (x & Hx & _ & Hp). exists x. split_and!; [done| |done]. exact (mi_object _ Hm _ _ Hx). Qed.

Lemma started_live x : started x → live x = true.
Proof. intros (Hr & He & _ & Hd). unfold live. by rewrite Hr He Hd. Qed.

Lemma started_object x : started x → object_ok x.
Proof. intros (Hr & He & _ & Hd). split; [by rewrite Hd|by rewrite He]. Qed.

(** A monitor's step before the last one. *)
Lemma inv_monitor_step m i t t' o f x : manager_inv m → keeps f → mg_threads m !! i = Some t → owned t = Some o → owned t' = Some o →
  mg_heap m !! o = Some x → started x → started (f x) → phase_ok t' (f x) → manager_inv (goto i t' (at_object o f m)).
Proof.
  intros Hm Hk Hi Ht Ht' Hx Hs Hs' Hp. apply (inv_owner_step m i t t' o f x); try done; [by apply started_live|by apply started_object|by apply started_live|].
  by destruct Hs' as (_ & -> & _).
Qed.

Lemma at_object_id m o : at_object o id m = m.
Proof. destruct m as [c e h t p]. unfold at_object. cbn. f_equal. apply list_eq. intros k. destruct (decide (o = k)) as [->|Hne]; [rewrite list_lookup_alter_eq; by destruct (h !! k)|by rewrite list_lookup_alter_ne]. Qed.

(** ** Every step *)

(** A goroutine without an execution moves on. *)
Ltac moves_on :=
  match goal with Hi : mg_threads ?m !! ?i = Some ?t |- _ => apply (inv_goto m i t); [assumption|exact Hi|done|done] end.


Section steps.
Context `{Images}.

Lemma inv_step_start c i t m m' : manager_inv m → mg_threads m !! i = Some t → step_start c i t m = Some m' → manager_inv m'.
Proof.
  intros Hm Hi. destruct t; intros Hs; cbn in Hs; try done.
  - injection Hs as <-. destruct (prepareExecution _ _); moves_on.
  - injection Hs as <-. by apply (inv_claim m i _ _ _ _ Hm Hi).
  - apply bind_Some in Hs as (x & _ & Hs). destruct (ch_late c); [|destruct (ex_ready x); [|done]]; injection Hs as <-; moves_on.
  - injection Hs as <-. destruct (owner_object m i _ o Hm Hi eq_refl) as (x & Hx & Hok & Hp). rewrite -{1}(at_object_id m o).
    destruct Hp as (Hid & Hr & Hrest). apply (inv_owner_step m i (T_Backend recovering id o) _ o Datatypes.id x); try done; [by unfold live; rewrite Hr..|]. cbn. by rewrite Hr.
  - apply bind_Some in Hs as (x & Hx & Hs). injection Hs as <-. destruct (owner_object m i _ o Hm Hi eq_refl) as (y & Hy & _ & _ & Hr & _).
    assert (y = x) as -> by congruence. unfold finish_start. rewrite Hr. case_bool_decide as He.
    + subst err. exact (inv_panics_if _ false (inv_finish_started m i id o x Hm Hi Hx) eq_refl).
    + exact (inv_panics_if _ false (inv_finish_failed m i id o err x Hm Hi Hx He) eq_refl).
Qed.

Lemma inv_step_monitor c i t m m' : manager_inv m → mg_threads m !! i = Some t → step_monitor c i t m = Some m' → manager_inv m'.
Proof.
  intros Hm Hi Hs. destruct (owned t) as [o|] eqn:Ho; [|by destruct t]. destruct (owner_object m i t o Hm Hi Ho) as (x & Hx & Hok & Hp).
  destruct t; cbn in Hs; try done; injection Ho as ->.
  - injection Hs as <-. destruct Hp as (Hst & _ & Hu). by apply (inv_monitor_step m i (T_Monitor o) _ o _ x).
  - rewrite Hx in Hs. injection Hs as <-. destruct Hp as (Hst & He & _ & Hr & Hc). by apply (inv_monitor_step m i (T_Decide o err) _ o _ x).
  - injection Hs as <-. destruct Hp as (Hst & He & Hd & Hr & Hc). destruct stopping.
    + rewrite -{1}(at_object_id m o). by apply (inv_monitor_step m i (T_Report o true err) _ o _ x).
    + apply (inv_monitor_step m i (T_Report o false err) _ o _ x); try done. split_and!; try done. cbn. by rewrite Hr.
  - injection Hs as <-. destruct Hp as (Hst & He & Hd & Hr & Hse & Hc). destruct stopping; cbn; [|case_bool_decide as Hrep].
    + apply (inv_monitor_step m i (T_Cleanup o true reportErr) _ o _ x); try done. split; [done|]. split; [done|]. left. cbn. by rewrite Hc.
    + apply (inv_monitor_step m i (T_Cleanup o false reportErr) _ o _ x); try done. split; [done|]. split; [done|]. right. split; [done|].
      exists reportErr. cbn. rewrite Hc Hr. split_and!; [done|by rewrite bool_decide_eq_true_2|done].
    + rewrite -{1}(at_object_id m o). apply (inv_monitor_step m i (T_Cleanup o false reportErr) _ o _ x); try done. split; [done|]. split; [done|]. right. split; [done|].
      exists reportErr. rewrite Hc Hr. split_and!; [done|by rewrite bool_decide_eq_false_2|done].
  - rewrite Hx in Hs. injection Hs as <-. destruct Hp as ((_ & _ & _ & Hd) & _). rewrite Hd. exact (inv_panics_if _ false (inv_done m i o err x Hm Hi Hx) eq_refl).
Qed.

Lemma goto_at_object i t o f m : goto i t (at_object o f m) = at_object o f (goto i t m).
Proof. done. Qed.

Lemma inv_look m i t id : manager_inv m → mg_threads m !! i = Some t → owned t = None → manager_inv (look i id m).
Proof.
  intros Hm Hi Ht. unfold look. destruct (mg_closed m); [by apply (inv_goto m i t)|]. destruct (mg_entries m !! id) as [o|] eqn:He; [|by apply (inv_goto m i t)].
  destruct (mi_entry _ Hm id o He) as (x & Hx & Hid & Hr). rewrite Hx. destruct (ex_ready x) eqn:Hready; [|by apply (inv_goto m i t)].
  destruct (ex_done x) eqn:Hd; [by apply (inv_goto m i t)|]. destruct (ex_finishing x); [by apply (inv_goto m i t)|].
  assert (live x = true) as Hl by (unfold live; by rewrite (Hr eq_refl) Hd Hready). destruct (mi_live _ Hm o x Hx Hl) as (_ & u & Hu & Hou).
  destruct (mi_owner _ Hm _ u o Hu Hou) as (y & Hy & _ & Hp). assert (y = x) as -> by congruence.
  assert (ex_process x = true) as ->. { destruct u; try done; try (by destruct Hp as ((_ & _ & -> & _) & _)); destruct Hp as (_ & ? & _); congruence. }
  apply (inv_panics_if (goto i (T_Kill o) (at_object o (upd_stopping true []) m)) false); [|done]. rewrite goto_at_object. by apply inv_stopping, (inv_goto m i t).
Qed.

Lemma inv_step_stop c i t m m' : manager_inv m → mg_threads m !! i = Some t → step_stop c i t m = Some m' → manager_inv m'.
Proof.
  intros Hm Hi. destruct t; intros Hs; cbn in Hs; try done.
  all: try (apply bind_Some in Hs as (x & Hx & Hs)).
  all: repeat match type of Hs with context [if ?b then _ else _] => destruct b end; try done; injection Hs as <-.
  all: try (moves_on).
  - by apply (inv_look m i (T_Look id)).
  - rewrite goto_at_object. apply inv_stopping. moves_on.
  - rewrite goto_at_object. apply inv_stopping. moves_on.
Qed.

Lemma inv_step_admin c i t m m' : manager_inv m → mg_threads m !! i = Some t → step_admin c i t m = Some m' → manager_inv m'.
Proof.
  intros Hm Hi. destruct t; intros Hs; cbn in Hs; try done; injection Hs as <-; try (moves_on).
  - destruct (ch_late c); [moves_on|]. unfold forget. destruct (mg_entries m !! id) as [o|] eqn:He; [|moves_on].
    destruct (mi_entry _ Hm id o He) as (x & Hx & _ & _). rewrite Hx. destruct (ex_done x) eqn:Hd; [|moves_on].
    case_bool_decide; [|moves_on]. apply (inv_goto _ i (T_Forget id)); [|done..]. by apply (inv_forget_done m id o x).
  - destruct (mg_closed m); [moves_on|]. apply (inv_goto _ i T_Close); [|done..]. by apply inv_closed.
Qed.

Lemma inv_step l m m' : manager_inv m → step l m = Some m' → manager_inv m'.
Proof.
  intros Hm. destruct l as [t|i c]; cbn.
  - destruct (entry_point t) eqn:He; [|done]. intros [= <-]. apply inv_spawn; [done|]. by destruct t.
  - intros (t & Hi & Hs)%bind_Some. destruct t;
      first [exact (inv_step_start c i _ m m' Hm Hi Hs)|exact (inv_step_monitor c i _ m m' Hm Hi Hs)|exact (inv_step_admin c i _ m m' Hm Hi Hs)|exact (inv_step_stop c i _ m m' Hm Hi Hs)].
Qed.

Lemma inv_runs m m' : manager_inv m → runs m m' → manager_inv m'.
Proof. intros Hm Hr. induction Hr as [|m1 m2 m3 [l Hl] _ IH]; [done|]. apply IH. exact (inv_step l m1 m2 Hm Hl). Qed.

(** ** Claims *)

Ltac books := cbn; split_and!; first [lia|by auto|intros; lia|done].

Lemma owner_live t x : owned t ≠ None → phase_ok t x → live x = true.
Proof.
  intros Ho Hp. destruct t; try done; try (by destruct Hp as [Hs _]; apply started_live); destruct Hp as (_ & Hr & _); unfold live; by rewrite Hr.
Qed.


(** C22 The books of every execution: the reporter is asked at most once and the
    container cleaned up at most once; it is cleaned up only after the process
    has exited and only when a Stop had asked for it or the reporter has accepted
    the completion; and once the execution is done without an error it has been
    cleaned up, the completion having been accepted or a Stop having asked. *)
Theorem completion_settled m o x : runs newExecutionManager m → mg_heap m !! o = Some x →
  (length (ex_reports x) ≤ 1)%nat ∧ (ex_cleanups x ≤ 1)%nat ∧
  (ex_cleanups x = 1%nat → ex_exited x = true ∧ (ex_decided x = Some true ∨ ex_reports x = [[]])) ∧
  (ex_done x = true → ex_doneErr x = [] → ex_exited x = true ∧ ex_cleanups x = 1%nat ∧ (ex_decided x = Some true ∨ ex_reports x = [[]])).
Proof.
  intros Hr Hx. pose proof (inv_runs _ _ manager_inv_new Hr) as Hm. destruct (mi_object _ Hm o x Hx) as [Hdone Hfailed].
  assert (∀ err, settled x err → (length (ex_reports x) ≤ 1)%nat ∧ (ex_cleanups x ≤ 1)%nat ∧
    (ex_cleanups x = 1%nat → ex_exited x = true ∧ (ex_decided x = Some true ∨ ex_reports x = [[]])) ∧
    (err = [] → ex_exited x = true ∧ ex_cleanups x = 1%nat ∧ (ex_decided x = Some true ∨ ex_reports x = [[]]))) as Hset.
  { intros err (He & [(Hd & Hre & Hc)|(Hd & e & Hre & Hc & Herr)]).
    - rewrite Hre Hc. books.
    - rewrite Hre Hc. destruct (decide (e = [])) as [->|Hne]; [rewrite bool_decide_eq_true_2 //; books|].
      rewrite bool_decide_eq_false_2 //. cbn. split_and!; [lia|lia|done|]. intros H0. by specialize (Herr H0). }
  destruct (ex_done x) eqn:Hd.
  { destruct (Hdone eq_refl) as (_ & _ & _ & Hs). destruct (Hset _ Hs) as (H1 & H2 & H3 & H4). auto. }
  assert (untouched x → (length (ex_reports x) ≤ 1)%nat ∧ (ex_cleanups x ≤ 1)%nat ∧
    (ex_cleanups x = 1%nat → ex_exited x = true ∧ (ex_decided x = Some true ∨ ex_reports x = [[]]))) as Hun by (intros (_ & -> & ->); books).
  rewrite !(assoc (∧)). split; [rewrite -!(assoc (∧))|done]. destruct (live x) eqn:Hl.
  - destruct (mi_live _ Hm o x Hx Hl) as (_ & t & Ht & Ho). destruct (mi_owner _ Hm _ t o Ht Ho) as (y & Hy & _ & Hp). assert (y = x) as -> by congruence.
    destruct t; try done; cbn in Hp; try (apply Hun; tauto).
    + destruct Hp as (_ & _ & _ & -> & ->). books.
    + destruct Hp as (_ & _ & _ & -> & _ & ->). destruct stopping; books.
    + destruct Hp as (_ & Hs). destruct (Hset _ Hs) as (H1 & H2 & H3 & _). auto.
  - apply Hun. unfold live in Hl. rewrite Hd in Hl. apply orb_false_elim in Hl as [Hr0%negb_false_iff Hl]. apply (Hfailed Hr0).
    intros He. by rewrite He in Hl.
Qed.

End steps.

(** ** Runs that can be evaluated *)

Fixpoint run_calls `{Images} (ls : list label) (m : executionManager) : option executionManager :=
  match ls with [] => Some m | l :: ls' => m' ← step l m; run_calls ls' m' end.

Lemma run_calls_runs `{Images} ls m m' : run_calls ls m = Some m' → runs m m'.
Proof.
  revert m. induction ls as [|l ls IH]; intros m; cbn; [by intros [= ->]; constructor|].
  intros (m1 & H1 & H2)%bind_Some. apply (rtc_l _ m m1 m'); [by exists l|exact (IH _ H2)].
Qed.

(** A state the calls lead to, known by a check of it. *)
Lemma calls_reach `{Images} ls (P : executionManager → bool) :
  match run_calls ls newExecutionManager with Some m => P m | None => false end = true → ∃ m, runs newExecutionManager m ∧ P m = true.
Proof. destruct (run_calls ls newExecutionManager) as [m|] eqn:Hm; [|done]. intros HP. exists m. split; [by apply run_calls_runs in Hm|done]. Qed.

Definition ok_run (i : nat) : label := Run i (mkChoice [] false).

(** Two Starts of one request, the first one's container started and monitored
    by goroutine 2. *)
Definition example_started : list label :=
  [Call (T_Start false (example_request "run-1") true); Call (T_Start false (example_request "run-1") true);
   ok_run 0; ok_run 1; ok_run 0; ok_run 1; ok_run 0; ok_run 0; ok_run 1].

Definition at_monitor (m : executionManager) (i : nat) : bool :=
  match mg_threads m !! i with Some (T_Monitor 0) => true | _ => false end.

Definition returned (m : executionManager) (i : nat) (err : option rt_error) : bool :=
  match mg_threads m !! i with
  | Some (Returned []) => match err with None => true | _ => false end
  | Some (Returned [e]) => match err, e with Some ErrContext, ErrContext | Some ErrCleanupActive, ErrCleanupActive => true | _, _ => false end
  | _ => false
  end.


(** The process exits, the completion is reported and the container removed. *)
Definition example_completed : list label := example_started ++ [ok_run 2; ok_run 2; ok_run 2; ok_run 2; ok_run 2].

Definition first_done (m : executionManager) : bool :=
  match mg_heap m !! 0%nat with Some x => ex_done x && (match ex_doneErr x with [] => true | _ => false end) | None => false end.

Lemma completion_settled_witness :
  ∃ m x, @runs example_images newExecutionManager m ∧ mg_heap m !! 0%nat = Some x ∧ ex_exited x = true ∧ ex_cleanups x = 1%nat.
Proof.
  destruct (@calls_reach example_images example_completed first_done ltac:(vm_compute; reflexivity)) as (m & Hr & HP).
  unfold first_done in HP. destruct (mg_heap m !! 0%nat) as [x|] eqn:Hx; [|discriminate]. exists m, x. split; [exact Hr|]. split; [exact Hx|].
  destruct (@completion_settled example_images m 0 x Hr Hx) as (_ & _ & _ & H4).
  destruct (ex_done x); [|discriminate]. destruct (ex_doneErr x); [|discriminate].
  destruct (H4 eq_refl eq_refl) as (H5 & H6 & _). exact (conj H5 H6).
Defined.

(** ** A completion that nobody hears of

    A Stop marks the execution; the process exits by itself and the monitor
    reads the mark, so it does not report; the context of the Stop ends before
    the cleanup and the Stop returns its error.  The mark is taken back and the
    failure recorded, too late for the monitor: the exit is in no report, and
    the caller was told that the Stop failed. *)
Definition example_lost : list label :=
  example_started ++ [Call (T_Stop "exec-1"); ok_run 3; ok_run 3; ok_run 3; ok_run 2; ok_run 2; Run 3 (mkChoice [] true); ok_run 3; ok_run 2; ok_run 2; ok_run 2].

Definition unreported (m : executionManager) : bool :=
  match mg_heap m !! 0%nat with Some x => ex_done x && ex_exited x && negb (ex_stopping x) && (match ex_reports x with [] => true | _ => false end) | None => false end.

Lemma lost_completion : ∃ m, @runs example_images newExecutionManager m ∧ returned m 3 (Some ErrContext) && unreported m = true.
Proof. exact (@calls_reach example_images example_lost (fun m => returned m 3 (Some ErrContext) && unreported m) ltac:(vm_compute; reflexivity)). Qed.
