(* ===== verification/LogMeta.v ===== *)
(** * Log metadata (internal/logstore/store.go)

    The file that records whose logs a directory holds and how many bytes are
    reserved for each stream, as written and as read.  A file that was not
    written to its end is never taken for a reservation. *)

From stdpp Require Import pretty.
From S2P Require Import Prelude GoStrings Utf8 Json Decimal.
From Stdlib Require Import Strings.Byte.

Record metadata := mkMetadata { md_Execution : string; md_Limit : Z }.

(** [json.Marshal(metadata{...})] *)
Definition metadata_json (m : metadata) : bytes :=
  print_value (JObj [(text "execution", JStr (text (md_Execution m))); (text "limit", JNum (text (pretty (md_Limit m))))]).

(** [json.Unmarshal(data, &m)]: other fields are skipped, a null changes nothing. *)
Definition metadata_member (acc : option metadata) (kv : bytes * json) : option metadata :=
  m ← acc;
  if bool_decide (fold_name kv.1 = fold_name (text "execution")) then
    match kv.2 with JNull => Some m | JStr s => Some (mkMetadata (go_string s) (md_Limit m)) | _ => None end
  else if bool_decide (fold_name kv.1 = fold_name (text "limit")) then
    match kv.2 with JNull => Some m | JNum lit => v ← int_value lit; Some (mkMetadata (md_Execution m) v) | _ => None end
  else Some m.

Definition metadata_of (data : bytes) : option metadata :=
  v ← parse_document data;
  m ← match v with
      | JObj ms => foldl metadata_member (Some (mkMetadata "" 0)) ms
      | JNull => Some (mkMetadata "" 0)
      | _ => None
      end;
  if bool_decide (md_Execution m = "") || (md_Limit m <? 1) || (2 ^ 30 <? md_Limit m) then None else Some m.

(** ** Reading back *)

Lemma length_text s : length (text s) = String.length s.
Proof. unfold text. induction s as [|c s IH]; [done|]. cbn. by rewrite IH. Qed.

Lemma json_string_empty s : json_string s = "" → s = "".
Proof.
  intros H. destruct s as [|c s]; [done|]. exfalso. unfold json_string in H. pose proof (coerce_length (String.length (String c s)) (text (String c s))) as Hl.
  rewrite length_text in Hl. specialize (Hl ltac:(lia)). unfold text in Hl. destruct (coerce _ _) as [|b l]; [cbn in Hl; lia|]. done.
Qed.

Lemma metadata_read m : 1 ≤ md_Limit m ≤ 2 ^ 30 →
  metadata_of (metadata_json m) = if bool_decide (json_string (md_Execution m) = "") then None else Some (mkMetadata (json_string (md_Execution m)) (md_Limit m)).
Proof.
  intros Hl. destruct (pretty_nonneg (md_Limit m)) as [Hlit _]; [lia|]. unfold metadata_of, metadata_json.
  rewrite -{1}(app_nil_r (print_value _)) (parse_print_document _ []); [|done|].
  { cbn [writable forallb snd]. by rewrite Hlit. }
  cbn [as_read map fst snd mbind option_bind foldl].
  assert (metadata_member (Some (mkMetadata "" 0)) (coerce (length (text "execution")) (text "execution"), JStr (coerce (length (text (md_Execution m))) (text (md_Execution m))))
    = Some (mkMetadata (go_string (coerce (length (text (md_Execution m))) (text (md_Execution m)))) 0)) as -> by reflexivity.
  assert (∀ e, metadata_member (Some (mkMetadata e 0)) (coerce (length (text "limit")) (text "limit"), JNum (text (pretty (md_Limit m)))) =
    (v ← int_value (text (pretty (md_Limit m))); Some (mkMetadata e v))) as Hm by reflexivity.
  rewrite Hm int_value_pretty; [lia|]. cbn [mbind option_bind md_Limit md_Execution].
  assert (length (text (md_Execution m)) = String.length (md_Execution m)) as -> by apply length_text.
  change (go_string (coerce _ _)) with (json_string (md_Execution m)).
  rewrite (proj2 (Z.ltb_ge (md_Limit m) 1)); [lia|]. rewrite (proj2 (Z.ltb_ge (2 ^ 30) (md_Limit m))); [lia|]. by rewrite !orb_false_r.
Qed.

Lemma metadata_read_back m : 1 ≤ md_Limit m ≤ 2 ^ 30 → md_Execution m ≠ "" →
  metadata_of (metadata_json m) = Some (mkMetadata (json_string (md_Execution m)) (md_Limit m)).
Proof. intros Hl He. rewrite metadata_read // bool_decide_eq_false_2 //. by intros ?%json_string_empty. Qed.

(** ** Files that were cut short *)

Definition high (b : byte) : bool := negb (byte_in 0 0x7F b).

Lemma in_high lo hi c : (0x80 <= lo)%N → byte_in lo hi c = true → high c = true.
Proof. unfold high, byte_in. lia. Qed.

Lemma second_high b p c : (second_of_3 b = Some p ∨ second_of_4 b = Some p) → p c = true → high c = true.
Proof.
  unfold second_of_3, second_of_4, continuation. intros [Hp|Hp];
    repeat match type of Hp with context [if ?x then _ else _] => destruct x end; try done; injection Hp as <-; by apply in_high.
Qed.

(** All bytes of a rune of several bytes are above ASCII. *)
Lemma rune_high b l m : byte_in 0 0x7F b = false → rune_size (b :: l) = S m → forallb high (b :: take m l) = true.
Proof.
  intros Hb. assert (high b = true) as Hh by (unfold high; by rewrite Hb).
  assert (∀ c, continuation c = true → high c = true) as Hc by (intros c; by apply in_high).
  assert (∀ o c, (o = second_of_3 b ∨ o = second_of_4 b) → from_option (fun p => p c) false o = true → high c = true) as H2.
  { intros [p|] c Ho Hp; [|done]. apply (second_high b p c); [|done]. by destruct Ho as [<-|<-]; auto. }
  cbn [rune_size]. rewrite Hb. intros Hs. cbn [forallb]. rewrite Hh.
  destruct l as [|b1 l]; [done|]. destruct (byte_in 0xC2 0xDF b && continuation b1) eqn:E1.
  { apply andb_true_iff in E1 as [_ E1]. injection Hs as <-. cbn. by rewrite (Hc _ E1). }
  destruct l as [|b2 l]; [done|]. destruct (from_option _ _ (second_of_3 b) && continuation b2) eqn:E3.
  { apply andb_true_iff in E3 as [E3 E3']. injection Hs as <-. cbn. by rewrite (H2 _ b1 (or_introl eq_refl) E3) (Hc _ E3'). }
  destruct l as [|b3 l]; [done|]. destruct (from_option _ _ (second_of_4 b) && _ && _) eqn:E4; [|done].
  apply andb_true_iff in E4 as [[E4 E4']%andb_true_iff E4'']. injection Hs as <-. cbn.
  by rewrite (H2 _ b1 (or_intror eq_refl) E4) (Hc _ E4') (Hc _ E4'').
Qed.

Lemma parse_high f l : forallb high l = true → parse_string f l = None.
Proof.
  revert l. induction f as [|f IH]; intros [|b l] Hl; [done..|]. cbn [forallb] in Hl. apply andb_true_iff in Hl as [Hb Hl].
  apply negb_true_iff in Hb. destruct (high_byte b Hb) as (Hq & He & Hc). cbn [parse_string]. rewrite Hq He. unfold parse_char. rewrite Hc.
  destruct (rune_size (b :: l)) as [|n]; cbn; rewrite IH //. rewrite -(take_drop n l) forallb_app in Hl. by apply andb_true_iff in Hl as [_ Hl].
Qed.

Lemma open_escape b k f : byte_in 0 0x7F b = true → html_safe b = false → (k < length (escape_ascii b))%nat → parse_string f (take k (escape_ascii b)) = None.
Proof.
  intros Hb Hs Hk. assert (k < 6)%nat as Hk6 by (destruct b; cbn in Hk; lia). destruct f as [|f]; [done|].
  do 6 (destruct k as [|k]; [destruct b; try discriminate Hb; try discriminate Hs; cbn in Hk; try (exfalso; lia); reflexivity|]). lia.
Qed.

Lemma open_unicode k a b c d f : (k < 6)%nat → parse_string f (take k [x5c; x75; a; b; c; d]) = None.
Proof. intros Hk. destruct f as [|f]; [done|]. do 6 (destruct k as [|k]; [reflexivity|]). lia. Qed.

(** A unit of a literal that is read whole. *)
Lemma open_step f b l out rest :
  isb x22 b = false → (if isb x5c b then parse_escape l else parse_char b l) = Some (out, rest) → (∀ f', parse_string f' rest = None) → parse_string f (b :: l) = None.
Proof. intros Hb Hc Hr. destruct f as [|f]; [done|]. cbn [parse_string]. rewrite Hb Hc. cbn. by rewrite Hr. Qed.

(** A literal without its closing quote is cut inside a unit or between two. *)
Lemma open_unit u q k : (∀ f, (k < length u)%nat → parse_string f (take k u) = None) →
  (∀ f x, (∀ f', parse_string f' x = None) → parse_string f (u ++ x) = None) →
  (∀ k' f, parse_string f (take k' q) = None) → ∀ f, parse_string f (take k (u ++ q)) = None.
Proof.
  intros Hcut Hwhole Hq f. destruct (decide (k < length u)%nat) as [Hk|Hk]; [rewrite take_app_le; [lia|by apply Hcut]|].
  rewrite take_app_ge; [lia|]. apply Hwhole. intros f'. apply Hq.
Qed.

Lemma open_quote_body n l : (length l ≤ n)%nat → ∀ k f, parse_string f (take k (quote_body n l)) = None.
Proof.
  revert l. induction n as [|n IH]; intros [|b l] Hn k f; cbn [quote_body]; try (rewrite take_nil; by destruct f). cbn [length] in Hn.
  destruct (byte_in 0 0x7F b) eqn:Hb.
  - apply open_unit; [| |intros k' f'; apply IH; lia].
    + intros f' Hk. destruct (html_safe b) eqn:Hs; [|by apply open_escape]. destruct k; [by destruct f'|cbn in Hk; lia].
    + intros f' x Hx. destruct (html_safe b) eqn:Hs.
      * destruct (safe_char b x Hs) as (Hq & He & Hc). apply (open_step f' b x [b] x); [done|by rewrite He|done].
      * destruct (parse_escape_ascii b x Hb Hs) as [-> Hp]. by apply (open_step f' x5c _ [b] x).
  - destruct (rune_size (b :: l)) as [|m] eqn:Hs.
    { apply (open_unit [x5c; x75; x66; x66; x66; x64]); [intros f' Hk; by apply open_unicode| |intros k' f'; apply IH; lia].
      intros f' x Hx. by apply (open_step f' x5c _ replacement x). }
    apply open_unit; [| |intros k' f'; apply IH; rewrite length_drop; cbn [length]; lia].
    + intros f' Hk. unfold quote_rune in *. repeat case_bool_decide; [by apply open_unicode..|]. apply parse_high.
      pose proof (rune_high b l m Hb Hs) as Hh. cbn [take] in *. rewrite -(take_drop k (b :: take m l)) forallb_app in Hh. by apply andb_true_iff in Hh as [-> _].
    + intros f' x Hx. destruct (high_byte b Hb) as (Hq & He & _). unfold quote_rune. cbn [take]. repeat case_bool_decide.
      * by apply (open_step f' x5c _ [xe2; x80; xa8] x).
      * by apply (open_step f' x5c _ [xe2; x80; xa9] x).
      * cbn [app]. apply (open_step f' b _ (b :: take m l) x); [done|rewrite He; by apply parse_rune|done].
Qed.

(** What follows the colon of a member. *)
Definition member_rest (f : nat) (key : bytes) (l : bytes) : option (list (bytes * json) * bytes) :=
  '(v, r2) ← parse_value f l;
  match expect x2c r2 with
  | Some r3 => '(ms, r4) ← parse_members f r3; Some ((key, v) :: ms, r4)
  | None => r3 ← expect x7d r2; Some ([(key, v)], r3)
  end.

Lemma cut_cons {A} (x : A) (l : list A) k : (0 < k)%nat → take k (x :: l) = x :: take (k - 1) l.
Proof. destruct k; [lia|]. intros _. cbn. by rewrite Nat.sub_0_r. Qed.

Lemma cut_quote_string key k f : (k < length (quote key))%nat → (0 < k)%nat → parse_string f (take (k - 1) (quote_body (length key) key ++ [x22])) = None.
Proof. unfold quote. cbn [length]. rewrite length_app. cbn [length]. intros Hk H0. rewrite take_app_le; [lia|]. by apply open_quote_body. Qed.

Lemma cut_quoted key k : (k < length (quote key))%nat → quoted (take k (quote key)) = None.
Proof.
  intros Hk. destruct (decide (k = 0)%nat) as [->|H0]; [done|]. unfold quote. rewrite cut_cons; [lia|]. unfold quoted. rewrite expect_hit //. cbn [mbind option_bind].
  apply cut_quote_string; [done|lia].
Qed.

Lemma cut_member key tail : (∀ k f key', (k < length tail)%nat → member_rest f key' (take k tail) = None) →
  ∀ k f, (k < length (quote key ++ x3a :: tail))%nat → parse_members f (take k (quote key ++ x3a :: tail)) = None.
Proof.
  intros Ht k [|f] Hk; [done|]. rewrite length_app in Hk. cbn [length] in Hk. cbn [parse_members]. destruct (decide (k < length (quote key))%nat) as [Hq|Hq].
  - rewrite take_app_le; [lia|]. by rewrite cut_quoted.
  - rewrite take_app_ge; [lia|]. rewrite parse_quote. cbn [mbind option_bind]. destruct (decide (k = length (quote key))) as [->|Hne]; [by rewrite Nat.sub_diag|].
    rewrite cut_cons; [lia|]. rewrite expect_hit //. cbn [mbind option_bind]. apply (Ht (k - length (quote key) - 1)%nat f). lia.
Qed.

Lemma string_value f s r : parse_value (S f) (quote s ++ r) = Some (JStr (coerce (length s) s), r).
Proof.
  unfold quote. cbn [app]. rewrite parse_value_head //. change (isb x7b x22) with false. change (isb x5b x22) with false. change (isb x22 x22) with true.
  cbv iota. rewrite -app_assoc. cbn [app]. rewrite parse_quote_body //; lia.
Qed.

Lemma cut_string_member s ms : (∀ k f, (k < length ms)%nat → parse_members f (take k ms) = None) →
  ∀ k f key, (k < length (quote s ++ x2c :: ms))%nat → member_rest f key (take k (quote s ++ x2c :: ms)) = None.
Proof.
  intros Hms k [|f] key Hk; [done|]. rewrite length_app in Hk. cbn [length] in Hk. unfold member_rest. destruct (decide (k < length (quote s))%nat) as [Hq|Hq].
  - rewrite take_app_le; [lia|]. destruct (decide (k = 0)%nat) as [->|H0]; [done|]. unfold quote. rewrite cut_cons; [lia|]. rewrite parse_value_head //.
    change (isb x7b x22) with false. change (isb x5b x22) with false. change (isb x22 x22) with true. cbv iota. rewrite cut_quote_string //. lia.
  - rewrite take_app_ge; [lia|]. rewrite string_value. cbn [mbind option_bind]. destruct (decide (k = length (quote s))) as [->|Hne]; [by rewrite Nat.sub_diag|].
    rewrite cut_cons; [lia|]. rewrite expect_hit //. rewrite Hms //. lia.
Qed.

Lemma int_literal_take k lit : int_literal lit = true → (0 < k)%nat → int_literal (take k lit) = true.
Proof.
  destruct lit as [|d ds]; [done|]. destruct k as [|k]; [lia|]. cbn. intros [[Hd Hds]%andb_true_iff Hz]%andb_true_iff _. rewrite Hd.
  rewrite -(take_drop k ds) forallb_app in Hds. apply andb_true_iff in Hds as [-> _]. cbn. apply orb_true_iff in Hz as [->|Hz]; [done|].
  apply bool_decide_eq_true in Hz as ->. rewrite take_nil. by rewrite orb_true_r.
Qed.

Lemma cut_number_member lit k f key : int_literal lit = true → (k < length (lit ++ [x7d]))%nat → member_rest f key (take k (lit ++ [x7d])) = None.
Proof.
  intros Hl. rewrite length_app. cbn [length]. intros Hk. rewrite take_app_le; [lia|]. destruct f as [|f]; [done|].
  destruct (decide (k = 0)%nat) as [->|H0]; [done|]. pose proof (int_literal_take k lit Hl ltac:(lia)) as Hp. set (n := take k lit) in *.
  pose proof (parse_int_literal n [] Hp eq_refl) as Hn. rewrite app_nil_r in Hn. unfold member_rest.
  destruct (print_number_head n Hp) as (d & ds & Heq & Hws & H1 & H2 & H3 & H4 & H5 & H6). rewrite Heq in Hn |- *.
  rewrite parse_value_head // H1 H2 H3 H4 H5 H6 Hn. done.
Qed.

(** A file that was not written to its end holds no reservation. *)
Lemma metadata_torn m k : 0 ≤ md_Limit m → (k < length (metadata_json m))%nat → metadata_of (take k (metadata_json m)) = None.
Proof.
  intros Hm Hk. destruct (pretty_nonneg (md_Limit m) Hm) as [Hlit _]. unfold metadata_of, parse_document.
  set (tail := text (pretty (md_Limit m)) ++ [x7d]).
  assert (metadata_json m = x7b :: quote (text "execution") ++ x3a :: quote (text (md_Execution m)) ++ x2c :: quote (text "limit") ++ x3a :: tail) as Hj.
  { unfold metadata_json, tail. cbn [print_value map joined flat_map]. by rewrite -!app_assoc /= -!app_assoc. }
  rewrite Hj in Hk |- *. clear Hj. destruct (decide (k = 0)%nat) as [->|H0]; [done|]. rewrite cut_cons; [lia|]. cbn [length] in Hk.
  set (n := S (2 * _)). set (body := quote (text "execution") ++ _) in *. assert (parse_value n (x7b :: take (k - 1) body) = None) as ->; [|done].
  assert (∀ f, parse_members f (take (k - 1) body) = None) as Hm0.
  { intros f0. apply (cut_member (text "execution")); [|unfold body in Hk; lia]. intros k' f key. apply cut_string_member. intros k2 f2. apply cut_member.
    intros k3 f3 key3. by apply cut_number_member. }
  assert (expect x7d (take (k - 1) body) = None) as He by (by destruct (k - 1)%nat).
  clearbody body. unfold n. rewrite parse_value_head //. change (isb x7b x7b) with true. cbv iota. by rewrite He Hm0.
Qed.

(** Whatever a write left behind: it is the reservation or none. *)
Lemma metadata_written m n m' : 1 ≤ md_Limit m ≤ 2 ^ 30 → metadata_of (take n (metadata_json m)) = Some m' → md_Limit m' = md_Limit m.
Proof.
  intros Hl. destruct (decide (n < length (metadata_json m))%nat) as [Hn|Hn]; [rewrite metadata_torn //; lia|].
  rewrite take_ge; [lia|]. rewrite metadata_read //. destruct (bool_decide _); [done|]. by intros [= <-].
Qed.
