(* ===== verification/LogStore.v ===== *)
(** * The log store (internal/logstore/store.go)

    The directory of retained logs: reservations, paged reads, removal, and the
    processes that copy the output of a container into its two files.  The
    methods of the store hold its mutex; the copying processes belong to the
    container shims and interleave with them.  Every call of the operating system
    may fail, a failing write may write a part, and a failing removal may remove
    a part. *)

From stdpp Require Import pretty.
From S2P Require Import Prelude GoStrings Utf8 Json Decimal Framing Sha256 LogMeta.
From Stdlib Require Import Strings.Byte.

Inductive log_error :=
| ErrLogBudget | ErrLogIdentity | ErrLogReservation | ErrLogExhausted | ErrLogMetadata | ErrLogLimit
| ErrLogOffset | ErrLogsMissing | ErrLogContext
| ErrLogNotExist     (* wraps os.ErrNotExist *)
| ErrLogDisk.        (* any other error of the operating system *)

#[export] Instance log_error_eq_dec : EqDecision log_error.
Proof. solve_decision. Defined.

Abbreviation lresult := (result log_error).

(** ** The directory *)

(** An entry of the root.  [charge] is what the reservation was made for. *)
Inductive entry := Plain | Folder (charge : Z) (files : gmap string bytes).
Abbreviation root := (gmap string entry).

Record Store := mkStore { ls_streamBytes : Z; ls_totalBytes : Z }.

Definition New (path : string) (streamBytes totalBytes : Z) (disk_fails : bool) : lresult Store :=
  if bool_decide (path = "") || (streamBytes <? 1) || (2 ^ 30 <? streamBytes) || (totalBytes <? 2 * streamBytes)
  then Err ErrLogBudget
  else if disk_fails then Err ErrLogDisk
  else Ok (mkStore streamBytes totalBytes).

Definition directory (id : string) : string := hex_encode (sha256 (text id)).

Definition readMetadata (fails : bool) (e : option entry) : lresult metadata :=
  if fails then Err ErrLogDisk
  else match e with
  | None => Err ErrLogNotExist
  | Some Plain => Err ErrLogDisk
  | Some (Folder _ files) =>
    match files !! "metadata.json" with
    | None => Err ErrLogNotExist
    | Some data => match metadata_of data with Some m => Ok m | None => Err ErrLogMetadata end
    end
  end.

(** ** [Reserve] *)

(** Which calls fail. *)
Record faults := mkFaults {
  io_own : bool; io_readdir : bool; io_read : string → bool; io_mkdir : bool; io_create : bool;
  io_write : option nat;    (* a failing write, and how much was written *)
  io_sync : bool
}.

(** int64 *)
Definition i64 (x : Z) : Z := (x + 2 ^ 63) mod 2 ^ 64 - 2 ^ 63.

Fixpoint sum_reserved (io : faults) (entries : list (string * entry)) (reserved : Z) : lresult Z :=
  match entries with
  | [] => Ok reserved
  | (_, Plain) :: rest => sum_reserved io rest reserved
  | (name, e) :: rest =>
    match readMetadata (io_read io name) (Some e) with
    | Err _ => Err ErrLogReservation
    | Ok m => sum_reserved io rest (i64 (reserved + 2 * md_Limit m))
    end
  end.

Definition create_reservation (s : Store) (io : faults) (id : string) (r : root) : lresult (string * Z) * root :=
  let dir := directory id in
  match (if io_mkdir io then None else match r !! dir with Some Plain => None | Some (Folder c files) => Some (c, files) | None => Some (2 * ls_streamBytes s, ∅) end) with
  | None => (Err ErrLogDisk, r)
  | Some (charge, files) =>
    match io_create io, files !! "metadata.json" with
    | false, None =>
      let data := metadata_json (mkMetadata id (ls_streamBytes s)) in
      let written := match io_write io with Some n => take n data | None => data end in
      (if io_sync io || bool_decide (io_write io ≠ None) then Err ErrLogDisk else Ok (dir, ls_streamBytes s),
       <[dir := Folder charge (<["metadata.json" := written]> files)]> r)
    | _, _ => (Err ErrLogDisk, <[dir := Folder charge files]> r)
    end
  end.

Definition Reserve (s : Store) (io : faults) (id : string) (r : root) : lresult (string * Z) * root :=
  match readMetadata (io_own io) (r !! directory id) with
  | Ok meta => (if bool_decide (md_Execution meta = id) then Ok (directory id, md_Limit meta) else Err ErrLogIdentity, r)
  | Err ErrLogNotExist =>
    if io_readdir io then (Err ErrLogDisk, r)
    else match sum_reserved io (map_to_list r) 0 with
    | Err e => (Err e, r)
    | Ok reserved => if ls_totalBytes s - 2 * ls_streamBytes s <? reserved then (Err ErrLogExhausted, r) else create_reservation s io id r
    end
  | Err e => (Err e, r)
  end.

(** ** [Read] *)

Record LogChunk := mkChunk { lc_Data : bytes; lc_NextOffset : Z; lc_EOF : bool; lc_Truncated : bool }.

Record read_faults := mkReadFaults { rf_meta : bool; rf_open : bool; rf_stat : bool; rf_read : bool; rf_marker : bool }.

Definition is_stream (stream : string) : bool := bool_decide (stream = "stdout") || bool_decide (stream = "stderr").

Definition Read (late : bool) (io : read_faults) (id stream : string) (offset limit : Z) (r : root) : lresult LogChunk :=
  if late then Err ErrLogContext
  else if negb (is_stream stream) || (limit =? 0) || (2 ^ 20 <? limit) then Err ErrLogOffset
  else match readMetadata (rf_meta io) (r !! directory id) with
  | Err ErrLogNotExist => Err ErrLogsMissing
  | Err e => Err e
  | Ok m =>
    if negb (bool_decide (md_Execution m = id)) then Err ErrLogsMissing
    else if rf_open io then Err ErrLogDisk
    else match r !! directory id with
    | Some (Folder _ files) =>
      match files !! stream with
      | None => Err ErrLogsMissing
      | Some content =>
        if rf_stat io then Err ErrLogDisk
        else let size := zlen content in
        if size <? offset then Err ErrLogOffset
        else if rf_read io then Err ErrLogDisk
        else
          let data := take (Z.to_nat (Z.min limit (size - offset))) (drop (Z.to_nat offset) content) in
          let n := zlen data in
          Ok (mkChunk data (offset + n) (offset + n =? size) (negb (rf_marker io) && bool_decide (is_Some (files !! (stream +:+ ".truncated")))))
      end
    | _ => Err ErrLogsMissing
    end
  end.

(** ** [Remove] *)

(** [os.RemoveAll], or a failure that leaves the files of [keep]. *)
Definition RemoveAll (failing : option (string → bool)) (dir : string) (r : root) : bool * root :=
  match failing, r !! dir with
  | None, _ => (true, delete dir r)
  | Some keep, Some (Folder charge files) => (false, <[dir := Folder charge (filter (fun kv => keep kv.1 = true) files)]> r)
  | Some _, _ => (false, r)
  end.

Definition Remove (late : bool) (failing : option (string → bool)) (id : string) (r : root) : lresult unit * root :=
  if late then (Err ErrLogContext, r)
  else let '(ok, r') := RemoveAll failing (directory id) r in (if ok then Ok tt else Err ErrLogDisk, r').

(** ** [Capture] *)

Inductive pump_state := Opened | Copying (remaining : Z) (truncated : bool) | Finished (err : option log_error).

(** One of the two goroutines of a capture.  Its file is the one in the
    directory, or what is left of it once it has been removed.  [pu_start] is
    what the file held when the goroutine looked, [pu_got] what it has read. *)
Record pump := mkPump {
  pu_dir : string; pu_stream : string; pu_limit : Z;
  pu_unlinked : option bytes; pu_state : pump_state;
  pu_start : bytes; pu_got : bytes
}.

Definition file_at (r : root) (dir name : string) : option bytes :=
  match r !! dir with Some (Folder _ files) => files !! name | _ => None end.

Definition on_file (f : bytes → bytes) (dir name : string) (r : root) : root :=
  alter (fun e => match e with Folder c files => Folder c (alter f name files) | Plain => Plain end) dir r.

(** [O_CREATE] of an existing folder's file. *)
Definition create_file (dir name : string) (r : root) : root :=
  alter (fun e => match e with Folder c files => Folder c (<[name := default [] (files !! name)]> files) | Plain => Plain end) dir r.

Record capture_faults := mkCaptureFaults { cf_own : bool; cf_stdout : bool; cf_stderr : bool; cf_ready : bool }.

(** Up to the start of the goroutines. *)
Definition open_capture (io : capture_faults) (dir : string) (limit : Z) (r : root) : lresult (list pump) * root :=
  match readMetadata (cf_own io) (r !! dir) with
  | Err e => (Err e, r)
  | Ok m =>
    if negb (md_Limit m =? limit) then (Err ErrLogLimit, r)
    else if cf_stdout io then (Err ErrLogDisk, r)
    else let r1 := create_file dir "stdout" r in
    if cf_stderr io then (Err ErrLogDisk, r1)
    else let r2 := create_file dir "stderr" r1 in
    if cf_ready io then (Err ErrLogDisk, r2)
    else (Ok [mkPump dir "stdout" limit None Opened [] []; mkPump dir "stderr" limit None Opened [] []], r2)
  end.

Definition pump_content (r : root) (p : pump) : bytes :=
  match pu_unlinked p with Some data => data | None => default [] (file_at r (pu_dir p) (pu_stream p)) end.

Definition set_pump (p : pump) (st : pump_state) (got : bytes) : pump :=
  mkPump (pu_dir p) (pu_stream p) (pu_limit p) (pu_unlinked p) st (pu_start p) got.

Definition stat_pump (fails : bool) (r : root) (p : pump) : pump :=
  if fails then set_pump p (Finished (Some ErrLogDisk)) []
  else let content := pump_content r p in
  mkPump (pu_dir p) (pu_stream p) (pu_limit p) (pu_unlinked p) (Copying (Z.max 0 (pu_limit p - zlen content)) false) content [].

(** What one turn of the loop meets: the bytes read, whether the source ended
    (with an error or not), a failing write and how much it wrote, a failing
    marker and whether it was created, and a failing sync. *)
Record turn := mkTurn {
  tn_data : bytes; tn_end : option bool; tn_write : option nat; tn_marker : option bool; tn_sync : bool
}.

(** [f.Write] *)
Definition append_pump (data : bytes) (p : pump) (r : root) : pump * root :=
  match pu_unlinked p with
  | Some old => (mkPump (pu_dir p) (pu_stream p) (pu_limit p) (Some (old ++ data)) (pu_state p) (pu_start p) (pu_got p), r)
  | None => (p, on_file (fun old => old ++ data) (pu_dir p) (pu_stream p) r)
  end.

(** [os.WriteFile] of the marker, by its path. *)
Definition write_marker (p : pump) (r : root) : root :=
  alter (fun e => match e with Folder c files => Folder c (<[(pu_stream p +:+ ".truncated") := [x01]]> files) | Plain => Plain end) (pu_dir p) r.
Definition folder_there (r : root) (dir : string) : bool := match r !! dir with Some (Folder _ _) => true | _ => false end.

(** The end of a turn. *)
Definition end_turn (t : turn) (remaining : Z) (truncated : bool) (p : pump) : pump :=
  match tn_end t with
  | None => set_pump p (Copying remaining truncated) (pu_got p ++ tn_data t)
  | Some true => set_pump p (Finished (if tn_sync t then Some ErrLogDisk else None)) (pu_got p ++ tn_data t)
  | Some false => set_pump p (Finished (Some ErrLogDisk)) (pu_got p ++ tn_data t)
  end.

Definition copy_turn (t : turn) (remaining : Z) (truncated : bool) (p : pump) (r : root) : pump * root :=
  let n := zlen (tn_data t) in
  let keep := Z.min n remaining in
  let kept := take (Z.to_nat keep) (tn_data t) in
  match (if 0 <? keep then tn_write t else None) with
  | Some written =>
    let '(p1, r1) := append_pump (take written kept) p r in
    (set_pump p1 (Finished (Some ErrLogDisk)) (pu_got p), r1)
  | None =>
    let '(p1, r1) := if 0 <? keep then append_pump kept p r else (p, r) in
    let remaining1 := if 0 <? keep then remaining - keep else remaining in
    if (keep <? n) && negb truncated then
      match tn_marker t, folder_there r1 (pu_dir p) with
      | None, true => (end_turn t remaining1 true p1, write_marker p r1)
      | Some true, true => (set_pump p1 (Finished (Some ErrLogDisk)) (pu_got p), write_marker p r1)
      | _, _ => (set_pump p1 (Finished (Some ErrLogDisk)) (pu_got p), r1)
      end
    else (end_turn t remaining1 truncated p1, r1)
  end.

(** ** The system *)

Record world := mkWorld { lw_root : root; lw_pumps : list pump }.

Definition active (p : pump) : bool := match pu_state p with Finished _ => false | _ => true end.

(** A removal takes the file away from the process that writes it. *)
Definition detach (before after : root) (p : pump) : pump :=
  match pu_unlinked p, file_at after (pu_dir p) (pu_stream p) with
  | None, None => mkPump (pu_dir p) (pu_stream p) (pu_limit p) (Some (pump_content before p)) (pu_state p) (pu_start p) (pu_got p)
  | _, _ => p
  end.

Inductive label :=
| LReserve (io : faults) (id : string)
| LRemove (late : bool) (failing : option (string → bool)) (id : string)
| LCapture (io : capture_faults) (dir : string) (limit : Z)
| LStat (i : nat) (fails : bool)
| LCopy (i : nat) (t : turn).

Definition bufferSize : Z := 32 * 1024.

(** A directory has one copying process at a time: containerd runs the logging
    binary of a container once. *)
Definition lstep (s : Store) (l : label) (w : world) : option world :=
  match l with
  | LReserve io id => Some (mkWorld (Reserve s io id (lw_root w)).2 (lw_pumps w))
  | LRemove late failing id =>
    let r' := (Remove late failing id (lw_root w)).2 in
    Some (mkWorld r' (detach (lw_root w) r' <$> lw_pumps w))
  | LCapture io dir limit =>
    if existsb (fun p => bool_decide (pu_dir p = dir) && active p) (lw_pumps w) then None
    else let '(res, r') := open_capture io dir limit (lw_root w) in
    Some (mkWorld r' (lw_pumps w ++ match res with Ok ps => ps | Err _ => [] end))
  | LStat i fails =>
    p ← lw_pumps w !! i;
    match pu_state p with
    | Opened => Some (mkWorld (lw_root w) (<[i := stat_pump fails (lw_root w) p]> (lw_pumps w)))
    | _ => None
    end
  | LCopy i t =>
    p ← lw_pumps w !! i;
    match pu_state p with
    | Copying remaining truncated =>
      if bufferSize <? zlen (tn_data t) then None
      else let '(p', r') := copy_turn t remaining truncated p (lw_root w) in Some (mkWorld r' (<[i := p']> (lw_pumps w)))
    | _ => None
    end
  end.

Definition lruns (s : Store) (w w' : world) : Prop := rtc (fun a b => ∃ l, lstep s l a = Some b) w w'.
