(* ===== verification/LogSafe.v ===== *)
(** * Guarantees of the log store

    The retained logs never exceed their budget, whatever fails and however the
    copying processes interleave with reservations and removals; what a reader
    gets is what the container wrote. *)

From stdpp Require Import pretty.
From S2P Require Import Prelude GoStrings Utf8 Json Decimal Framing Sha256 LogMeta LogStore.
From Stdlib Require Import Strings.Byte.

(** The arguments [New] accepts. *)
Definition store_ok (s : Store) : Prop := 1 ≤ ls_streamBytes s ≤ 2 ^ 30 ∧ 2 * ls_streamBytes s ≤ ls_totalBytes s < 2 ^ 63.

Definition charge_of (e : entry) : Z := match e with Folder c _ => c | Plain => 0 end.

Definition size_of (files : gmap string bytes) (name : string) : Z := zlen (default [] (files !! name)).

(** The bytes of log data an entry holds. *)
Definition log_bytes (e : entry) : Z := match e with Folder _ files => size_of files "stdout" + size_of files "stderr" | Plain => 0 end.

Record folder_ok (s : Store) (c : Z) (files : gmap string bytes) : Prop := {
  fo_charge : c = 2 * ls_streamBytes s;
  fo_meta data m : files !! "metadata.json" = Some data → metadata_of data = Some m → md_Limit m = ls_streamBytes s;
  fo_size stream : is_stream stream = true → size_of files stream ≤ ls_streamBytes s
}.

Definition marker (stream : string) : string := stream +:+ ".truncated".

(** What the file of a goroutine holds. *)
Definition copied (p : pump) : bytes := pu_start p ++ take (Z.to_nat (pu_limit p - zlen (pu_start p))) (pu_got p).
Definition overflowed (p : pump) : bool := bool_decide (pu_limit p < zlen (pu_start p) + zlen (pu_got p)).

Definition pump_phase (p : pump) (content : bytes) : Prop :=
  match pu_state p with
  | Opened => True
  | Copying remaining truncated =>
    zlen (pu_start p) ≤ pu_limit p ∧ content = copied p ∧ remaining = Z.max 0 (pu_limit p - zlen (pu_start p) - zlen (pu_got p)) ∧
    truncated = overflowed p
  | Finished None => zlen (pu_start p) ≤ pu_limit p ∧ copied p `prefix_of` content
  | Finished (Some _) => True
  end.

Definition pump_ok (s : Store) (r : root) (p : pump) : Prop :=
  is_stream (pu_stream p) = true ∧
  (pu_unlinked p = None → ∃ c files content, r !! pu_dir p = Some (Folder c files) ∧ files !! pu_stream p = Some content ∧
    pu_limit p = ls_streamBytes s ∧ pump_phase p content).

Record logs_inv (s : Store) (w : world) : Prop := {
  li_charge : msum charge_of (lw_root w) ≤ ls_totalBytes s;
  li_folder dir c files : lw_root w !! dir = Some (Folder c files) → folder_ok s c files;
  li_pump i p : lw_pumps w !! i = Some p → pump_ok s (lw_root w) p;
  li_single i j p q : lw_pumps w !! i = Some p → lw_pumps w !! j = Some q → active p = true → active q = true →
    pu_dir p = pu_dir q → pu_stream p = pu_stream q → i = j
}.

(** ** Changes of one folder *)

(** The folder keeps its reservation and its logs. *)
Definition keeps_logs (files files' : gmap string bytes) : Prop :=
  files' !! "metadata.json" = files !! "metadata.json" ∧ (∀ stream, is_stream stream = true → size_of files' stream = size_of files stream ∧
    ∀ content, files !! stream = Some content → files' !! stream = Some content).

Lemma folder_ok_keeps s c files files' : folder_ok s c files → keeps_logs files files' → folder_ok s c files'.
Proof.
  intros [Hc Hm Hs] (K1 & K2). split; [done|by rewrite K1|]. intros stream Hst. rewrite (proj1 (K2 _ Hst)). by apply Hs.
Qed.

(** A goroutine whose file is still what it was. *)
Definition same_file (r r' : root) (dir stream : string) : Prop :=
  ∀ c files content, r !! dir = Some (Folder c files) → files !! stream = Some content →
    ∃ files', r' !! dir = Some (Folder c files') ∧ files' !! stream = Some content.

Lemma pump_ok_same s r r' p : pump_ok s r p → same_file r r' (pu_dir p) (pu_stream p) → pump_ok s r' p.
Proof.
  intros [Hst Hp] Hs. split; [done|]. intros Hu. destruct (Hp Hu) as (c & files & content & Hd & Hf & Hl & Hph).
  destruct (Hs c files content Hd Hf) as (files' & Hd' & Hf'). by exists c, files', content.
Qed.

Lemma inv_same s w r' : logs_inv s w → msum charge_of r' ≤ ls_totalBytes s → (∀ dir c files, r' !! dir = Some (Folder c files) → folder_ok s c files) →
  (∀ i p, lw_pumps w !! i = Some p → same_file (lw_root w) r' (pu_dir p) (pu_stream p)) → logs_inv s (mkWorld r' (lw_pumps w)).
Proof. intros [] Hc Hf Hs. split; cbn; [done|exact Hf| |done]. intros i p Hp. apply (pump_ok_same s (lw_root w)); [by apply (li_pump0 i)|by apply (Hs i)]. Qed.

(** [alter] of one folder. *)
Definition at_folder (f : gmap string bytes → gmap string bytes) (dir : string) (r : root) : root :=
  alter (fun e => match e with Folder c files => Folder c (f files) | Plain => Plain end) dir r.

Lemma at_folder_lookup f dir r dir' c files' : at_folder f dir r !! dir' = Some (Folder c files') →
  ∃ files, r !! dir' = Some (Folder c files) ∧ (dir' = dir ∧ files' = f files ∨ dir' ≠ dir ∧ files' = files).
Proof.
  unfold at_folder. destruct (decide (dir' = dir)) as [->|Hne].
  - rewrite lookup_alter_eq. intros ([|c0 files] & Hr & He)%fmap_Some; [done|]. injection He as -> ->. exists files. auto.
  - rewrite lookup_alter_ne; [by apply not_eq_sym|]. intros Hr. exists files'. auto.
Qed.

Lemma at_folder_there f dir r c files : r !! dir = Some (Folder c files) → at_folder f dir r !! dir = Some (Folder c (f files)).
Proof. intros Hr. unfold at_folder. by rewrite lookup_alter_eq Hr. Qed.

Lemma at_folder_other f dir dir' r : dir' ≠ dir → at_folder f dir r !! dir' = r !! dir'.
Proof. intros Hne. unfold at_folder. apply lookup_alter_ne. congruence. Qed.

Lemma alter_as_insert {V} (g : V → V) (m : gmap string V) k v : m !! k = Some v → alter g k m = <[k := g v]> m.
Proof.
  intros Hv. apply map_eq. intros j. destruct (decide (j = k)) as [->|Hne]; [by rewrite lookup_alter_eq lookup_insert_eq Hv|].
  trans (m !! j); [|symmetry]; [apply lookup_alter_ne|apply lookup_insert_ne]; congruence.
Qed.

Lemma at_folder_charge f dir r : msum charge_of (at_folder f dir r) = msum charge_of r.
Proof.
  unfold at_folder. destruct (r !! dir) as [e|] eqn:Hr.
  - rewrite (alter_as_insert _ r dir e Hr) msum_insert Hr. destruct e; cbn; lia.
  - f_equal. apply map_eq. intros k. destruct (decide (k = dir)) as [->|Hne]; [by rewrite lookup_alter_eq Hr|]. apply lookup_alter_ne. congruence.
Qed.

Lemma inv_at_folder s w f dir : logs_inv s w → (∀ files, keeps_logs files (f files)) → logs_inv s (mkWorld (at_folder f dir (lw_root w)) (lw_pumps w)).
Proof.
  intros Hi Hk. apply inv_same; [done|rewrite at_folder_charge; by apply (li_charge s)| |].
  - intros dir' c files' (files & Hr & [[-> ->]|[_ ->]])%at_folder_lookup; [|by apply (li_folder s w Hi dir')].
    apply (folder_ok_keeps s c files); [by apply (li_folder s w Hi dir)|apply Hk].
  - intros i p Hp c files content Hr Hf. destruct (li_pump s w Hi i p Hp) as [Hst _]. destruct (decide (dir = pu_dir p)) as [->|Hne].
    + exists (f files). rewrite (at_folder_there f _ _ c files Hr). destruct (Hk files) as (_ & K2). split; [done|by apply K2].
    + exists files. rewrite at_folder_other //. congruence.
Qed.

Lemma is_stream_cases stream : is_stream stream = true → stream = "stdout" ∨ stream = "stderr".
Proof. unfold is_stream. intros [H%bool_decide_eq_true|H%bool_decide_eq_true]%orb_true_iff; auto. Qed.

Lemma keeps_marker files stream data : is_stream stream = true → keeps_logs files (<[marker stream := data]> files).
Proof.
  intros Hst. assert (marker stream ≠ "metadata.json" ∧ marker stream ≠ "stdout" ∧ marker stream ≠ "stderr") as (N1 & N2 & N3).
  { by destruct (is_stream_cases _ Hst) as [->| ->]. }
  split_and!.
  - by rewrite lookup_insert_ne.
  - intros st Hs. unfold size_of. rewrite lookup_insert_ne; [|done].
    by destruct (is_stream_cases _ Hs) as [->| ->].
Qed.

Lemma keeps_create files stream : is_stream stream = true → keeps_logs files (<[stream := default [] (files !! stream)]> files).
Proof.
  intros Hst. assert (stream ≠ "metadata.json") as N1.
  { by destruct (is_stream_cases _ Hst) as [->| ->]. }
  split_and!.
  - by rewrite lookup_insert_ne.
  - intros st Hs. unfold size_of. destruct (decide (stream = st)) as [->|Hne]; [rewrite lookup_insert_eq|by rewrite lookup_insert_ne].
    split; [done|]. by intros content ->.
Qed.

(** ** Reservations *)

Lemma i64_small x : - 2 ^ 63 ≤ x < 2 ^ 63 → i64 x = x.
Proof. intros Hx. unfold i64. rewrite Z.mod_small; lia. Qed.

Lemma sum_reserved_exact s io l acc v : sum_reserved io l acc = Ok v → store_ok s →
  (∀ name c files, (name, Folder c files) ∈ l → folder_ok s c files) →
  0 ≤ acc → acc + foldr (fun kv n => charge_of kv.2 + n) 0 l < 2 ^ 63 →
  v = acc + foldr (fun kv n => charge_of kv.2 + n) 0 l ∧
  ∀ name c files, (name, Folder c files) ∈ l → ∃ data m, files !! "metadata.json" = Some data ∧ metadata_of data = Some m.
Proof.
  intros Hsum [Hs1 Hs2]. revert acc Hsum. induction l as [|[name [|c files]] l IH]; intros acc Hsum Hl H0 Hb; cbn [foldr charge_of snd] in *.
  - injection Hsum as <-. split; [lia|]. intros ? ? ? []%not_elem_of_nil.
  - destruct (IH acc Hsum) as [-> Hm]; [|done|lia|].
    + intros n c f Hin. apply (Hl n). by right.
    + split; [lia|]. intros n c f [Heq|Hin]%elem_of_cons; [done|by apply (Hm n c)].
  - cbn [sum_reserved] in Hsum. unfold readMetadata in Hsum. destruct (io_read io name); [done|].
    destruct (files !! "metadata.json") as [data|] eqn:Hd; [|done]. destruct (metadata_of data) as [m|] eqn:Hm; [|done].
    destruct (Hl name c files) as [Hc Hmeta _]; [by left|]. rewrite (Hmeta data m Hd Hm) -Hc in Hsum.
    assert (0 ≤ foldr (fun kv n => charge_of kv.2 + n) 0 l) as Hpos.
    { clear -Hl Hs1. induction l as [|[n [|c0 f0]] l IH]; cbn; [lia| |].
      - apply IH. intros n0 c1 f1 Hin. apply (Hl n0). set_solver.
      - destruct (Hl n c0 f0) as [-> _ _]; [set_solver|]. assert (0 ≤ foldr (fun kv n => charge_of kv.2 + n) 0 l); [|lia].
        apply IH. intros n0 c1 f1 Hin. apply (Hl n0). set_solver. }
    rewrite i64_small in Hsum; [lia|]. destruct (IH (acc + c) Hsum) as [-> Hm']; [|lia|lia|].
    + intros n c0 f Hin. apply (Hl n). by right.
    + split; [lia|]. intros n c0 f [[= -> -> ->]|Hin]%elem_of_cons; [by exists data, m|by apply (Hm' n c0)].
Qed.

Lemma new_folder_ok s id n : store_ok s → folder_ok s (2 * ls_streamBytes s) (<["metadata.json" := take n (metadata_json (mkMetadata id (ls_streamBytes s)))]> ∅).
Proof.
  intros [Hs _]. split; [done| |].
  - intros data m. rewrite lookup_insert_eq. intros [= <-] Hm. by apply (metadata_written (mkMetadata id (ls_streamBytes s)) n).
  - intros stream Hst. unfold size_of. rewrite lookup_insert_ne; first by destruct (is_stream_cases _ Hst) as [->| ->]. rewrite lookup_empty. unfold zlen. cbn. lia.
Qed.

Lemma empty_folder_ok s : store_ok s → folder_ok s (2 * ls_streamBytes s) ∅.
Proof. intros [Hs _]. split; [done|done|]. intros stream _. unfold size_of. rewrite lookup_empty. unfold zlen. cbn. lia. Qed.

(** A new folder where there was none. *)
Lemma inv_new_folder s w dir files : logs_inv s w → lw_root w !! dir = None → folder_ok s (2 * ls_streamBytes s) files →
  msum charge_of (lw_root w) ≤ ls_totalBytes s - 2 * ls_streamBytes s →
  logs_inv s (mkWorld (<[dir := Folder (2 * ls_streamBytes s) files]> (lw_root w)) (lw_pumps w)).
Proof.
  intros Hi Hn Hf Hb. apply inv_same; [done| | |].
  - rewrite msum_insert_None //. cbn. lia.
  - intros dir' c files' [[<- [= <- <-]]|[_ Hr]]%lookup_insert_Some; [done|]. by apply (li_folder s w Hi dir').
  - intros i p Hp c files' content Hr Hc. exists files'. rewrite lookup_insert_ne //. congruence.
Qed.

Lemma msum_list (r : root) : msum charge_of r = foldr (fun kv n => charge_of kv.2 + n) 0 (map_to_list r).
Proof. unfold msum. rewrite map_fold_foldr. induction (map_to_list r) as [|[k v] l IH]; [done|]. cbn. by rewrite IH. Qed.

Lemma inv_reserve s w io id : store_ok s → logs_inv s w → logs_inv s (mkWorld (Reserve s io id (lw_root w)).2 (lw_pumps w)).
Proof.
  intros Hs Hi. assert (logs_inv s (mkWorld (lw_root w) (lw_pumps w))) as Hsame by (by destruct w).
  unfold Reserve. destruct (readMetadata (io_own io) (lw_root w !! directory id)) as [m|e] eqn:Hm; [done|].
  destruct e; try done. destruct (io_readdir io); [done|]. destruct (sum_reserved io (map_to_list (lw_root w)) 0) as [v|e] eqn:Hsum; [|done].
  destruct (Z.ltb_spec (ls_totalBytes s - 2 * ls_streamBytes s) v) as [_|Hv]; [done|].
  pose proof (li_charge s w Hi) as Hc. destruct (sum_reserved_exact s io _ 0 v Hsum Hs) as [Hv' Hall]; [|done| |].
  { intros name c files Hin%elem_of_map_to_list. by apply (li_folder s w Hi name). }
  { rewrite -msum_list. destruct Hs. lia. }
  rewrite -msum_list Z.add_0_l in Hv'. subst v.
  assert (lw_root w !! directory id = None) as Hnone.
  { unfold readMetadata in Hm. destruct (io_own io); [done|]. destruct (lw_root w !! directory id) as [[|c files]|] eqn:Hr; [done| |done].
    destruct (Hall (directory id) c files) as (data & m & Hd & Hmd); [by apply elem_of_map_to_list|]. by rewrite Hd Hmd in Hm. }
  unfold create_reservation. rewrite Hnone. destruct (io_mkdir io); [done|]. rewrite lookup_empty. destruct (io_create io).
  - apply inv_new_folder; [done|done|by apply empty_folder_ok|lia].
  - cbn [snd]. apply inv_new_folder; [done|done| |lia]. destruct (io_write io) as [n|]; [by apply new_folder_ok|].
    rewrite -(firstn_all (metadata_json _)). by apply new_folder_ok.
Qed.

(** ** Removals *)

(** Entries and files go away, nothing else happens. *)
Definition shrinks (r r' : root) : Prop :=
  ∀ dir c files', r' !! dir = Some (Folder c files') → ∃ files, r !! dir = Some (Folder c files) ∧ files' ⊆ files.

Lemma folder_ok_shrink s c files files' : store_ok s → folder_ok s c files → files' ⊆ files → folder_ok s c files'.
Proof.
  intros [Hs _] [Hc Hm Hz] Hsub. split; [done| |].
  - intros data m Hd. apply Hm. exact (lookup_weaken _ _ _ _ Hd Hsub).
  - intros stream Hst. unfold size_of. destruct (files' !! stream) as [b|] eqn:Hb.
    + specialize (Hz stream Hst). unfold size_of in Hz. by rewrite (lookup_weaken _ _ _ _ Hb Hsub) in Hz.
    + unfold zlen. cbn. lia.
Qed.

Lemma detach_same r r' p : pu_dir (detach r r' p) = pu_dir p ∧ pu_stream (detach r r' p) = pu_stream p ∧ active (detach r r' p) = active p.
Proof. unfold detach. destruct (pu_unlinked p); [done|]. by destruct (file_at r' _ _). Qed.

Lemma inv_shrink s w r' : store_ok s → logs_inv s w → shrinks (lw_root w) r' → msum charge_of r' ≤ ls_totalBytes s →
  logs_inv s (mkWorld r' (detach (lw_root w) r' <$> lw_pumps w)).
Proof.
  intros Hs [] Hr Hc. split; cbn; [done| | |].
  - intros dir c files' Hd. destruct (Hr dir c files' Hd) as (files & Hf & Hsub). apply (folder_ok_shrink s c files); [done|by apply (li_folder0 dir)|done].
  - intros i p' (p & -> & Hp)%list_lookup_fmap_Some. destruct (li_pump0 i p Hp) as [Hst Hok]. unfold detach. destruct (pu_unlinked p) as [d|] eqn:Hu.
    + split; [done|]. by rewrite Hu.
    + destruct (file_at r' (pu_dir p) (pu_stream p)) as [content|] eqn:Hf; [|by split]. split; [done|]. intros _.
      unfold file_at in Hf. destruct (r' !! pu_dir p) as [[|c files']|] eqn:Hd; [done| |done]. destruct (Hr _ c files' Hd) as (files & Hfs & Hsub).
      destruct (Hok eq_refl) as (c0 & files0 & content0 & Hd0 & Hf0 & Hrest). assert (c0 = c ∧ files0 = files) as [-> ->] by (split; congruence).
      assert (content0 = content) as ->. { pose proof (lookup_weaken _ _ _ _ Hf Hsub). congruence. } by exists c, files', content.
  - intros i j p' q' (p & -> & Hp)%list_lookup_fmap_Some (q & -> & Hq)%list_lookup_fmap_Some.
    destruct (detach_same (lw_root w) r' p) as (-> & -> & ->). destruct (detach_same (lw_root w) r' q) as (-> & -> & ->). by apply li_single0.
Qed.

Lemma msum_charge_delete s w dir : store_ok s → logs_inv s w → msum charge_of (delete dir (lw_root w)) ≤ msum charge_of (lw_root w).
Proof.
  intros [Hs _] Hi. rewrite msum_delete_any. destruct (lw_root w !! dir) as [[|c files]|] eqn:Hd; cbn; try lia.
  destruct (li_folder s w Hi dir c files Hd) as [-> _ _]. lia.
Qed.

Lemma inv_remove s w late failing id : store_ok s → logs_inv s w →
  let r' := (Remove late failing id (lw_root w)).2 in logs_inv s (mkWorld r' (detach (lw_root w) r' <$> lw_pumps w)).
Proof.
  intros Hs Hi. assert (shrinks (lw_root w) (lw_root w)) as Href by (intros dir c files Hd; by exists files). pose proof (li_charge s w Hi) as Hc.
  unfold Remove. destruct late; [by apply inv_shrink|]. unfold RemoveAll.
  destruct failing as [keep|]; [destruct (lw_root w !! directory id) as [[|c files]|] eqn:Hd|]; cbn [snd]; try (by apply inv_shrink).
  - apply inv_shrink; [done..| |].
    + intros dir c' files' [[<- [= <- <-]]|[_ Hr]]%lookup_insert_Some; [|by exists files']. exists files. split; [done|]. apply map_filter_subseteq.
    + rewrite msum_insert Hd. cbn. lia.
  - apply inv_shrink; [done..| |].
    + intros dir c files [_ Hr]%lookup_delete_Some. by exists files.
    + pose proof (msum_charge_delete s w (directory id) Hs Hi). lia.
Qed.

(** ** Copying *)

Lemma inv_add s w p : logs_inv s w → pump_ok s (lw_root w) p →
  (∀ j q, lw_pumps w !! j = Some q → active q = true → pu_dir q = pu_dir p → pu_stream q = pu_stream p → False) →
  logs_inv s (mkWorld (lw_root w) (lw_pumps w ++ [p])).
Proof.
  intros [] Hp Hn. split; cbn; [done|done| |].
  - intros i q [Hq|[_ Hq]]%lookup_app_Some; [by apply (li_pump0 i)|]. by apply list_lookup_singleton_Some in Hq as [_ <-].
  - intros i j q q' [Hq|[Hi Hq]]%lookup_app_Some [Hq'|[Hj Hq']]%lookup_app_Some A A' D S.
    + by apply (li_single0 i j q q').
    + apply list_lookup_singleton_Some in Hq' as [_ <-]. by destruct (Hn i q).
    + apply list_lookup_singleton_Some in Hq as [_ <-]. by destruct (Hn j q').
    + apply list_lookup_singleton_Some in Hq as [? <-]. apply list_lookup_singleton_Some in Hq' as [? <-]. lia.
Qed.

(** One goroutine moves on, the directory stays. *)
Lemma inv_update s w i p p' : logs_inv s w → lw_pumps w !! i = Some p → pu_dir p' = pu_dir p → pu_stream p' = pu_stream p →
  (active p' = true → active p = true) → pump_ok s (lw_root w) p' → logs_inv s (mkWorld (lw_root w) (<[i := p']> (lw_pumps w))).
Proof.
  intros [] Hp Hd Hs Ha Hok. split; cbn; [done|done| |].
  - intros j q [(<- & <- & _)|[_ Hq]]%list_lookup_insert_Some; [done|by apply (li_pump0 j)].
  - intros j k q q' [(<- & <- & _)|[Hj Hq]]%list_lookup_insert_Some [(<- & <- & _)|[Hk Hq']]%list_lookup_insert_Some A A' D S; [done| | |by apply (li_single0 j k q q')].
    + by apply (li_single0 i k p q'); auto; congruence.
    + by apply (li_single0 j i q p); auto; congruence.
Qed.

Lemma on_file_folder f dir name r : on_file f dir name r = at_folder (alter f name) dir r.
Proof. done. Qed.

Lemma size_alter files data stream name : size_of (alter (fun old => old ++ data) stream files) name =
  if decide (name = stream) then match files !! stream with Some _ => size_of files name + zlen data | None => size_of files name end else size_of files name.
Proof.
  unfold size_of. case_decide as Hd; [subst name; rewrite lookup_alter_eq; destruct (files !! stream); cbn; [|done]; unfold zlen; rewrite length_app; lia|].
  rewrite lookup_alter_ne //. congruence.
Qed.

(** A goroutine appends to its file in the directory and moves on. *)
Lemma inv_append s w i p p' data c files content : logs_inv s w → lw_pumps w !! i = Some p → active p = true → pu_unlinked p = None →
  lw_root w !! pu_dir p = Some (Folder c files) → files !! pu_stream p = Some content → zlen content + zlen data ≤ ls_streamBytes s →
  pu_dir p' = pu_dir p → pu_stream p' = pu_stream p → pu_unlinked p' = None → pu_limit p' = pu_limit p → pump_phase p' (content ++ data) →
  logs_inv s (mkWorld (on_file (fun old => old ++ data) (pu_dir p) (pu_stream p) (lw_root w)) (<[i := p']> (lw_pumps w))).
Proof.
  intros [] Hp Ha Hu Hr Hf Hz Hd' Hs' Hu' Hl' Hph. rewrite on_file_folder. destruct (li_pump0 i p Hp) as [Hst Hok].
  split; cbn; [by rewrite at_folder_charge| | |].
  - intros dir c' files' (files0 & Hr0 & [[-> ->]|[_ ->]])%at_folder_lookup; [|by apply (li_folder0 dir)]. assert (c' = c ∧ files0 = files) as [-> ->] by (split; congruence).
    destruct (li_folder0 _ c files Hr) as [Hc Hm Hsz]. split; [done| |].
    + rewrite lookup_alter_ne; [by destruct (is_stream_cases _ Hst) as [->| ->]|done].
    + intros st Hst'. rewrite size_alter Hf. specialize (Hsz st Hst'). case_decide as He; [|done]. subst st. unfold size_of in *. rewrite Hf in Hsz |- *. cbn in *. lia.
  - intros j q [(<- & <- & _)|[Hj Hq]]%list_lookup_insert_Some.
    + split; [congruence|]. intros _. exists c, (alter (fun old => old ++ data) (pu_stream p) files), (content ++ data). rewrite Hd' Hs' Hl'.
      split_and!; [by apply at_folder_there|by rewrite lookup_alter_eq Hf| |done]. by destruct (Hok Hu) as (? & ? & ? & _ & _ & ? & _).
    + destruct (li_pump0 j q Hq) as [Hstq Hokq]. destruct (decide (pu_dir q = pu_dir p ∧ pu_stream q = pu_stream p)) as [[E1 E2]|Hne].
      * split; [done|]. intros Huq. destruct (Hokq Huq) as (c0 & f0 & ct0 & H1 & H2 & H3 & H4).
        rewrite E1 E2 in H1 H2 |- *. assert (c0 = c ∧ f0 = files) as [-> ->] by (split; congruence). assert (ct0 = content) as -> by congruence.
        exists c, (alter (fun old => old ++ data) (pu_stream p) files), (content ++ data). split_and!; [by apply at_folder_there|by rewrite lookup_alter_eq Hf|done|].
        unfold pump_phase in *. destruct (pu_state q) as [|rem tr|[e|]] eqn:Hq0; try done.
        -- destruct (li_single0 i j p q Hp Hq Ha); [by unfold active; rewrite Hq0|done..].
        -- destruct H4 as [H4 H5]. split; [done|]. by apply prefix_app_r.
      * apply (pump_ok_same s (lw_root w)); [done|]. intros c0 f0 ct0 H1 H2. destruct (decide (pu_dir q = pu_dir p)) as [E1|E1].
        -- exists (alter (fun old => old ++ data) (pu_stream p) f0). rewrite E1 in H1 |- *. split; [by apply at_folder_there|]. rewrite lookup_alter_ne //. intros E2. apply Hne. split; congruence.
        -- exists f0. by rewrite at_folder_other.
  - intros j k q q' [(<- & <- & _)|[Hj Hq]]%list_lookup_insert_Some [(<- & <- & _)|[Hk Hq']]%list_lookup_insert_Some A A' D S; [done| | |by apply (li_single0 j k q q')].
    + by apply (li_single0 i k p q'); auto; congruence.
    + by apply (li_single0 j i q p); auto; congruence.
Qed.

Lemma inv_stat s w i p fails : logs_inv s w → lw_pumps w !! i = Some p → pu_state p = Opened →
  logs_inv s (mkWorld (lw_root w) (<[i := stat_pump fails (lw_root w) p]> (lw_pumps w))).
Proof.
  intros Hi Hp Hst. assert (active p = true) as Ha by (unfold active; by rewrite Hst). destruct (li_pump s w Hi i p Hp) as [Hs Hok].
  apply (inv_update s w i p); [done|done|by destruct fails|by destruct fails|done|]. unfold stat_pump. destruct fails; (split; [done|]); intros Hu; cbn in Hu;
    destruct (Hok Hu) as (c & files & content & Hr & Hf & Hl & _); exists c, files, content; (split_and!; [done..|]); [done|].
  assert (pump_content (lw_root w) p = content) as ->. { unfold pump_content, file_at. by rewrite Hu Hr Hf. }
  destruct (li_folder s w Hi _ c files Hr) as [_ _ Hz]. specialize (Hz _ Hs). unfold size_of in Hz. rewrite Hf in Hz. cbn in Hz.
  cbn. unfold copied, overflowed. cbn. rewrite firstn_nil app_nil_r. split_and!; [lia|done|unfold zlen; cbn; lia|]. symmetry. apply bool_decide_eq_false. unfold zlen in *. cbn. lia.
Qed.

(** The books of a goroutine after it has copied [data]. *)
Lemma phase_advance p data remaining truncated content : pump_phase p content → pu_state p = Copying remaining truncated →
  let keep := Z.min (zlen data) remaining in
  let p' := set_pump p (pu_state p) (pu_got p ++ data) in
  0 ≤ remaining ∧ zlen content + remaining ≤ pu_limit p ∧ zlen (pu_start p) ≤ pu_limit p ∧
  copied p' = content ++ take (Z.to_nat keep) data ∧
  remaining - keep = Z.max 0 (pu_limit p - zlen (pu_start p) - zlen (pu_got p ++ data)) ∧
  (if (keep <? zlen data) && negb truncated then true else truncated) = overflowed p'.
Proof.
  intros Hph Hst keep p'. unfold pump_phase in Hph. rewrite Hst in Hph. destruct Hph as (H1 & H2 & H3 & H4).
  assert (zlen content = zlen (pu_start p) + Z.min (pu_limit p - zlen (pu_start p)) (zlen (pu_got p))) as Hc.
  { rewrite H2. unfold copied, zlen. rewrite length_app length_take. unfold zlen in *. lia. }
  assert (zlen (pu_got p ++ data) = zlen (pu_got p) + zlen data) as Hz by (unfold zlen; rewrite length_app; lia).
  pose proof (Zle_0_nat (length data)). pose proof (Zle_0_nat (length (pu_got p))). fold (zlen data) in *. fold (zlen (pu_got p)) in *.
  split_and!; [lia|lia|lia| |lia|].
  - rewrite H2. unfold copied, p'. cbn. rewrite take_app -app_assoc. f_equal. f_equal. unfold zlen in *.
    destruct (decide (length data ≤ Z.to_nat keep)%nat) as [Hle|Hle]; [rewrite !take_ge //; lia|]. f_equal. lia.
  - rewrite H4. unfold overflowed, p'. cbn [pu_limit pu_start pu_got set_pump]. rewrite Hz.
    destruct (Z.ltb_spec keep (zlen data)); repeat case_bool_decide; cbn; try done; lia.
Qed.

Lemma end_turn_same t remaining truncated p : pu_dir (end_turn t remaining truncated p) = pu_dir p ∧ pu_stream (end_turn t remaining truncated p) = pu_stream p ∧
  pu_unlinked (end_turn t remaining truncated p) = pu_unlinked p ∧ pu_limit (end_turn t remaining truncated p) = pu_limit p.
Proof. unfold end_turn. by destruct (tn_end t) as [[]|]. Qed.

Lemma end_turn_phase t remaining truncated p content : zlen (pu_start p) ≤ pu_limit p →
  content = copied (set_pump p (pu_state p) (pu_got p ++ tn_data t)) →
  remaining = Z.max 0 (pu_limit p - zlen (pu_start p) - zlen (pu_got p ++ tn_data t)) →
  truncated = overflowed (set_pump p (pu_state p) (pu_got p ++ tn_data t)) → pump_phase (end_turn t remaining truncated p) content.
Proof.
  intros H1 H2 H3 H4. unfold end_turn, pump_phase. destruct (tn_end t) as [[]|]; cbn; [|done|by split_and!].
  destruct (tn_sync t); [done|]. split; [done|]. by rewrite H2.
Qed.

Lemma write_marker_folder p r : write_marker p r = at_folder (fun files => <[marker (pu_stream p) := [x01]]> files) (pu_dir p) r.
Proof. done. Qed.

(** A goroutine writes [data], or nothing, and moves on to [p']. *)
Lemma inv_wrote s w i p data p1 r1 p' : logs_inv s w → lw_pumps w !! i = Some p → active p = true →
  (append_pump data p (lw_root w) = (p1, r1) ∨ data = [] ∧ (p1, r1) = (p, lw_root w)) →
  pu_dir p' = pu_dir p1 → pu_stream p' = pu_stream p1 → pu_unlinked p' = pu_unlinked p1 → pu_limit p' = pu_limit p1 →
  (∀ content, pu_unlinked p = None → pump_phase p content → zlen content + zlen data ≤ pu_limit p ∧ pump_phase p' (content ++ data)) →
  logs_inv s (mkWorld r1 (<[i := p']> (lw_pumps w))).
Proof.
  intros Hi Hp Ha Hw Hd Hs Hu Hl Hph. destruct (li_pump s w Hi i p Hp) as [Hst Hok].
  assert (pu_dir p1 = pu_dir p ∧ pu_stream p1 = pu_stream p ∧ pu_limit p1 = pu_limit p ∧ (pu_unlinked p = None → pu_unlinked p1 = None) ∧
    (pu_unlinked p ≠ None → pu_unlinked p1 ≠ None)) as (D1 & S1 & L1 & U1 & U2).
  { destruct Hw as [Hw|[_ Hw]]; [|by injection Hw as -> ->]. unfold append_pump in Hw. destruct (pu_unlinked p) eqn:Hup; injection Hw as <- <-; by rewrite ?Hup. }
  destruct (pu_unlinked p) as [old|] eqn:Hup.
  - assert (r1 = lw_root w) as ->. { destruct Hw as [Hw|[_ Hw]]; [|by injection Hw as -> ->]. unfold append_pump in Hw. rewrite Hup in Hw. by injection Hw as <- <-. }
    apply (inv_update s w i p); [done|done|congruence|congruence|done|]. split; [congruence|]. intros H0. exfalso. apply U2; [done|congruence].
  - destruct (Hok eq_refl) as (c & files & content & Hr & Hf & Hlim & Hphase). destruct (Hph content eq_refl Hphase) as [Hz Hnew].
    destruct Hw as [Hw|[-> Hw]].
    + unfold append_pump in Hw. rewrite Hup in Hw. injection Hw as <- <-. apply (inv_append s w i p p' data c files content); try done; [lia|]. by rewrite Hu.
    + injection Hw as -> ->. rewrite app_nil_r in Hnew. apply (inv_update s w i p); [done|done|congruence|congruence|done|]. split; [congruence|]. intros _.
      exists c, files, content. rewrite Hd Hs Hl. by split_and!.
Qed.

Lemma zlen_take k {A} (l : list A) : zlen (take k l) ≤ Z.of_nat k.
Proof. unfold zlen. rewrite length_take. lia. Qed.

Lemma inv_copy s w i p t remaining truncated : logs_inv s w → lw_pumps w !! i = Some p → pu_state p = Copying remaining truncated →
  logs_inv s (mkWorld (copy_turn t remaining truncated p (lw_root w)).2 (<[i := (copy_turn t remaining truncated p (lw_root w)).1]> (lw_pumps w))).
Proof.
  intros Hi Hp Hst. assert (active p = true) as Ha by (unfold active; by rewrite Hst). destruct (li_pump s w Hi i p Hp) as [Hs _].
  unfold copy_turn. set (n := zlen (tn_data t)). set (keep := Z.min n remaining). set (kept := take (Z.to_nat keep) (tn_data t)).
  assert (∀ content, pump_phase p content → zlen content + zlen kept ≤ pu_limit p) as Hroom.
  { intros content Hph. destruct (phase_advance p (tn_data t) remaining truncated content Hph Hst) as (A1 & A2 & _). pose proof (zlen_take (Z.to_nat keep) (tn_data t)) as Hk. fold kept in Hk.
    assert (keep ≤ remaining) by (unfold keep; lia). lia. }
  destruct (if 0 <? keep then tn_write t else None) as [written|].
  { destruct (append_pump (take written kept) p (lw_root w)) as [p1 r1] eqn:Hw. cbn [fst snd].
    apply (inv_wrote s w i p (take written kept) p1 r1); [done..|by left|done|done|done|done|]. intros content _ Hph. split; [|done].
    specialize (Hroom content Hph). unfold zlen in *. rewrite length_take. lia. }
  set (data := if 0 <? keep then kept else []).
  destruct (if 0 <? keep then append_pump kept p (lw_root w) else (p, lw_root w)) as [p1 r1] eqn:Hw.
  assert (append_pump data p (lw_root w) = (p1, r1) ∨ data = [] ∧ (p1, r1) = (p, lw_root w)) as Hw' by (unfold data; destruct (0 <? keep); auto).
  assert (pu_start p1 = pu_start p ∧ pu_got p1 = pu_got p ∧ pu_limit p1 = pu_limit p) as (P1 & P2 & P3).
  { destruct (0 <? keep); [|by injection Hw as <- <-]. unfold append_pump in Hw. destruct (pu_unlinked p); by injection Hw as <- <-. }
  assert (∀ tr, tr = (if (keep <? n) && negb truncated then true else truncated) →
    logs_inv s (mkWorld r1 (<[i := end_turn t (if 0 <? keep then remaining - keep else remaining) tr p1]> (lw_pumps w)))) as Hend.
  { intros tr Htr. destruct (end_turn_same t (if 0 <? keep then remaining - keep else remaining) tr p1) as (E1 & E2 & E3 & E4).
    apply (inv_wrote s w i p data p1 r1); [done..|]. intros content _ Hph.
    destruct (phase_advance p (tn_data t) remaining truncated content Hph Hst) as (A1 & A2 & A3 & A4 & A5 & A6).
    assert (data = take (Z.to_nat keep) (tn_data t)) as Hdata. { unfold data. destruct (Z.ltb_spec 0 keep); [done|]. by assert (Z.to_nat keep = 0%nat) as -> by lia. }
    assert ((if 0 <? keep then remaining - keep else remaining) = remaining - keep) as ->. { unfold keep in *. destruct (Z.ltb_spec 0 (Z.min n remaining)); unfold n, zlen in *; lia. }
    rewrite Hdata. split; [by apply Hroom|]. apply end_turn_phase; rewrite ?P1 ?P2 ?P3; [done| |done|].
    - rewrite -A4. unfold copied. cbn. by rewrite P1 P3.
    - rewrite Htr A6. unfold overflowed. cbn. by rewrite P1 P3. }
  assert (∀ e, logs_inv s (mkWorld r1 (<[i := set_pump p1 (Finished (Some e)) (pu_got p)]> (lw_pumps w)))) as Hfail.
  { intros e. apply (inv_wrote s w i p data p1 r1); [done..|]. intros content _ Hph. split; [|done]. specialize (Hroom content Hph).
    unfold data. destruct (0 <? keep); [done|]. unfold zlen in *. cbn. lia. }
  assert (∀ q, logs_inv s (mkWorld r1 (<[i := q]> (lw_pumps w))) → logs_inv s (mkWorld (write_marker p r1) (<[i := q]> (lw_pumps w)))) as Hmark.
  { intros q Hq. rewrite write_marker_folder. apply (inv_at_folder s (mkWorld r1 (<[i := q]> (lw_pumps w)))); [done|]. intros files. by apply keeps_marker. }
  destruct ((keep <? n) && negb truncated) eqn:Hov; [|by apply Hend].
  destruct (tn_marker t) as [[]|]; destruct (folder_there r1 (pu_dir p)); cbn [fst snd]; auto.
Qed.

Lemma create_file_folder dir name r : create_file dir name r = at_folder (fun files => <[name := default [] (files !! name)]> files) dir r.
Proof. done. Qed.

Lemma inv_create s w dir stream : logs_inv s w → is_stream stream = true → logs_inv s (mkWorld (create_file dir stream (lw_root w)) (lw_pumps w)).
Proof. intros Hi Hst. rewrite create_file_folder. apply inv_at_folder; [done|]. intros files. by apply keeps_create. Qed.

Lemma inv_capture s w io dir limit : logs_inv s w → (∀ j q, lw_pumps w !! j = Some q → active q = true → pu_dir q ≠ dir) →
  logs_inv s (mkWorld (open_capture io dir limit (lw_root w)).2 (lw_pumps w ++ match (open_capture io dir limit (lw_root w)).1 with Ok ps => ps | Err _ => [] end)).
Proof.
  intros Hi Hn. unfold open_capture. destruct (readMetadata (cf_own io) (lw_root w !! dir)) as [m|e] eqn:Hm; [|cbn; rewrite app_nil_r; by destruct w].
  unfold readMetadata in Hm. destruct (cf_own io); [done|]. destruct (lw_root w !! dir) as [[|c files]|] eqn:Hr; [done| |done].
  destruct (files !! "metadata.json") as [data|] eqn:Hd; [|done]. destruct (metadata_of data) as [m0|] eqn:Hmd; [|done]. injection Hm as <-.
  destruct (li_folder s w Hi dir c files Hr) as [_ Hlim _]. specialize (Hlim data m0 Hd Hmd).
  destruct (Z.eqb_spec (md_Limit m0) limit) as [<-|_]; cbn [negb]; [|cbn; rewrite app_nil_r; by destruct w].
  destruct (cf_stdout io); [cbn; rewrite app_nil_r; by destruct w|].
  pose proof (inv_create s w dir "stdout" Hi eq_refl) as Hi1. destruct (cf_stderr io); [cbn; by rewrite app_nil_r|].
  pose proof (inv_create s _ dir "stderr" Hi1 eq_refl) as Hi2. cbn [lw_root lw_pumps] in Hi2. destruct (cf_ready io); [cbn; by rewrite app_nil_r|].
  cbn [fst snd]. set (r2 := create_file dir "stderr" _) in *.
  assert (∃ files2 a b, r2 !! dir = Some (Folder c files2) ∧ files2 !! "stdout" = Some a ∧ files2 !! "stderr" = Some b) as (files2 & a & b & H2 & Ha & Hb).
  { unfold r2. rewrite !create_file_folder. do 3 eexists. split; [apply at_folder_there, at_folder_there; exact Hr|].
    rewrite lookup_insert_ne //. rewrite !lookup_insert_eq. done. }
  change [?p; ?q] with ([p] ++ [q]). rewrite app_assoc.
  apply (inv_add s (mkWorld r2 (lw_pumps w ++ [_]))); [apply (inv_add s (mkWorld r2 (lw_pumps w))); [done| |]| |].
  - split; [done|]. intros _. cbn. by exists c, files2, a.
  - intros j q Hq A D _. by apply (Hn j q).
  - split; [done|]. intros _. cbn. by exists c, files2, b.
  - cbn. intros j q [Hq|[_ Hq]]%lookup_app_Some A D S; [by apply (Hn j q)|]. apply list_lookup_singleton_Some in Hq as [_ <-]. done.
Qed.

Lemma inv_lstep s l w w' : store_ok s → logs_inv s w → lstep s l w = Some w' → logs_inv s w'.
Proof.
  intros Hs Hi. destruct l as [io id|late failing id|io dir limit|i fails|i t]; cbn.
  - intros [= <-]. by apply inv_reserve.
  - intros [= <-]. by apply inv_remove.
  - destruct (existsb _ (lw_pumps w)) eqn:He; [done|]. destruct (open_capture io dir limit (lw_root w)) as [res r'] eqn:Ho. intros [= <-].
    pose proof (inv_capture s w io dir limit Hi) as Hc. rewrite Ho in Hc. apply Hc. intros j q Hq Ha Hd. apply not_true_iff_false in He. apply He.
    apply existsb_exists. exists q. split; [apply list_elem_of_In; exact (list_elem_of_lookup_2 _ _ _ Hq)|]. by rewrite bool_decide_eq_true_2.
  - intros (p & Hp & Hs')%bind_Some. destruct (pu_state p) eqn:Hst; [|done..]. injection Hs' as <-. by apply inv_stat.
  - intros (p & Hp & Hs')%bind_Some. destruct (pu_state p) as [|rem tr|] eqn:Hst; [done| |done]. destruct (bufferSize <? zlen (tn_data t)); [done|].
    pose proof (inv_copy s w i p t rem tr Hi Hp Hst) as Hc. destruct (copy_turn t rem tr p (lw_root w)) as [p' r']. by injection Hs' as <-.
Qed.

Lemma logs_inv_new s : store_ok s → logs_inv s (mkWorld ∅ []).
Proof. intros [H1 H2]. split; cbn; [rewrite msum_empty; lia|done..]. Qed.

Lemma inv_lruns s w : store_ok s → lruns s (mkWorld ∅ []) w → logs_inv s w.
Proof.
  intros Hs Hr. assert (∀ w0, logs_inv s w0 → lruns s w0 w → logs_inv s w) as Hgen; [|apply (Hgen _ (logs_inv_new s Hs) Hr)].
  clear Hr. intros w0 Hi Hr. induction Hr as [|w1 w2 w3 [l Hl] _ IH]; [done|]. apply IH. exact (inv_lstep s l w1 w2 Hs Hi Hl).
Qed.

(** ** Claims *)

(** C26 The logs never outgrow their budget: whatever calls of the operating
    system fail or are cut short, and however reservations, removals and the
    copying processes interleave, the files of the directory hold at most
    totalBytes of log data, and each of them at most streamBytes. *)
Theorem log_budget s w path (stream total : Z) : New path stream total false = Ok s → total < 2 ^ 63 → lruns s (mkWorld ∅ []) w →
  msum log_bytes (lw_root w) ≤ total ∧
  ∀ dir c files name, lw_root w !! dir = Some (Folder c files) → is_stream name = true → size_of files name ≤ stream.
Proof.
  intros Hnew Ht Hr. assert (store_ok s ∧ ls_totalBytes s = total ∧ ls_streamBytes s = stream) as (Hs & <- & <-).
  { unfold New in Hnew. destruct (_ || _) eqn:Hb; [done|]. injection Hnew as <-. cbn. apply orb_false_elim in Hb as [[[_ ?]%orb_false_elim ?]%orb_false_elim ?].
    unfold store_ok. cbn. lia. }
  pose proof (inv_lruns s w Hs Hr) as Hi. split.
  - etrans; [|exact (li_charge s w Hi)]. apply msum_le. intros dir [|c files] Hd; [done|]. destruct (li_folder s w Hi dir c files Hd) as [-> _ Hz].
    pose proof (Hz "stdout" eq_refl). pose proof (Hz "stderr" eq_refl). cbn. lia.
  - intros dir c files name Hd Hn. destruct (li_folder s w Hi dir c files Hd) as [_ _ Hz]. by apply Hz.
Qed.

(** ** From the container to the reader *)

Definition no_faults : faults := mkFaults false false (fun _ => false) false false None false.
Definition no_read_faults : read_faults := mkReadFaults false false false false false.
Definition more (data : bytes) : turn := mkTurn data None None None false.
Definition end_of_output : turn := mkTurn [] (Some true) None None false.

Fixpoint run_log (s : Store) (ls : list label) (w : world) : option world :=
  match ls with [] => Some w | l :: ls' => w' ← lstep s l w; run_log s ls' w' end.

Lemma run_log_app s ls ls' w : run_log s (ls ++ ls') w = run_log s ls w ≫= run_log s ls'.
Proof. revert w. induction ls as [|l ls IH]; intros w; [done|]. cbn. destruct (lstep s l w); [apply IH|done]. Qed.

(** A reader that asks for [limit] bytes at a time until the end. *)
Fixpoint read_pages (fuel : nat) (id stream : string) (offset limit : Z) (r : root) : lresult (bytes * bool) :=
  match fuel with
  | O => Err ErrLogContext
  | S f =>
    match Read false no_read_faults id stream offset limit r with
    | Err e => Err e
    | Ok c =>
      if lc_EOF c then Ok (lc_Data c, lc_Truncated c)
      else match read_pages f id stream (lc_NextOffset c) limit r with Ok (rest, t) => Ok (lc_Data c ++ rest, t) | Err e => Err e end
    end
  end.

Definition marked (files : gmap string bytes) (stream : string) : bool := bool_decide (is_Some (files !! marker stream)).

(** The log of [id] as the directory holds it. *)
Definition holds_log (r : root) (id stream : string) (content : bytes) (truncated : bool) : Prop :=
  ∃ c files data m, r !! directory id = Some (Folder c files) ∧ files !! "metadata.json" = Some data ∧ metadata_of data = Some m ∧ md_Execution m = id ∧
    files !! stream = Some content ∧ marked files stream = truncated.

Lemma Read_slice r id stream content truncated offset limit : holds_log r id stream content truncated → is_stream stream = true →
  1 ≤ limit ≤ 2 ^ 20 → 0 ≤ offset ≤ zlen content →
  let n := Z.min limit (zlen content - offset) in
  Read false no_read_faults id stream offset limit r =
    Ok (mkChunk (take (Z.to_nat n) (drop (Z.to_nat offset) content)) (offset + n) (offset + n =? zlen content) truncated).
Proof.
  intros (c & files & data & m & Hr & Hd & Hm & Hid & Hf & Ht) Hst Hl Ho n. unfold Read. rewrite Hst (proj2 (Z.eqb_neq limit 0)); [lia|].
  rewrite (proj2 (Z.ltb_ge (2 ^ 20) limit)); [lia|]. cbn [negb orb]. unfold readMetadata. cbn [rf_meta no_read_faults]. rewrite Hr Hd Hm Hid bool_decide_eq_true_2 //. cbn [negb rf_open rf_stat rf_read rf_marker].
  rewrite Hf (proj2 (Z.ltb_ge (zlen content) offset)); [lia|].
  assert (zlen (take (Z.to_nat n) (drop (Z.to_nat offset) content)) = n) as Hn.
  { unfold n, zlen in *. rewrite length_take length_drop. lia. }
  fold n. rewrite Hn. by rewrite -Ht.
Qed.

Lemma read_pages_rest r id stream content truncated limit fuel offset : holds_log r id stream content truncated → is_stream stream = true →
  1 ≤ limit ≤ 2 ^ 20 → 0 ≤ offset ≤ zlen content → zlen content - offset < Z.of_nat fuel →
  read_pages fuel id stream offset limit r = Ok (drop (Z.to_nat offset) content, truncated).
Proof.
  intros Hh Hst Hl. revert offset. induction fuel as [|fuel IH]; intros offset Ho Hf; [lia|]. cbn [read_pages].
  rewrite (Read_slice r id stream content truncated offset limit) //. cbn [lc_EOF lc_Data lc_Truncated lc_NextOffset].
  set (n := Z.min limit (zlen content - offset)). destruct (Z.eqb_spec (offset + n) (zlen content)) as [He|He].
  - rewrite take_ge //. rewrite length_drop. unfold n, zlen in *. lia.
  - assert (n = limit) as Hn by (unfold n in *; lia). rewrite IH; [unfold n in *; lia|lia|]. f_equal. f_equal. rewrite -{2}(take_drop (Z.to_nat n) (drop (Z.to_nat offset) content)) drop_drop.
    f_equal. f_equal. unfold n in *. lia.
Qed.

(** The goroutine [i] copies the output of [id] and has read [got]. *)
Definition copying (w : world) (i : nat) (id stream : string) (limit : Z) (got : bytes) : Prop :=
  ∃ c files data m rem tr, lw_pumps w !! i = Some (mkPump (directory id) stream limit None (Copying rem tr) [] got) ∧
    lw_root w !! directory id = Some (Folder c files) ∧ files !! "metadata.json" = Some data ∧ metadata_of data = Some m ∧ md_Execution m = id ∧
    files !! stream = Some (take (Z.to_nat limit) got) ∧ marked files stream = tr ∧
    0 ≤ limit ∧ rem = Z.max 0 (limit - zlen got) ∧ tr = bool_decide (limit < zlen got).

Lemma marked_insert files stream data : marked (<[marker stream := data]> files) stream = true.
Proof. unfold marked. rewrite lookup_insert_eq. by apply bool_decide_eq_true_2. Qed.

Lemma stream_names stream : is_stream stream = true → stream ≠ "metadata.json" ∧ stream ≠ marker stream ∧ marker stream ≠ "metadata.json".
Proof. intros Hst. by destruct (is_stream_cases _ Hst) as [->| ->]. Qed.

Lemma copy_one s w i id stream limit got data : is_stream stream = true → copying w i id stream limit got → zlen data ≤ bufferSize →
  ∃ w', lstep s (LCopy i (more data)) w = Some w' ∧ copying w' i id stream limit (got ++ data).
Proof.
  intros Hst (c & files & md & m & rem & tr & Hp & Hr & Hmd & Hm & Hid & Hf & Ht & H0 & Hrem & Htr) Hb. destruct (stream_names stream Hst) as (N1 & N2 & N3).
  set (p := mkPump (directory id) stream limit None (Copying rem tr) [] got) in *.
  assert (pump_phase p (take (Z.to_nat limit) got)) as Hph.
  { unfold pump_phase, copied, overflowed. cbn. rewrite /zlen /= Z.sub_0_r. split_and!; [lia|done|unfold zlen in *; lia|done]. }
  destruct (phase_advance p data rem tr _ Hph eq_refl) as (_ & _ & _ & A4 & A5 & A6). unfold copied, overflowed in A4, A6. cbn in A4, A5, A6.
  change (zlen []) with 0 in *. rewrite !Z.sub_0_r in A4 A5. rewrite Z.add_0_l in A6.
  set (keep := Z.min (zlen data) rem) in *. cbn [lstep]. rewrite Hp. cbn [mbind option_bind pu_state p more tn_data]. rewrite (proj2 (Z.ltb_ge bufferSize (zlen data))) //.
  unfold copy_turn. cbn [tn_data tn_write tn_marker tn_end more]. fold keep. assert ((if 0 <? keep then None else @None nat) = None) as -> by (by destruct (0 <? keep)).
  assert (∃ r1 files1, (if 0 <? keep then append_pump (take (Z.to_nat keep) data) p (lw_root w) else (p, lw_root w)) = (p, r1) ∧ r1 !! directory id = Some (Folder c files1) ∧
    files1 !! stream = Some (take (Z.to_nat limit) (got ++ data)) ∧ files1 !! "metadata.json" = Some md ∧ files1 !! marker stream = files !! marker stream) as (r1 & files1 & -> & Hr1 & Hf1 & Hmd1 & Hmk1).
  { destruct (Z.ltb_spec 0 keep) as [Hk|Hk].
    - exists (on_file (fun old => old ++ take (Z.to_nat keep) data) (directory id) stream (lw_root w)), (alter (fun old => old ++ take (Z.to_nat keep) data) stream files).
      split; [done|]. rewrite on_file_folder. split; [by apply at_folder_there|]. rewrite lookup_alter_eq Hf A4. split; [done|]. by rewrite !lookup_alter_ne.
    - exists (lw_root w), files. split_and!; [done|done| |done|done]. rewrite A4. assert (Z.to_nat keep = 0%nat) as -> by lia. by rewrite app_nil_r. }
  assert ((if 0 <? keep then rem - keep else rem) = rem - keep) as ->.
  { destruct (Z.ltb_spec 0 keep); [done|]. unfold keep, zlen in *. lia. }
  set (tr' := bool_decide (limit < zlen (got ++ data))) in *.
  destruct ((keep <? zlen data) && negb tr) eqn:Hov.
  - cbn [pu_dir p]. assert (folder_there r1 (directory id) = true) as -> by (unfold folder_there; by rewrite Hr1). eexists. split; [done|].
    exists c, (<[marker stream := [x01]]> files1), md, m, (rem - keep), true. split_and!; try done; cbn [lw_root lw_pumps].
    + apply list_lookup_insert_eq. exact (lookup_lt_Some _ _ _ Hp).
    + rewrite write_marker_folder. by apply at_folder_there.
    + by rewrite lookup_insert_ne.
    + rewrite lookup_insert_ne; [congruence|done].
    + apply marked_insert.
  - eexists. split; [done|]. exists c, files1, md, m, (rem - keep), tr. split_and!; try done; cbn [lw_root lw_pumps].
    + apply list_lookup_insert_eq. exact (lookup_lt_Some _ _ _ Hp).
    + unfold marked. rewrite Hmk1. exact Ht.
Qed.

Lemma copy_many s i id stream limit chunks w got : is_stream stream = true → copying w i id stream limit got → Forall (fun d => zlen d ≤ bufferSize) chunks →
  ∃ w', run_log s ((fun d => LCopy i (more d)) <$> chunks) w = Some w' ∧ copying w' i id stream limit (got ++ concat chunks).
Proof.
  intros Hst. revert w got. induction chunks as [|d ds IH]; intros w got Hc Hall; [exists w; by rewrite app_nil_r|].
  apply Forall_cons in Hall as [Hd Hds]. destruct (copy_one s w i id stream limit got d Hst Hc Hd) as (w1 & H1 & Hc1). rewrite fmap_cons. cbn [run_log]. rewrite H1.
  cbn [mbind option_bind concat]. destruct (IH w1 (got ++ d) Hc1 Hds) as (w2 & H2 & Hc2). exists w2. by rewrite app_assoc.
Qed.

Lemma Reserve_fresh s id w limit dir : store_ok s → lw_root w !! directory id = None → (Reserve s no_faults id (lw_root w)).1 = Ok (dir, limit) →
  dir = directory id ∧ limit = ls_streamBytes s ∧
  (Reserve s no_faults id (lw_root w)).2 =
    <[directory id := Folder (2 * ls_streamBytes s) {["metadata.json" := metadata_json (mkMetadata id (ls_streamBytes s))]}]> (lw_root w).
Proof.
  intros Hs Hn. unfold Reserve. rewrite Hn. cbn [readMetadata io_own io_readdir no_faults].
  destruct (sum_reserved _ _ _) as [v|e]; [|done]. destruct (_ <? v); [done|]. unfold create_reservation. rewrite Hn. cbn [io_mkdir io_create io_write io_sync no_faults].
  rewrite lookup_empty. cbn. by intros [= <- <-].
Qed.

Definition start_labels (s : Store) (id : string) (i : nat) : list label :=
  [LReserve no_faults id; LCapture (mkCaptureFaults false false false false) (directory id) (ls_streamBytes s); LStat i false].

Lemma capture_starts s w id stream dir limit : store_ok s → valid_utf8 id = true → id ≠ "" → is_stream stream = true →
  lw_root w !! directory id = None → Forall (fun p => pu_dir p ≠ directory id) (lw_pumps w) → (Reserve s no_faults id (lw_root w)).1 = Ok (dir, limit) →
  let i := (length (lw_pumps w) + if bool_decide (stream = "stdout") then 0 else 1)%nat in
  ∃ w1, run_log s (start_labels s id i) w = Some w1 ∧ copying w1 i id stream (ls_streamBytes s) [].
Proof.
  intros Hs Hv Hne Hst Hn Hall HR i. destruct (Reserve_fresh s id w limit dir Hs Hn HR) as (_ & _ & Hr1). destruct Hs as [Hs _].
  unfold start_labels. cbn [run_log lstep mbind option_bind]. rewrite Hr1. set (m := mkMetadata id (ls_streamBytes s)). set (d := directory id) in *. cbn [lw_root lw_pumps].
  assert (existsb (fun p => bool_decide (pu_dir p = d) && active p) (lw_pumps w) = false) as ->.
  { apply not_true_iff_false. intros (p & Hp & [Hd _]%andb_true_iff)%existsb_exists. apply bool_decide_eq_true in Hd. rewrite Forall_forall in Hall.
    apply (Hall p); [by apply list_elem_of_In|done]. }
  assert (metadata_of (metadata_json m) = Some m) as Hm.
  { rewrite metadata_read_back //. unfold m. cbn [md_Execution md_Limit]. by rewrite json_string_valid. }
  unfold open_capture. rewrite lookup_insert_eq. cbn [readMetadata cf_own]. rewrite lookup_singleton_eq Hm. cbn [md_Limit m]. rewrite Z.eqb_refl. cbn [negb cf_stdout cf_stderr cf_ready].
  rewrite !create_file_folder. set (r0 := <[d := _]> (lw_root w)).
  pose proof (at_folder_there (fun files => <["stdout" := default [] (files !! "stdout")]> files) d r0 _ _ (lookup_insert_eq _ _ _)) as H1.
  pose proof (at_folder_there (fun files => <["stderr" := default [] (files !! "stderr")]> files) d _ _ _ H1) as H2. set (r1 := at_folder _ d r0) in *. set (r2 := at_folder _ d r1) in *. cbn [run_log lstep lw_pumps lw_root].
  rewrite lookup_singleton_ne // (lookup_insert_ne _ "stdout" "stderr") // lookup_singleton_ne // in H2. cbn [default from_option] in H2.
  assert ((lw_pumps w ++ [mkPump d "stdout" (ls_streamBytes s) None Opened [] []; mkPump d "stderr" (ls_streamBytes s) None Opened [] []]) !! i = Some (mkPump d stream (ls_streamBytes s) None Opened [] [])) as Hp.
  { unfold i. rewrite lookup_app_r; [lia|]. destruct (is_stream_cases _ Hst) as [->| ->]; cbn; by rewrite Nat.add_comm Nat.add_sub. }
  cbn [mbind option_bind run_log lstep lw_pumps lw_root]. rewrite Hp. cbn [mbind option_bind pu_state]. eexists. split; [done|].
  assert (pump_content r2 (mkPump d stream (ls_streamBytes s) None Opened [] []) = []) as Hc.
  { unfold pump_content, file_at. cbn. rewrite H2. by destruct (is_stream_cases _ Hst) as [->| ->]. }
  exists (2 * ls_streamBytes s), (<["stderr" := []]> (<["stdout" := []]> {["metadata.json" := metadata_json m]})), (metadata_json m), m, (ls_streamBytes s), false.
  cbn [lw_pumps lw_root]. unfold stat_pump. rewrite Hc. split_and!; try done.
  - rewrite list_lookup_insert_eq; [exact (lookup_lt_Some _ _ _ Hp)|]. cbn. do 3 f_equal. unfold zlen. cbn. lia.
  - by destruct (is_stream_cases _ Hst) as [->| ->]; cbn; rewrite firstn_nil.
  - by destruct (is_stream_cases _ Hst) as [->| ->].
  - lia.
  - unfold zlen. cbn. lia.
  - unfold zlen. cbn. symmetry. apply bool_decide_eq_false_2. lia.
Qed.

Lemma copy_ends s w i id stream limit got : copying w i id stream limit got →
  ∃ w', lstep s (LCopy i end_of_output) w = Some w' ∧ holds_log (lw_root w') id stream (take (Z.to_nat limit) got) (bool_decide (limit < zlen got)).
Proof.
  intros (c & files & md & m & rem & tr & Hp & Hr & Hmd & Hm & Hid & Hf & Ht & H0 & Hrem & Htr). cbn [lstep]. rewrite Hp. cbn [mbind option_bind pu_state tn_data end_of_output].
  change (bufferSize <? zlen []) with false. cbv iota. unfold copy_turn. cbn [tn_data end_of_output]. change (zlen []) with 0.
  assert (Z.min 0 rem = 0) as -> by lia. cbn. eexists. split; [done|]. exists c, files, md, m. split_and!; try done. congruence.
Qed.


(** ** Witnesses *)

Definition small_store : Store := mkStore 5 30.

Lemma small_store_ok : store_ok small_store.
Proof. unfold store_ok. cbn. lia. Qed.

Lemma run_log_runs s ls w w' : run_log s ls w = Some w' → lruns s w w'.
Proof.
  revert w. induction ls as [|l ls IH]; intros w; cbn; [by intros [= ->]; constructor|]. intros (w1 & H1 & H2)%bind_Some.
  apply (rtc_l _ w w1 w'); [by exists l|exact (IH _ H2)].
Qed.

(** Two reservations, a copy that overflows, and a removal that fails half way. *)
Definition example_log : list label :=
  start_labels small_store "exec-1" 0 ++ [LCopy 0 (more (text "abcdefgh")); LReserve no_faults "exec-2"; LRemove false (Some (fun name => bool_decide (name = "stdout"))) "exec-1"].

Lemma log_budget_witness : ∃ w, run_log small_store example_log (mkWorld ∅ []) = Some w ∧ msum log_bytes (lw_root w) = 5 ∧ msum log_bytes (lw_root w) ≤ 30.
Proof.
  destruct (run_log small_store example_log (mkWorld ∅ [])) as [w|] eqn:Hw; [|vm_compute in Hw; discriminate Hw]. exists w. split; [reflexivity|]. split.
  - assert (match run_log small_store example_log (mkWorld ∅ []) with Some w => msum log_bytes (lw_root w) =? 5 | None => false end = true) as H5 by (vm_compute; reflexivity).
    rewrite Hw in H5. apply Z.eqb_eq. exact H5.
  - exact (proj1 (log_budget small_store w "logs" 5 30 eq_refl ltac:(lia) (run_log_runs _ _ _ _ Hw))).
Defined.


(** ** A reservation that failed blocks every later one

    A Reserve that could not create its metadata file leaves a folder without
    one; from then on the reservation of every other execution is refused. *)
Lemma failed_reservation_blocks s r id other io : directory other ≠ directory id → r !! directory id = Some (Folder (2 * ls_streamBytes s) ∅) → r !! directory other = None →
  io_own io = false → ∃ e, (Reserve s io other r).1 = Err e.
Proof.
  intros Hne Hr Ho Hio. unfold Reserve, readMetadata at 1. rewrite Hio Ho. destruct (io_readdir io); [eauto|].
  assert (∀ l acc, (directory id, Folder (2 * ls_streamBytes s) ∅) ∈ l → ∃ e, sum_reserved io l acc = Err e) as Hsum.
  { induction l as [|[name [|c files]] l IH]; intros acc Hin; [by apply not_elem_of_nil in Hin|..].
    - apply elem_of_cons in Hin as [Hin|Hin]; [done|]. by apply IH.
    - cbn [sum_reserved]. apply elem_of_cons in Hin as [[= <- <- <-]|Hin].
      + unfold readMetadata. rewrite lookup_empty. destruct (io_read io _); eauto.
      + destruct (readMetadata _ _); [by apply IH|eauto]. }
  destruct (Hsum (map_to_list r) 0) as [e ->]; [by apply elem_of_map_to_list|eauto].
Qed.

Lemma failed_reservation s io id r : readMetadata (io_own io) (r !! directory id) = Err ErrLogNotExist → io_readdir io = false → io_mkdir io = false → io_create io = true →
  (∃ v, sum_reserved io (map_to_list r) 0 = Ok v ∧ v ≤ ls_totalBytes s - 2 * ls_streamBytes s) → r !! directory id = None →
  (Reserve s io id r).2 !! directory id = Some (Folder (2 * ls_streamBytes s) ∅).
Proof.
  intros H1 H2 H3 H4 (v & Hv & Hle) Hn. unfold Reserve. rewrite H1 H2 Hv (proj2 (Z.ltb_ge _ _)) //. unfold create_reservation. rewrite Hn H3 H4. apply lookup_insert_eq.
Qed.
