(* ===== verification/Backend.v ===== *)
(** * The containerd backend (internal/runtime/containerd: client.go,
      client_start.go, client_recovery.go, client_process.go, logging.go)

    What the allocator asks of containerd to start, resume, recover and stop the
    container of one execution.  containerd is a third-party service: its state is
    a parameter seen through [containers], the calls of its client are the
    constructors of [call], and what the code relies on is the table [effect]: a
    call that succeeds has done what it says, a call that fails may or may not
    have taken effect, and a running task may exit at any time. *)

From stdpp Require Import pretty.
From S2P Require Import Prelude GoStrings Wire Admission AllocTypes Json Sha256 ExecSpec LogMeta LogStore.

(** ** containerd *)

(** The errors [errdefs] tells apart. *)
Inductive call_error := NotFound | AlreadyExists | Failed (detail : string).

#[export] Instance call_error_eq_dec : EqDecision call_error.
Proof. solve_decision. Defined.

Inductive task_status := Created | Running | Stopped | OtherStatus.

#[export] Instance task_status_eq_dec : EqDecision task_status.
Proof. solve_decision. Defined.

(** The options of the container specification, [oci.With*]. *)
Inductive spec_option :=
| WithImageConfig
| WithImageConfigArgs (args : list string)
| WithMemoryLimit (bytes : Z)
| WithCPUCFS (quota period : Z)
| WithPidsLimit (pids : Z)
| WithProcessArgs (args : list string)
| WithEnv (values : list string)
| WithProcessCwd (directory : string).

Record container := mkContainer {
  ct_image : string;
  ct_digest : string;
  ct_snapshotter : string;
  ct_snapshot : string;
  ct_spec : list spec_option;
  ct_labels : gmap string string
}.

Record object := mkObject { ob_container : container; ob_task : option task_status }.

(** Where a task sends its output: nowhere, or to the log writer with its
    directory and limit. *)
Inductive task_io := NullIO | BinaryIO (binary directory limit : string).

Inductive call : Type → Type :=
| LoadContainer (c : string) : call unit
| Pull (image snapshotter : string) : call string
| NewContainer (c : string) (x : container) : call unit
| Labels (c : string) : call (gmap string string)
| DeleteContainer (c : string) : call unit
| LoadTask (c : string) : call unit
| NewTask (c : string) (io : task_io) : call unit
| WaitTask (c : string) : call unit
| TaskStatus (c : string) : call task_status
| StartTask (c : string) : call unit
| KillTask (c : string) : call unit
| DeleteTask (c : string) (kill : bool) : call unit
| AwaitExit (c : string) : call unit.

Class Containerd := {
  daemon : Type;
  containers : daemon → gmap string object;
  perform : ∀ A, call A → daemon → result call_error A * daemon
}.

(** The container a call is about. *)
Definition call_target {A} (k : call A) : option string :=
  match k with
  | Pull _ _ => None
  | LoadContainer c | NewContainer c _ | Labels c | DeleteContainer c | LoadTask c | NewTask c _ | WaitTask c | TaskStatus c
  | StartTask c | KillTask c | DeleteTask c _ | AwaitExit c => Some c
  end.

(** What happens without a call: a running task exits. *)
Inductive drift : option object → option object → Prop :=
| drift_same o : drift o o
| drift_exit x : drift (Some (mkObject x (Some Running))) (Some (mkObject x (Some Stopped))).

Definition no_task (o : option object) : Prop := ∀ x, o = Some x → ob_task x = None.
Definition started (o o' : option object) : Prop := ∃ x s, o = Some (mkObject x (Some Created)) ∧ o' = Some (mkObject x (Some s)) ∧ s ≠ Created.

(** What a call does to its container. *)
Definition effect {A} (k : call A) (o : option object) : result call_error A → option object → Prop :=
  match k in call A return result call_error A → option object → Prop with
  | LoadContainer _ => fun r o' => drift o o' ∧ match r with Ok _ => is_Some o | Err e => e = NotFound → o = None end
  | Pull _ _ => fun _ o' => drift o o'
  | NewContainer _ x => fun r o' => match r with
      | Ok _ => o = None ∧ o' = Some (mkObject x None)
      | Err AlreadyExists => is_Some o ∧ drift o o'
      | Err _ => drift o o' ∨ (o = None ∧ o' = Some (mkObject x None))
      end
  | Labels _ => fun r o' => drift o o' ∧ match r with Ok l => ∃ x, o' = Some x ∧ l = ct_labels (ob_container x) | Err _ => True end
  | DeleteContainer _ => fun r o' => match r with
      | Ok _ => no_task o ∧ o' = None
      | Err NotFound => o = None ∧ o' = None
      | Err _ => drift o o' ∨ (no_task o ∧ o' = None)
      end
  | LoadTask _ => fun r o' => drift o o' ∧ match r with Ok _ => ∃ x s, o' = Some x ∧ ob_task x = Some s | Err e => e = NotFound → no_task o' end
  | NewTask _ _ => fun r o' =>
      let created := ∃ x, o = Some (mkObject x None) ∧ o' = Some (mkObject x (Some Created)) in
      match r with Ok _ => created | Err _ => drift o o' ∨ created end
  | WaitTask _ | KillTask _ | AwaitExit _ => fun _ o' => drift o o'
  | TaskStatus _ => fun r o' => drift o o' ∧ match r with Ok s => ∃ x, o' = Some x ∧ ob_task x = Some s | Err _ => True end
  | StartTask _ => fun r o' => match r with Ok _ => started o o' | Err _ => drift o o' ∨ started o o' end
  | DeleteTask _ _ => fun r o' =>
      let deleted := ∃ x t, o = Some (mkObject x t) ∧ o' = Some (mkObject x None) in
      match r with Ok _ => deleted | Err NotFound => drift o o' ∧ no_task o' | Err _ => drift o o' ∨ deleted end
  end.

Class ContainerdLaws `{Containerd} := {
  perform_target A (k : call A) c d : call_target k = Some c →
    effect k (containers d !! c) (perform A k d).1 (containers (perform A k d).2 !! c);
  perform_frame A (k : call A) c d : call_target k ≠ Some c → drift (containers d !! c) (containers (perform A k d).2 !! c)
}.

(** [reference.Parse(image).Digest()] and [digest.Validate]. *)
Class References := { reference_digest : string → option string; digest_valid : string → bool }.

(** ** The backend *)

Definition executionLabel : string := "io.r1s.execution-id".
Definition specLabel : string := "io.r1s.spec-digest".
Definition runLabel : string := "io.r1s.run-id".
Definition attemptLabel : string := "io.r1s.attempt".

Record clientBackend := mkBackend { bk_logs : option Store; bk_logBinary : string; bk_snapshotter : string }.

Inductive backend_error :=
| B_Call (e : call_error)               (* an error of containerd, wrapped *)
| B_Reference (image : string)
| B_Digest (actual requested : string)
| B_Logs (e : log_error)
| B_Conflict (executionID : string)
| B_Missing (executionID : string)
| B_Context.

Definition containerID (executionID : string) : string := "r1s-" +:+ hex_encode (sha256 (text executionID)).

(** A run of calls: the daemon, the log directory, and whether a cleanup call
    has failed, which nobody looks at. *)
Record world `{Containerd} := mkWorld { w_daemon : daemon; w_root : root; h_left : bool }.

Section backend.
Context `{Containerd, References}.

Definition DM (A : Type) : Type := world → A * world.
#[local] Instance DM_ret : MRet DM := fun A a w => (a, w).
#[local] Instance DM_bind : MBind DM := fun A B f m w => let '(a, w') := m w in f a w'.

Abbreviation BM A := (DM (result backend_error A)).

Definition ask {A} (k : call A) : DM (result call_error A) :=
  fun w => let '(r, d) := perform A k (w_daemon w) in (r, mkWorld _ d (w_root w) (h_left w)).

(** A call whose error is returned. *)
Definition must {A} (k : call A) : BM A := r ← ask k; mret (match r with Ok a => Ok a | Err e => Err (B_Call e) end).

(** A cleanup call, whose error is dropped. *)
Definition cleanup {A} (k : call A) : DM unit :=
  fun w => let '(r, w') := ask k w in
  (tt, match r with Ok _ | Err NotFound => w' | Err _ => mkWorld _ (w_daemon w') (w_root w') true end).

Notation "'btry' x ← m ; k" := (mbind (M:=DM) (fun r => match r with Ok x => k | Err e => mret (Err e) end) m)
  (at level 20, x pattern, m at level 100, k at level 200, right associativity).

(** *** client.go *)

Definition pinnedDigest (image : string) : result backend_error string :=
  match reference_digest image with
  | None => Err (B_Reference image)
  | Some digest => if bool_decide (digest = "") || negb (digest_valid digest) then Err (B_Reference image) else Ok digest
  end.

Definition label (name : string) (l : gmap string string) : string := default "" (l !! name).

Definition verifyLabels (c executionID fingerprint : string) : BM unit :=
  btry labels ← must (Labels c);
  mret (if negb (bool_decide (label executionLabel labels = executionID))
           || (negb (bool_decide (fingerprint = "")) && negb (bool_decide (label specLabel labels = fingerprint)))
        then Err (B_Conflict executionID) else Ok tt).

Definition verifyRunLabels (c : string) (request : StartRequest) : BM unit :=
  btry labels ← must (Labels c);
  mret (if negb (bool_decide (label runLabel labels = st_RunID request)) || negb (bool_decide (label attemptLabel labels = pretty (st_Attempt request)))
        then Err (B_Conflict (st_ExecutionID request)) else Ok tt).

(** *** logging.go *)

Definition taskIO (b : clientBackend) (io : faults) (id : string) : BM task_io :=
  fun w => match bk_logs b with
  | None => (Ok NullIO, w)
  | Some logs =>
    let '(reserved, r) := Reserve logs io id (w_root w) in
    (match reserved with Ok (dir, limit) => Ok (BinaryIO (bk_logBinary b) dir (pretty limit)) | Err e => Err (B_Logs e) end,
     mkWorld _ (w_daemon w) r (h_left w))
  end.

(** *** client_start.go *)

Definition workload_of (request : StartRequest) : Workload := default (mkWorkload "" [] [] ∅ "") (st_Workload request).

Definition spec_options (request : StartRequest) : list spec_option :=
  let w := workload_of request in
  let r := st_Resources request in
  [match wl_command w, wl_args w with [], _ :: _ => WithImageConfigArgs (wl_args w) | _, _ => WithImageConfig end]
  ++ (if decide (r = zero_resources) then [] else [WithMemoryLimit (MemoryBytes r); WithCPUCFS (CPUMilli r * 100) 100000; WithPidsLimit (Pids r)])
  ++ (match wl_command w with [] => [] | command => [WithProcessArgs (command ++ wl_args w)] end)
  ++ (match environment w (st_RunID request) (st_Attempt request) with [] => [] | values => [WithEnv values] end)
  ++ (if bool_decide (wl_working_directory w = "") then [] else [WithProcessCwd (wl_working_directory w)]).

Definition container_for (b : clientBackend) (request : StartRequest) (fingerprint digest : string) : container :=
  mkContainer (wl_image (workload_of request)) digest (bk_snapshotter b) (containerID (st_ExecutionID request) +:+ "-rootfs") (spec_options request)
    (<[executionLabel := st_ExecutionID request]> (<[specLabel := fingerprint]> (<[runLabel := st_RunID request]>
      (<[attemptLabel := pretty (st_Attempt request)]> ∅)))).

(** From the task of a new container on. *)
Definition launch (b : clientBackend) (io : faults) (c : string) (request : StartRequest) : BM unit :=
  btry output ← taskIO b io (st_ExecutionID request);
  btry _ ← must (NewTask c output);
  waiting ← must (WaitTask c);
  match waiting with
  | Err e => cleanup (DeleteTask c true);; mret (Err e)
  | Ok _ =>
    running ← must (StartTask c);
    match running with
    | Err e => cleanup (DeleteTask c true);; mret (Err e)
    | Ok _ => mret (Ok tt)
    end
  end.

Definition resume (b : clientBackend) (io : faults) (c : string) (request : StartRequest) (fingerprint : string) : BM unit :=
  btry _ ← verifyLabels c (st_ExecutionID request) fingerprint;
  btry _ ← verifyRunLabels c request;
  task ← ask (LoadTask c);
  match task with
  | Err NotFound =>
    btry output ← taskIO b io (st_ExecutionID request);
    btry _ ← must (NewTask c output);
    btry _ ← must (WaitTask c);
    running ← must (StartTask c);
    match running with
    | Err e => cleanup (DeleteTask c true);; mret (Err e)
    | Ok _ => mret (Ok tt)
    end
  | Err e => mret (Err (B_Call e))
  | Ok _ =>
    btry _ ← must (WaitTask c);
    btry status ← must (TaskStatus c);
    if decide (status = Created) then must (StartTask c) else mret (Ok tt)
  end.

(** The deferred removal of a container that was created but not started. *)
Definition removing (c : string) (m : BM unit) : BM unit :=
  r ← m;
  match r with
  | Ok _ => mret (Ok tt)
  | Err e => cleanup (DeleteContainer c);; mret (Err e)
  end.

Definition provision (b : clientBackend) (io : faults) (c : string) (request : StartRequest) (fingerprint : string) : BM unit :=
  match pinnedDigest (wl_image (workload_of request)) with
  | Err e => mret (Err e)
  | Ok requested =>
    btry actual ← must (Pull (wl_image (workload_of request)) (bk_snapshotter b));
    if negb (bool_decide (actual = requested)) then mret (Err (B_Digest actual requested))
    else
      made ← ask (NewContainer c (container_for b request fingerprint actual));
      match made with
      | Ok _ => removing c (launch b io c request)
      | Err AlreadyExists => btry _ ← must (LoadContainer c); resume b io c request fingerprint
      | Err e => mret (Err (B_Call e))
      end
  end.

Definition Start (b : clientBackend) (io : faults) (request : StartRequest) (fingerprint : string) : BM unit :=
  let c := containerID (st_ExecutionID request) in
  loaded ← ask (LoadContainer c);
  match loaded with
  | Ok _ => resume b io c request fingerprint
  | Err NotFound => provision b io c request fingerprint
  | Err e => mret (Err (B_Call e))
  end.

(** *** client_process.go *)

Definition ignoreNotFound {A} (r : result call_error A) : list backend_error :=
  match r with Ok _ | Err NotFound => [] | Err e => [B_Call e] end.

(** A Go error built with [errors.Join]: nil is the empty list. *)
Definition Kill (c : string) : DM (list backend_error) :=
  status ← ask (TaskStatus c);
  match status with
  | Err e => mret (ignoreNotFound (A:=unit) (Err e))
  | Ok s => if decide (s = Stopped) then mret [] else r ← ask (KillTask c); mret (ignoreNotFound r)
  end.

Definition Cleanup (c : string) : DM (list backend_error) :=
  task ← ask (DeleteTask c false);
  removed ← ask (DeleteContainer c);
  mret (ignoreNotFound task ++ ignoreNotFound removed).

(** *** client_recovery.go *)

Definition Recover (request : StartRequest) (fingerprint : string) : DM (result (list backend_error) unit) :=
  let c := containerID (st_ExecutionID request) in
  loaded ← ask (LoadContainer c);
  match loaded with
  | Err NotFound => mret (Err [B_Missing (st_ExecutionID request)])
  | Err e => mret (Err [B_Call e])
  | Ok _ =>
    labelled ← verifyLabels c (st_ExecutionID request) fingerprint;
    match labelled with Err e => mret (Err [e]) | Ok _ =>
    ran ← verifyRunLabels c request;
    match ran with Err e => mret (Err [e]) | Ok _ =>
    task ← ask (LoadTask c);
    match task with
    | Err NotFound => removed ← ask (DeleteContainer c); mret (Err (B_Missing (st_ExecutionID request) :: ignoreNotFound removed))
    | Err e => mret (Err [B_Call e])
    | Ok _ =>
      status ← ask (TaskStatus c);
      match status with
      | Err e => mret (Err [B_Call e])
      | Ok s =>
        if decide (s = Created) then
          deleted ← ask (DeleteTask c true);
          removed ← ask (DeleteContainer c);
          mret (Err (B_Missing (st_ExecutionID request) :: ignoreNotFound deleted ++ ignoreNotFound removed))
        else waiting ← ask (WaitTask c); mret (match waiting with Ok _ => Ok tt | Err e => Err [B_Call e] end)
      end
    end end end
  end.

Definition Stop (executionID : string) : DM (list backend_error) :=
  let c := containerID executionID in
  loaded ← ask (LoadContainer c);
  match loaded with
  | Err NotFound => mret []
  | Err e => mret [B_Call e]
  | Ok _ =>
    labelled ← verifyLabels c executionID "";
    match labelled with Err e => mret [e] | Ok _ =>
    task ← ask (LoadTask c);
    match task with
    | Err NotFound => removed ← ask (DeleteContainer c); mret (ignoreNotFound removed)
    | Err e => mret [B_Call e]
    | Ok _ =>
      waiting ← ask (WaitTask c);
      match waiting with Err e => mret [B_Call e] | Ok _ =>
      killed ← Kill c;
      match killed with
      | [] => exited ← ask (AwaitExit c); match exited with Ok _ => Cleanup c | Err _ => mret [B_Context] end
      | errs => mret errs
      end end
    end end
  end.

(** ** Reasoning about runs *)

Context `{!ContainerdLaws}.

Definition at_ (w : world) (c : string) : option object := containers (w_daemon w) !! c.

(** [bwp c m Q o l]: from the state [o] of the container [c] and the cleanup flag
    [l], [m] ends in [Q], and every other container is left alone. *)
Definition bwp {A} (c : string) (m : DM A) (Q : A → option object → bool → Prop) (o : option object) (l : bool) : Prop :=
  ∀ w, at_ w c = o → h_left w = l → Q (m w).1 (at_ (m w).2 c) (h_left (m w).2) ∧ ∀ c', c' ≠ c → drift (at_ w c') (at_ (m w).2 c').

Lemma drift_trans o1 o2 o3 : drift o1 o2 → drift o2 o3 → drift o1 o3.
Proof. intros D1 D2. inversion D1; inversion D2; subst; try done; try constructor; congruence. Qed.

Lemma drift_container o x t : drift o (Some (mkObject x t)) →
  ∃ t', o = Some (mkObject x t') ∧ (t = None → t' = None) ∧ (t = Some Created → t' = Some Created).
Proof. intros D. inversion D; subst; [by exists t|by exists (Some Running)]. Qed.

Lemma drift_None o : drift None o → o = None.
Proof. by inversion 1. Qed.

Lemma bwp_ret {A} c (a : A) (Q : A → option object → bool → Prop) o l : Q a o l → bwp c (mret a) Q o l.
Proof. intros HQ w <- <-. split; [done|]. intros. constructor. Qed.

Lemma bwp_bind {A B} c (m : DM A) (f : A → DM B) Q o l : bwp c m (fun a => bwp c (f a) Q) o l → bwp c (mbind f m) Q o l.
Proof.
  intros Hm w Ho Hl. destruct (Hm w Ho Hl) as [HR F1]. unfold mbind, DM_bind. destruct (m w) as [a w'] eqn:E. cbn in *.
  destruct (HR w' eq_refl eq_refl) as [HQ F2]. split; [done|]. intros c' Hne. exact (drift_trans _ _ _ (F1 c' Hne) (F2 c' Hne)).
Qed.

Lemma bwp_mono {A} c (m : DM A) (Q Q' : A → option object → bool → Prop) o l : bwp c m Q o l → (∀ a o' l', Q a o' l' → Q' a o' l') → bwp c m Q' o l.
Proof. intros Hm HQ w Ho Hl. destruct (Hm w Ho Hl) as [Hq Hf]. split; [by apply HQ|done]. Qed.

Lemma bwp_ask {A} c (k : call A) (Q : result call_error A → option object → bool → Prop) o l :
  call_target k = Some c → (∀ r o', effect k o r o' → Q r o' l) → bwp c (ask k) Q o l.
Proof.
  intros Hk HQ w <- <-. unfold ask, at_. pose proof (perform_target A k c (w_daemon w) Hk) as He. pose proof (λ c' Hne, perform_frame A k c' (w_daemon w) Hne) as Hf.
  destruct (perform A k (w_daemon w)) as [r d]. cbn in *. split; [by apply HQ|]. intros c' Hne. apply Hf. congruence.
Qed.

Lemma bwp_must {A} c (k : call A) (Q : result backend_error A → option object → bool → Prop) o l :
  call_target k = Some c → (∀ r o', effect k o r o' → Q (match r with Ok a => Ok a | Err e => Err (B_Call e) end) o' l) → bwp c (must k) Q o l.
Proof. intros Hk HQ. apply bwp_bind. apply bwp_ask; [done|]. intros r o' He. apply bwp_ret. by apply HQ. Qed.

Lemma bwp_pull c image snapshotter (Q : result backend_error string → option object → bool → Prop) o l :
  (∀ r o', drift o o' → Q r o' l) → bwp c (must (Pull image snapshotter)) Q o l.
Proof.
  intros HQ. apply bwp_bind. intros w <- <-. unfold ask, at_. pose proof (λ c', perform_frame string (Pull image snapshotter) c' (w_daemon w)) as Hf.
  destruct (perform string (Pull image snapshotter) (w_daemon w)) as [r d]. cbn in *. split; [apply bwp_ret, HQ|intros c' _]; by apply Hf.
Qed.

Lemma bwp_cleanup {A} c (k : call A) (Q : unit → option object → bool → Prop) o l :
  call_target k = Some c →
  (∀ r o', effect k o r o' → Q tt o' (match r with Ok _ | Err NotFound => l | Err _ => true end)) → bwp c (cleanup k) Q o l.
Proof.
  intros Hk HQ w Ho Hl. destruct (bwp_ask c k (λ r o' l, Q tt o' (match r with Ok _ | Err NotFound => l | Err _ => true end)) o l Hk HQ w Ho Hl) as [Hq Hf].
  unfold cleanup. destruct (ask k w) as [r w']. cbn in *. by destruct r as [|[]].
Qed.

Lemma bwp_io c b io id (Q : result backend_error task_io → option object → bool → Prop) o l : (∀ r, Q r o l) → bwp c (taskIO b io id) Q o l.
Proof.
  intros HQ w <- <-. unfold taskIO. destruct (bk_logs b) as [logs|]; [|split; [by apply HQ|intros; constructor]].
  destruct (Reserve logs io id (w_root w)) as [r t]. split; [by apply HQ|intros; constructor].
Qed.

(** *** Labels *)

(** The labels a container of the request has. *)
Record labelled (request : StartRequest) (fingerprint : string) (x : container) : Prop := {
  lb_execution : label executionLabel (ct_labels x) = st_ExecutionID request;
  lb_spec : label specLabel (ct_labels x) = fingerprint;
  lb_run : label runLabel (ct_labels x) = st_RunID request;
  lb_attempt : label attemptLabel (ct_labels x) = pretty (st_Attempt request)
}.

Lemma bwp_verifyLabels c executionID fingerprint (Q : result backend_error unit → option object → bool → Prop) o l :
  (∀ o' e, drift o o' → (∀ id, e ≠ B_Missing id) → Q (Err e) o' l) →
  (∀ x, drift o (Some x) → label executionLabel (ct_labels (ob_container x)) = executionID →
     (fingerprint ≠ "" → label specLabel (ct_labels (ob_container x)) = fingerprint) → Q (Ok tt) (Some x) l) →
  bwp c (verifyLabels c executionID fingerprint) Q o l.
Proof.
  intros He Hok. apply bwp_bind. apply bwp_must; [done|]. intros [labels|e] o' [Hd Hl]; [|by apply bwp_ret, He]. destruct Hl as (x & -> & ->). apply bwp_ret.
  destruct (_ || _) eqn:Hc; [by apply He|]. apply orb_false_iff in Hc as [H2 H3]. apply negb_false_iff, bool_decide_eq_true in H2. apply Hok; [done..|].
  intros Hne. apply andb_false_iff in H3 as [H3|H3]; apply negb_false_iff, bool_decide_eq_true in H3; done.
Qed.

Lemma bwp_verifyRunLabels c request (Q : result backend_error unit → option object → bool → Prop) o l :
  (∀ o' e, drift o o' → (∀ id, e ≠ B_Missing id) → Q (Err e) o' l) →
  (∀ x, drift o (Some x) → label runLabel (ct_labels (ob_container x)) = st_RunID request →
     label attemptLabel (ct_labels (ob_container x)) = pretty (st_Attempt request) → Q (Ok tt) (Some x) l) →
  bwp c (verifyRunLabels c request) Q o l.
Proof.
  intros He Hok. apply bwp_bind. apply bwp_must; [done|]. intros [labels|e] o' [Hd Hl]; [|by apply bwp_ret, He]. destruct Hl as (x & -> & ->). apply bwp_ret.
  destruct (_ || _) eqn:Hc; [by apply He|]. apply orb_false_iff in Hc as [H2 H3]. apply negb_false_iff, bool_decide_eq_true in H2, H3. by apply Hok.
Qed.

(** *** Starting *)

(** The container belongs to the request, or there is none. *)
Definition belongs (request : StartRequest) (fingerprint : string) (o : option object) : Prop :=
  ∀ x, o = Some x → labelled request fingerprint (ob_container x).

(** Its task has been started. *)
Definition launched (request : StartRequest) (fingerprint : string) (o : option object) : Prop :=
  ∃ x s, o = Some (mkObject x (Some s)) ∧ s ≠ Created ∧ labelled request fingerprint x.

Lemma belongs_drift request fp o x t : drift o (Some (mkObject x t)) → labelled request fp x → belongs request fp o.
Proof. intros (t' & -> & _)%drift_container Hl y [= <-]. done. Qed.

Lemma bwp_start_task c request fp x (Q : result backend_error unit → option object → bool → Prop) o l :
  labelled request fp x → (∃ t, o = Some (mkObject x t)) →
  (∀ r o', (r = Ok tt → launched request fp o') → Q r o' l) → bwp c (must (StartTask c)) Q o l.
Proof.
  intros Hx [t ->] HQ. apply bwp_must; [done|]. intros [[]|e] o' He; apply HQ; [|done]. intros _. destruct He as (y & s & [= <- _] & -> & Hs). by exists x, s.
Qed.

Lemma resume_spec b io c request fp o l : fp ≠ "" →
  bwp c (resume b io c request fp) (fun r o' _ => (r = Ok tt → launched request fp o') ∧ (¬ belongs request fp o → (∃ e, r = Err e) ∧ drift o o')) o l.
Proof.
  intros Hfp. unfold resume. apply bwp_bind. apply bwp_verifyLabels; [intros o' e Hd _; apply bwp_ret; split; [done|by eauto]|]. intros [x t] Hd Hex Hsp. cbn in Hex, Hsp.
  apply bwp_bind. apply bwp_verifyRunLabels; [intros o' e Hd' _; apply bwp_ret; split; [done|]; eauto using drift_trans|]. intros [y t'] Hd' Hr Ha. cbn in Hr, Ha.
  pose proof (drift_container _ _ _ Hd') as (t'' & [= -> ->] & _). assert (labelled request fp y) as Hy by (split; auto).
  assert (belongs request fp o) as Hb by exact (belongs_drift _ _ _ _ _ Hd Hy).
  apply (bwp_mono _ _ (fun r o' _ => r = Ok tt → launched request fp o')); [|intros r o' _ HQ; split; [done|by intros []]].
  apply bwp_bind. apply bwp_ask; [done|]. intros [[]|e] o1 [D1 H2].
  - destruct H2 as ([z t2] & s & -> & _). apply drift_container in D1 as (? & [= <- _] & _).
    apply bwp_bind. apply bwp_must; [done|]. intros [[]|e] o2 D2; [|by apply bwp_ret]. apply bwp_bind. apply bwp_must; [done|].
    intros [st|e] o3 [D3 H3]; [|by apply bwp_ret]. destruct H3 as ([v t3] & -> & Ht). cbn in Ht. subst t3.
    apply (drift_trans _ _ _ D2) in D3. apply drift_container in D3 as (? & [= <- _] & _).
    case_decide; [apply (bwp_start_task c request fp y); [done|by eexists|auto]|]. apply bwp_ret. intros _. by exists y, st.
  - destruct e; [|by apply bwp_ret..]. apply bwp_bind. apply bwp_io. intros [output|e]; [|by apply bwp_ret]. apply bwp_bind. apply bwp_must; [done|].
    intros [[]|e] o2 He2; [|by apply bwp_ret]. destruct He2 as (z & -> & ->). apply drift_container in D1 as (? & [= <- _] & _).
    apply bwp_bind. apply bwp_must; [done|]. intros [[]|e] o3 D3; [|by apply bwp_ret]. apply bwp_bind. inversion D3; subst.
    apply (bwp_start_task c request fp y); [done|by eexists|]. intros [[]|e] o4 Hl; [apply bwp_ret; auto|]. apply bwp_bind. apply bwp_cleanup; [done|]. intros. by apply bwp_ret.
Qed.

Lemma launch_spec b io c request x l :
  bwp c (launch b io c request) (fun r o' _ => r = Ok tt → ∃ s, s ≠ Created ∧ o' = Some (mkObject x (Some s))) (Some (mkObject x None)) l.
Proof.
  unfold launch. apply bwp_bind. apply bwp_io. intros [output|e]; [|by apply bwp_ret]. apply bwp_bind. apply bwp_must; [done|]. intros [[]|e] o1 H2; [|by apply bwp_ret].
  destruct H2 as (y & [= <-] & ->). apply bwp_bind. apply bwp_must; [done|]. intros [[]|e] o2 D; cbn beta iota;
    [|apply bwp_bind; apply bwp_cleanup; [done|]; intros; by apply bwp_ret]. inversion D; subst. apply bwp_bind. apply bwp_must; [done|].
  intros [[]|e] o3 H3; [|apply bwp_bind; apply bwp_cleanup; [done|]; intros; by apply bwp_ret]. apply bwp_ret. intros _. destruct H3 as (y & s & [= <-] & -> & Hs). by exists s.
Qed.

Lemma removing_spec c m (Q : option object → Prop) o l :
  bwp c m (fun r o' _ => r = Ok tt → Q o') o l →
  bwp c (removing c m) (fun r o' l' => (r = Ok tt → Q o') ∧ (∀ e, r = Err e → l' = false → o' = None)) o l.
Proof.
  intros Hm. apply bwp_bind. apply (bwp_mono _ _ _ _ _ _ Hm). intros [[]|e] o1 l1 HQ; [apply bwp_ret; by auto|]. apply bwp_bind. apply bwp_cleanup; [done|].
  intros r o2 He. apply bwp_ret. split; [done|]. intros e' _. destruct r as [u|[]]; [by destruct He|by destruct He|done..].
Qed.

(** What a start of a new container makes. *)
Definition provisioned (b : clientBackend) (request : StartRequest) (fp : string) (o : option object) : Prop :=
  ∃ digest s, pinnedDigest (wl_image (workload_of request)) = Ok digest ∧ s ≠ Created ∧ o = Some (mkObject (container_for b request fp digest) (Some s)).

Lemma provision_spec b io c request fp l :
  bwp c (provision b io c request fp) (fun r o' l' => (r = Ok tt → provisioned b request fp o') ∧ (∀ e, r = Err e → l' = false → no_task o')) None l.
Proof.
  unfold provision. assert (no_task None) as Hn by done. destruct (pinnedDigest _) as [digest|e] eqn:Hp; [|by apply bwp_ret]. apply bwp_bind. apply bwp_pull.
  intros [actual|e] o1 ->%drift_None; [|by apply bwp_ret]. case_bool_decide as Hd; [|by apply bwp_ret]. subst actual. cbn [negb].
  apply bwp_bind. apply bwp_ask; [done|]. intros [[]|e] o2 H2.
  - destruct H2 as [_ ->]. eapply bwp_mono; [apply removing_spec, launch_spec|]. intros r o' l' [HQ Hf]. split.
    + intros (s & Hs & ->)%HQ. by exists digest, s.
    + intros e Hr Hl. by rewrite (Hf e Hr Hl).
  - assert (e ≠ AlreadyExists ∧ no_task o2) as [Hne Hn2].
    { destruct e; cbn in H2; [|by destruct H2 as [[] _]|]; (split; [done|]); destruct H2 as [->%drift_None|[_ ->]]; try done; by intros y [= <-]. }
    destruct e; [|done|]; by apply bwp_ret.
Qed.

Lemma provisioned_launched b request fp o : provisioned b request fp o → launched request fp o.
Proof. intros (digest & s & _ & Hs & ->). eexists _, s. split; [done|]. split; [done|]. by split. Qed.

Lemma Start_spec b io request fp o l : fp ≠ "" →
  bwp (containerID (st_ExecutionID request)) (Start b io request fp)
    (fun r o' l' => (r = Ok tt → launched request fp o') ∧ (¬ belongs request fp o → (∃ e, r = Err e) ∧ drift o o') ∧
       (o = None → (r = Ok tt → provisioned b request fp o') ∧ (∀ e, r = Err e → l' = false → no_task o'))) o l.
Proof.
  intros Hfp. unfold Start. apply bwp_bind. apply bwp_ask; [done|]. intros [[]|e] o1 [D H2].
  - eapply bwp_mono; [by apply resume_spec|]. intros r o' l' [Hl Hc]. split; [done|]. split; [|by intros ->; destruct H2].
    intros Hn. destruct Hc as [He D']; [|split; [done|exact (drift_trans _ _ _ D D')]]. intros Hb. apply Hn. intros x ->. inversion D; subst; [by apply Hb|exact (Hb _ eq_refl)].
  - destruct e.
    + rewrite (H2 eq_refl) in D |- *. apply drift_None in D as ->. eapply bwp_mono; [apply provision_spec|]. intros r o' l' [Hok Her].
      split; [intros Hr; by eapply provisioned_launched, Hok|]. split; [|done]. intros []. by intros x.
    + apply bwp_ret. split; [done|]. split; [by eauto|]. intros ->. apply drift_None in D as ->. done.
    + apply bwp_ret. split; [done|]. split; [by eauto|]. intros ->. apply drift_None in D as ->. done.
Qed.


(** *** Recovering and stopping *)

(** A task that could run in [o] could run in [o'] already: nothing was started. *)
Definition nothing_started (o o' : option object) : Prop :=
  ∀ x s, o' = Some (mkObject x (Some s)) → ∃ t, o = Some (mkObject x (Some t)) ∧ (s = t ∨ (t = Running ∧ s = Stopped)).

Lemma nothing_started_drift o o' : drift o o' → nothing_started o o'.
Proof. intros D x s ->. inversion D; subst; [exists s; auto|exists Running; auto]. Qed.

Lemma nothing_started_no_task o o' : no_task o' → nothing_started o o'.
Proof. intros Hn x s ->. by specialize (Hn _ eq_refl). Qed.

Lemma delete_container_gone o (r : result call_error unit) o' c : effect (DeleteContainer c) o r o' →
  (drift o o' ∨ o' = None) ∧ (ignoreNotFound r = [] → o' = None).
Proof. destruct r as [u|[]]; cbn; [intros [_ ->]|intros [_ ->]|intros [D|[_ ->]]..]; split; auto; done. Qed.

Lemma delete_task_effect o (r : result call_error unit) o' c kill : effect (DeleteTask c kill) o r o' → drift o o' ∨ no_task o'.
Proof. destruct r as [u|[]]; cbn; [intros (x & t & _ & ->)|intros [D _]|intros [D|(x & t & _ & ->)]..]; auto; right; by intros y [= <-]. Qed.

Lemma no_task_drift o o' : no_task o → drift o o' → no_task o'.
Proof. intros Hn D. inversion D; subst; [done|]. by specialize (Hn _ eq_refl). Qed.

Record recovered (request : StartRequest) (fp : string) (o : option object) (r : result (list backend_error) unit) (o' : option object) : Prop := {
  rc_ok : r = Ok tt → launched request fp o';
  rc_started : nothing_started o o';
  rc_none : o = None → o' = None;
  rc_missing : r = Err [B_Missing (st_ExecutionID request)] → o' = None;
  rc_conflict : ¬ belongs request fp o → (∃ e, r = Err e) ∧ drift o o'
}.

Lemma recovered_failed request fp o errs o' : drift o o' → errs ≠ [B_Missing (st_ExecutionID request)] → recovered request fp o (Err errs) o'.
Proof. intros D Hne. split; [done|by apply nothing_started_drift|by intros ->; apply drift_None|congruence|by eauto]. Qed.

Lemma recovered_removed request fp o errs o' : belongs request fp o → nothing_started o o' → (o = None → o' = None) → (errs = [] → o' = None) →
  recovered request fp o (Err (B_Missing (st_ExecutionID request) :: errs)) o'.
Proof. intros Hb Hs Hn He. split; try done. intros [= ->]. by apply He. Qed.

Lemma Recover_spec request fp o l : fp ≠ "" → bwp (containerID (st_ExecutionID request)) (Recover request fp) (fun r o' _ => recovered request fp o r o') o l.
Proof.
  intros Hfp. unfold Recover. apply bwp_bind. apply bwp_ask; [done|]. intros [[]|e] o1 [D1 H2].
  2: { destruct e; apply bwp_ret; [|by apply recovered_failed..]. rewrite (H2 eq_refl) in D1 |- *. apply drift_None in D1 as ->.
       apply recovered_removed; [by intros x|by apply nothing_started_no_task|done|done]. }
  clear H2. apply bwp_bind. apply bwp_verifyLabels; [intros o' e Hd Hm; apply bwp_ret, recovered_failed; [eauto using drift_trans|intros [= ->]; by eapply Hm]|].
  intros [x t] D2 Hex Hsp. cbn in Hex, Hsp.
  apply bwp_bind. apply bwp_verifyRunLabels; [intros o' e Hd Hm; apply bwp_ret, recovered_failed; [eauto using drift_trans|intros [= ->]; by eapply Hm]|].
  intros [y t'] D3 Hr Ha. cbn in Hr, Ha. pose proof (drift_container _ _ _ D3) as (? & [= -> _] & _). assert (labelled request fp y) as Hy by (split; auto).
  assert (drift o (Some (mkObject y t'))) as D by eauto using drift_trans. clear D1 D2 D3. assert (belongs request fp o) as Hb by exact (belongs_drift _ _ _ _ _ D Hy).
  assert (o ≠ None) as Ho by (intros ->; inversion D). apply bwp_bind. apply bwp_ask; [done|]. intros [[]|e] o2 [D2 H2].
  - apply (drift_trans _ _ _ D) in D2. apply bwp_bind. apply bwp_ask; [done|]. intros [s|e] o3 [D3 H3]; [|apply bwp_ret, recovered_failed; [eauto using drift_trans|done]].
    destruct H3 as ([z t3] & -> & Ht). cbn in Ht. subst t3. apply (drift_trans _ _ _ D2) in D3. case_decide as Hs.
    + apply bwp_bind. apply bwp_ask; [done|]. intros r4 o4 H4. apply bwp_bind. apply bwp_ask; [done|]. intros r5 o5 [H5 H5']%delete_container_gone. apply bwp_ret.
      apply recovered_removed; [done| |done|by intros [_ ?]%app_eq_nil; auto]. apply delete_task_effect in H4.
      destruct H5 as [H5| ->]; [|by apply nothing_started_no_task]. destruct H4 as [H4|H4]; [apply nothing_started_drift; eauto using drift_trans|].
      apply nothing_started_no_task. eauto using no_task_drift.
    + apply bwp_bind. apply bwp_ask; [done|]. intros [[]|e] o4 D4; apply bwp_ret; [|apply recovered_failed; [eauto using drift_trans|done]].
      assert (drift o o4) as D5 by exact (drift_trans _ _ _ D3 D4). split; [|by apply nothing_started_drift|done|done|done].
      intros _. destruct (drift_container _ _ _ D3) as (tz & -> & _). destruct (Hb _ eq_refl) as [B1 B2 B3 B4].
      inversion D4; subst; [exists z, s|exists z, Stopped]; split_and!; done.
  - apply (drift_trans _ _ _ D) in D2. destruct e; [|apply bwp_ret, recovered_failed; [done|done]..].
    apply bwp_bind. apply bwp_ask; [done|]. intros r3 o3 [H3 H3']%delete_container_gone. apply bwp_ret. apply recovered_removed; [done| |done|done].
    destruct H3 as [H3| ->]; apply nothing_started_no_task; [eauto using no_task_drift|done].
Qed.

Lemma Cleanup_spec c o l :
  bwp c (Cleanup c) (fun errs o' _ => (errs = [] → o' = None) ∧ (drift o o' ∨ no_task o')) o l.
Proof.
  apply bwp_bind. apply bwp_ask; [done|]. intros r1 o1 H2%delete_task_effect. apply bwp_bind. apply bwp_ask; [done|]. intros r2 o2 [H3 H3']%delete_container_gone. apply bwp_ret.
  split; [by intros [_ ?]%app_eq_nil; auto|]. destruct H3 as [H3| ->]; [|by right]. destruct H2; [left; eauto using drift_trans|right; eauto using no_task_drift].
Qed.

Lemma Kill_spec c o l : bwp c (Kill c) (fun _ o' _ => drift o o') o l.
Proof.
  apply bwp_bind. apply bwp_ask; [done|]. intros [s|e] o1 [D _]; [|by apply bwp_ret]. case_decide; [by apply bwp_ret|].
  apply bwp_bind. apply bwp_ask; [done|]. intros r o2 D2. apply bwp_ret. eauto using drift_trans.
Qed.

Record stopped (executionID : string) (o : option object) (errs : list backend_error) (o' : option object) : Prop := {
  sp_gone : errs = [] → o' = None;
  sp_started : drift o o' ∨ no_task o';
  sp_conflict x : o = Some x → label executionLabel (ct_labels (ob_container x)) ≠ executionID → errs ≠ [] ∧ drift o o'
}.

Lemma stopped_failed executionID o errs o' : drift o o' → errs ≠ [] → stopped executionID o errs o'.
Proof. intros D Hne. split; [done|by left|done]. Qed.

Lemma Stop_spec executionID o l : bwp (containerID executionID) (Stop executionID) (fun errs o' _ => stopped executionID o errs o') o l.
Proof.
  unfold Stop. apply bwp_bind. apply bwp_ask; [done|]. intros [[]|e] o1 [D1 H2].
  2: { destruct e; apply bwp_ret; [|by apply stopped_failed..]. rewrite (H2 eq_refl) in D1 |- *. apply drift_None in D1 as ->. split; [done|by right|done]. }
  clear H2. apply bwp_bind. apply bwp_verifyLabels; [intros o' e Hd _; apply bwp_ret, stopped_failed; [eauto using drift_trans|done]|].
  intros [x t] D2 Hex _. cbn in Hex. apply (drift_trans _ _ _ D1) in D2. clear D1.
  assert (∀ errs o', (errs = [] → o' = None) → (drift o o' ∨ no_task o') → stopped executionID o errs o') as Hdone.
  { intros errs o' Hg Hs. split; [done|done|]. intros y -> Hy. apply drift_container in D2 as (? & [= ->] & _). done. }
  apply bwp_bind. apply bwp_ask; [done|]. intros [[]|e] o2 [D3 H3]; apply (drift_trans _ _ _ D2) in D3.
  - apply bwp_bind. apply bwp_ask; [done|]. intros [[]|e] o3 D4; [|apply bwp_ret, stopped_failed; [eauto using drift_trans|done]]. apply (drift_trans _ _ _ D3) in D4.
    apply bwp_bind. eapply bwp_mono; [apply Kill_spec|]. intros [|err errs] o4 l4 D5; [|apply bwp_ret, stopped_failed; [eauto using drift_trans|done]].
    apply (drift_trans _ _ _ D4) in D5. apply bwp_bind. apply bwp_ask; [done|]. intros [[]|e] o5 D6; [|apply bwp_ret, stopped_failed; [eauto using drift_trans|done]].
    apply (drift_trans _ _ _ D5) in D6. eapply bwp_mono; [apply Cleanup_spec|]. intros errs o6 l6 [Hg Hs]. apply Hdone; [done|].
    destruct Hs; [left; eauto using drift_trans|by right].
  - destruct e; [|apply bwp_ret, stopped_failed; [done|done]..]. apply bwp_bind. apply bwp_ask; [done|]. intros r3 o3 [H4 H4']%delete_container_gone. apply bwp_ret.
    apply Hdone; [done|]. destruct H4 as [H4| ->]; [left; eauto using drift_trans|by right].
Qed.

End backend.

(** ** A concrete daemon *)

(** Each call takes the next answer of a list: refused without an effect, or
    carried out. *)
Definition toy_daemon : Type := gmap string object * list bool.

Definition answer {A} (d : toy_daemon) (r : result call_error A) (objects : gmap string object) : result call_error A * toy_daemon :=
  match d.2 with
  | true :: more => (Err (Failed "refused"), (d.1, more))
  | _ => (r, (objects, tail d.2))
  end.

Definition toy_perform A (k : call A) (d : toy_daemon) : result call_error A * toy_daemon :=
  match k in call A return result call_error A * toy_daemon with
  | Pull image _ => answer d (Ok image) d.1
  | LoadContainer c => answer d (if decide (is_Some (d.1 !! c)) then Ok tt else Err NotFound) d.1
  | NewContainer c x => match d.1 !! c with Some _ => answer d (Err AlreadyExists) d.1 | None => answer d (Ok tt) (<[c := mkObject x None]> d.1) end
  | Labels c => match d.1 !! c with Some x => answer d (Ok (ct_labels (ob_container x))) d.1 | None => answer d (Err NotFound) d.1 end
  | DeleteContainer c =>
    match d.1 !! c with
    | Some (mkObject _ None) => answer d (Ok tt) (delete c d.1)
    | Some _ => answer d (Err (Failed "task")) d.1
    | None => answer d (Err NotFound) d.1
    end
  | LoadTask c => match d.1 !! c with Some (mkObject _ (Some _)) => answer d (Ok tt) d.1 | _ => answer d (Err NotFound) d.1 end
  | NewTask c _ => match d.1 !! c with Some (mkObject x None) => answer d (Ok tt) (<[c := mkObject x (Some Created)]> d.1) | _ => answer d (Err (Failed "task")) d.1 end
  | WaitTask _ => answer d (Ok tt) d.1
  | KillTask _ => answer d (Ok tt) d.1
  | AwaitExit _ => answer d (Ok tt) d.1
  | TaskStatus c => match d.1 !! c with Some (mkObject _ (Some s)) => answer d (Ok s) d.1 | _ => answer d (Err NotFound) d.1 end
  | StartTask c => match d.1 !! c with Some (mkObject x (Some Created)) => answer d (Ok tt) (<[c := mkObject x (Some Running)]> d.1) | _ => answer d (Err (Failed "task")) d.1 end
  | DeleteTask c _ => match d.1 !! c with Some (mkObject x (Some _)) => answer d (Ok tt) (<[c := mkObject x None]> d.1) | _ => answer d (Err NotFound) d.1 end
  end.

#[local] Instance toy_containerd : Containerd := {| daemon := toy_daemon; containers := fst; perform := toy_perform |}.

#[local] Instance toy_laws : ContainerdLaws.
Proof.
  split; intros A k c [m l] Ht; destruct k; cbn in *; simplify_eq; unfold answer; cbn; repeat case_match; cbn in *; simplify_eq;
    rewrite ?lookup_insert_eq ?lookup_delete_eq ?lookup_insert_ne ?lookup_delete_ne; try congruence; try constructor; eauto using drift_same.
  all: repeat match goal with E : _ !! _ = _ |- context [_ !! _] => rewrite E end; try apply drift_same; try (intros ?; congruence); try by intros ? [= <-].
  all: try (intros _; by apply eq_None_not_Some). all: try (intros _; by intros ? [= <-]). all: by eexists _, Running.
Qed.

#[local] Instance toy_references : References := {| reference_digest image := Some image; digest_valid _ := true |}.

Definition toy_request : StartRequest := mkStart "x1" "run" 1 [] (Some (mkWorkload "sha256:00" ["sleep"] ["1"] ∅ "")) None zero_resources 0.
Definition toy_backend : clientBackend := mkBackend None "" "".
Definition toy_faults : faults := mkFaults false false (fun _ => false) false false None false.
Definition toy_world (answers : list bool) : world := mkWorld _ ((∅, answers) : daemon (Containerd:=toy_containerd)) ∅ false.


