(* ===== verification/Namespace.v ===== *)
(** * Dialling into a container (internal/runtime/containerd: tunnel.go,
      tunnel_linux.go)

    A tunnel stream is connected to a port inside the network namespace of its
    execution.  The namespace is found through the process ID of the task, which
    the kernel may give to another process once the task has exited, and entered
    by a thread that must not be used for anything else while it is there.

    Instants pass with every call.  [holder] says which process has a process ID
    at an instant; a process is a number that is never used again. *)

From stdpp Require Import pretty.
From S2P Require Import Prelude GoStrings Wire Admission AllocTypes Json Sha256 ExecSpec Manager LogMeta LogStore Backend.

(** ** The kernel *)

Class Kernel `{Containerd} := {
  instant : daemon → nat;
  wait : daemon → daemon;                 (* a call of the kernel takes time *)
  kernel_fails : nat → bool;
  holder : nat → Z → option nat;
  netns : nat → nat → nat;                (* the network namespace of a process *)
  task_pid : string → Z;                  (* the task of a container *)
  task_process : string → nat
}.

(** What is relied on: time does not go back, a process that has lost its ID does
    not get it again, and a task that containerd reports as running has its
    process. *)
Class KernelLaws `{Kernel} := {
  instant_perform A (k : call A) d : (instant d ≤ instant (perform A k d).2)%nat;
  instant_wait d : (instant d ≤ instant (wait d))%nat;
  holder_once a b c pid p : holder a pid = Some p → holder c pid = Some p → (a ≤ b ≤ c)%nat → holder b pid = Some p;
  running_holds c d : (perform _ (TaskStatus c) d).1 = Ok Running →
    ∃ t, (instant d ≤ t ≤ instant (perform _ (TaskStatus c) d).2)%nat ∧ holder t (task_pid c) = Some (task_process c)
}.

(** ** The thread that dials (dialNamespace) *)

Record thread := mkThread { th_ns : nat; th_locked : bool }.

Record connection := mkConnection { cn_ns : nat; cn_host : string; cn_port : Z }.

(** Which calls fail. *)
Record dial_faults := mkDialFaults {
  df_open : bool; df_target : bool; df_own : bool; df_enter : bool; df_loopback : bool; df_dial : bool; df_restore : bool
}.

Inductive dial_error :=
| N_Address | N_Port | N_Missing | N_Closed
| N_Backend (e : backend_error)
| N_System
| N_Refused
| N_Joined (dial restore : bool).   (* the errors of the dial and of the restoring, joined *)

(** A goroutine that ends with its thread locked takes the thread with it. *)
Definition dialNamespace (own namespace : nat) (port : Z) (f : dial_faults) : result dial_error connection * thread :=
  let unlocked := mkThread own false in
  if df_open f || df_target f || df_own f then (Err N_System, unlocked)
  else if (namespace =? own)%nat then (Err N_Refused, unlocked)
  else if df_enter f then (Err N_System, unlocked)
  else
    let entered := mkThread namespace true in
    let conn := if df_loopback f || df_dial f then None else Some (mkConnection (th_ns entered) "127.0.0.1" port) in
    if df_restore f then (Err (N_Joined (bool_decide (conn = None)) true), entered)
    else (match conn with Some c => Ok c | None => Err (N_Joined true false) end, unlocked).

(** ** Finding the namespace *)

Section dial.
Context `{Containerd, !ContainerdLaws, !Kernel, !KernelLaws}.

#[local] Existing Instance DM_ret.
#[local] Existing Instance DM_bind.

(** A call of the kernel: whether it succeeds and the instant it looks at. *)
Definition kernel : DM (bool * nat) :=
  fun w => let d := wait (w_daemon w) in ((negb (kernel_fails (instant d)), instant d), mkWorld _ d (w_root w) (h_left w)).

(** [address] is the containerd socket, [own] the namespace of the allocator. *)
Definition dialExecution (address executionID fingerprint : string) (port : Z) (own : nat) (f : dial_faults) : DM (result dial_error connection * option thread) :=
  let fail e := mret (Err e, None) in
  if negb (String.prefix "/" address || String.prefix "unix://" address) then fail N_Address
  else if port =? 0 then fail N_Port
  else
    let c := containerID executionID in
    loaded ← must (LoadContainer c);
    match loaded with Err e => fail (N_Backend e) | Ok _ =>
    labelled ← verifyLabels c executionID fingerprint;
    match labelled with Err e => fail (N_Backend e) | Ok _ =>
    task ← must (LoadTask c);
    match task with Err e => fail (N_Backend e) | Ok _ =>
    status ← must (TaskStatus c);
    match status with Err e => fail (N_Backend e) | Ok s =>
    if negb (bool_decide (s = Running)) || (task_pid c =? 0) then fail N_Missing
    else
      '(ok, t) ← kernel;                                          (* PidfdOpen *)
      match (if ok : bool then holder t (task_pid c) else None) with None => fail N_System | Some pinned =>
      '(ok, t) ← kernel;                                          (* open /proc/<pid>/ns/net *)
      match (if ok : bool then holder t (task_pid c) else None) with None => fail N_System | Some seen =>
      let namespace := netns t seen in
      '(ok, t) ← kernel;                                          (* PidfdSendSignal *)
      if negb (ok && bool_decide (holder t (task_pid c) = Some pinned)) then fail N_Missing
      else
        status ← must (TaskStatus c);
        match status with Err e => fail (N_Backend e) | Ok s =>
        if negb (bool_decide (s = Running)) then fail N_Missing
        else let '(r, th) := dialNamespace own namespace port f in mret (r, Some th)
        end
      end end
    end end end end.

(** [Adapter.DialExecution]: only for an execution the manager tracks as live. *)
Definition DialExecution (m : executionManager) (address executionID : string) (port : Z) (own : nat) (f : dial_faults) : DM (result dial_error connection * option thread) :=
  if mg_closed m then mret (Err N_Closed, None)
  else match mg_entries m !! executionID ≫= (mg_heap m !!.) with
  | None => mret (Err N_Missing, None)
  | Some x =>
    if negb (ex_ready x) || ex_done x || ex_stopping x || ex_finishing x then mret (Err N_Missing, None)
    else dialExecution address executionID (ex_fingerprint x) port own f
  end.

(** ** The namespace is the one of the execution *)

Definition at_instant (w : world) : nat := instant (w_daemon w).

(** Everything a call has seen: what [m] answers on [w] satisfies [Q], given that
    instants do not go back. *)
Definition kwp {A} (m : DM A) (Q : A → world → Prop) (w : world) : Prop := (at_instant w ≤ at_instant (m w).2)%nat ∧ Q (m w).1 (m w).2.

Lemma kwp_ret {A} (a : A) (Q : A → world → Prop) w : Q a w → kwp (mret a) Q w.
Proof. by split. Qed.

Lemma kwp_bind {A B} (m : DM A) (g : A → DM B) Q w : kwp m (fun a w' => kwp (g a) Q w') w → kwp (mbind g m) Q w.
Proof. unfold kwp, mbind, DM_bind. destruct (m w) as [a w']. cbn. intros [I1 [I2 Hq]]. split; [lia|done]. Qed.

Lemma kwp_must {A} (k : call A) (Q : result backend_error A → world → Prop) w :
  (∀ r d, perform A k (w_daemon w) = (r, d) → (instant (w_daemon w) ≤ instant d)%nat →
     Q (match r with Ok a => Ok a | Err e => Err (B_Call e) end) (mkWorld _ d (w_root w) (h_left w))) → kwp (must k) Q w.
Proof.
  intros HQ. pose proof (instant_perform A k (w_daemon w)) as Hi. unfold kwp, must, mbind, DM_bind, ask, at_instant. destruct (perform A k (w_daemon w)) as [r d] eqn:E. cbn in *.
  split; [done|by apply HQ].
Qed.

Lemma kwp_kernel (Q : bool * nat → world → Prop) w :
  (∀ ok w', (at_instant w ≤ at_instant w')%nat → Q (ok, at_instant w') w') → kwp kernel Q w.
Proof. intros HQ. pose proof (instant_wait (w_daemon w)) as Hi. unfold kwp, kernel, at_instant. cbn. split; [done|]. by apply (HQ _ (mkWorld _ _ _ _)). Qed.

Lemma kwp_verifyLabels c executionID fingerprint (Q : result backend_error unit → world → Prop) w :
  (∀ e w', (at_instant w ≤ at_instant w')%nat → Q (Err e) w') →
  (∀ w' x, (at_instant w ≤ at_instant w')%nat → at_ w' c = Some x → label executionLabel (ct_labels (ob_container x)) = executionID →
     (fingerprint ≠ "" → label specLabel (ct_labels (ob_container x)) = fingerprint) → Q (Ok tt) w') →
  kwp (verifyLabels c executionID fingerprint) Q w.
Proof.
  intros He Hok. apply kwp_bind. apply kwp_must. intros r d E Hi. pose proof (perform_target _ (Labels c) c (w_daemon w) eq_refl) as [_ Hl]. rewrite E in Hl. cbn in Hl.
  destruct r as [labels|e]; [|apply kwp_ret; by apply He]. destruct Hl as (x & Hx & ->). apply kwp_ret.
  destruct (_ || _) eqn:Hc; [by apply He|]. apply orb_false_iff in Hc as [C1 C2]. apply negb_false_iff, bool_decide_eq_true in C1. apply (Hok _ x); [done..|].
  intros Hne. apply andb_false_iff in C2 as [C2|C2]; apply negb_false_iff, bool_decide_eq_true in C2; done.
Qed.

(** A connection of an execution: made between two instants, to the port, in the
    namespace its process had, which is not the one of the allocator, and to a
    container with its labels. *)
Record confined (executionID fingerprint : string) (port : Z) (own : nat) (conn : connection) (from to : nat) : Prop := {
  cf_process : ∃ t, (from ≤ t ≤ to)%nat ∧ holder t (task_pid (containerID executionID)) = Some (task_process (containerID executionID)) ∧
    cn_ns conn = netns t (task_process (containerID executionID));
  cf_own : cn_ns conn ≠ own;
  cf_port : cn_port conn = port ∧ port ≠ 0 ∧ cn_host conn = "127.0.0.1";
  cf_labels : ∃ (d : daemon) x, (from ≤ instant d ≤ to)%nat ∧ containers d !! containerID executionID = Some x ∧
    label executionLabel (ct_labels (ob_container x)) = executionID ∧ (fingerprint ≠ "" → label specLabel (ct_labels (ob_container x)) = fingerprint)
}.

(** A thread that goes back to the scheduler is in the allocator's namespace. *)
Definition restored (own : nat) (th : option thread) : Prop := ∀ t, th = Some t → th_locked t = false → th_ns t = own.

Lemma dialNamespace_spec own namespace port f :
  let '(r, th) := dialNamespace own namespace port f in
  restored own (Some th) ∧ ∀ conn, r = Ok conn → conn = mkConnection namespace "127.0.0.1" port ∧ namespace ≠ own ∧ th_ns th = own.
Proof.
  unfold dialNamespace, restored. destruct (_ || _); [split; [by intros t [= <-]|done]|]. destruct (Nat.eqb_spec namespace own); [split; [by intros t [= <-]|done]|].
  destruct (df_enter f); [split; [by intros t [= <-]|done]|]. destruct (df_restore f); [split; [by intros t [= <-]|done]|].
  destruct (df_loopback f || df_dial f); (split; [by intros t [= <-]|]); [done|]. by intros conn [= <-].
Qed.

Lemma dialExecution_spec address executionID fingerprint port own f w :
  kwp (dialExecution address executionID fingerprint port own f)
    (fun out w' => restored own out.2 ∧ ∀ conn, out.1 = Ok conn → confined executionID fingerprint port own conn (at_instant w) (at_instant w')) w.
Proof.
  assert (∀ e w', restored own (@None thread) ∧ ∀ conn, (Err e : result dial_error connection) = Ok conn → confined executionID fingerprint port own conn (at_instant w) w') as Hfail by done.
  unfold dialExecution. destruct (negb _); [by apply kwp_ret|]. destruct (Z.eqb_spec port 0) as [|Hport]; [by apply kwp_ret|]. set (c := containerID executionID).
  apply kwp_bind. apply kwp_must. intros [[]|e] d1 _ I1; [|by apply kwp_ret]. apply kwp_bind. apply kwp_verifyLabels; [intros; by apply kwp_ret|]. intros w2 x I2 Hx L1 L2.
  apply kwp_bind. apply kwp_must. intros [[]|e] d3 _ I3; [|by apply kwp_ret]. apply kwp_bind. apply kwp_must. cbn [w_daemon]. intros [s|e] d4 E4 I4; [|by apply kwp_ret].
  case_bool_decide as Hs; [|by apply kwp_ret]. subst s. cbn [negb orb]. destruct (task_pid c =? 0); [by apply kwp_ret|].
  destruct (running_holds c d3) as (t4 & T4 & Ht4); [by rewrite E4|]. rewrite E4 in T4. cbn in T4.
  apply kwp_bind. apply kwp_kernel. intros ok5 w5 I5. cbn beta iota. destruct (if ok5 then _ else _) as [pinned|] eqn:H5; [|by apply kwp_ret].
  apply kwp_bind. apply kwp_kernel. intros ok6 w6 I6. cbn beta iota. destruct (if ok6 then _ else _) as [seen|] eqn:H6; [|by apply kwp_ret].
  apply kwp_bind. apply kwp_kernel. intros ok7 w7 I7. cbn beta iota. destruct (negb _); [by apply kwp_ret|].
  apply kwp_bind. apply kwp_must. intros [s|e] d8 E8 I8; [|by apply kwp_ret]. case_bool_decide as Hs; [|by apply kwp_ret]. subst s. cbn [negb].
  destruct (running_holds c (w_daemon w7)) as (t8 & T8 & Ht8); [by rewrite E8|]. rewrite E8 in T8. cbn in T8.
  pose proof (dialNamespace_spec own (netns (at_instant w6) seen) port f) as Hd. destruct (dialNamespace own (netns (at_instant w6) seen) port f) as [r th]. destruct Hd as [Hr Hc].
  apply kwp_ret. split; [done|]. intros conn Hok. cbn in Hok. destruct (Hc conn Hok) as (-> & Hne & _).
  assert (holder (at_instant w6) (task_pid c) = Some (task_process c)) as H6'.
  { apply (holder_once t4 _ t8); [done|done|]. unfold at_instant in *. cbn in *. lia. }
  assert (seen = task_process c) as -> by (destruct ok6; congruence). unfold at_instant in *. cbn in *. split.
  - exists (instant (w_daemon w6)). split; [lia|]. done.
  - done.
  - done.
  - exists (w_daemon w2), x. split; [lia|]. done.
Qed.

End dial.

(** ** A concrete kernel *)

(** Process 7 has every process ID at every instant. *)
#[local] Existing Instance toy_containerd.
#[local] Existing Instance toy_laws.
#[local] Existing Instance toy_references.

#[local] Instance toy_kernel : Kernel := {|
  instant _ := 0%nat; wait d := d; kernel_fails _ := false; holder _ _ := Some 7%nat; netns _ _ := 5%nat; task_pid _ := 42; task_process _ := 7%nat
|}.

#[local] Instance toy_kernel_laws : KernelLaws.
Proof. split; try done. intros c d _. by exists 0%nat. Qed.

Definition toy_manager : executionManager :=
  mkManager false {["x1" := 0%nat]} [mkExec "fp" true false true [] [] false false [] "x1" 0 false None [] 0] [] false.

Definition started_world : world := (Start toy_backend toy_faults toy_request "fp" (toy_world [])).2.
Definition no_faults : dial_faults := mkDialFaults false false false false false false false.

