(* ===== verification/Calls.v ===== *)
(** * Explicit calls of a run process (client/run.go, client/tunnel.go)

    [Logs] and [OpenTunnel]: one request, and a wait for the reply that carries
    its message ID, while other goroutines handle inbound envelopes.  The texts
    that wrap an error on its way out are left away. *)

From S2P Require Import Prelude GoStrings Ordering Wire Errors Protocol Registry Client ClientInv ClientSafety ClientReplies Controller ControllerSafe.

Section calls.
Context `{Externals, Sources, Network}.

(** The [select] loop of both; [judge] is the body of its receive case. *)
Fixpoint await_reply {A} (judge : Envelope → option (rresult A)) (fuel : nat) (ch : nat) : RM (rresult A) :=
  match fuel with
  | O => mret (Err R_StillRunning)
  | S fuel =>
    p ← select;
    match p with
    | Pick_Done =>
      over ← reads rc_done;
      match over with true => mret (Err (R_Context nw_canceled)) | false => await_reply judge fuel ch end
    | Pick_Timer => mret (Err R_Timeout)
    | Pick_Waiter =>
      r ← receive ch;
      match r ≫= judge with Some outcome => mret outcome | None => await_reply judge fuel ch end
    | _ => await_reply judge fuel ch
    end
  end.

Definition exchange {A} (request : CM outgoing) (judge : Envelope → option (rresult A)) (fuel : nat) : RM (rresult A) :=
  asked ← core request;
  match asked with
  | Err e => mret (Err (R_Core e))
  | Ok (destination, envelope) =>
    ch ← registerWaiter (env_message_id envelope);
    outcome ← (rtry _ ← send destination envelope; await_reply judge fuel ch);
    cancelWaiter (env_message_id envelope) ch;;
    mret outcome
  end.

(** *** [Logs]; the lock it holds keeps other calls of it away. *)

Definition judge_logs (e : Envelope) : option (rresult ExecutionLogsResponse) :=
  match RemoteFailure e with
  | Some err => Some (Err err)
  | None => match env_payload e with Some (P_ExecutionLogsResponse (Some chunk)) => Some (Ok chunk) | _ => None end
  end.

Definition Logs (fuel : nat) (executionID stream : string) (offset maxBytes : Z) (wait : duration) : RM (rresult ExecutionLogsResponse) :=
  if wait <? 0 then mret (Err (R_Options "log wait must be positive"))
  else exchange (Client.Logs executionID stream offset maxBytes) judge_logs fuel.

(** *** [OpenTunnel] *)

Record TunnelEndpoint := mkEndpoint { te_Address : bytes; te_PubKey : bytes }.

Definition judge_ack (executionID : string) (e : Envelope) : option (rresult TunnelEndpoint) :=
  match RemoteFailure e with
  | Some err => Some (Err err)
  | None =>
    match env_payload e with
    | Some (P_ExecutionTunnelOpenAck (Some ack)) =>
      if bool_decide (ta_execution_id ack = executionID) then
        if (zlen (ta_allocator_endpoint ack) =? 0) || (zlen (ta_allocator_endpoint_pubkey ack) =? 0)
        then Some (Err (R_Options "allocator returned no tunnel endpoint"))
        else Some (Ok (mkEndpoint (ta_allocator_endpoint ack) (ta_allocator_endpoint_pubkey ack)))
      else None
    | _ => None
    end
  end.

Definition OpenTunnel (fuel : nat) (executionID : string) (peerKey : bytes) (ports : list Z) : RM (rresult TunnelEndpoint) :=
  exchange (TunnelOpen executionID peerKey (map mkTarget ports)) (judge_ack executionID) fuel.

(** ** What the channels hold *)

(** The allocator that holds an execution sent [e]. *)
Definition holder_sent (c : Client) (executionID : string) (e : Envelope) : Prop :=
  ∃ x, cl_executions c !! executionID = Some x ∧ xr_allocatorID x = env_sender e.

(** An accepted reply is valid and, if it is a chunk or an endpoint, comes from
    the allocator that holds the execution it names. *)
Definition sound (c : Client) (e : Envelope) : Prop :=
  ValidateEnvelope (Some e) = Ok tt ∧
  match env_payload e with
  | Some (P_ExecutionLogsResponse (Some r)) => holder_sent c (lr_execution_id r) e
  | Some (P_ExecutionTunnelOpenAck (Some a)) => holder_sent c (ta_execution_id a) e
  | _ => True
  end.

Definition answers (q : ExecutionLogsRequest) (r : ExecutionLogsResponse) : Prop :=
  lr_execution_id r = lq_execution_id q ∧ lr_stream r = lq_stream q ∧ lr_offset r = lq_offset q ∧ zlen (lr_data r) ≤ lq_max_bytes q.

(** An accepted chunk answers the outstanding log request. *)
Definition on_request (c : Client) (e : Envelope) : Prop :=
  ∀ r, env_payload e = Some (P_ExecutionLogsResponse (Some r)) →
  env_correlation_id e = cl_logMessageID c ∧ ∃ q, cl_logRequest c = Some q ∧ answers q r.

Definition same_log (c c' : Client) : Prop := cl_logMessageID c' = cl_logMessageID c ∧ cl_logRequest c' = cl_logRequest c.

Lemma holder_kept c c' id e : kept same_assignment c c' → holder_sent c id e → holder_sent c' id e.
Proof.
  intros Hk (x & Hx & Ha). destruct (Hk _ _ Hx) as (x' & Hx' & _ & _ & _ & Hal & _). exists x'. split; [done|congruence].
Qed.

Lemma kept_trans c1 c2 c3 : kept same_assignment c1 c2 → kept same_assignment c2 c3 → kept same_assignment c1 c3.
Proof.
  intros H12 H23 id x Hx. destruct (H12 id x Hx) as (y & Hy & Hxy). destruct (H23 id y Hy) as (z & Hz & Hyz). exists z.
  split; [done|]. unfold same_assignment in *. destruct_and!. split_and!; congruence.
Qed.

Lemma kept_advances c c' : kept advances c c' → kept same_assignment c c'.
Proof. intros Hk id x Hx. destruct (Hk id x Hx) as (y & Hy & Ha & _). by exists y. Qed.

Lemma sound_kept c c' e : kept same_assignment c c' → sound c e → sound c' e.
Proof. intros Hk [Hv Hs]. split; [done|]. repeat case_match; try done; exact (holder_kept c c' _ e Hk Hs). Qed.

(** The log request of a client is changed by [Logs] alone. *)
Lemma error_fold_log sender id code l acc : same_log acc.2 (fold_left (execution_authority sender id code) l acc).2.
Proof.
  unfold same_log. revert acc. induction l as [|x l IH]; intros acc; [done|]. cbn. destruct (IH (execution_authority sender id code acc x)) as [-> ->].
  unfold execution_authority, markRenewalFailureLocked. by repeat case_match.
Qed.

Lemma Handle_log c e : cwp (Handle e) (fun _ c' => same_log c c') c.
Proof.
  unfold Handle. destruct (ValidateEnvelope e) as [[]|err] eqn:Hv; [|by apply cwp_ret]. destruct e as [e|]; [|by apply cwp_ret].
  destruct (env_payload e) as [[| [] | | | [] | | | [] | [] | | [] | | [] | | []]|]; try (by apply cwp_ret).
  - unfold handleOfferLocked. cwp_steps; try done. eapply cwp_mono; [apply newRelease_pure|]. intros [i|err] c' ->; cwp_steps; done.
  - unfold handleStateLocked. cwp_steps; done.
  - unfold handleReleaseAckLocked. cwp_steps; done.
  - unfold handleErrorLocked. apply cwp_bind, cwp_get. cbv zeta.
    match goal with |- context [fold_left ?g ?l ?a] => match a with (_, c) => pose proof (error_fold_log (env_sender e) (env_correlation_id e) (ce_code c0) l a) as Hf end end.
    destruct (fold_left (execution_authority _ _ _) _ _) as [auth c']. by apply cwp_bind, cwp_put, cwp_ret.
  - unfold handleLogsLocked. cwp_steps; done.
  - unfold handleRenewAckLocked. cwp_steps; done.
  - unfold handleTunnelOpenAckLocked. cwp_steps; done.
Qed.

(** What an accepted envelope has gone through. *)
Lemma Handle_accepts c e : cwp (Handle (Some e)) (fun err c' => err = None → sound c' e ∧ on_request c' e) c.
Proof.
  unfold Handle, sound, on_request. destruct (ValidateEnvelope (Some e)) as [[]|err] eqn:Hv; [|by apply cwp_ret].
  destruct (env_payload e) as [[| [] | | | [] | | | [] | [] | | [] | | [] | | []]|]; try (by apply cwp_ret);
    try (intros n _; split; [done|by intros ? [=]]).
  - unfold handleLogsLocked. apply cwp_bind, cwp_get. destruct (logAuthorityLocked c e) eqn:Ha; [|by apply cwp_ret].
    unfold logAuthorityLocked in Ha. destruct (cl_logRequest c) as [q|] eqn:Hq; [|done]. cbn [negb].
    destruct (cl_executions c !! lq_execution_id q) as [x|] eqn:Hx; [|by rewrite andb_false_r in Ha]. guards.
    destruct (_ || _) eqn:Hm; apply cwp_ret; [done|]. intros _. guards. split.
    + split; [done|]. exists x. split; [congruence|done].
    + intros r [= <-]. split; [done|]. exists q. split; [done|]. split_and!; [done|done|lia|lia].
  - unfold handleTunnelOpenAckLocked. cwp_steps; try done. intros _. guards. split; [|by intros ? [=]]. split; [done|]. eexists. split; [eassumption|done].
Qed.

(** ** Other goroutines *)

Lemma dispatch_lookup e l (chans : list (option Envelope)) i x :
  fold_left (fun chans ch => alter (offer_channel e) ch chans) l chans !! i = Some (Some x) →
  chans !! i = Some (Some x) ∨ (i ∈ l ∧ x = e).
Proof.
  revert chans. induction l as [|ch l IH]; intros chans Hx; [by left|]. cbn in Hx. destruct (IH _ Hx) as [Hl|[Hin ->]]; [|right; set_solver].
  destruct (decide (ch = i)) as [->|Hne]; [|rewrite list_lookup_alter_ne // in Hl; by left].
  rewrite list_lookup_alter_eq in Hl. destruct (chans !! i) as [[held|]|]; cbn in Hl; [by left|right; split; [set_solver|congruence]|done].
Qed.

Lemma dispatch_length e l (chans : list (option Envelope)) :
  length (fold_left (fun chans ch => alter (offer_channel e) ch chans) l chans) = length chans.
Proof. revert chans. induction l as [|ch l IH]; intros chans; [done|]. cbn. by rewrite IH length_alter. Qed.

(** Another goroutine's step, as the waiting goroutine sees it: records are kept,
    the outstanding log request is not touched, and what comes into a channel was
    accepted and carries the ID the channel was registered for. *)
Record moved (s s' : Controller) : Prop := {
  mv_core : kept same_assignment (rc_core s).1 (rc_core s').1;
  mv_log : same_log (rc_core s).1 (rc_core s').1;
  mv_waiters : rc_waiters s' = rc_waiters s;
  mv_length : length (rc_chans s') = length (rc_chans s);
  mv_chans i e : rc_chans s' !! i = Some (Some e) →
    rc_chans s !! i = Some (Some e) ∨
    (i ∈ default [] (rc_waiters s !! env_correlation_id e) ∧ sound (rc_core s').1 e ∧ on_request (rc_core s').1 e)
}.

Lemma moved_core {A} (m : CM A) s : (∀ c, cwp m (fun _ c' => kept same_assignment c c' ∧ same_log c c') c) → moved s (upd_core (m (rc_core s)).2 s).
Proof.
  intros Hm. destruct (rc_core s) as [c n] eqn:Hc. destruct (Hm c n) as [Hk Hl]. split; cbn; rewrite ?Hc; try done. by left.
Qed.

Lemma handleEnvelope_moved e route s : moved s (handleEnvelope e route s).
Proof.
  unfold handleEnvelope.
  set (m := match route with Some d => RegisterAllocator (mkRoute (env_sender e) d 0 None None "" 0 "") | None => mret (Ok tt) end : CM (result client_error unit)).
  assert (match route with Some d => RegisterAllocator (mkRoute (env_sender e) d 0 None None "" 0 "") (rc_core s) | None => (Ok tt, rc_core s) end = m (rc_core s)) as ->
    by (unfold m; by destruct route).
  assert (∀ c, cwp m (fun _ c' => kept same_assignment c c' ∧ same_log c c') c) as Hm.
  { intros c. pose proof (kept_refl same_assignment c same_assignment_refl) as Hsame. unfold m. destruct route; [|by apply cwp_ret].
    unfold RegisterAllocator. cwp_steps; done. }
  pose proof (moved_core m s Hm) as Hreg. destruct (m (rc_core s)) as [[u|err] k]; cbn in Hreg; [|done].
  destruct k as [c n]. pose proof (Handle_advances c (Some e) n) as Ha. pose proof (Handle_log c (Some e) n) as Hl. pose proof (Handle_accepts c e n) as Hs.
  destruct (Handle (Some e) (c, n)) as [err [c' n']] eqn:Hh. cbn in Ha, Hl, Hs.
  assert (moved s (upd_core (c', n') s)) as Hcore.
  { destruct Hreg as [C1 L1 W1 N1 X1]. cbn in *. split; cbn; [exact (kept_trans _ _ _ C1 (kept_advances _ _ Ha))| |done|done|by left].
    unfold same_log in *. destruct_and!. split; congruence. }
  destruct err as [err|]; [done|]. destruct (Hs eq_refl) as [Hsound Hreq]. clear Hs.
  assert (moved s (if is_state e then upd_changed true (upd_core (c', n') s) else upd_core (c', n') s)) as Hchg
    by (destruct (is_state e); [by destruct Hcore|done]).
  assert ((rc_core (if is_state e then upd_changed true (upd_core (c', n') s) else upd_core (c', n') s)).1 = c') as Hc' by (by destruct (is_state e)).
  revert Hchg Hc'. generalize (if is_state e then upd_changed true (upd_core (c', n') s) else upd_core (c', n') s). intros t [C L W N X] Hc'.
  unfold dispatchEnvelope. case_bool_decide; [by split|]. split; cbn; [done|done|done|by rewrite dispatch_length|].
  intros i x Hx. destruct (dispatch_lookup _ _ _ _ _ Hx) as [Hold|[Hin ->]]; [by apply X|]. right. rewrite -W Hc'. done.
Qed.

Definition no_logs (h : happening) : Prop := match h with H_Logs _ _ _ _ => False | _ => True end.

Lemma happen_moved s h : no_logs h → moved s (happen s h).
Proof.
  destruct h as [e route|id stream offset limit|id|id key targets|]; intros Hn; cbn; [apply handleEnvelope_moved|done|..];
    apply moved_core; intros c; pose proof (kept_refl same_assignment c same_assignment_refl) as Hsame.
  - unfold Client.Inspect. cwp_steps; try done; (split; [|done]); eapply kept_put; try eassumption; [apply same_assignment_refl|done].
  - unfold TunnelOpen. cwp_steps; done.
  - unfold PendingReleases. cwp_steps; done.
Qed.

(** ** The waiting goroutine *)

Definition chans_sound (s : Controller) : Prop := ∀ i e, rc_chans s !! i = Some (Some e) → sound (rc_core s).1 e.

Lemma moved_sound s s' : moved s s' → chans_sound s → chans_sound s'.
Proof. intros [Hc _ _ _ Hch] Hs i e Hi. destruct (Hch i e Hi) as [Hold|(_ & ? & _)]; [|done]. exact (sound_kept _ _ _ Hc (Hs i e Hold)). Qed.

Lemma Logs_kept id stream offset limit c : cwp (Client.Logs id stream offset limit) (fun _ c' => kept same_assignment c c') c.
Proof. pose proof (kept_refl same_assignment c same_assignment_refl) as Hsame. unfold Client.Logs. cwp_steps; done. Qed.

Lemma core_sound {A} (m : CM A) s k a : (∀ c, cwp m (fun _ c' => kept same_assignment c c') c) → m (rc_core s) = (a, k) →
  chans_sound s → chans_sound (upd_core k s).
Proof.
  intros Hm Hk Hs i e Hi. cbn in Hi. apply (sound_kept (rc_core s).1); [|exact (Hs i e Hi)]. destruct (rc_core s) as [c n].
  specialize (Hm c n). rewrite Hk in Hm. exact Hm.
Qed.

Lemma happen_sound s h : chans_sound s → chans_sound (happen s h).
Proof.
  intros Hs. destruct h as [e route|id stream offset limit|id|id key targets|] eqn:Hh; rewrite -?Hh; try (apply (moved_sound s); [apply happen_moved; by rewrite Hh|done]).
  rewrite Hh. cbn. destruct (Client.Logs id stream offset limit (rc_core s)) as [a k] eqn:He. exact (core_sound _ s k a (Logs_kept id stream offset limit) He Hs).
Qed.

(** A property that the other goroutines keep. *)
Definition lasts (I : Controller → Prop) : Prop :=
  (∀ n h s, h ∈ nw_happens n → I s → I (happen s h)) ∧ (∀ b s, I s → I (upd_context_done b s)) ∧ (∀ x s, I s → I (upd_trace x s)).

Lemma lasts_sound : lasts chans_sound.
Proof. split_and!; [|done|done]. intros n h s _. apply happen_sound. Qed.

Lemma rwp_stays I s : lasts I → I s → rwp interfere (fun _ s' => I s') s.
Proof.
  intros (Hh & Hd & _) Hs n. cbn. apply Hd. assert (∀ h, h ∈ nw_happens n → h ∈ nw_happens n) as Hall by done.
  revert s Hs Hall. generalize (nw_happens n) at 1 3. intros l. induction l as [|h l IH]; intros s Hs Hall; [done|].
  cbn. apply IH; [apply (Hh n); [set_solver|done]|set_solver].
Qed.

Definition emptied (ch : nat) (s : Controller) : Controller := upd_waiters (rc_waiters s) (<[ch := None]> (rc_chans s)) s.
Definition listened (id : string) (s : Controller) : Controller :=
  upd_waiters (<[id := default [] (rc_waiters s !! id) ++ [length (rc_chans s)]]> (rc_waiters s)) (rc_chans s ++ [None]) s.

Lemma rwp_picked (Q : pick → Controller → Prop) s : (∀ p, Q p s) → rwp picked Q s.
Proof. intros HQ n. apply HQ. Qed.
Lemma rwp_receive ch (Q : option Envelope → Controller → Prop) s : Q (mjoin (rc_chans s !! ch)) (emptied ch s) → rwp (receive ch) Q s.
Proof. by intros HQ n. Qed.
Lemma rwp_new_channel id (Q : nat → Controller → Prop) s : Q (length (rc_chans s)) (listened id s) → rwp (new_channel id) Q s.
Proof. by intros HQ n. Qed.
Lemma rwp_on_core {A} (m : CM A) (Q : A → Controller → Prop) s : (∀ a k, m (rc_core s) = (a, k) → Q a (upd_core k s)) → rwp (on_core m) Q s.
Proof. intros HQ n. unfold on_core. cbn. destruct (m (rc_core s)) as [a k] eqn:He. by apply HQ. Qed.
Lemma rwp_answer (Q : rresult unit → Controller → Prop) s : (∀ r, Q r s) → rwp answer Q s.
Proof. intros HQ n. apply HQ. Qed.
Lemma rwp_after {A} I (m : RM A) (Q : A → Controller → Prop) s : lasts I → I s → (∀ s', I s' → rwp m Q s') → rwp (interfere;; m) Q s.
Proof. intros Hl Hs Hm. apply rwp_bind. eapply rwp_mono; [exact (rwp_stays I s Hl Hs)|]. intros ? s' Hs'. by apply Hm. Qed.

(** The reply a call returns had property [P] when it was received. *)
Definition got {A} (P : Client → Envelope → Prop) (judge : Envelope → option (rresult A)) (r : rresult A) (s : Controller) : Prop :=
  ∀ a, r = Ok a → ∃ e, P (rc_core s).1 e ∧ judge e = Some (Ok a).

Lemma rwp_await {A} (I : Controller → Prop) P (judge : Envelope → option (rresult A)) fuel ch s :
  lasts I → (∀ s, I s → I (emptied ch s)) → (∀ s e, I s → rc_chans s !! ch = Some (Some e) → P (rc_core s).1 e) → I s →
  rwp (await_reply judge fuel ch) (got P judge) s.
Proof.
  intros Hl Hem HP. revert s. induction fuel as [|fuel IH]; intros s Hs; [by apply rwp_ret|]. cbn [await_reply].
  apply rwp_bind. apply (rwp_after I); [done|done|]. intros s1 Hs1. apply rwp_picked. intros [| | | | |v]; try by apply IH.
  - apply rwp_bind, rwp_reads. destruct (rc_done s1); [by apply rwp_ret|by apply IH].
  - by apply rwp_ret.
  - apply rwp_bind, rwp_receive. destruct (rc_chans s1 !! ch) as [[e|]|] eqn:He; cbn; [|by apply IH, Hem..].
    destruct (judge e) as [outcome|] eqn:Hj; [|by apply IH, Hem]. apply rwp_ret. intros a ->. exists e. split; [exact (HP s1 e Hs1 He)|done].
Qed.

(** A call: [I1] holds once the request is recorded, [I2] once the channel is
    registered. *)
Lemma rwp_exchange {A} (I0 : Controller → Prop) (I1 : string → Controller → Prop) (I2 : string → nat → Controller → Prop)
    P request (judge : Envelope → option (rresult A)) fuel s :
  lasts I0 → (∀ id, lasts (I1 id)) → (∀ id ch, lasts (I2 id ch)) →
  (∀ s d e k, I0 s → request (rc_core s) = (Ok (d, e), k) → I1 (env_message_id e) (upd_core k s)) →
  (∀ id s, I1 id s → I2 id (length (rc_chans s)) (listened id s)) →
  (∀ id ch s, I2 id ch s → I2 id ch (emptied ch s)) →
  (∀ id ch s e, I2 id ch s → rc_chans s !! ch = Some (Some e) → P (rc_core s).1 e) → I0 s →
  rwp (exchange request judge fuel) (got P judge) s.
Proof.
  intros L0 L1 L2 Hreq Hlis Hem HP Hs. apply rwp_bind. apply (rwp_after I0); [done|done|]. intros s1 Hs1. apply rwp_on_core.
  intros [[d e]|err] k Hk; [|by apply rwp_ret]. apply Hreq in Hk; [|done]. apply rwp_bind.
  apply (rwp_after (I1 (env_message_id e))); [done|done|]. intros s2 Hs2. apply rwp_new_channel. apply Hlis in Hs2.
  set (I := I2 (env_message_id e) (length (rc_chans s2))) in *. assert (lasts I) as L by apply L2. apply rwp_bind, rwp_bind.
  apply (rwp_after I); [done|done|]. intros s3 Hs3. apply rwp_bind, rwp_modify.
  assert (I (upd_trace (N_Send d e) s3)) as Hs4 by (destruct L as (_ & _ & Ht); by apply Ht).
  apply rwp_answer. intros [[]|err]; [|by apply rwp_ret, rwp_bind, rwp_modify, rwp_ret].
  eapply rwp_mono; [exact (rwp_await I P judge fuel _ _ L (Hem _ _) (HP _ _) Hs4)|]. intros r s5 Hg. by apply rwp_bind, rwp_modify, rwp_ret.
Qed.

(** A call ends when its timer has fired: its turns are the operations after the
    request, the registration and the sending. *)
Lemma await_returns {A} (judge : Envelope → option (rresult A)) fuel ch s n j :
  (∀ e, judge e ≠ Some (Err R_StillRunning)) → (j < fuel)%nat → nw_pick (S (n + j)) = Pick_Timer →
  (await_reply judge fuel ch (s, n)).1 ≠ Err R_StillRunning.
Proof.
  intros Hj. revert s n j. induction fuel as [|fuel IH]; intros s n j Hlt Hp; [lia|]. cbn [await_reply].
  unfold select, picked, mbind, RM_bind. cbn. destruct j as [|j]; [by rewrite Nat.add_0_r in Hp; rewrite Hp|].
  assert (∀ s', (await_reply judge fuel ch (s', S n)).1 ≠ Err R_StillRunning) as Hrest.
  { intros s'. apply (IH s' (S n) j); [lia|]. by rewrite Nat.add_succ_l -Nat.add_succ_r. }
  destruct (nw_pick (S n)); cbn; [destruct (_ || _); [done|apply Hrest]|done| |apply Hrest..].
  match goal with |- context [mjoin ?o] => destruct (mjoin o) as [e|] end; cbn; [|apply Hrest].
  destruct (judge e) as [outcome|] eqn:Ho; [|apply Hrest]. cbn. intros ->. by apply (Hj e).
Qed.

Lemma exchange_returns {A} request (judge : Envelope → option (rresult A)) fuel s n j :
  (∀ e, judge e ≠ Some (Err R_StillRunning)) → (j < fuel)%nat → nw_pick (4 + n + j) = Pick_Timer →
  (exchange request judge fuel (s, n)).1 ≠ Err R_StillRunning.
Proof.
  intros Hj Hlt Hp. unfold exchange, core, registerWaiter, send, on_core, new_channel, answer, mbind, RM_bind. cbn.
  destruct (request _) as [[[d e]|err] k]; [|done]. cbn. destruct (nw_send _) as [b|]; [done|].
  match goal with |- context [await_reply judge fuel ?ch (?s', ?n')] => pose proof (await_returns judge fuel ch s' n' j Hj Hlt Hp) as Hr;
    destruct (await_reply judge fuel ch (s', n')) as [r [s'' n'']] end. exact Hr.
Qed.

(** *** Logs *)

(** The outstanding log request is [q], and the chunk in channel [ch] answers it. *)
Definition asked (q : ExecutionLogsRequest) (s : Controller) : Prop := chans_sound s ∧ cl_logRequest (rc_core s).1 = Some q.

Definition tracked (q : ExecutionLogsRequest) (ch : nat) (s : Controller) : Prop :=
  asked q s ∧
  (∀ e r, rc_chans s !! ch = Some (Some e) → env_payload e = Some (P_ExecutionLogsResponse (Some r)) → answers q r).

Lemma moved_asked q s s' : moved s s' → asked q s → asked q s'.
Proof. intros Hm [Hs Hq]. split; [exact (moved_sound _ _ Hm Hs)|]. by destruct (mv_log _ _ Hm) as [_ ->]. Qed.

Lemma moved_tracked q ch s s' : moved s s' → tracked q ch s → tracked q ch s'.
Proof.
  intros Hm [Ha Hc]. pose proof (moved_asked _ _ _ Hm Ha) as Ha'. split; [done|]. destruct Hm as [_ _ _ _ Ech].
  intros e r He Hr. destruct (Ech ch e He) as [Hold|(_ & _ & Hreq)]; [by apply (Hc e)|].
  destruct (Hreq r Hr) as (_ & q' & Hq' & Hans). destruct Ha' as [_ Hq]. congruence.
Qed.

Lemma lasts_moved (I : Controller → Prop) : (∀ n h, h ∈ nw_happens n → no_logs h) → (∀ s s', moved s s' → I s → I s') →
  (∀ b s, I s → I (upd_context_done b s)) → (∀ x s, I s → I (upd_trace x s)) → lasts I.
Proof. intros Hn HI Hd Ht. split_and!; [|done|done]. intros n h s Hh. apply HI, happen_moved, (Hn n h Hh). Qed.

Lemma sound_listened id s : chans_sound s → chans_sound (listened id s).
Proof.
  intros Hs i e Hi. cbn in *. apply lookup_app_Some in Hi as [Hi|[_ Hi]]; [exact (Hs i e Hi)|]. by apply list_lookup_singleton_Some in Hi as [_ [=]].
Qed.

Lemma sound_emptied ch s : chans_sound s → chans_sound (emptied ch s).
Proof.
  intros Hs i e Hi. cbn in *. destruct (decide (ch = i)) as [->|Hne]; [|rewrite list_lookup_insert_ne // in Hi; exact (Hs i e Hi)].
  apply list_lookup_insert_Some in Hi as [(_ & [=] & _)|[? _]]; done.
Qed.

Lemma Logs_asks id stream offset limit s d e k : chans_sound s → Client.Logs id stream offset limit (rc_core s) = (Ok (d, e), k) →
  asked (mkLogsRequest id stream offset limit) (upd_core k s).
Proof.
  intros Hs Hk. split; [exact (core_sound _ s k _ (Logs_kept id stream offset limit) Hk Hs)|]. cbn. destruct (rc_core s) as [c n].
  assert (cwp (Client.Logs id stream offset limit) (fun r c' => is_ok r = true → cl_logRequest c' = Some (mkLogsRequest id stream offset limit)) c) as Hl
    by (unfold Client.Logs; cwp_steps; done).
  specialize (Hl n). rewrite Hk in Hl. by apply Hl.
Qed.

Lemma judge_logs_ends e : judge_logs e ≠ Some (Err R_StillRunning).
Proof. unfold judge_logs, RemoteFailure. intros Heq. repeat (case_match; simplify_eq). Qed.

Lemma judge_ack_ends id e : judge_ack id e ≠ Some (Err R_StillRunning).
Proof. unfold judge_ack, RemoteFailure. intros Heq. repeat (case_match; simplify_eq). Qed.

Lemma tracked_listened q id s : asked q s → tracked q (length (rc_chans s)) (listened id s).
Proof.
  intros [Hs Hq]. split; [split; [by apply sound_listened|done]|]. intros e r He. cbn in He.
  rewrite lookup_app_r // Nat.sub_diag in He. by cbn in He.
Qed.

Lemma tracked_emptied q ch s : tracked q ch s → tracked q ch (emptied ch s).
Proof.
  intros [[Hs Hq] Hc]. split; [split; [by apply sound_emptied|done]|]. intros e r He. cbn in He.
  apply list_lookup_insert_Some in He as [(_ & [=] & _)|[? _]]; done.
Qed.

(** A chunk of logs is what was asked for: as long as no other log read is
    under way (the call holds a lock), whatever envelopes arrive, a chunk that
    [Logs] returns is for the execution, the stream and the offset of the call,
    holds at most the bytes asked for, passed validation, and was sent by the
    allocator that holds the execution.  The call returns at the latest when its
    timer has fired. *)
Theorem logs_answer fuel id stream offset limit wait s n :
  chans_sound s → (∀ m h, h ∈ nw_happens m → no_logs h) →
  let '(r, (s', _)) := Logs fuel id stream offset limit wait (s, n) in
  (∀ j, (j < fuel)%nat → nw_pick (4 + n + j) = Pick_Timer → r ≠ Err R_StillRunning) ∧
  (∀ chunk, r = Ok chunk →
    answers (mkLogsRequest id stream offset limit) chunk ∧
    ∃ e, env_payload e = Some (P_ExecutionLogsResponse (Some chunk)) ∧ ValidateEnvelope (Some e) = Ok tt ∧ holder_sent (rc_core s').1 id e).
Proof.
  intros Hs Hn. unfold Logs. destruct (wait <? 0) eqn:Hw; [done|]. set (q := mkLogsRequest id stream offset limit).
  pose proof (fun j => exchange_returns (Client.Logs id stream offset limit) judge_logs fuel s n j judge_logs_ends) as Hret.
  pose proof (rwp_exchange chans_sound (fun _ => asked q) (fun _ => tracked q)
    (fun c e => sound c e ∧ ∀ r, env_payload e = Some (P_ExecutionLogsResponse (Some r)) → answers q r)
    (Client.Logs id stream offset limit) judge_logs fuel s lasts_sound
    (fun _ => lasts_moved _ Hn (moved_asked q) (fun b s Hs => Hs) (fun x s Hs => Hs))
    (fun _ ch => lasts_moved _ Hn (moved_tracked q ch) (fun b s Hs => Hs) (fun x s Hs => Hs))
    (Logs_asks id stream offset limit) (tracked_listened q) (fun _ => tracked_emptied q)
    (fun _ ch s e Ht He => conj (proj1 (proj1 Ht) ch e He) (fun r => proj2 Ht e r He)) Hs n) as Hx.
  destruct (exchange _ judge_logs fuel (s, n)) as [r [s' n']]. split; [exact Hret|]. cbn in Hx. intros chunk ->.
  destruct (Hx chunk eq_refl) as (e & ([Hv Hh] & Hans) & Hj). unfold judge_logs in Hj. repeat (case_match; simplify_eq).
  specialize (Hans _ eq_refl). split; [done|]. exists e. destruct Hans as [Hid _]. cbn in Hid. by rewrite -Hid.
Qed.

Lemma TunnelOpen_kept id key targets c : cwp (TunnelOpen id key targets) (fun _ c' => kept same_assignment c c') c.
Proof. pose proof (kept_refl same_assignment c same_assignment_refl). unfold TunnelOpen. cwp_steps; done. Qed.

(** The allocator that holds an execution named this endpoint for it. *)
Definition named (c : Client) (executionID : string) (endpoint : TunnelEndpoint) : Prop :=
  te_Address endpoint ≠ [] ∧ te_PubKey endpoint ≠ [] ∧
  ∃ e a, env_payload e = Some (P_ExecutionTunnelOpenAck (Some a)) ∧ ValidateEnvelope (Some e) = Ok tt ∧
    endpoint = mkEndpoint (ta_allocator_endpoint a) (ta_allocator_endpoint_pubkey a) ∧ holder_sent c executionID e.

Lemma OpenTunnel_named fuel id key ports s : chans_sound s →
  rwp (OpenTunnel fuel id key ports) (fun r s' => ∀ endpoint, r = Ok endpoint → named (rc_core s').1 id endpoint) s.
Proof.
  intros Hs. set (request := TunnelOpen id key (map mkTarget ports)).
  eapply rwp_mono; [exact (rwp_exchange chans_sound (fun _ => chans_sound) (fun _ _ => chans_sound) sound request (judge_ack id) fuel s
    lasts_sound (fun _ => lasts_sound) (fun _ _ => lasts_sound)
    (fun s d e k Hs He => core_sound request s k _ (TunnelOpen_kept _ _ _) He Hs)
    sound_listened (fun _ => sound_emptied) (fun _ ch s e Hs He => Hs ch e He) Hs)|].
  intros r s' Hx endpoint ->. destruct (Hx endpoint eq_refl) as (e & [Hv Hh] & Hj). unfold judge_ack in Hj. destruct (RemoteFailure e); [done|].
  destruct (env_payload e) as [[| | | | | | | | | | | | | |[a|]]|] eqn:Hp; try done. case_bool_decide as Hid; [|done].
  destruct (_ || _) eqn:Hlen; [done|]. injection Hj as <-. unfold named. cbn. split_and!.
  - intros Hnil. by rewrite Hnil in Hlen.
  - intros Hnil. rewrite Hnil in Hlen. by rewrite orb_true_r in Hlen.
  - exists e, a. rewrite -Hid. by rewrite Hp.
Qed.

(** What a call keeps. *)
Lemma exchange_stays {A} (I : Controller → Prop) request (judge : Envelope → option (rresult A)) fuel s : lasts I →
  (∀ s s', rc_core s' = rc_core s → (∀ i e, rc_chans s' !! i = Some (Some e) → rc_chans s !! i = Some (Some e)) → I s → I s') →
  (∀ s a k, I s → request (rc_core s) = (a, k) → I (upd_core k s)) → I s → rwp (exchange request judge fuel) (fun _ s' => I s') s.
Proof.
  intros L HI Hreq Hs. apply rwp_bind; apply (rwp_after I); [done|done|]. intros s1 Hs1. apply rwp_on_core.
  intros r k Hk. apply (Hreq s1 r k Hs1) in Hk. destruct r as [[d e]|err]; [|by apply rwp_ret]. apply rwp_bind; apply (rwp_after I); [done|done|]. intros s2 Hs2.
  apply rwp_new_channel. assert (I (listened (env_message_id e) s2)) as Hs3.
  { revert Hs2. apply HI; [done|]. intros i x Hx. cbn in Hx. apply lookup_app_Some in Hx as [Hx|[_ Hx]]; [done|].
    by apply list_lookup_singleton_Some in Hx as [_ [=]]. }
  assert (∀ (outcome : rresult A) s', I s' → rwp (cancelWaiter (env_message_id e) (length (rc_chans s2));; mret outcome) (fun _ s' => I s') s') as Hend
    by (intros outcome s' Hs'; apply rwp_bind, rwp_modify, rwp_ret; by apply (HI s')).
  apply rwp_bind, rwp_bind; apply (rwp_after I); [done|done|]. intros s4 Hs4. apply rwp_bind, rwp_modify, rwp_answer.
  assert (I (upd_trace (N_Send d e) s4)) as Hs5 by (by apply (HI s4)).
  intros [[]|err]; [|by apply rwp_ret, Hend]. eapply rwp_mono; [|intros r s'; apply Hend].
  generalize (upd_trace (N_Send d e) s4) Hs5. clear - L HI. induction fuel as [|fuel IH]; intros s Hs; [by apply rwp_ret|]. cbn [await_reply].
  apply rwp_bind; apply (rwp_after I); [done|done|]. intros s1 Hs1. apply rwp_picked. intros [| | | | |v]; try by apply IH.
  - apply rwp_bind, rwp_reads. destruct (rc_done s1); [by apply rwp_ret|by apply IH].
  - by apply rwp_ret.
  - apply rwp_bind, rwp_receive. assert (I (emptied (length (rc_chans s2)) s1)) as Hs6.
    { revert Hs1. apply HI; [done|]. intros i x Hx. cbn in Hx. apply list_lookup_insert_Some in Hx as [(_ & [=] & _)|[_ ?]]; done. }
    destruct (_ ≫= judge); [by apply rwp_ret|by apply IH].
Qed.

Definition on_from (s s' : Controller) : Prop := chans_sound s' ∧ kept same_assignment (rc_core s).1 (rc_core s').1.

Lemma cwp_kept {A} (m : CM A) k : (∀ c, cwp m (fun _ c' => kept same_assignment c c') c) → kept same_assignment k.1 (m k).2.1.
Proof. intros Hm. destruct k as [c n]. exact (Hm c n). Qed.

Lemma happen_kept s h : kept same_assignment (rc_core s).1 (rc_core (happen s h)).1.
Proof.
  destruct h as [e route|id stream offset limit|id|id key targets|] eqn:Hh; rewrite -?Hh;
    try (refine (mv_core _ _ (happen_moved s h _)); by rewrite Hh).
  rewrite Hh. exact (cwp_kept _ _ (Logs_kept id stream offset limit)).
Qed.

Lemma lasts_on_from s : lasts (on_from s).
Proof.
  split_and!; [|done|done]. intros n h s' _ [Hs Hk]. split; [by apply happen_sound|]. exact (kept_trans _ _ _ Hk (happen_kept s' h)).
Qed.

Lemma OpenTunnel_stays fuel id key ports s : chans_sound s → rwp (OpenTunnel fuel id key ports) (fun _ s' => on_from s s') s.
Proof.
  intros Hs. apply (exchange_stays (on_from s)); [apply lasts_on_from|..].
  - intros s1 s2 Hc Hch [H1s H1k]. split; [|by rewrite Hc]. intros i e He. rewrite Hc. exact (H1s i e (Hch i e He)).
  - intros s1 a k [H1s H1k] Hk. split; [exact (core_sound _ s1 k a (TunnelOpen_kept _ _ _) Hk H1s)|].
    pose proof (cwp_kept _ (rc_core s1) (TunnelOpen_kept id key (map mkTarget ports))) as Hs2. rewrite Hk in Hs2. exact (kept_trans _ _ _ H1k Hs2).
  - split; [done|]. apply kept_refl, same_assignment_refl.
Qed.

(** The endpoint a tunnel is opened to is the allocator's own: whatever
    envelopes arrive, an endpoint that [OpenTunnel] returns is not empty and was
    named for this execution in a valid reply of the allocator that holds it.
    The call returns at the latest when its timer has fired. *)
Theorem tunnel_endpoint_authentic fuel id key ports s n :
  chans_sound s →
  let '(r, (s', _)) := OpenTunnel fuel id key ports (s, n) in
  (∀ j, (j < fuel)%nat → nw_pick (4 + n + j) = Pick_Timer → r ≠ Err R_StillRunning) ∧
  (∀ endpoint, r = Ok endpoint → named (rc_core s').1 id endpoint).
Proof.
  intros Hs. pose proof (fun j => exchange_returns (TunnelOpen id key (map mkTarget ports)) (judge_ack id) fuel s n j (judge_ack_ends id)) as Hret.
  pose proof (OpenTunnel_named fuel id key ports s Hs n) as Hx. unfold OpenTunnel in *.
  destruct (exchange _ (judge_ack id) fuel (s, n)) as [r [s' n']]. split; [exact Hret|exact Hx].
Qed.
End calls.
