(* ===== verification/RunTunnel.v ===== *)
(** * The tunnel of a run (client/tunnel.go, client/client.go)

    A [RunTunnel] opens streams to ports of the active execution over one mesh
    pair, which it establishes on demand: it asks the allocator for an endpoint
    ([OpenTunnel]), dials it and names the execution in a preamble.  The client
    registers its tunnels and closes them when it is closed.

    A method that holds the lock of its tunnel to the end is one step; [close]
    releases it before it closes the pair and the edge, which is a step of its
    own, and [Client.Close] is one step and a step per tunnel.  What the mesh
    answers to a [Dial] is part of the step.  The pairs of the mesh write
    preambles and open streams, so the two type assertions of the code hold.

    [h_streams] records the streams opened; it is not part of the program. *)

From S2P Require Import Prelude GoStrings Ordering Wire Errors Protocol Registry Client ClientInv ClientSafety ClientReplies Controller ControllerSafe Calls.

Inductive tunnel_error :=
| T_NoTarget | T_ZeroPort | T_ClientClosed | T_Active                       (* of NewRunTunnel *)
| T_NotAllowed (port : Z) | T_Closed | T_NoExecution | T_Context
| T_Edge | T_Open (e : run_error) | T_Dial | T_Preamble | T_Stream.

Record RunTunnel := mkRunTunnel {
  rt_targets : list Z;
  rt_allowed : gset Z;
  rt_active : string;
  rt_dialer : option nat;
  rt_peerKey : bytes;
  rt_pair : option nat;
  rt_pairExec : string;
  rt_closed : bool
}.

(** A mesh pair: who opened it, over which edge, to which endpoint; the execution
    of an accepted preamble. *)
Record pair := mkPair {
  pr_tunnel : nat;
  pr_edge : nat;
  pr_endpoint : TunnelEndpoint;
  pr_execution : option string;
  pr_open : bool
}.

Record edge := mkEdge { eg_tunnel : nat; eg_open : bool }.

(** The end of [close], after the lock was released. *)
Record teardown := mkTeardown { td_tunnel : nat; td_pair : option nat; td_dialer : option nat; td_unregister : bool }.

Record stream := mkStream { sm_tunnel : nat; sm_pair : nat; sm_execution : string; sm_port : Z }.

Record world := mkWorld {
  w_ctl : Controller * nat;
  w_closed : bool;
  w_runTunnels : list nat;
  w_closing : list nat;                  (* what Client.Close has yet to close *)
  w_tunnels : list RunTunnel;
  w_edges : list edge;
  w_pairs : list pair;
  w_teardowns : list teardown;
  h_streams : list stream
}.

(** What the mesh and the context answer in the course of a [Dial]. *)
Record dialing := mkDialing {
  dl_done : bool;                        (* ctx.Err() is not nil *)
  dl_edge : option bytes;                (* newEdge: the key of the node *)
  dl_dial : bool;
  dl_preamble : bool;
  dl_stream : bool
}.

Definition put_tunnel (t : nat) (rt : RunTunnel) (w : world) : world :=
  mkWorld (w_ctl w) (w_closed w) (w_runTunnels w) (w_closing w) (<[t := rt]> (w_tunnels w)) (w_edges w) (w_pairs w) (w_teardowns w) (h_streams w).
Definition put_ctl (c : Controller * nat) (w : world) : world :=
  mkWorld c (w_closed w) (w_runTunnels w) (w_closing w) (w_tunnels w) (w_edges w) (w_pairs w) (w_teardowns w) (h_streams w).
Definition put_mesh (edges : list edge) (pairs : list pair) (w : world) : world :=
  mkWorld (w_ctl w) (w_closed w) (w_runTunnels w) (w_closing w) (w_tunnels w) edges pairs (w_teardowns w) (h_streams w).

Definition hang_up (x : pair) : pair := mkPair (pr_tunnel x) (pr_edge x) (pr_endpoint x) (pr_execution x) false.
Definition shut (x : edge) : edge := mkEdge (eg_tunnel x) false.

(** [Close] of a pair and of a dialer. *)
Definition close_pair (p : nat) (w : world) : world := put_mesh (w_edges w) (alter hang_up p (w_pairs w)) w.
Definition close_edge (d : nat) (w : world) : world := put_mesh (alter shut d (w_edges w)) (w_pairs w) w.

(** [newRunTunnel] *)
Fixpoint normalize (targets : list Z) (allowed : gset Z) (normalized : list Z) : result tunnel_error (gset Z * list Z) :=
  match targets with
  | [] => Ok (allowed, normalized)
  | port :: rest =>
    if port =? 0 then Err T_ZeroPort
    else if bool_decide (port ∈ allowed) then normalize rest allowed normalized
    else normalize rest ({[port]} ∪ allowed) (normalized ++ [port])
  end.

Definition newRunTunnel (targets : list Z) : result tunnel_error RunTunnel :=
  match targets with
  | [] => Err T_NoTarget
  | _ =>
    match normalize targets ∅ [] with
    | Err e => Err e
    | Ok (allowed, normalized) => Ok (mkRunTunnel normalized allowed "" None [] None "" false)
    end
  end.

(** [NewRunTunnel] with [registerRunTunnel] *)
Definition NewRunTunnel (targets : list Z) (w : world) : result tunnel_error nat * world :=
  match newRunTunnel targets with
  | Err e => (Err e, w)
  | Ok rt =>
    if w_closed w then (Err T_ClientClosed, w)
    else match w_runTunnels w with
    | _ :: _ => (Err T_Active, w)
    | [] =>
      let t := length (w_tunnels w) in
      (Ok t, mkWorld (w_ctl w) (w_closed w) [t] (w_closing w) (w_tunnels w ++ [rt]) (w_edges w) (w_pairs w) (w_teardowns w) (h_streams w))
    end
  end.

(** [SetActive] *)
Definition SetActive (t : nat) (executionID : string) (w : world) : world :=
  match w_tunnels w !! t with
  | None => w
  | Some rt =>
    if rt_closed rt then w
    else
      let active := trim_space executionID in
      match rt_pair rt with
      | Some p =>
        if bool_decide (rt_pairExec rt = active)
        then put_tunnel t (mkRunTunnel (rt_targets rt) (rt_allowed rt) active (rt_dialer rt) (rt_peerKey rt) (Some p) (rt_pairExec rt) false) w
        else close_pair p (put_tunnel t (mkRunTunnel (rt_targets rt) (rt_allowed rt) active (rt_dialer rt) (rt_peerKey rt) None "" false) w)
      | None => put_tunnel t (mkRunTunnel (rt_targets rt) (rt_allowed rt) active (rt_dialer rt) (rt_peerKey rt) None (rt_pairExec rt) false) w
      end
  end.

Section tunnel.
Context `{Externals, Sources, Network}.

(** The edge of a tunnel, made by the first [establishLocked]. *)
Definition ensure_edge (t : nat) (a : dialing) (w : world) : option (nat * RunTunnel * world) :=
  rt ← w_tunnels w !! t;
  match rt_dialer rt with
  | Some d => Some (d, rt, w)
  | None =>
    match dl_edge a with
    | None => None
    | Some key =>
      let d := length (w_edges w) in
      let rt' := mkRunTunnel (rt_targets rt) (rt_allowed rt) (rt_active rt) (Some d) key (rt_pair rt) (rt_pairExec rt) (rt_closed rt) in
      Some (d, rt', put_tunnel t rt' (put_mesh (w_edges w ++ [mkEdge t true]) (w_pairs w) w))
    end
  end.

(** [establishLocked] *)
Definition establishLocked (fuel : nat) (t : nat) (a : dialing) (w : world) : result tunnel_error nat * world :=
  match ensure_edge t a w with
  | None => (Err T_Edge, w)
  | Some (d, rt, w1) =>
    let '(opened, ctl) := OpenTunnel fuel (rt_active rt) (rt_peerKey rt) (rt_targets rt) (w_ctl w1) in
    let w2 := put_ctl ctl w1 in
    match opened with
    | Err e => (Err (T_Open e), w2)
    | Ok endpoint =>
      if negb (dl_dial a) then (Err T_Dial, w2)
      else
        let p := length (w_pairs w2) in
        if negb (dl_preamble a)
        then (Err T_Preamble, close_pair p (put_mesh (w_edges w2) (w_pairs w2 ++ [mkPair t d endpoint None true]) w2))
        else
          (Ok p, put_tunnel t (mkRunTunnel (rt_targets rt) (rt_allowed rt) (rt_active rt) (rt_dialer rt) (rt_peerKey rt) (Some p) (rt_active rt) (rt_closed rt))
                   (put_mesh (w_edges w2) (w_pairs w2 ++ [mkPair t d endpoint (Some (rt_active rt)) true]) w2))
    end
  end.

(** [OpenStream]: a pair that has ended refuses. *)
Definition open_stream (t p : nat) (execution : string) (port : Z) (a : dialing) (w : world) : option tunnel_error * world :=
  match w_pairs w !! p with
  | Some x =>
    if pr_open x && dl_stream a
    then (None, mkWorld (w_ctl w) (w_closed w) (w_runTunnels w) (w_closing w) (w_tunnels w) (w_edges w) (w_pairs w) (w_teardowns w)
                  (h_streams w ++ [mkStream t p execution port]))
    else (Some T_Stream, w)
  | None => (Some T_Stream, w)
  end.

(** [Dial] *)
Definition Dial (fuel : nat) (t : nat) (port : Z) (a : dialing) (w : world) : option tunnel_error * world :=
  match w_tunnels w !! t with
  | None => (Some T_Closed, w)
  | Some rt =>
    if negb (bool_decide (port ∈ rt_allowed rt)) then (Some (T_NotAllowed port), w)
    else if rt_closed rt then (Some T_Closed, w)
    else if bool_decide (rt_active rt = "") then (Some T_NoExecution, w)
    else if dl_done a then (Some T_Context, w)
    else
      let '(established, w') :=
        match rt_pair rt with
        | Some p => if bool_decide (rt_pairExec rt = rt_active rt) then (Ok p, w) else establishLocked fuel t a w
        | None => establishLocked fuel t a w
        end in
      match established with
      | Err e => (Some e, w')
      | Ok p => open_stream t p (rt_active rt) port a w'
      end
  end.

(** [close]: the locked part, and the rest. *)
Definition close_locked (t : nat) (unregister : bool) (w : world) : world :=
  match w_tunnels w !! t with
  | None => w
  | Some rt =>
    if rt_closed rt then w
    else
      mkWorld (w_ctl w) (w_closed w) (w_runTunnels w) (w_closing w)
        (<[t := mkRunTunnel (rt_targets rt) (rt_allowed rt) (rt_active rt) None (rt_peerKey rt) None (rt_pairExec rt) true]> (w_tunnels w))
        (w_edges w) (w_pairs w) (w_teardowns w ++ [mkTeardown t (rt_pair rt) (rt_dialer rt) unregister]) (h_streams w)
  end.

(** [unregisterRunTunnel] *)
Definition unregisterRunTunnel (t : nat) (w : world) : world :=
  mkWorld (w_ctl w) (w_closed w) (List.filter (fun u => negb (Nat.eqb u t)) (w_runTunnels w)) (w_closing w) (w_tunnels w) (w_edges w) (w_pairs w) (w_teardowns w) (h_streams w).

Definition close_rest (x : teardown) (w : world) : world :=
  let w1 := match td_pair x with Some p => close_pair p w | None => w end in
  let w2 := match td_dialer x with Some d => close_edge d w1 | None => w1 end in
  if td_unregister x then unregisterRunTunnel (td_tunnel x) w2 else w2.

(** [Client.Close]: the part on the client, and the tunnels one by one; the loop
    of the offer releases it stops is in Delivery.v. *)
Definition client_Close (w : world) : world :=
  if w_closed w then w
  else mkWorld (w_ctl w) true [] (w_runTunnels w) (w_tunnels w) (w_edges w) (w_pairs w) (w_teardowns w) (h_streams w).

Inductive label :=
| L_New (targets : list Z)
| L_SetActive (t : nat) (executionID : string)
| L_Dial (fuel : nat) (t : nat) (port : Z) (a : dialing)
| L_Close (t : nat)
| L_Rest (i : nat)
| L_ClientClose
| L_ClientCloses
| L_Ends (p : nat)                       (* a pair ends: its peer, the mesh *)
| L_Core (op : client_op)                (* another method of the client *)
| L_Happen (h : happening).

Definition drop_teardown (i : nat) (w : world) : world :=
  mkWorld (w_ctl w) (w_closed w) (w_runTunnels w) (w_closing w) (w_tunnels w) (w_edges w) (w_pairs w) (delete i (w_teardowns w)) (h_streams w).

Definition step (l : label) (w : world) : world :=
  match l with
  | L_New targets => (NewRunTunnel targets w).2
  | L_SetActive t ex => SetActive t ex w
  | L_Dial fuel t port a => (Dial fuel t port a w).2
  | L_Close t => close_locked t true w
  | L_Rest i => match w_teardowns w !! i with Some x => close_rest x (drop_teardown i w) | None => w end
  | L_ClientClose => client_Close w
  | L_ClientCloses =>
    match w_closing w with
    | [] => w
    | t :: rest =>
      close_locked t false (mkWorld (w_ctl w) (w_closed w) (w_runTunnels w) rest (w_tunnels w) (w_edges w) (w_pairs w) (w_teardowns w) (h_streams w))
    end
  | L_Ends p => close_pair p w
  | L_Core op => put_ctl (upd_core (run_op op (rc_core (w_ctl w).1)).2 (w_ctl w).1, (w_ctl w).2) w
  | L_Happen h => put_ctl (happen (w_ctl w).1 h, (w_ctl w).2) w
  end.

Definition new_world (ctl : Controller * nat) : world := mkWorld ctl false [] [] [] [] [] [] [].

Definition runs (ctl : Controller * nat) (ls : list label) : world := fold_left (fun w l => step l w) ls (new_world ctl).
End tunnel.
