(* ===== verification/RunTunnelSafe.v ===== *)
(** * Guarantees of the run tunnel

    Streams lead to declared ports of the execution that was active, over a pair
    whose endpoint the allocator of that execution named; at most one pair and one
    edge of a client is open; and a closed tunnel keeps nothing open.  A pair that
    has ended is not replaced. *)

From S2P Require Import Prelude GoStrings Ordering Wire Errors Protocol Registry Client ClientInv ClientSafety ClientReplies Controller ControllerSafe Calls RunTunnel.

Section safety.
Context `{Externals, Sources, Network}.

(** ** The invariant *)

Record tunnel_ok (es : list edge) (ps : list pair) (t : nat) (rt : RunTunnel) : Prop := {
  to_allowed port : port ∈ rt_allowed rt ↔ port ∈ rt_targets rt;
  to_closed : rt_closed rt = true → rt_pair rt = None ∧ rt_dialer rt = None;
  to_pair p : rt_pair rt = Some p → rt_pairExec rt = rt_active rt ∧
    ∃ x, ps !! p = Some x ∧ pr_tunnel x = t ∧ pr_execution x = Some (rt_pairExec rt);
  to_dialer d : rt_dialer rt = Some d → ∃ g, es !! d = Some g ∧ eg_tunnel g = t
}.

(** A tunnel whose [close] has returned. *)
Definition finished (w : world) (t : nat) : Prop :=
  (∃ rt, w_tunnels w !! t = Some rt ∧ rt_closed rt = true) ∧ t ∉ td_tunnel <$> w_teardowns w.

Definition pair_held (w : world) (t p : nat) : Prop :=
  (∃ rt, w_tunnels w !! t = Some rt ∧ rt_pair rt = Some p) ∨ (∃ x, x ∈ w_teardowns w ∧ td_tunnel x = t ∧ td_pair x = Some p).
Definition edge_held (w : world) (t d : nat) : Prop :=
  (∃ rt, w_tunnels w !! t = Some rt ∧ rt_dialer rt = Some d) ∨ (∃ x, x ∈ w_teardowns w ∧ td_tunnel x = t ∧ td_dialer x = Some d).

Definition stream_ok (w : world) (s : stream) : Prop :=
  ∃ rt x, w_tunnels w !! sm_tunnel s = Some rt ∧ sm_port s ∈ rt_targets rt ∧
    w_pairs w !! sm_pair s = Some x ∧ pr_tunnel x = sm_tunnel s ∧ pr_execution x = Some (sm_execution s).

Record inv (w : world) : Prop := {
  iv_sound : chans_sound (w_ctl w).1;
  iv_last t : (S t < length (w_tunnels w))%nat → finished w t;
  iv_registered t : w_closed w = false → (t < length (w_tunnels w))%nat → t ∈ w_runTunnels w ∨ finished w t;
  iv_tunnel t rt : w_tunnels w !! t = Some rt → tunnel_ok (w_edges w) (w_pairs w) t rt;
  iv_teardown x : x ∈ w_teardowns w → ∃ rt, w_tunnels w !! td_tunnel x = Some rt ∧ rt_closed rt = true;
  iv_nodup : NoDup (td_tunnel <$> w_teardowns w);
  iv_pair p x : w_pairs w !! p = Some x → pr_open x = true → pair_held w (pr_tunnel x) p;
  iv_edge d g : w_edges w !! d = Some g → eg_open g = true → edge_held w (eg_tunnel g) d;
  iv_named p x ex : w_pairs w !! p = Some x → pr_execution x = Some ex → named (rc_core (w_ctl w).1).1 ex (pr_endpoint x);
  iv_streams : Forall (stream_ok w) (h_streams w)
}.

(** ** Changes of the mesh *)

(** A pair (an edge) stays what it is, and may end. *)
Definition pair_later (x x' : pair) : Prop :=
  pr_tunnel x' = pr_tunnel x ∧ pr_endpoint x' = pr_endpoint x ∧ pr_execution x' = pr_execution x ∧ (pr_open x' = true → pr_open x = true).
Definition edge_later (g g' : edge) : Prop := eg_tunnel g' = eg_tunnel g ∧ (eg_open g' = true → eg_open g = true).

Definition pairs_later (ps ps' : list pair) : Prop := ∀ p x, ps !! p = Some x → ∃ x', ps' !! p = Some x' ∧ pair_later x x'.
Definition edges_later (es es' : list edge) : Prop := ∀ d g, es !! d = Some g → ∃ g', es' !! d = Some g' ∧ edge_later g g'.

Lemma pairs_later_app ps l : pairs_later ps (ps ++ l).
Proof. intros p x Hx. exists x. split; [by apply lookup_app_l_Some|done]. Qed.
Lemma edges_later_app es l : edges_later es (es ++ l).
Proof. intros d g Hg. exists g. split; [by apply lookup_app_l_Some|done]. Qed.
Lemma pairs_later_refl ps : pairs_later ps ps.
Proof. intros p x Hx. by exists x. Qed.
Lemma edges_later_refl es : edges_later es es.
Proof. intros d g Hg. by exists g. Qed.
Lemma pairs_later_trans ps1 ps2 ps3 : pairs_later ps1 ps2 → pairs_later ps2 ps3 → pairs_later ps1 ps3.
Proof.
  intros H12 H23 p x Hx. destruct (H12 p x Hx) as (y & Hy & A). destruct (H23 p y Hy) as (z & Hz & B). exists z.
  split; [done|]. unfold pair_later in *. destruct_and!. split_and!; [congruence..|auto].
Qed.

Lemma pairs_later_hang_up p ps : pairs_later ps (alter hang_up p ps).
Proof.
  intros q x Hx. destruct (decide (p = q)) as [->|Hne]; [rewrite list_lookup_alter_eq Hx|rewrite list_lookup_alter_ne // Hx]; eexists; (split; [done|]); by split_and!.
Qed.
Lemma edges_later_shut d es : edges_later es (alter shut d es).
Proof.
  intros q x Hx. destruct (decide (d = q)) as [->|Hne]; [rewrite list_lookup_alter_eq Hx|rewrite list_lookup_alter_ne // Hx]; eexists; (split; [done|]); by split.
Qed.

Lemma tunnel_ok_later es es' ps ps' t rt : edges_later es es' → pairs_later ps ps' → tunnel_ok es ps t rt → tunnel_ok es' ps' t rt.
Proof.
  intros He Hp [Ha Hc Hpr Hd]. split; [done|done|..].
  - intros p Ep. destruct (Hpr p Ep) as (Hex & x & Hx & Ht & Hx'). split; [done|]. destruct (Hp p x Hx) as (x' & Hl & T & _ & X & _).
    exists x'. split_and!; [done|congruence..].
  - intros d Ed. destruct (Hd d Ed) as (g & Hg & Ht). destruct (He d g Hg) as (g' & Hl & T & _). exists g'. split; [done|congruence].
Qed.

Lemma stream_ok_later w w' s : w_tunnels w = w_tunnels w' → pairs_later (w_pairs w) (w_pairs w') → stream_ok w s → stream_ok w' s.
Proof.
  intros Ht Hp (rt & x & Hrt & Hin & Hx & Hxt & Hxe). destruct (Hp _ _ Hx) as (x' & Hx' & T & _ & X & _). exists rt, x'.
  rewrite -Ht. split_and!; [done|done|done|congruence..].
Qed.

Lemma pairs_back ps ps' p x' : pairs_later ps ps' → length ps' = length ps → ps' !! p = Some x' → ∃ x, ps !! p = Some x ∧ pair_later x x'.
Proof.
  intros Hl Hn Hx'. assert (p < length ps)%nat as Hp by (rewrite -Hn; by apply lookup_lt_Some in Hx').
  apply lookup_lt_is_Some in Hp as [x Hx]. destruct (Hl p x Hx) as (y & Hy & ?). exists x. split; [done|congruence].
Qed.
Lemma edges_back es es' d g' : edges_later es es' → length es' = length es → es' !! d = Some g' → ∃ g, es !! d = Some g ∧ edge_later g g'.
Proof.
  intros Hl Hn Hg'. assert (d < length es)%nat as Hp by (rewrite -Hn; by apply lookup_lt_Some in Hg').
  apply lookup_lt_is_Some in Hp as [g Hg]. destruct (Hl d g Hg) as (y & Hy & ?). exists g. split; [done|congruence].
Qed.

(** Pairs and edges end. *)
Lemma inv_pairs_end w es ps : inv w → edges_later (w_edges w) es → length es = length (w_edges w) →
  pairs_later (w_pairs w) ps → length ps = length (w_pairs w) → inv (put_mesh es ps w).
Proof.
  intros [Hs Hl Hr Ht Htd Hnd Hp He Hn Hst] Le Ne Lp Np. split; cbn; try done.
  - intros t rt Hrt. exact (tunnel_ok_later _ _ _ _ _ _ Le Lp (Ht t rt Hrt)).
  - intros p x' Hx' Ho. destruct (pairs_back _ _ _ _ Lp Np Hx') as (x & Hx & T & _ & _ & O). rewrite T. exact (Hp p x Hx (O Ho)).
  - intros d g' Hg' Ho. destruct (edges_back _ _ _ _ Le Ne Hg') as (g & Hg & T & O). rewrite T. exact (He d g Hg (O Ho)).
  - intros p x' ex Hx' Hex. destruct (pairs_back _ _ _ _ Lp Np Hx') as (x & Hx & _ & E & X & _). rewrite E. apply (Hn p x ex Hx). congruence.
  - apply (Forall_impl _ _ _ Hst). intros y Hy. by apply (stream_ok_later w).
Qed.

Lemma inv_close_pair p w : inv w → inv (close_pair p w).
Proof. intros Hi. apply inv_pairs_end; [done|apply edges_later_refl|done|apply pairs_later_hang_up|apply length_alter]. Qed.
Lemma inv_close_edge d w : inv w → inv (close_edge d w).
Proof. intros Hi. apply inv_pairs_end; [done|apply edges_later_shut|apply length_alter|apply pairs_later_refl|done]. Qed.

Lemma pair_closed p w x : w_pairs (close_pair p w) !! p = Some x → pr_open x = false.
Proof. cbn. rewrite list_lookup_alter_eq. by destruct (w_pairs w !! p); intros [= <-]. Qed.
Lemma edge_closed d w g : w_edges (close_edge d w) !! d = Some g → eg_open g = false.
Proof. cbn. rewrite list_lookup_alter_eq. by destruct (w_edges w !! d); intros [= <-]. Qed.

(** ** Changes of an open tunnel *)

Lemma finished_put w t rt rt' es ps u : w_tunnels w !! t = Some rt → rt_closed rt = false → finished w u → finished (put_tunnel t rt' (put_mesh es ps w)) u.
Proof.
  intros Ht Hc [(ru & Hu & Hcu) Hn]. split; [|done]. exists ru. split; [|done]. cbn. rewrite list_lookup_insert_ne //.
  congruence.
Qed.

Lemma inv_put_tunnel w t rt rt' es ps :
  inv w → w_tunnels w !! t = Some rt → rt_closed rt = false → rt_closed rt' = false → rt_targets rt' = rt_targets rt →
  tunnel_ok es ps t rt' → edges_later (w_edges w) es → pairs_later (w_pairs w) ps →
  (∀ p x, ps !! p = Some x → pr_open x = true → (rt_pair rt' = Some p ∧ pr_tunnel x = t) ∨
     (rt_pair rt ≠ Some p ∧ ∃ y, w_pairs w !! p = Some y ∧ pair_later y x)) →
  (∀ d g, es !! d = Some g → eg_open g = true → (rt_dialer rt' = Some d ∧ eg_tunnel g = t) ∨
     (rt_dialer rt ≠ Some d ∧ ∃ y, w_edges w !! d = Some y ∧ edge_later y g)) →
  (∀ p x ex, ps !! p = Some x → pr_execution x = Some ex → named (rc_core (w_ctl w).1).1 ex (pr_endpoint x)) →
  inv (put_tunnel t rt' (put_mesh es ps w)).
Proof.
  intros [Hs Hl Hr Ht Htd Hnd Hp He Hn Hst] Hrt Hc Hc' Htg Hok Le Lp Op Oe Na.
  assert (t < length (w_tunnels w))%nat as Hlt by (by apply lookup_lt_Some in Hrt). split; cbn; rewrite ?length_insert; try done.
  - intros u Hu. exact (finished_put _ _ _ _ _ _ _ Hrt Hc (Hl u Hu)).
  - intros u Hcl Hu. destruct (Hr u Hcl Hu) as [?|Hf]; [by left|right]. exact (finished_put _ _ _ _ _ _ _ Hrt Hc Hf).
  - intros u ru Hu. destruct (decide (t = u)) as [<-|Hne].
    + rewrite list_lookup_insert_eq // in Hu. by injection Hu as <-.
    + rewrite list_lookup_insert_ne // in Hu. exact (tunnel_ok_later _ _ _ _ _ _ Le Lp (Ht u ru Hu)).
  - intros x Hx. destruct (Htd x Hx) as (ru & Hu & Hcu). exists ru. rewrite list_lookup_insert_ne //. congruence.
  - intros p x Hx Ho. destruct (Op p x Hx Ho) as [[Hpr ->]|[Hno (y & Hy & T & _ & _ & O)]].
    + left. exists rt'. cbn. by rewrite list_lookup_insert_eq.
    + rewrite T. destruct (Hp p y Hy (O Ho)) as [(ru & Hu & Hpu)|Hx']; [|by right]. left. exists ru. cbn. rewrite list_lookup_insert_ne //. congruence.
  - intros d g Hg Ho. destruct (Oe d g Hg Ho) as [[Hpr ->]|[Hno (y & Hy & T & O)]].
    + left. exists rt'. cbn. by rewrite list_lookup_insert_eq.
    + rewrite T. destruct (He d y Hy (O Ho)) as [(ru & Hu & Hpu)|Hx']; [|by right]. left. exists ru. cbn. rewrite list_lookup_insert_ne //. congruence.
  - apply (Forall_impl _ _ _ Hst). intros y (ru & x & Hu & Hin & Hx & Hxt & Hxe). destruct (Lp _ _ Hx) as (x' & Hx' & T & _ & X & _).
    destruct (decide (t = sm_tunnel y)) as [Heq|Hne].
    + exists rt', x'. cbn. rewrite -Heq list_lookup_insert_eq //. rewrite Heq in Hrt. split_and!; [done| |done|congruence..]. rewrite Htg. congruence.
    + exists ru, x'. cbn. rewrite list_lookup_insert_ne //. split_and!; [done|done|done|congruence..].
Qed.

(** ** The controller *)

Lemma named_kept c c' ex endpoint : kept same_assignment c c' → named c ex endpoint → named c' ex endpoint.
Proof. intros Hk (Ha & Hb & e & a & Hp & Hv & He & Hh). split_and!; [done|done|]. exists e, a. split_and!; [done..|]. exact (holder_kept _ _ _ _ Hk Hh). Qed.

Lemma inv_ctl c w : inv w → on_from (w_ctl w).1 c.1 → inv (put_ctl c w).
Proof.
  intros [Hs Hl Hr Ht Htd Hnd Hp He Hn Hst] [Hcs Hk]. split; try done. intros p x ex Hx Hex. exact (named_kept _ _ _ _ Hk (Hn p x ex Hx Hex)).
Qed.

Lemma inv_core op w : inv w → inv (step (L_Core op) w).
Proof.
  intros Hi. apply inv_ctl; [done|]. set (s := (w_ctl w).1). cbn.
  assert (kept same_assignment (rc_core s).1 (run_op op (rc_core s)).2.1) as Hk
    by (apply cwp_kept; intros c n; exact (kept_advances _ _ (run_op_advances op c n))).
  split; [|done]. intros i e He. exact (sound_kept _ _ _ Hk (iv_sound _ Hi i e He)).
Qed.

Lemma inv_happen h w : inv w → inv (step (L_Happen h) w).
Proof. intros Hi. apply inv_ctl; [done|]. split; [exact (happen_sound _ h (iv_sound _ Hi))|apply happen_kept]. Qed.

(** ** The methods *)

Lemma keeps_pairs w ps t rt rt' : tunnel_ok (w_edges w) (w_pairs w) t rt → pairs_later (w_pairs w) ps → length ps = length (w_pairs w) →
  (∀ p x, rt_pair rt = Some p → ps !! p = Some x → pr_open x = true → rt_pair rt' = Some p) →
  ∀ p x, ps !! p = Some x → pr_open x = true → (rt_pair rt' = Some p ∧ pr_tunnel x = t) ∨
     (rt_pair rt ≠ Some p ∧ ∃ y, w_pairs w !! p = Some y ∧ pair_later y x).
Proof.
  intros Hok Hl Hn Hk p x Hx Ho. destruct (pairs_back _ _ _ _ Hl Hn Hx) as (y & Hy & Hyx). destruct (decide (rt_pair rt = Some p)) as [Hp|Hp].
  - left. split; [exact (Hk p x Hp Hx Ho)|]. destruct (to_pair _ _ _ _ Hok p Hp) as (_ & z & Hz & Ht & _). destruct Hyx as [-> _]. congruence.
  - right. eauto.
Qed.

Lemma keeps_edges w t rt rt' : tunnel_ok (w_edges w) (w_pairs w) t rt → rt_dialer rt' = rt_dialer rt →
  ∀ d g, w_edges w !! d = Some g → eg_open g = true → (rt_dialer rt' = Some d ∧ eg_tunnel g = t) ∨
     (rt_dialer rt ≠ Some d ∧ ∃ y, w_edges w !! d = Some y ∧ edge_later y g).
Proof.
  intros Hok Hsame d g Hg Ho. destruct (decide (rt_dialer rt = Some d)) as [Hp|Hp].
  - left. split; [congruence|]. destruct (to_dialer _ _ _ _ Hok d Hp) as (z & Hz & Ht). congruence.
  - right. split; [done|]. exists g. by split_and!.
Qed.

Lemma named_later w ps : inv w → pairs_later (w_pairs w) ps → length ps = length (w_pairs w) →
  ∀ p x ex, ps !! p = Some x → pr_execution x = Some ex → named (rc_core (w_ctl w).1).1 ex (pr_endpoint x).
Proof.
  intros Hi Hl Hn p x ex Hx Hex. destruct (pairs_back _ _ _ _ Hl Hn Hx) as (y & Hy & _ & -> & He & _). apply (iv_named _ Hi p y); congruence.
Qed.

(** A tunnel that keeps its edge, and its pair unless that has ended. *)
Lemma inv_retarget w t rt rt' ps : inv w → w_tunnels w !! t = Some rt → rt_closed rt = false → rt_closed rt' = false →
  rt_targets rt' = rt_targets rt → rt_allowed rt' = rt_allowed rt → rt_dialer rt' = rt_dialer rt →
  pairs_later (w_pairs w) ps → length ps = length (w_pairs w) →
  (∀ p x, rt_pair rt = Some p → ps !! p = Some x → pr_open x = true → rt_pair rt' = Some p) →
  (∀ p, rt_pair rt' = Some p → rt_pair rt = Some p ∧ rt_pairExec rt' = rt_pairExec rt ∧ rt_active rt' = rt_pairExec rt) →
  inv (put_tunnel t rt' (put_mesh (w_edges w) ps w)).
Proof.
  intros Hi Ht Hc Hc' Htg Hal Hd Hl Hn Hk Hsame. pose proof (iv_tunnel _ Hi t rt Ht) as Hok.
  apply (inv_put_tunnel w t rt); try done; [|apply edges_later_refl|by apply keeps_pairs|by apply keeps_edges|by apply named_later].
  pose proof (tunnel_ok_later _ _ _ _ _ _ (edges_later_refl _) Hl Hok) as [Ha _ Hp Hdl]. split; rewrite ?Hal ?Htg ?Hd //; [congruence|].
  intros p Hp'. destruct (Hsame p Hp') as (Hpr & Hex & Hact). destruct (Hp p Hpr) as (_ & x & Hx & Hxt & Hxe). split; [congruence|].
  exists x. by rewrite Hex.
Qed.

Lemma inv_SetActive t ex w : inv w → inv (SetActive t ex w).
Proof.
  intros Hi. unfold SetActive. destruct (w_tunnels w !! t) as [rt|] eqn:Ht; [|done]. destruct (rt_closed rt) eqn:Hc; [done|].
  destruct (rt_pair rt) as [p|] eqn:Hpr; [case_bool_decide as Hex|].
  - apply (inv_retarget w t rt _ (w_pairs w)); try done; [apply pairs_later_refl|cbn; congruence|]. cbn. intros q [= <-]. by rewrite Hex.
  - match goal with |- inv (close_pair _ (put_tunnel _ ?rt' _)) => change (inv (put_tunnel t rt' (put_mesh (w_edges w) (w_pairs (close_pair p w)) w))); apply (inv_retarget w t rt rt') end; try done; [apply pairs_later_hang_up|apply length_alter|].
    intros q x Hq Hx Ho. assert (q = p) as -> by congruence. pose proof (pair_closed p w x Hx). congruence.
  - apply (inv_retarget w t rt _ (w_pairs w)); try done; [apply pairs_later_refl|]. intros q x Hq. congruence.
Qed.

Lemma put_same w t rt : w_tunnels w !! t = Some rt → put_tunnel t rt w = w.
Proof. intros Ht. destruct w. unfold put_tunnel. cbn in *. by rewrite list_insert_id. Qed.

Lemma lookup_snoc_Some {A} (l : list A) x i y : (l ++ [x]) !! i = Some y → l !! i = Some y ∨ (i = length l ∧ y = x).
Proof.
  intros Hl. apply lookup_app_Some in Hl as [Hl|[Hge Hl]]; [by left|]. apply list_lookup_singleton_Some in Hl as [Hz <-]. right. split; [lia|done].
Qed.

Lemma ensure_edge_ok t a w rt d rt1 w1 : inv w → w_tunnels w !! t = Some rt → rt_closed rt = false → ensure_edge t a w = Some (d, rt1, w1) →
  inv w1 ∧ w_tunnels w1 !! t = Some rt1 ∧ rt_targets rt1 = rt_targets rt ∧ rt_active rt1 = rt_active rt ∧ rt_pair rt1 = rt_pair rt ∧
  rt_closed rt1 = false ∧ w_pairs w1 = w_pairs w.
Proof.
  intros Hi Ht Hc. unfold ensure_edge. rewrite Ht. cbn. destruct (rt_dialer rt) as [d0|] eqn:Hd; [by intros [= <- <- <-]|].
  destruct (dl_edge a) as [key|]; [|done]. intros [= <- <- <-]. pose proof (iv_tunnel _ Hi t rt Ht) as Hok.
  split_and!; try done; [|by cbn; rewrite list_lookup_insert_eq //; apply lookup_lt_Some in Ht].
  apply (inv_put_tunnel w t rt); try done; [| |apply pairs_later_refl| | |by apply (iv_named _ Hi)].
  - pose proof (tunnel_ok_later _ _ _ _ _ _ (edges_later_app (w_edges w) [mkEdge t true]) (pairs_later_refl _) Hok) as [Ha _ Hp _].
    split; cbn; try done; [congruence|]. intros d [= <-]. exists (mkEdge t true). split; [|done]. by rewrite lookup_app_r // Nat.sub_diag.
  - apply edges_later_app.
  - apply (keeps_pairs w); try done; [apply pairs_later_refl]. 
  - intros d g Hg Ho. apply lookup_snoc_Some in Hg as [Hg|[-> ->]]; [right|by left]. split; [by rewrite Hd|]. exists g. by split_and!.
Qed.

(** A new pair: it becomes the pair of the tunnel, or it has ended already. *)
Lemma inv_add_pair w t rt rt' x : inv w → w_tunnels w !! t = Some rt → rt_closed rt = false → rt_pair rt = None → rt_closed rt' = false →
  rt_targets rt' = rt_targets rt → rt_allowed rt' = rt_allowed rt → rt_dialer rt' = rt_dialer rt → pr_tunnel x = t →
  (pr_open x = true → rt_pair rt' = Some (length (w_pairs w))) →
  (∀ p, rt_pair rt' = Some p → p = length (w_pairs w) ∧ rt_pairExec rt' = rt_active rt' ∧ pr_execution x = Some (rt_pairExec rt')) →
  (∀ ex, pr_execution x = Some ex → named (rc_core (w_ctl w).1).1 ex (pr_endpoint x)) →
  inv (put_tunnel t rt' (put_mesh (w_edges w) (w_pairs w ++ [x]) w)).
Proof.
  intros Hi Ht Hc Hnone Hc' Htg Hal Hd Hx Ho Hpr Hn. pose proof (iv_tunnel _ Hi t rt Ht) as Hok.
  apply (inv_put_tunnel w t rt); try done; [|apply edges_later_refl|apply pairs_later_app| |by apply keeps_edges|].
  - destruct Hok as [Ha _ _ Hdl]. split; rewrite ?Hal ?Htg ?Hd //; [congruence|]. intros p Hp. destruct (Hpr p Hp) as (-> & Hex & Hxe). split; [done|].
    exists x. by rewrite lookup_app_r // Nat.sub_diag.
  - intros p y Hy Hy'. apply lookup_snoc_Some in Hy as [Hy|[-> ->]]; [right|by left; auto]. split; [by rewrite Hnone|]. exists y. by split_and!.
  - intros p y ex Hy Hex. apply lookup_snoc_Some in Hy as [Hy|[-> ->]]; [exact (iv_named _ Hi p y ex Hy Hex)|by apply Hn].
Qed.

Lemma establishLocked_ok fuel t a w rt : inv w → w_tunnels w !! t = Some rt → rt_closed rt = false → rt_pair rt = None →
  let '(r, w') := establishLocked fuel t a w in
  inv w' ∧ ∀ p, r = Ok p → ∃ rt' x, w_tunnels w' !! t = Some rt' ∧ rt_targets rt' = rt_targets rt ∧ w_pairs w' !! p = Some x ∧
    pr_tunnel x = t ∧ pr_execution x = Some (rt_active rt).
Proof.
  intros Hi Ht Hc Hnone. unfold establishLocked. destruct (ensure_edge t a w) as [[[d rt1] w1]|] eqn:He; [|done].
  destruct (ensure_edge_ok _ _ _ _ _ _ _ Hi Ht Hc He) as (Hi1 & Ht1 & Htg & Hact & Hpr & Hc1 & Hps).
  destruct (w_ctl w1) as [s n] eqn:Hctl. pose proof (iv_sound _ Hi1) as Hs. rewrite Hctl in Hs. cbn in Hs.
  pose proof (OpenTunnel_stays fuel (rt_active rt1) (rt_peerKey rt1) (rt_targets rt1) s Hs n) as Hst.
  pose proof (OpenTunnel_named fuel (rt_active rt1) (rt_peerKey rt1) (rt_targets rt1) s Hs n) as Hnm.
  destruct (OpenTunnel fuel _ _ _ (s, n)) as [opened ctl]. cbn in Hst, Hnm.
  assert (inv (put_ctl ctl w1)) as Hi2 by (apply inv_ctl; [done|by rewrite Hctl]).
  destruct opened as [endpoint|err]; [|done]. specialize (Hnm endpoint eq_refl). destruct (dl_dial a); [|done]. cbn [negb].
  set (w2 := put_ctl ctl w1) in *. assert (w_tunnels w2 !! t = Some rt1) as Ht2 by done. destruct (dl_preamble a); cbn [negb].
  - split.
    + apply (inv_add_pair w2 t rt1); try done; [congruence| |by cbn; intros ex [= <-]]. intros p [= <-]. done.
    + intros p [= <-]. eexists _, _. cbn. rewrite list_lookup_insert_eq; [by apply lookup_lt_Some in Ht1|]. split_and!; [done|done|by rewrite lookup_app_r // Nat.sub_diag|done|].
      by rewrite Hact.
  - split; [|done]. rewrite -(put_same w2 t rt1 Ht2).
    match goal with |- inv (close_pair _ (put_mesh _ (_ ++ [?x]) _)) => change (inv (put_tunnel t rt1 (put_mesh (w_edges w2) (alter hang_up (length (w_pairs w2)) (w_pairs w2 ++ [x])) w2))) end.
    rewrite alter_app_r_alt // Nat.sub_diag. apply (inv_add_pair w2 t rt1); try done; cbn; congruence.
Qed.

Lemma open_stream_ok t p ex port a w rt x : inv w → w_tunnels w !! t = Some rt → port ∈ rt_targets rt → w_pairs w !! p = Some x →
  pr_tunnel x = t → pr_execution x = Some ex → inv (open_stream t p ex port a w).2.
Proof.
  intros Hi Ht Hin Hx Hxt Hxe. unfold open_stream. rewrite Hx. destruct (_ && _); [|done]. destruct Hi as [Hs Hl Hr Htn Htd Hnd Hp He Hn Hst].
  split; try done. cbn. apply Forall_app. split; [done|]. apply Forall_singleton. exists rt, x. by split_and!.
Qed.

Lemma inv_Dial fuel t port a w : inv w → inv (Dial fuel t port a w).2.
Proof.
  intros Hi. unfold Dial. destruct (w_tunnels w !! t) as [rt|] eqn:Ht; [|done]. case_bool_decide as Hin; [|done]. cbn [negb].
  destruct (rt_closed rt) eqn:Hc; [done|]. case_bool_decide as Hact; [done|]. destruct (dl_done a); [done|].
  pose proof (iv_tunnel _ Hi t rt Ht) as [Ha _ Hp _]. apply Ha in Hin.
  destruct (rt_pair rt) as [p|] eqn:Hpr.
  - destruct (Hp p eq_refl) as (Hex & x & Hx & Hxt & Hxe). rewrite bool_decide_true //. apply (open_stream_ok _ _ _ _ _ _ rt x); try done. by rewrite -Hex.
  - pose proof (establishLocked_ok fuel t a w rt Hi Ht Hc Hpr) as Hest. destruct (establishLocked fuel t a w) as [[p|e] w']; [|by destruct Hest].
    destruct Hest as [Hi' Hok]. destruct (Hok p eq_refl) as (rt' & x & Ht' & Htg & Hx & Hxt & Hxe).
    apply (open_stream_ok _ _ _ _ _ _ rt' x); try done. by rewrite Htg.
Qed.

Lemma normalize_ok targets allowed normalized allowed' normalized' :
  (∀ p, p ∈ allowed ↔ p ∈ normalized) → normalize targets allowed normalized = Ok (allowed', normalized') → ∀ p, p ∈ allowed' ↔ p ∈ normalized'.
Proof.
  revert allowed normalized. induction targets as [|q l IH]; intros allowed normalized Hok; cbn; [by intros [= <- <-]|].
  destruct (q =? 0); [done|]. case_bool_decide; [by apply IH|]. apply IH. intros p. specialize (Hok p). set_solver.
Qed.

Lemma inv_New targets w : inv w → inv (NewRunTunnel targets w).2.
Proof.
  intros Hi. unfold NewRunTunnel, newRunTunnel. destruct targets as [|q l]; [done|].
  destruct (normalize (q :: l) ∅ []) as [[allowed normalized]|e] eqn:Hno; [|done].
  assert (∀ p, p ∈ allowed ↔ p ∈ normalized) as Hal by (apply (normalize_ok (q :: l) ∅ []); [set_solver|done]).
  destruct (w_closed w) eqn:Hc; [done|]. destruct (w_runTunnels w) as [|? ?] eqn:Hr; [|done]. cbn [snd].
  destruct Hi as [Hs Hl Hreg Ht Htd Hnd Hp He Hn Hst]. set (rt := mkRunTunnel normalized allowed "" None [] None "" false).
  set (w' := mkWorld _ _ _ _ _ _ _ _ _). assert (∀ t, (t < length (w_tunnels w))%nat → finished w' t) as Hold.
  { intros t Hlt. destruct (Hreg t Hc Hlt) as [Hin|[(ru & Hu & Hcu) Hnt]]; [rewrite Hr in Hin; set_solver|]. split; [|done]. exists ru. split; [|done]. by apply lookup_app_l_Some. }
  split; subst w'; cbn in *; rewrite ?length_app /=; try done.
  - intros t Hlt. apply Hold. lia.
  - intros t _ Hlt. destruct (decide (t = length (w_tunnels w))) as [->|Hne]; [left; set_solver|right; apply Hold; lia].
  - intros t rt' Hrt. apply lookup_snoc_Some in Hrt as [Hrt|[-> ->]]; [by apply Ht|by split].
  - intros x Hx. destruct (Htd x Hx) as (ru & Hu & Hcu). exists ru. split; [by apply lookup_app_l_Some|done].
  - intros p x Hx Ho. destruct (Hp p x Hx Ho) as [(ru & Hu & Hpu)|?]; [|by right]. left. exists ru. split; [by apply lookup_app_l_Some|done].
  - intros d g Hg Ho. destruct (He d g Hg Ho) as [(ru & Hu & Hpu)|?]; [|by right]. left. exists ru. split; [by apply lookup_app_l_Some|done].
  - apply (Forall_impl _ _ _ Hst). intros y (ru & x & Hu & Hrest). exists ru, x. split; [by apply lookup_app_l_Some|done].
Qed.

Lemma inv_close_locked t unregister w : inv w → inv (close_locked t unregister w).
Proof.
  intros Hi. unfold close_locked. destruct (w_tunnels w !! t) as [rt|] eqn:Hrt; [|done]. destruct (rt_closed rt) eqn:Hc; [done|].
  destruct Hi as [Hs Hl Hreg Ht Htd Hnd Hp He Hn Hst]. assert (t < length (w_tunnels w))%nat as Hlt by (by apply lookup_lt_Some in Hrt).
  set (w' := mkWorld _ _ _ _ _ _ _ _ _). assert (∀ u, finished w u → finished w' u) as Hfin.
  { intros u [(ru & Hu & Hcu) Hnu]. assert (t ≠ u) as Hne by congruence. split; [exists ru; subst w'; cbn; by rewrite list_lookup_insert_ne|].
    subst w'. cbn. rewrite fmap_app. set_solver. }
  split; subst w'; cbn in *; rewrite ?length_insert; try done.
  - intros u Hu. by apply Hfin, Hl.
  - intros u Hcl Hu. destruct (Hreg u Hcl Hu) as [?|Hf]; [by left|right; by apply Hfin].
  - intros u ru Hu. destruct (decide (t = u)) as [<-|Hne]; [|rewrite list_lookup_insert_ne // in Hu; by apply Ht].
    rewrite list_lookup_insert_eq // in Hu. injection Hu as <-. destruct (Ht t rt Hrt) as [Ha _ _ _]. by split.
  - intros x Hx. apply elem_of_app in Hx as [Hx|Hx]; [|apply list_elem_of_singleton in Hx as ->; cbn; rewrite list_lookup_insert_eq //; by eexists].
    destruct (Htd x Hx) as (ru & Hu & Hcu). exists ru. rewrite list_lookup_insert_ne //. congruence.
  - rewrite fmap_app. apply NoDup_app. split_and!; [done| |by apply NoDup_singleton]. intros u Hu Hin. cbn in Hin. apply list_elem_of_singleton in Hin as ->.
    apply list_elem_of_fmap in Hu as (x & -> & Hx). destruct (Htd x Hx) as (ru & Hu & Hcu). congruence.
  - intros p x Hx Ho. destruct (Hp p x Hx Ho) as [(ru & Hu & Hpu)|(y & Hy & Hrest)]; [|right; exists y; set_solver].
    destruct (decide (t = pr_tunnel x)) as [Heq|Hne]; [right|left; exists ru; cbn; by rewrite list_lookup_insert_ne].
    eexists. cbn. split; [apply elem_of_app; right; by apply list_elem_of_singleton|]. cbn. split; congruence.
  - intros d g Hg Ho. destruct (He d g Hg Ho) as [(ru & Hu & Hpu)|(y & Hy & Hrest)]; [|right; exists y; set_solver].
    destruct (decide (t = eg_tunnel g)) as [Heq|Hne]; [right|left; exists ru; cbn; by rewrite list_lookup_insert_ne].
    eexists. cbn. split; [apply elem_of_app; right; by apply list_elem_of_singleton|]. cbn. split; congruence.
  - apply (Forall_impl _ _ _ Hst). intros y (ru & x & Hu & Hin & Hrest). destruct (decide (t = sm_tunnel y)) as [Heq|Hne].
    + eexists _, x. cbn. rewrite -Heq list_lookup_insert_eq //. split; [done|]. cbn. split; [|by rewrite Heq]. congruence.
    + exists ru, x. cbn. by rewrite list_lookup_insert_ne.
Qed.

(** The end of a [close] whose pair and edge are closed. *)
Lemma inv_drop i x unregister w : inv w → w_teardowns w !! i = Some x →
  (∀ p y, td_pair x = Some p → w_pairs w !! p = Some y → pr_open y = false) →
  (∀ d g, td_dialer x = Some d → w_edges w !! d = Some g → eg_open g = false) →
  inv (if unregister : bool then unregisterRunTunnel (td_tunnel x) (drop_teardown i w) else drop_teardown i w).
Proof.
  intros [Hs Hl Hreg Ht Htd Hnd Hp He Hn Hst] Hi Hnp Hne.
  assert (∀ y, y ∈ delete i (w_teardowns w) → y ∈ w_teardowns w) as Hsub.
  { intros y. rewrite delete_take_drop -{3}(take_drop_middle _ _ _ Hi). set_solver. }
  assert (∀ y, y ∈ w_teardowns w → y = x ∨ y ∈ delete i (w_teardowns w)) as Hsup.
  { intros y. rewrite delete_take_drop -{1}(take_drop_middle _ _ _ Hi). set_solver. }
  rewrite -(take_drop_middle _ _ _ Hi) fmap_app fmap_cons in Hnd.
  assert (NoDup (td_tunnel <$> delete i (w_teardowns w)) ∧ td_tunnel x ∉ td_tunnel <$> delete i (w_teardowns w)) as [Hnd' Hgone].
  { rewrite delete_take_drop fmap_app. apply NoDup_app in Hnd as (N1 & N2 & N3). apply NoDup_cons in N3 as [N3 N4]. split; [apply NoDup_app; set_solver|set_solver]. }
  set (w' := drop_teardown i w). assert (∀ t, finished w t → finished w' t) as Hfin.
  { intros t [Hc Hnt]. split; [exact Hc|]. intros Hin. apply Hnt. apply list_elem_of_fmap in Hin as (y & -> & Hy). apply list_elem_of_fmap. eauto. }
  assert (finished w' (td_tunnel x)) as Hx by (split; [apply (Htd x); by apply (list_elem_of_lookup_2 _ i)|done]).
  assert (inv w' ∧ (w_closed w = false → ∀ t, (t < length (w_tunnels w))%nat → t ∈ List.filter (fun u => negb (Nat.eqb u (td_tunnel x))) (w_runTunnels w) ∨ finished w' t))
    as [Hi' Hreg'].
  { split; [split; subst w'; cbn in *; try done|]; auto.
    - intros t Hc Hlt. destruct (Hreg t Hc Hlt); auto.
    - intros p y Hy Ho. destruct (Hp p y Hy Ho) as [?|(z & Hz & Hzt & Hzp)]; [by left|]. destruct (Hsup z Hz) as [->|?]; [|right; eauto].
      rewrite (Hnp p y Hzp Hy) in Ho. done.
    - intros d g Hg Ho. destruct (He d g Hg Ho) as [?|(z & Hz & Hzt & Hzp)]; [by left|]. destruct (Hsup z Hz) as [->|?]; [|right; eauto].
      rewrite (Hne d g Hzp Hg) in Ho. done.
    - intros Hc t Hlt. destruct (decide (t = td_tunnel x)) as [->|Hdiff]; [by right|]. destruct (Hreg t Hc Hlt) as [Hin|?]; [left|right; by apply Hfin].
      apply list_elem_of_In, filter_In. split; [by apply list_elem_of_In|]. by destruct (Nat.eqb_spec t (td_tunnel x)). }
  destruct unregister; [|done]. destruct Hi'. split; try done. exact (fun t Hc => Hreg' Hc t).
Qed.

Lemma inv_Rest i w : inv w → inv (step (L_Rest i) w).
Proof.
  intros Hi. cbn. destruct (w_teardowns w !! i) as [x|] eqn:Hx; [|done].
  set (w1 := match td_pair x with Some p => close_pair p w | None => w end).
  set (w2 := match td_dialer x with Some d => close_edge d w1 | None => w1 end).
  assert (close_rest x (drop_teardown i w) = if td_unregister x then unregisterRunTunnel (td_tunnel x) (drop_teardown i w2) else drop_teardown i w2) as ->
    by (unfold w2, w1, close_rest; by destruct (td_pair x), (td_dialer x)).
  assert (inv w1) as Hi1 by (unfold w1; destruct (td_pair x); [by apply inv_close_pair|done]).
  assert (inv w2) as Hi2 by (unfold w2; destruct (td_dialer x); [by apply inv_close_edge|done]).
  apply inv_drop; [done|by unfold w2, w1; destruct (td_dialer x), (td_pair x)|..].
  - intros p y Hp Hy. unfold w2, w1 in Hy. rewrite Hp in Hy. apply (pair_closed p w). by destruct (td_dialer x).
  - intros d g Hd Hg. unfold w2 in Hg. rewrite Hd in Hg. by apply (edge_closed d w1).
Qed.

Lemma inv_step_runTunnel l w : inv w → inv (step l w).
Proof.
  intros Hi. destruct l as [targets|t ex|fuel t port a|t|i| | |p|op|h]; [by apply inv_New|by apply inv_SetActive|by apply inv_Dial|by apply inv_close_locked|by apply inv_Rest|..].
  - cbn. unfold client_Close. destruct (w_closed w); [done|]. destruct Hi. by split.
  - cbn. destruct (w_closing w) as [|t rest]; [done|]. apply inv_close_locked. destruct Hi. by split.
  - by apply inv_close_pair.
  - by apply inv_core.
  - by apply inv_happen.
Qed.

Lemma runs_tunnel_inv ctl ls : chans_sound ctl.1 → inv (runs ctl ls).
Proof.
  intros Hs. unfold runs. assert (inv (new_world ctl)) as Hi by (split; cbn; try done; [lia..|by intros x Hx%elem_of_nil|apply NoDup_nil_2]).
  revert Hi. generalize (new_world ctl). induction ls as [|l ls IH]; intros w Hi; [done|]. cbn. by apply IH, inv_step_runTunnel.
Qed.

(** An open pair belongs to the newest tunnel, and there is one of it. *)
Lemma unfinished_last w t rt : inv w → w_tunnels w !! t = Some rt → ¬ finished w t → S t = length (w_tunnels w).
Proof. intros Hi Ht Hn. apply lookup_lt_Some in Ht. destruct (decide (S t < length (w_tunnels w))%nat) as [Hlt|]; [by destruct (Hn (iv_last _ Hi t Hlt))|lia]. Qed.

Lemma teardown_unique w x y : inv w → x ∈ w_teardowns w → y ∈ w_teardowns w → td_tunnel x = td_tunnel y → x = y.
Proof.
  intros Hi [i Hx]%list_elem_of_lookup_1 [j Hy]%list_elem_of_lookup_1 Heq.
  assert (i = j) as -> by (apply (NoDup_lookup _ i j (td_tunnel x) (iv_nodup _ Hi)); rewrite list_lookup_fmap ?Hx ?Hy //= Heq //). congruence.
Qed.

Lemma held_unfinished w t p : inv w → pair_held w t p → (∃ rt, w_tunnels w !! t = Some rt) ∧ ¬ finished w t.
Proof.
  intros Hi [(rt & Ht & Hp)|(x & Hx & <- & _)].
  - split; [eauto|]. intros [(ru & Hu & Hc) _]. assert (ru = rt) as -> by congruence. destruct (to_closed _ _ _ _ (iv_tunnel _ Hi t rt Ht) Hc). congruence.
  - destruct (iv_teardown _ Hi x Hx) as (rt & Ht & _). split; [eauto|]. intros [_ Hn]. apply Hn, list_elem_of_fmap. eauto.
Qed.

Lemma pair_held_unique w t p q : inv w → pair_held w t p → pair_held w t q → p = q.
Proof.
  intros Hi [(rt & Ht & Hp)|(x & Hx & <- & Hp)] [(ru & Hu & Hq)|(y & Hy & Hyt & Hq)]; [congruence|..].
  - destruct (iv_teardown _ Hi y Hy) as (rv & Hv & Hc). assert (rv = rt) as -> by congruence. destruct (to_closed _ _ _ _ (iv_tunnel _ Hi t rt Ht) Hc). congruence.
  - destruct (iv_teardown _ Hi x Hx) as (rv & Hv & Hc). assert (rv = ru) as -> by congruence. destruct (to_closed _ _ _ _ (iv_tunnel _ Hi _ ru Hu) Hc). congruence.
  - assert (x = y) as -> by (by apply (teardown_unique w)). congruence.
Qed.

(** C20 The tunnel of a run keeps its promises, whatever the mesh answers, whichever
    pairs end and whatever envelopes arrive.  Every stream leads to a port
    declared when the tunnel was made and runs over a pair whose preamble named
    the execution that was active, dialled at an endpoint that the allocator of
    that execution named.  A client has at most one open pair; while the tunnel is
    open that pair is for the active execution, so a switch has ended all older
    streams; and a tunnel whose close has returned has no open pair. *)
Theorem run_tunnel_safe ctl ls :
  chans_sound ctl.1 → let w := runs ctl ls in
  (∀ s, s ∈ h_streams w → ∃ rt x, w_tunnels w !! sm_tunnel s = Some rt ∧ sm_port s ∈ rt_targets rt ∧
     w_pairs w !! sm_pair s = Some x ∧ pr_execution x = Some (sm_execution s) ∧
     named (rc_core (w_ctl w).1).1 (sm_execution s) (pr_endpoint x)) ∧
  (∀ p q x y, w_pairs w !! p = Some x → w_pairs w !! q = Some y → pr_open x = true → pr_open y = true → p = q) ∧
  (∀ p x rt, w_pairs w !! p = Some x → pr_open x = true → w_tunnels w !! pr_tunnel x = Some rt → rt_closed rt = false →
     pr_execution x = Some (rt_active rt)) ∧
  (∀ p x, w_pairs w !! p = Some x → finished w (pr_tunnel x) → pr_open x = false).
Proof.
  intros Hs w. pose proof (runs_tunnel_inv ctl ls Hs) as Hi. fold w in Hi. clearbody w. split_and!.
  - intros y Hy. destruct (proj1 (Forall_forall _ _) (iv_streams _ Hi) y Hy) as (rt & x & Ht & Hin & Hx & _ & Hxe). exists rt, x.
    split_and!; try done. exact (iv_named _ Hi _ _ _ Hx Hxe).
  - intros p q x y Hx Hy Hox Hoy. pose proof (iv_pair _ Hi p x Hx Hox) as Hp. pose proof (iv_pair _ Hi q y Hy Hoy) as Hq.
    destruct (held_unfinished _ _ _ Hi Hp) as [(rt & Ht) Hn]. destruct (held_unfinished _ _ _ Hi Hq) as [(ru & Hu) Hm].
    pose proof (unfinished_last _ _ _ Hi Ht Hn). pose proof (unfinished_last _ _ _ Hi Hu Hm).
    assert (pr_tunnel y = pr_tunnel x) as Heq by lia. rewrite Heq in Hq. exact (pair_held_unique _ _ _ _ Hi Hp Hq).
  - intros p x rt Hx Ho Ht Hc. destruct (iv_pair _ Hi p x Hx Ho) as [(ru & Hu & Hp)|(z & Hz & Hzt & _)].
    + assert (ru = rt) as -> by congruence. destruct (to_pair _ _ _ _ (iv_tunnel _ Hi _ rt Ht) p Hp) as (Hex & y & Hy & _ & Hye). congruence.
    + destruct (iv_teardown _ Hi z Hz) as (ru & Hu & Hcu). congruence.
  - intros p x Hx Hf. destruct (pr_open x) eqn:Ho; [|done]. destruct (held_unfinished _ _ _ Hi (iv_pair _ Hi p x Hx Ho)) as [_ Hn]. done.
Qed.

(** ** A pair that has ended *)

(** The pair of tunnel [t], for its active execution [ex], has ended. *)
Definition cut_off (t p : nat) (ex : string) (w : world) : Prop :=
  (∃ rt, w_tunnels w !! t = Some rt ∧ rt_closed rt = false ∧ rt_pair rt = Some p ∧ rt_pairExec rt = ex ∧ rt_active rt = ex) ∧
  (∃ x, w_pairs w !! p = Some x ∧ pr_open x = false).

Definition of_tunnel (t : nat) (l : list stream) : list stream := filter (fun s => sm_tunnel s = t) l.

(** The execution stays active, and nobody closes the tunnel. *)
Definition stays_on (t : nat) (ex : string) (l : label) : Prop :=
  match l with
  | L_SetActive u other => u = t → trim_space other = ex
  | L_Close u => u ≠ t
  | L_ClientCloses => False
  | _ => True
  end.

Definition only_others (t : nat) (w w' : world) : Prop :=
  (∀ rt, w_tunnels w !! t = Some rt → w_tunnels w' !! t = Some rt) ∧ pairs_later (w_pairs w) (w_pairs w') ∧
  of_tunnel t (h_streams w') = of_tunnel t (h_streams w).

Lemma only_others_cut t p ex w w' : only_others t w w' → cut_off t p ex w → cut_off t p ex w'.
Proof.
  intros (Ht & Hp & _) [(rt & Hrt & Hrest) (x & Hx & Ho)]. split; [exists rt; auto|]. destruct (Hp p x Hx) as (x' & Hx' & _ & _ & _ & Hopen).
  exists x'. split; [done|]. destruct (pr_open x'); [|done]. by rewrite Hopen in Ho.
Qed.

Lemma establish_others fuel t u a w : u ≠ t → only_others t w (establishLocked fuel u a w).2.
Proof.
  intros Hne. assert (∀ d rt w1, ensure_edge u a w = Some (d, rt, w1) → only_others t w w1 ∧ w_pairs w1 = w_pairs w) as He.
  { intros d rt w1. unfold ensure_edge. destruct (w_tunnels w !! u) as [ru|]; [|done]. cbn. destruct (rt_dialer ru); [|destruct (dl_edge a); [|done]];
      intros [= <- <- <-]; (split; [split_and!|done]); cbn; try done; try apply pairs_later_refl. intros rt Hrt. by rewrite list_lookup_insert_ne. }
  unfold establishLocked. destruct (ensure_edge u a w) as [[[d rt] w1]|]; [|split_and!; [done|apply pairs_later_refl|done]].
  destruct (He d rt w1 eq_refl) as [(Ht & Hp & Hs) Hps]. destruct (OpenTunnel _ _ _ _ _) as [[endpoint|err] ctl]; [|done].
  destruct (dl_dial a); [|done]. cbn [negb]. destruct (dl_preamble a); cbn; (split_and!; [|rewrite Hps|done]).
  - intros ru Hu. rewrite list_lookup_insert_ne //. by apply Ht.
  - apply pairs_later_app.
  - exact Ht.
  - eapply pairs_later_trans; [apply pairs_later_app|apply pairs_later_hang_up].
Qed.

Lemma open_stream_others t u p ex port a w : u ≠ t → only_others t w (open_stream u p ex port a w).2.
Proof.
  intros Hne. unfold open_stream. destruct (w_pairs w !! p); [destruct (_ && _)|]; (split_and!; [done|apply pairs_later_refl|]); try done.
  cbn. unfold of_tunnel. rewrite filter_app filter_cons_False // filter_nil app_nil_r //.
Qed.

Lemma only_others_trans t w1 w2 w3 : only_others t w1 w2 → only_others t w2 w3 → only_others t w1 w3.
Proof. intros (A1 & B1 & C1) (A2 & B2 & C2). split_and!; [auto|exact (pairs_later_trans _ _ _ B1 B2)|congruence]. Qed.

Lemma only_others_refl t w : only_others t w w.
Proof. split_and!; [done|apply pairs_later_refl|done]. Qed.

Lemma Dial_others fuel t u port a w : u ≠ t → only_others t w (Dial fuel u port a w).2.
Proof.
  intros Hne. unfold Dial. pose proof (only_others_refl t w) as Hr. destruct (w_tunnels w !! u) as [rt|]; [|done].
  destruct (negb _); [done|]. destruct (rt_closed rt); [done|]. case_bool_decide; [done|]. destruct (dl_done a); [done|].
  destruct (match rt_pair rt with Some p => _ | None => _ end) as [est w'] eqn:He.
  assert (only_others t w w') as Hw.
  { pose proof (establish_others fuel t u a w Hne) as Hest. destruct (rt_pair rt); [case_bool_decide; [by injection He as _ <-|]|]; by rewrite He in Hest. }
  destruct est as [p|e]; [|done]. apply (only_others_trans _ _ _ _ Hw), open_stream_others, Hne.
Qed.

Lemma cut_off_refuses fuel t p ex port a w : cut_off t p ex w → (Dial fuel t port a w).1 ≠ None ∧ (Dial fuel t port a w).2 = w.
Proof.
  intros [(rt & Ht & Hc & Hp & Hex & Hact) (x & Hx & Ho)]. unfold Dial. rewrite Ht Hc. destruct (negb _); [done|]. case_bool_decide; [done|].
  destruct (dl_done a); [done|]. rewrite Hp bool_decide_true; [congruence|]. unfold open_stream. by rewrite Hx Ho.
Qed.

Lemma SetActive_others t u other w : u ≠ t → only_others t w (SetActive u other w).
Proof.
  intros Hne. unfold SetActive. pose proof (only_others_refl t w). destruct (w_tunnels w !! u) as [rt|]; [|done]. destruct (rt_closed rt); [done|].
  destruct (rt_pair rt) as [q|]; [case_bool_decide|]; (split_and!; [intros ru Hu; cbn; by rewrite list_lookup_insert_ne| |done]);
    [apply pairs_later_refl|apply pairs_later_hang_up|apply pairs_later_refl].
Qed.

Lemma cut_off_SetActive t p ex other w : trim_space other = ex → cut_off t p ex w → cut_off t p ex (SetActive t other w).
Proof.
  intros Ho [(rt & Ht & Hc & Hp & Hex & Hact) Hx]. unfold SetActive. rewrite Ht Hc Hp bool_decide_true; [congruence|]. split; [|done].
  eexists. cbn. rewrite list_lookup_insert_eq; [by apply lookup_lt_Some in Ht|]. by split_and!.
Qed.

Lemma cut_off_step t p ex l w : stays_on t ex l → cut_off t p ex w →
  cut_off t p ex (step l w) ∧ of_tunnel t (h_streams (step l w)) = of_tunnel t (h_streams w).
Proof.
  intros Hl Hc. assert (∀ w', only_others t w w' → cut_off t p ex w' ∧ of_tunnel t (h_streams w') = of_tunnel t (h_streams w)) as Hother
    by (intros w' Ho; split; [exact (only_others_cut _ _ _ _ _ Ho Hc)|apply Ho]).
  pose proof (only_others_refl t w) as Hr. destruct l as [targets|u other|fuel u port a|u|i| | |q|op|h]; cbn in Hl; [| | | | | |done|..].
  - apply Hother. cbn. unfold NewRunTunnel. destruct (newRunTunnel targets); [|done]. destruct (w_closed w); [done|]. destruct (w_runTunnels w); [|done].
    split_and!; [|apply pairs_later_refl|done]. intros rt Hrt. by apply lookup_app_l_Some.
  - cbn. destruct (decide (u = t)) as [->|Hne]; [|by apply Hother, SetActive_others]. split; [by apply cut_off_SetActive; [apply Hl|]|].
    destruct Hc as [(rt & Ht & Hcl & Hp & Hex & Hact) _]. unfold SetActive. rewrite Ht Hcl Hp. by case_bool_decide.
  - cbn. destruct (decide (u = t)) as [->|Hne]; [|by apply Hother, Dial_others]. by destruct (cut_off_refuses fuel t p ex port a w Hc) as [_ ->].
  - apply Hother. cbn. unfold close_locked. destruct (w_tunnels w !! u) as [rt|]; [|done]. destruct (rt_closed rt); [done|].
    split_and!; [|apply pairs_later_refl|done]. intros ru Hu. cbn. by rewrite list_lookup_insert_ne.
  - apply Hother. cbn. destruct (w_teardowns w !! i) as [x|]; [|done]. unfold close_rest.
    destruct (td_pair x), (td_dialer x), (td_unregister x); (split_and!; [done| |done]); first [apply pairs_later_refl|apply pairs_later_hang_up].
  - apply Hother. cbn. unfold client_Close. by destruct (w_closed w).
  - apply Hother. split_and!; [done|apply pairs_later_hang_up|done].
  - by apply Hother.
  - by apply Hother.
Qed.

(** A pair that has ended is never replaced: when the pair of a tunnel ends
    while its execution is active, then as long as that execution stays active
    and the tunnel open, whatever else happens, no stream is opened, and every
    [Dial] fails. *)
Theorem ended_pair_kept t p ex w ls :
  cut_off t p ex w → Forall (stays_on t ex) ls → let w' := fold_left (fun w l => step l w) ls w in
  of_tunnel t (h_streams w') = of_tunnel t (h_streams w) ∧ ∀ fuel port a, (Dial fuel t port a w').1 ≠ None.
Proof.
  intros Hc Hls. assert (cut_off t p ex (fold_left (fun w l => step l w) ls w) ∧
    of_tunnel t (h_streams (fold_left (fun w l => step l w) ls w)) = of_tunnel t (h_streams w)) as [Hc' Hs].
  { revert w Hc. induction Hls as [|l ls Hl _ IH]; intros w Hc; [done|]. cbn. destruct (cut_off_step t p ex l w Hl Hc) as [Hc1 <-]. by apply IH. }
  split; [done|]. intros fuel port a. apply (cut_off_refuses fuel t p ex port a _ Hc').
Qed.
End safety.
