(* ===== verification/Publish.v ===== *)
(** * Published ports and detached runs (cmd/r1s)

    The flags that publish ports, in the form the user writes and in the one a
    detached child is given (publish.go, run_command.go); the listeners of a run
    and the connections they hand to its tunnel (publish.go); the line with which
    a detached child reports that it owns the run (detach.go,
    detached_process.go); the exit status of a run.  Go strings are byte lists
    here. *)

From stdpp Require Import pretty.
From S2P Require Import Prelude GoStrings Ordering Wire Errors Protocol Registry Utf8 Json Decimal Cluster.
From S2P Require Import Client ClientInv ClientSafety ClientReplies Controller ControllerSafe Calls RunTunnel.
From Stdlib Require Import Strings.Byte.

(** ** Strings *)

(** [strings.Split] at one byte *)
Fixpoint split_on (sep : Byte.byte) (l : bytes) : list bytes :=
  match l with
  | [] => [[]]
  | b :: l' =>
    if bool_decide (b = sep) then [] :: split_on sep l'
    else match split_on sep l' with [] => [[b]] | part :: rest => (b :: part) :: rest end
  end.

(** [strings.Cut] at one byte *)
Fixpoint cut (sep : Byte.byte) (l : bytes) : option (bytes * bytes) :=
  match l with
  | [] => None
  | b :: l' =>
    if bool_decide (b = sep) then Some ([], l')
    else match cut sep l' with Some (before, after) => Some (b :: before, after) | None => None end
  end.

(** [strings.Join] *)
Fixpoint join (sep : bytes) (parts : list bytes) : bytes :=
  match parts with
  | [] => []
  | [part] => part
  | part :: rest => part ++ sep ++ join sep rest
  end.

Definition colon : Byte.byte := x3a.
Definition comma : Byte.byte := x2c.
Definition tab : Byte.byte := x09.
Definition newline : Byte.byte := x0a.

(** [strconv.ParseUint(raw, 10, 16)] and [strconv.Atoi] *)
Definition ParseUint16 (raw : bytes) : option Z :=
  match raw with
  | [] => None
  | _ => v ← decimal_value 0 raw; if v <=? 65535 then Some v else None
  end.

Definition Atoi (raw : bytes) : option Z :=
  let '(negative, digits) := match raw with
                             | b :: l => if bool_decide (b = x2d) then (true, l) else if bool_decide (b = x2b) then (false, l) else (false, raw)
                             | [] => (false, [])
                             end in
  match digits with
  | [] => None
  | _ =>
    v ← decimal_value 0 digits;
    let v := if negative : bool then - v else v in
    if (- 2 ^ 63 <=? v) && (v <? 2 ^ 63) then Some v else None
  end.

(** [%d] *)
Definition digits (n : Z) : bytes := text (pretty n).

(** ** Flags (publish.go, run_command.go) *)

Inductive flag_error :=
| F_Required
| F_Port (raw : bytes)
| F_NoColon
| F_Host (e : flag_error)
| F_Container (e : flag_error).

Record portMapping := mkMapping { pm_host : Z; pm_container : Z }.

Definition parsePort (raw : bytes) : result flag_error Z :=
  let raw := trim_bytes raw in
  match raw with
  | [] => Err F_Required
  | _ =>
    match ParseUint16 raw with
    | None => Err (F_Port raw)
    | Some value => if value =? 0 then Err (F_Port raw) else Ok value
    end
  end.

Definition parsePortMapping (raw : bytes) : result flag_error portMapping :=
  match cut colon (trim_bytes raw) with
  | None => Err F_NoColon
  | Some (hostRaw, containerRaw) =>
    match parsePort hostRaw with
    | Err e => Err (F_Host e)
    | Ok host =>
      match parsePort containerRaw with
      | Err e => Err (F_Container e)
      | Ok container => Ok (mkMapping host container)
      end
    end
  end.

(** [portListValue] and its methods *)
Definition portListValue : Type := list portMapping.

Definition mapping_text (m : portMapping) : bytes := digits (pm_host m) ++ [colon] ++ digits (pm_container m).

Definition portListValue_String (p : portListValue) : bytes := join [comma] (map mapping_text p).

Definition portListValue_Set (p : portListValue) (raw : bytes) : result flag_error portListValue :=
  match parsePortMapping raw with
  | Err e => Err e
  | Ok mapping => Ok (p ++ [mapping])
  end.

Fixpoint publish_items (items : list bytes) (mappings : list portMapping) : result flag_error (list portMapping) :=
  match items with
  | [] => Ok mappings
  | item :: rest =>
    match trim_bytes item with
    | [] => publish_items rest mappings
    | _ =>
      match parsePortMapping item with
      | Err e => Err e
      | Ok mapping => publish_items rest (mappings ++ [mapping])
      end
    end
  end.

Definition parsePublishFlag (raw : bytes) : result flag_error (list portMapping) :=
  match trim_bytes raw with
  | [] => Ok []
  | _ => publish_items (split_on comma raw) []
  end.

(** [parseTunnelPeers] *)
Definition parseTunnelPeers (value : bytes) : list bytes :=
  List.filter (fun peer => negb (bool_decide (peer = []))) (map trim_bytes (split_on comma value)).

(** What [launchDetached] passes to the child for its published ports. *)
Definition child_publish (publishes : list portMapping) : option bytes :=
  match publishes with
  | [] => None
  | _ => Some (join [comma] (map mapping_text publishes))
  end.

(** [workloadStatus]: the exit status of the process, [None] for no terminal state. *)
Definition workloadStatus (state : option ExecutionState) : option Z :=
  match state with
  | None => None
  | Some st =>
    match es_exit_code st with
    | Some code => if code =? 0 then Some 0 else if (0 <? code) && (code <=? 255) then Some code
                   else Some (if bool_decide (es_phase st = PHASE_COMPLETED) then 0 else 1)
    | None => Some (if bool_decide (es_phase st = PHASE_COMPLETED) then 0 else 1)
    end
  end.

(** ** The readiness line (detach.go, detached_process.go) *)

Definition signalDetachReady (runID : bytes) (pid : Z) (outputPath runDir : bytes) : bytes :=
  runID ++ [tab] ++ digits pid ++ [tab] ++ outputPath ++ [tab] ++ runDir ++ [newline].

(** What the parent reads: one line, trimmed. *)
Fixpoint read_line (l : bytes) : bytes :=
  match l with
  | [] => []
  | b :: l' => if bool_decide (b = newline) then [b] else b :: read_line l'
  end.

Definition ready_line (output : bytes) : bytes := trim_bytes (read_line output).

Record ready := mkReady { rd_runID : bytes; rd_pid : Z; rd_logPath : bytes; rd_runDir : bytes }.

Definition parseReadyLine (line : bytes) : option ready :=
  match split_on tab line with
  | [f0; f1; f2; f3] =>
    if bool_decide (trim_bytes f0 = []) || bool_decide (trim_bytes f2 = []) || bool_decide (trim_bytes f3 = []) then None
    else match Atoi (trim_bytes f1) with
    | Some pid => if pid <=? 0 then None else Some (mkReady (trim_bytes f0) pid (trim_bytes f2) (trim_bytes f3))
    | None => None
    end
  | _ => None
  end.

(** ** What is written is read back *)

Lemma split_on_plain sep l : sep ∉ l → split_on sep l = [l].
Proof.
  induction l as [|b l IH]; [done|]. intros Hn. apply not_elem_of_cons in Hn as [Hb Hn]. cbn. rewrite bool_decide_false; [congruence|]. by rewrite IH.
Qed.

Lemma split_on_app sep part rest : sep ∉ part → split_on sep (part ++ sep :: rest) = part :: split_on sep rest.
Proof.
  induction part as [|b l IH]; intros Hn; cbn; [by rewrite bool_decide_true|]. apply not_elem_of_cons in Hn as [Hb Hn].
  rewrite bool_decide_false; [congruence|]. by rewrite IH.
Qed.

Lemma split_join sep parts : Forall (fun p => sep ∉ p) parts → parts ≠ [] → split_on sep (join [sep] parts) = parts.
Proof.
  induction 1 as [|p parts Hp Hps IH]; [done|]. intros _. destruct parts as [|q parts]; [by apply split_on_plain|].
  cbn [join]. cbn [app]. rewrite split_on_app //. by rewrite IH.
Qed.

Lemma cut_app sep l rest : sep ∉ l → cut sep (l ++ sep :: rest) = Some (l, rest).
Proof.
  induction l as [|b l IH]; intros Hn; cbn; [by rewrite bool_decide_true|]. apply not_elem_of_cons in Hn as [Hb Hn].
  rewrite bool_decide_false; [congruence|]. by rewrite IH.
Qed.

Lemma digit_graphic b : is_digit b = true → graphic b = true ∧ b ∉ [colon; comma; tab; newline; x2d; x2b].
Proof. destruct b; try discriminate; intros _; (split; [done|]); set_solver by discriminate. Qed.

Lemma digits_ok n : 0 ≤ n → digits n ≠ [] ∧ forallb is_digit (digits n) = true ∧ decimal_value 0 (digits n) = Some n.
Proof.
  intros Hn. destruct (pretty_nonneg n Hn) as [Hl Hv]. unfold digits. destruct (text (pretty n)) as [|d ds]; [done|]. split_and!; [done| |done].
  cbn in *. apply andb_true_iff in Hl as [Hl _]. apply andb_true_iff in Hl as [-> ->]. done.
Qed.

Lemma digits_free n b : 0 ≤ n → b ∈ [colon; comma; tab; newline; x2d; x2b] → b ∉ digits n.
Proof.
  intros Hn Hb Hin. destruct (digits_ok n Hn) as (_ & Hd & _). rewrite forallb_forall in Hd.
  destruct (digit_graphic b); [by apply Hd, list_elem_of_In|done].
Qed.

Lemma digits_graphic n : 0 ≤ n → forallb graphic (digits n) = true.
Proof.
  intros Hn. destruct (digits_ok n Hn) as (_ & Hd & _). rewrite forallb_forall in Hd. apply forallb_forall. intros b Hb. by apply digit_graphic, Hd.
Qed.

Definition valid_mapping (m : portMapping) : Prop := 0 < pm_host m < 2 ^ 16 ∧ 0 < pm_container m < 2 ^ 16.

Lemma parsePort_digits n : 0 < n < 2 ^ 16 → parsePort (digits n) = Ok n.
Proof.
  intros Hn. destruct (digits_ok n) as (Hne & _ & Hv); [lia|]. unfold parsePort, ParseUint16. rewrite trim_bytes_graphic; [apply digits_graphic; lia|].
  destruct (digits n) as [|d ds]; [done|]. rewrite Hv. cbn. destruct (Z.leb_spec n 65535); [|lia]. destruct (Z.eqb_spec n 0); [lia|done].
Qed.

Lemma mapping_text_graphic m : valid_mapping m → forallb graphic (mapping_text m) = true.
Proof. intros [Hh Hc]. unfold mapping_text. rewrite !forallb_app !digits_graphic; [lia..|done]. Qed.

Lemma parse_mapping_text m : valid_mapping m → parsePortMapping (mapping_text m) = Ok m.
Proof.
  intros Hm. unfold parsePortMapping. rewrite trim_bytes_graphic; [by apply mapping_text_graphic|]. destruct Hm as [Hh Hc]. unfold mapping_text. cbn [app].
  rewrite cut_app; [apply digits_free; [lia|set_solver]|]. rewrite !parsePort_digits //. by destruct m.
Qed.

Lemma mapping_text_nonempty m : valid_mapping m → mapping_text m ≠ [].
Proof.
  intros [Hh _]. unfold mapping_text. destruct (digits_ok (pm_host m)) as [Hne _]; [lia|]. by destruct (digits (pm_host m)).
Qed.

Lemma publish_items_texts ms acc : Forall valid_mapping ms → publish_items (map mapping_text ms) acc = Ok (acc ++ ms).
Proof.
  intros Hms. revert acc. induction Hms as [|m ms Hm _ IH]; intros acc; cbn; [by rewrite app_nil_r|].
  rewrite trim_bytes_graphic; [by apply mapping_text_graphic|]. pose proof (mapping_text_nonempty m Hm) as Hne.
  rewrite parse_mapping_text //. destruct (mapping_text m); [done|]. by rewrite IH -app_assoc.
Qed.

Lemma mapping_text_free m : valid_mapping m → comma ∉ mapping_text m.
Proof.
  intros [Hh Hc]. unfold mapping_text. rewrite !not_elem_of_app. split_and!; [apply digits_free; [lia|set_solver]|set_solver by discriminate|apply digits_free; [lia|set_solver]].
Qed.

Lemma join_graphic sep parts : forallb graphic sep = true → Forall (fun p => forallb graphic p = true) parts → forallb graphic (join sep parts) = true.
Proof.
  intros Hs. induction 1 as [|p parts Hp Hps IH]; [done|]. destruct parts as [|q parts]; [done|]. cbn [join]. by rewrite !forallb_app Hp Hs IH.
Qed.

Lemma decimal_nonneg acc l v : 0 ≤ acc → decimal_value acc l = Some v → 0 ≤ v.
Proof.
  revert acc. induction l as [|b l IH]; intros acc Ha; cbn; [by intros [= <-]|]. destruct (is_digit b) eqn:Hd; [|done]. apply IH.
  assert (48 ≤ Z.of_N (Byte.to_N b)) by (by destruct b). lia.
Qed.

Lemma parsePort_valid raw n : parsePort raw = Ok n → 0 < n < 2 ^ 16.
Proof.
  unfold parsePort, ParseUint16. destruct (trim_bytes raw) as [|b l]; [done|]. destruct (decimal_value 0 (b :: l)) as [v|] eqn:Hv; cbn [mbind option_bind]; [|done].
  assert (0 ≤ v) as Hnn by (by apply (decimal_nonneg 0 (b :: l))).
  destruct (Z.leb_spec v 65535); [|done]. destruct (Z.eqb_spec v 0); [done|]. intros [= <-]. lia.
Qed.

Lemma parsePortMapping_valid raw m : parsePortMapping raw = Ok m → valid_mapping m.
Proof.
  unfold parsePortMapping. destruct (cut _ _) as [[h c]|]; [|done]. destruct (parsePort h) as [host|] eqn:Hh; [|done].
  destruct (parsePort c) as [container|] eqn:Hc; [|done]. intros [= <-]. split; [by apply parsePort_valid in Hh|by apply parsePort_valid in Hc].
Qed.

Definition set_all (raws : list bytes) (p : result flag_error portListValue) : result flag_error portListValue :=
  fold_left (fun p raw => match p with Ok p => portListValue_Set p raw | Err e => Err e end) raws p.

Lemma set_valid raws p ms : set_all raws (Ok p) = Ok ms → Forall valid_mapping p → Forall valid_mapping ms ∧ length ms = (length p + length raws)%nat.
Proof.
  revert p. induction raws as [|raw raws IH]; intros p; cbn; [intros [= <-]; rewrite Nat.add_0_r; done|]. unfold portListValue_Set at 2.
  destruct (parsePortMapping raw) as [m|e] eqn:Hm.
  - intros Hs Hp. destruct (IH _ Hs) as [H1 H2]; [apply Forall_app; split; [done|]; apply Forall_singleton; by apply parsePortMapping_valid in Hm|].
    split; [done|]. rewrite H2 length_app /=. lia.
  - intros Hs. exfalso. revert Hs. clear. induction raws; cbn; [done|auto].
Qed.

(** The ports given to a run reach its detached child: whatever the user wrote
    in [--publish], a value that is accepted is a pair of ports from 1 to 65535,
    and the list of accepted values, written as the flag of the child (and as
    [String] prints it), is parsed there to the same list. *)
Theorem publish_roundtrip raws ms :
  set_all raws (Ok []) = Ok ms →
  Forall valid_mapping ms ∧ length ms = length raws ∧
  parsePublishFlag (portListValue_String ms) = Ok ms ∧ parsePublishFlag (default [] (child_publish ms)) = Ok ms.
Proof.
  intros Hset. assert (Forall valid_mapping ms ∧ length ms = length raws) as [Hms Hlen] by (by apply (set_valid raws [])).
  assert (parsePublishFlag (portListValue_String ms) = Ok ms) as Hp.
  { destruct ms as [|m ms']; [done|]. unfold parsePublishFlag, portListValue_String. set (l := map mapping_text (m :: ms')).
    assert (Forall (fun p => forallb graphic p = true) l) as Hg by (apply Forall_fmap; eapply Forall_impl; [exact Hms|]; intros x; apply mapping_text_graphic).
    rewrite trim_bytes_graphic; [by apply join_graphic|]. assert (join [comma] l ≠ []) as Hne.
    { unfold l. cbn. pose proof (mapping_text_nonempty m (Forall_inv Hms)). destruct (mapping_text m); [done|]. by destruct (map _ ms'). }
    rewrite split_join; [apply Forall_fmap; eapply Forall_impl; [exact Hms|]; intros x; apply mapping_text_free|done|].
    destruct (join [comma] l); [done|]. unfold l. by rewrite publish_items_texts. }
  split_and!; [done..|]. by destruct ms.
Qed.

(** *** The readiness line *)

(** A field of the line: no tab, no end of line, and no blank at either end. *)
Definition tidy (l : bytes) : Prop :=
  (tab ∉ l) ∧ (newline ∉ l) ∧ (∃ b l', l = b :: l' ∧ graphic b = true) ∧ (∃ c l', l = l' ++ [c] ∧ graphic c = true).

Lemma trim_ends l tail : (∃ b l', l = b :: l' ∧ graphic b = true) → (∃ c l', l = l' ++ [c] ∧ graphic c = true) → tail = [] ∨ tail = [newline] →
  trim_bytes (l ++ tail) = l.
Proof.
  intros (b & l1 & Hb & Hgb) (c & l2 & Hc & Hgc) Ht. unfold trim_bytes.
  assert (trim_left space_runes (length (l ++ tail)) (l ++ tail) = l ++ tail) as ->
    by (rewrite Hb; apply trim_left_head; by apply graphic_no_space).
  cbv zeta. assert (trim_left (map (@rev _) space_runes) (length (l ++ tail)) (rev (l ++ tail)) = rev l) as ->; [|apply rev_involutive].
  assert (∀ fuel, trim_left (map (@rev _) space_runes) fuel (rev l) = rev l) as Hl.
  { intros fuel. rewrite Hc rev_app_distr. apply trim_left_head. by apply graphic_no_space. }
  rewrite rev_app_distr. destruct Ht as [->| ->]; cbn [rev app]; [apply Hl|]. rewrite length_app Nat.add_comm. cbn [length plus trim_left]. apply Hl.
Qed.

Lemma trim_tidy l : tidy l → trim_bytes l = l.
Proof. intros (_ & _ & Hh & Hl). rewrite -{1}(app_nil_r l). apply trim_ends; auto. Qed.

Lemma read_line_app l rest : newline ∉ l → read_line (l ++ [newline] ++ rest) = l ++ [newline].
Proof.
  induction l as [|b l IH]; intros Hn; cbn; [done|]. apply not_elem_of_cons in Hn as [Hb Hn]. rewrite bool_decide_false; [congruence|].
  by rewrite IH.
Qed.

Lemma Atoi_digits n : 0 ≤ n < 2 ^ 63 → Atoi (digits n) = Some n.
Proof.
  intros Hn. destruct (digits_ok n) as (Hne & Hd & Hv); [lia|]. unfold Atoi. destruct (digits n) as [|d ds] eqn:He; [done|].
  cbn in Hd. apply andb_true_iff in Hd as [Hd _]. destruct (digit_graphic d Hd) as [_ Hno]. rewrite bool_decide_false; [set_solver|].
  rewrite bool_decide_false; [set_solver|]. rewrite Hv. cbn [mbind option_bind]. destruct (Z.leb_spec (- 2 ^ 63) n); [|lia]. destruct (Z.ltb_spec n (2 ^ 63)); [done|lia].
Qed.

Lemma tidy_nonempty l : tidy l → l ≠ [].
Proof. by intros (_ & _ & (b & l' & -> & _) & _). Qed.

(** The handshake of a detached run: what the child reports is what the parent
    reads, whatever the child prints afterwards, as long as the fields hold no tab
    and no end of line and do not start or end with a blank. *)
Theorem ready_roundtrip runID pid outputPath runDir rest :
  tidy runID → tidy outputPath → tidy runDir → 0 < pid < 2 ^ 63 →
  parseReadyLine (ready_line (signalDetachReady runID pid outputPath runDir ++ rest)) = Some (mkReady runID pid outputPath runDir).
Proof.
  intros Hr Ho Hd Hp. unfold ready_line, signalDetachReady.
  set (line := runID ++ [tab] ++ digits pid ++ [tab] ++ outputPath ++ [tab] ++ runDir).
  assert ((runID ++ [tab] ++ digits pid ++ [tab] ++ outputPath ++ [tab] ++ runDir ++ [newline]) ++ rest = line ++ [newline] ++ rest) as ->
    by (unfold line; by rewrite -!app_assoc).
  rewrite read_line_app.
  { unfold line. rewrite !not_elem_of_app. split_and!; try (by apply Hr || apply Ho || apply Hd); try (by intros [=]%list_elem_of_singleton).
    apply digits_free; [lia|set_solver]. }
  rewrite trim_ends; [..|by right|].
  { destruct Hr as (_ & _ & (b & l & -> & Hb) & _). unfold line. cbn. eauto. }
  { destruct Hd as (_ & _ & _ & c & l & -> & Hc). exists c, (runID ++ [tab] ++ digits pid ++ [tab] ++ outputPath ++ [tab] ++ l). split; [|done]. unfold line. by rewrite -!app_assoc. }
  unfold parseReadyLine, line. cbn [app]. rewrite !split_on_app; [by apply Hr|apply digits_free; [lia|set_solver]|by apply Ho|].
  rewrite split_on_plain; [by apply Hd|]. rewrite (trim_tidy runID) // (trim_tidy outputPath) // (trim_tidy runDir) // trim_bytes_graphic; [apply digits_graphic; lia|]. rewrite Atoi_digits; [lia|].
  rewrite !bool_decide_false; [by apply tidy_nonempty..|]. cbn. destruct (Z.leb_spec pid 0); [lia|done].
Qed.

(** ** Witnesses *)

Lemma publish_roundtrip_witness :
  set_all [text " 8080:80 "; text "443 : 0443"] (Ok []) = Ok [mkMapping 8080 80; mkMapping 443 443] ∧
  parsePublishFlag (portListValue_String [mkMapping 8080 80; mkMapping 443 443]) = Ok [mkMapping 8080 80; mkMapping 443 443].
Proof.
  assert (set_all [text " 8080:80 "; text "443 : 0443"] (Ok []) = Ok [mkMapping 8080 80; mkMapping 443 443]) as Hs by (vm_compute; reflexivity).
  split; [exact Hs|]. exact (proj1 (proj2 (proj2 (publish_roundtrip _ _ Hs)))).
Defined.

Lemma tidy_path l b l1 c l2 : l = b :: l1 → l = l2 ++ [c] → graphic b = true → graphic c = true → forallb (fun x => negb (bool_decide (x = tab) || bool_decide (x = newline))) l = true → tidy l.
Proof.
  intros Hh Hl Hb Hc Hall. rewrite forallb_forall in Hall. split_and!; [..|eauto|eauto]; intros Hin%list_elem_of_In%Hall; vm_compute in Hin; discriminate Hin.
Qed.

Lemma ready_roundtrip_witness :
  parseReadyLine (ready_line (signalDetachReady (text "run-1") 4711 (text "/tmp/my log.txt") (text "/home/u/runs/run-1") ++ text "later output")) =
  Some (mkReady (text "run-1") 4711 (text "/tmp/my log.txt") (text "/home/u/runs/run-1")).
Proof.
  apply ready_roundtrip; [eapply (tidy_path _ _ _ _ (text "run-"))|eapply (tidy_path _ _ _ _ (text "/tmp/my log.tx"))|eapply (tidy_path _ _ _ _ (text "/home/u/runs/run-"))|lia];
    reflexivity.
Defined.
