(* ===== verification/Publisher.v ===== *)
(** * The listeners of a run (cmd/r1s/publish.go)

    A run that publishes ports owns a tunnel and a listener for each mapping.  A
    connection is handed to the container port of the listener that accepted it.
    The operating system refuses a port that is already bound, by this process or
    by another one; [free] says which ports others leave free. *)

From S2P Require Import Prelude GoStrings Ordering Wire Errors Protocol Registry Utf8 Json Decimal Cluster.
From S2P Require Import Client ClientInv ClientSafety ClientReplies Controller ControllerSafe Calls RunTunnel RunTunnelSafe Publish.

Inductive publish_error := PE_Tunnel (e : tunnel_error) | PE_Bind (host : Z).

Record listener := mkListener { ln_port : Z; ln_open : bool }.

Record runPublisher := mkPublisher {
  rp_tunnel : nat;
  rp_targets : list Z;
  rp_listeners : list listener;
  rp_listenerPorts : list Z
}.

(** The container ports, each once. *)
Fixpoint dedup_ports (mappings : list portMapping) (seen targets : list Z) : list Z :=
  match mappings with
  | [] => targets
  | m :: rest =>
    if bool_decide (pm_container m ∈ seen) then dedup_ports rest seen targets
    else dedup_ports rest (pm_container m :: seen) (targets ++ [pm_container m])
  end.

Definition bound (p : runPublisher) (port : Z) : bool :=
  existsb (fun l => ln_open l && (ln_port l =? port)) (rp_listeners p).

Definition close_listeners (p : runPublisher) : runPublisher :=
  mkPublisher (rp_tunnel p) (rp_targets p) (map (fun l => mkListener (ln_port l) false) (rp_listeners p)) (rp_listenerPorts p).

(** [close] of the publisher; it calls [Close] of the tunnel to its end. *)
Definition close_tunnel (t : nat) (w : world) : world :=
  let w' := close_locked t true w in
  match w_teardowns w' !! length (w_teardowns w) with
  | Some x => close_rest x (drop_teardown (length (w_teardowns w)) w')
  | None => w'
  end.
Definition publisher_close (p : runPublisher) (w : world) : runPublisher * world :=
  (close_listeners p, close_tunnel (rp_tunnel p) w).

(** The loop that binds the listeners. *)
Fixpoint bind_all (free : Z → bool) (mappings : list portMapping) (p : runPublisher) : result Z runPublisher :=
  match mappings with
  | [] => Ok p
  | m :: rest =>
    if free (pm_host m) && negb (bound p (pm_host m))
    then bind_all free rest (mkPublisher (rp_tunnel p) (rp_targets p) (rp_listeners p ++ [mkListener (pm_host m) true]) (rp_listenerPorts p ++ [pm_container m]))
    else Err (pm_host m)
  end.

(** [newRunPublisher] *)
Definition newRunPublisher (free : Z → bool) (mappings : list portMapping) (w : world) : result publish_error runPublisher * world :=
  let targets := dedup_ports mappings [] [] in
  match NewRunTunnel targets w with
  | (Err e, w') => (Err (PE_Tunnel e), w')
  | (Ok t, w') =>
    match bind_all free mappings (mkPublisher t targets [] []) with
    | Ok p => (Ok p, w')
    | Err host => (Err (PE_Bind host), close_tunnel t w')
    end
  end.

(** [containerFor] *)
Definition containerFor (p : runPublisher) (port : Z) : option Z :=
  match List.find (fun '(l, _) => ln_port l =? port) (zip (rp_listeners p) (rp_listenerPorts p)) with
  | Some (_, container) => Some container
  | None => None
  end.

Section publisher.
Context `{Externals, Sources, Network}.

(** [serve], up to the relay: the connection is closed, or it has a stream. *)
Definition serve (fuel : nat) (p : runPublisher) (port : Z) (a : dialing) (w : world) : option tunnel_error * world :=
  match containerFor p port with
  | None => (Some T_Stream, w)
  | Some container => Dial fuel (rp_tunnel p) container a w
  end.

(** ** Facts *)

Lemma dedup_elem mappings seen targets c : (∀ x, x ∈ seen ↔ x ∈ targets) →
  c ∈ dedup_ports mappings seen targets ↔ c ∈ targets ∨ ∃ m, m ∈ mappings ∧ pm_container m = c.
Proof.
  revert seen targets. induction mappings as [|m l IH]; intros seen targets Hs; cbn; [set_solver|].
  case_bool_decide as Hm; rewrite IH; [done| |intros x; rewrite elem_of_cons elem_of_app list_elem_of_singleton Hs; tauto|]; set_solver.
Qed.

Lemma normalize_targets targets allowed normalized : (∀ p, p ∈ targets → p ≠ 0) →
  ∃ a n, normalize targets allowed normalized = Ok (a, n) ∧ ∀ p, p ∈ a ↔ p ∈ allowed ∨ p ∈ targets.
Proof.
  revert allowed normalized. induction targets as [|q l IH]; intros allowed normalized Hp; cbn; [eexists _, _; split; [done|set_solver]|].
  destruct (Z.eqb_spec q 0) as [->|Hq]; [by destruct (Hp 0); [set_solver|]|].
  case_bool_decide as Hin; [destruct (IH allowed normalized) as (a & n & -> & Ha)|destruct (IH ({[q]} ∪ allowed) (normalized ++ [q])) as (a & n & -> & Ha)];
    try set_solver; exists a, n; (split; [done|]); set_solver.
Qed.

(** The listeners of a publisher, one for each mapping. *)
Definition listens (p : runPublisher) (ms : list portMapping) : Prop :=
  rp_listeners p = map (fun m => mkListener (pm_host m) true) ms ∧ rp_listenerPorts p = map pm_container ms ∧ NoDup (map pm_host ms).

Lemma not_bound p ms port : listens p ms → bound p port = false → port ∉ map pm_host ms.
Proof.
  intros (Hl & _ & _) Hb Hin. unfold bound in Hb. rewrite Hl in Hb. apply list_elem_of_fmap in Hin as (m & -> & Hm).
  assert (existsb (fun l => ln_open l && (ln_port l =? pm_host m)) (map (fun m => mkListener (pm_host m) true) ms) = true) as He; [|congruence].
  apply existsb_exists. exists (mkListener (pm_host m) true). split; [apply in_map_iff; exists m; split; [done|by apply list_elem_of_In]|]. cbn. apply Z.eqb_refl.
Qed.

Lemma bind_all_listens free ms p done p' : listens p done → bind_all free ms p = Ok p' → listens p' (done ++ ms) ∧ rp_tunnel p' = rp_tunnel p.
Proof.
  revert p done. induction ms as [|m ms IH]; intros p done Hp; cbn; [intros [= <-]; by rewrite app_nil_r|].
  destruct (free (pm_host m)); [|done]. destruct (bound p (pm_host m)) eqn:Hb; [done|]. cbn. pose proof (not_bound _ _ _ Hp Hb) as Hn.
  intros Hr. destruct Hp as (Hl & Hc & Hd). rewrite (app_assoc done [m] ms). refine (IH _ (done ++ [m]) _ Hr). split_and!; cbn; rewrite ?map_app ?Hl ?Hc //.
  apply NoDup_app. split_and!; [done| |apply NoDup_singleton]. intros x Hx Hx'. apply list_elem_of_singleton in Hx' as ->. done.
Qed.

Lemma containerFor_listens p ms m : listens p ms → m ∈ ms → containerFor p (pm_host m) = Some (pm_container m).
Proof.
  intros (Hl & Hc & Hd) Hm. unfold containerFor. rewrite Hl Hc. clear Hl Hc. induction ms as [|x ms IH]; [by apply elem_of_nil in Hm|]. cbn in *.
  apply NoDup_cons in Hd as [Hx Hd]. destruct (Z.eqb_spec (pm_host x) (pm_host m)) as [Heq|Hne].
  - apply elem_of_cons in Hm as [->|Hm]; [done|]. destruct Hx. rewrite Heq. apply list_elem_of_fmap. eauto.
  - apply elem_of_cons in Hm as [->|Hm]; [done|]. by apply IH.
Qed.

Lemma containerFor_mapped p ms port c : listens p ms → containerFor p port = Some c → mkMapping port c ∈ ms.
Proof.
  intros (Hl & Hc & _). unfold containerFor. rewrite Hl Hc. clear Hl Hc. induction ms as [|x ms IH]; [done|]. cbn.
  destruct (Z.eqb_spec (pm_host x) port) as [<-|Hne]; [intros [= <-]; destruct x; set_solver|]. intros Hf. apply elem_of_cons. right. by apply IH.
Qed.

(** The ports of a tunnel never change. *)
Definition allows (t : nat) (ports : gset Z) (w : world) : Prop := ∃ rt, w_tunnels w !! t = Some rt ∧ rt_allowed rt = ports.

Lemma allows_insert t u rt rt' ports w : w_tunnels w !! u = Some rt → rt_allowed rt' = rt_allowed rt → allows t ports w →
  ∃ r, <[u := rt']> (w_tunnels w) !! t = Some r ∧ rt_allowed r = ports.
Proof.
  intros Hu Ha (r & Hr & Hp). destruct (decide (u = t)) as [->|Hne]; [|exists r; by rewrite list_lookup_insert_ne].
  exists rt'. rewrite list_lookup_insert_eq; [by apply lookup_lt_Some in Hu|]. split; [done|congruence].
Qed.

Lemma allows_establish fuel t u a ports w : allows t ports w → allows t ports (establishLocked fuel u a w).2.
Proof.
  intros Hw. unfold establishLocked. destruct (ensure_edge u a w) as [[[d rt] w1]|] eqn:He; [|done].
  assert (allows t ports w1 ∧ w_tunnels w1 !! u = Some rt) as [Hw1 Hu].
  { unfold ensure_edge in He. destruct (w_tunnels w !! u) as [ru|] eqn:Hu; [|done]. cbn in He. destruct (rt_dialer ru); [by injection He as <- <- <-|].
    destruct (dl_edge a); [|done]. injection He as <- <- <-. split; [by refine (allows_insert t u ru _ ports w Hu _ Hw)|].
    cbn. rewrite list_lookup_insert_eq //. by apply lookup_lt_Some in Hu. }
  destruct (OpenTunnel _ _ _ _ _) as [[endpoint|err] ctl]; [|done]. destruct (dl_dial a); [|done]. cbn [negb]. destruct (dl_preamble a); [|done].
  by refine (allows_insert t u rt _ ports w1 Hu _ Hw1).
Qed.

Lemma allows_Dial fuel t u port a ports w : allows t ports w → allows t ports (Dial fuel u port a w).2.
Proof.
  intros Hw. unfold Dial. destruct (w_tunnels w !! u) as [rt|]; [|done].
  destruct (negb _); [done|]. destruct (rt_closed rt); [done|]. case_bool_decide; [done|]. destruct (dl_done a); [done|].
  destruct (match rt_pair rt with Some p => _ | None => _ end) as [est w'] eqn:He.
  assert (allows t ports w') as Hw'.
  { pose proof (allows_establish fuel t u a ports w Hw) as Hest. destruct (rt_pair rt); [case_bool_decide; [by injection He as _ <-|]|]; by rewrite He in Hest. }
  destruct est as [p|e]; [|done]. unfold open_stream. destruct (w_pairs w' !! p); [|done]. by destruct (_ && _).
Qed.

Lemma allows_step t ports l w : allows t ports w → allows t ports (step l w).
Proof.
  assert (∀ u b w, allows t ports w → allows t ports (close_locked u b w)) as Hclose.
  { intros u b v Hv. unfold close_locked. destruct (w_tunnels v !! u) as [rt|] eqn:Hu; [|done]. destruct (rt_closed rt); [done|].
    by refine (allows_insert t u rt _ ports v Hu _ Hv). }
  intros Hw. destruct l as [targets|u other|fuel u port a|u|i| | |q|op|h]; cbn; try done.
  - unfold NewRunTunnel. destruct (newRunTunnel targets); [|done]. destruct (w_closed w); [done|]. destruct (w_runTunnels w); [|done].
    destruct Hw as (rt & Hrt & Ha). exists rt. split; [by apply lookup_app_l_Some|done].
  - unfold SetActive. destruct (w_tunnels w !! u) as [rt|] eqn:Hu; [|done]. destruct (rt_closed rt); [done|].
    destruct (rt_pair rt); [case_bool_decide|]; by refine (allows_insert t u rt _ ports w Hu _ Hw).
  - by apply allows_Dial.
  - by apply Hclose.
  - destruct (w_teardowns w !! i) as [x|]; [|done]. unfold close_rest. by destruct (td_pair x), (td_dialer x), (td_unregister x).
  - unfold client_Close. by destruct (w_closed w).
  - destruct (w_closing w); [done|]. by apply Hclose.
Qed.

Lemma allows_steps t ports ls w : allows t ports w → allows t ports (fold_left (fun w l => step l w) ls w).
Proof. revert w. induction ls as [|l ls IH]; intros w Hw; [done|]. by apply IH, allows_step. Qed.

Lemma close_tunnel_unregisters t w rt : w_tunnels w !! t = Some rt → rt_closed rt = false → w_runTunnels w = [t] → w_runTunnels (close_tunnel t w) = [].
Proof.
  intros Ht Hc Hr. unfold close_tunnel, close_locked. rewrite Ht Hc. cbn. rewrite lookup_app_r // Nat.sub_diag. cbn. unfold close_rest.
  destruct (rt_pair rt), (rt_dialer rt); cbn; rewrite Hr /= Nat.eqb_refl //.
Qed.

Lemma Dial_allowed fuel t port a c w rt : w_tunnels w !! t = Some rt → port ∈ rt_allowed rt → (Dial fuel t port a w).1 ≠ Some (T_NotAllowed c).
Proof.
  intros Ht Hin. unfold Dial. rewrite Ht bool_decide_true //. cbn [negb]. destruct (rt_closed rt); [done|]. case_bool_decide; [done|]. destruct (dl_done a); [done|].
  destruct (match rt_pair rt with Some p => _ | None => _ end) as [est w'] eqn:He.
  assert (est ≠ Err (T_NotAllowed c)) as Hest.
  { assert ((establishLocked fuel t a w).1 ≠ Err (T_NotAllowed c)) as Hne.
    { unfold establishLocked. destruct (ensure_edge t a w) as [[[d ru] w1]|]; [|done]. destruct (OpenTunnel _ _ _ _ _) as [[endpoint|err] ctl]; [|done].
      destruct (dl_dial a); [|done]. by destruct (dl_preamble a). }
    destruct (rt_pair rt); [case_bool_decide; [by injection He as <- _|]|]; by rewrite He in Hne. }
  destruct est as [p|e]; [|cbn; congruence]. unfold open_stream. destruct (w_pairs w' !! p); [|done]. by destruct (_ && _).
Qed.

(** Every published port leads where the user said: once the listeners of a run
    are bound, a connection to a host port is handed to the container port of its
    own mapping, and to no other; that port is one the tunnel of the run allows,
    whatever happens to the tunnel later.  When a port cannot be bound, no tunnel
    is left registered, so that another attempt is not refused. *)
Theorem published_ports free mappings w r w' :
  Forall valid_mapping mappings → newRunPublisher free mappings w = (r, w') →
  (∀ p, r = Ok p →
    (∀ m, m ∈ mappings → containerFor p (pm_host m) = Some (pm_container m)) ∧
    (∀ port c, containerFor p port = Some c → mkMapping port c ∈ mappings) ∧
    (∀ ls fuel port a c, (serve fuel p port a (fold_left (fun w l => step l w) ls w')).1 ≠ Some (T_NotAllowed c))) ∧
  (∀ e, r = Err e → w_runTunnels w' = w_runTunnels w).
Proof.
  intros Hms. unfold newRunPublisher, NewRunTunnel. set (targets := dedup_ports mappings [] []).
  assert (∀ c, c ∈ targets ↔ ∃ m, m ∈ mappings ∧ pm_container m = c) as Hd.
  { intros c. unfold targets. rewrite dedup_elem; [done|]. split; [intros [Hc|?]; [by apply elem_of_nil in Hc|done]|by right]. }
  destruct (normalize_targets targets ∅ []) as (allowed & normalized & Hno & Hal).
  { intros c (m & Hm & <-)%Hd. rewrite Forall_forall in Hms. destruct (Hms m Hm). lia. }
  unfold newRunTunnel. rewrite Hno. destruct targets as [|c0 cs] eqn:Ht; [by intros [= <- <-]|]. rewrite -Ht in Hd, Hal |- *. clear Ht.
  destruct (w_closed w); [by intros [= <- <-]|]. destruct (w_runTunnels w) as [|? ?] eqn:Hr; [|by intros [= <- <-]].
  set (t := length (w_tunnels w)). set (rt := mkRunTunnel normalized allowed "" None [] None "" false). set (w1 := mkWorld _ _ _ _ _ _ _ _ _).
  assert (w_tunnels w1 !! t = Some rt) as Hrt by (unfold w1, t; cbn; by rewrite lookup_app_r // Nat.sub_diag).
  destruct (bind_all free mappings _) as [p|host] eqn:Hb; intros [= <- <-]; (split; [|]); try done.
  - intros p' [= <-]. assert (listens (mkPublisher t targets [] []) []) as Hnil by (split_and!; [done|done|apply NoDup_nil_2]).
    destruct (bind_all_listens free mappings _ [] p Hnil Hb) as [Hp Htn]. split_and!.
    + intros m. by apply containerFor_listens.
    + intros port c. by apply containerFor_mapped.
    + intros ls fuel port a c. unfold serve. destruct (containerFor p port) as [c'|] eqn:Hc; [|done]. rewrite Htn. cbn [rp_tunnel].
      destruct (allows_steps t allowed ls w1) as (ru & Hu & Ha); [by exists rt|]. apply (Dial_allowed fuel t c' a c _ ru Hu). rewrite Ha.
      apply Hal. right. apply Hd. eexists. split; [exact (containerFor_mapped _ _ _ _ Hp Hc)|done].
  - intros e _. by apply (close_tunnel_unregisters t w1 rt).
Qed.
End publisher.
