(* ===== verification/TunnelRuns.v ===== *)
(** * Runs of the explicit calls and of the run tunnel

    After a run the process reads logs and opens a tunnel to its execution; the
    pair then ends, and no further stream can be opened. *)

From stdpp Require Import pretty.
From S2P Require Import Prelude GoStrings Ordering Wire Errors Protocol Registry Client ClientInv ClientSafety ClientReplies Start Handshake Controller ControllerSafe ControllerRuns Calls RunTunnel RunTunnelSafe Publish Publisher.
From Stdlib Require Import Strings.Byte.

(** The controller after a run, with no call under way. *)
Definition idle : Controller := upd_waiters ∅ [] (run_with orderly).2.1.

Lemma idle_sound : chans_sound idle.
Proof. intros i e He. change (([] : list (option Envelope)) !! i = Some (Some e)) in He. by rewrite lookup_nil in He. Qed.

(** The allocator answers the call that is under way. *)
Definition replying (e : Envelope) : Network := {|
  nw_happens n := match n with 3%nat => [H_Envelope e None] | _ => [] end;
  nw_cancel _ := false; nw_canceled := true; nw_send _ := None;
  nw_pick n := match n with 4%nat => Pick_Waiter | _ => Pick_Timer end |}.

Lemma replying_no_logs e m h : h ∈ @nw_happens (replying e) m → no_logs h.
Proof.
  destruct m as [|[|[|[|m]]]]; cbn [nw_happens replying]; intros Hh; try (by apply elem_of_nil in Hh). by apply list_elem_of_singleton in Hh as ->.
Qed.

Definition the_chunk : ExecutionLogsResponse :=
  mkLogsResponse "c-5" "stdout" 0 [x68; x69] 2 true false (@sha256 concrete_externals [x68; x69]).
Definition chunk_reply : Envelope := from_allocator "a-3" "c-7" (P_ExecutionLogsResponse (Some the_chunk)).
Definition ack_reply : Envelope :=
  from_allocator "a-3" "c-7" (P_ExecutionTunnelOpenAck (Some (mkTunnelOpenAck "c-5" [x01; x02] [x03] []))).

Definition logs_call : rresult ExecutionLogsResponse * (Controller * nat) :=
  @Calls.Logs _ _ (replying chunk_reply) 3 "c-5" "stdout" 0 16 0 (idle, 0%nat).
Definition tunnel_call : rresult TunnelEndpoint * (Controller * nat) :=
  @OpenTunnel _ _ (replying ack_reply) 3 "c-5" [x09] [80] (idle, 0%nat).

Lemma logs_answer_witness : logs_call.1 = Ok the_chunk ∧ answers (mkLogsRequest "c-5" "stdout" 0 16) the_chunk.
Proof.
  assert (logs_call.1 = Ok the_chunk) as Hr by (vm_compute; reflexivity). split; [exact Hr|].
  pose proof (@logs_answer _ _ (replying chunk_reply) 3 "c-5" "stdout" 0 16 0 idle 0 idle_sound (replying_no_logs chunk_reply)) as Ha. fold logs_call in Ha.
  destruct logs_call as [r [s' n']]. destruct Ha as [_ Ha]. destruct (Ha the_chunk Hr) as [Hans _]. exact Hans.
Defined.

Lemma tunnel_endpoint_authentic_witness :
  tunnel_call.1 = Ok (mkEndpoint [x01; x02] [x03]) ∧ named (rc_core tunnel_call.2.1).1 "c-5" (mkEndpoint [x01; x02] [x03]).
Proof.
  assert (tunnel_call.1 = Ok (mkEndpoint [x01; x02] [x03])) as Hr by (vm_compute; reflexivity). split; [exact Hr|].
  pose proof (@tunnel_endpoint_authentic _ _ (replying ack_reply) 3 "c-5" [x09] [80] idle 0 idle_sound) as Ha. fold tunnel_call in Ha.
  destruct tunnel_call as [r [s' n']]. destruct Ha as [_ Ha]. exact (Ha _ Hr).
Defined.

(** ** A tunnel to the execution *)

Definition smooth : dialing := mkDialing false (Some [x09]) true true true.

Definition opened : list label := [L_New [80; 443; 80]; L_SetActive 0 " c-5 "; L_Dial 3 0 80 smooth; L_Dial 3 0 443 smooth].

Definition tunnel_world (ls : list label) : world := @runs _ _ (replying ack_reply) (idle, 0%nat) ls.

Lemma run_tunnel_safe_witness :
  h_streams (tunnel_world opened) = [mkStream 0 0 "c-5" 80; mkStream 0 0 "c-5" 443] ∧
  (∀ p x, w_pairs (tunnel_world (opened ++ [L_Close 0; L_Rest 0])) !! p = Some x →
     finished (tunnel_world (opened ++ [L_Close 0; L_Rest 0])) (pr_tunnel x) → pr_open x = false).
Proof.
  split; [vm_compute; reflexivity|].
  exact (proj2 (proj2 (proj2 (@run_tunnel_safe _ _ (replying ack_reply) (idle, 0%nat) (opened ++ [L_Close 0; L_Rest 0]) idle_sound)))).
Defined.

(** The pair has ended, and the execution is announced once more. *)
Lemma ended_pair_kept_witness :
  h_streams (tunnel_world (opened ++ [L_Ends 0])) = [mkStream 0 0 "c-5" 80; mkStream 0 0 "c-5" 443] ∧
  (@Dial _ _ (replying ack_reply) 3 0 80 smooth (fold_left (fun w l => @step _ _ (replying ack_reply) l w) [L_SetActive 0 "c-5"] (tunnel_world (opened ++ [L_Ends 0])))).1 ≠ None.
Proof.
  split; [vm_compute; reflexivity|].
  refine (proj2 (@ended_pair_kept _ _ (replying ack_reply) 0 0 "c-5" (tunnel_world (opened ++ [L_Ends 0])) [L_SetActive 0 "c-5"] _ _) 3%nat 80 smooth).
  - split; (eexists; split; [vm_compute; reflexivity|]); repeat split.
  - constructor; [|constructor]. intros _. vm_compute. reflexivity.
Defined.

(** ** Published ports *)

Definition web : list portMapping := [mkMapping 8080 80; mkMapping 8443 443].

Definition web_publisher : result publish_error runPublisher * world := newRunPublisher (fun _ => true) web (new_world (idle, 0%nat)).

Lemma published_ports_witness : ∃ p, web_publisher.1 = Ok p ∧ containerFor p 8443 = Some 443.
Proof.
  destruct web_publisher as [r w'] eqn:Hr. destruct r as [p|e]; [|vm_compute in Hr; discriminate Hr]. exists p. split; [reflexivity|].
  assert (Forall valid_mapping web) as Hv by (repeat constructor; cbn; lia).
  destruct (@published_ports _ _ (replying ack_reply) (fun _ => true) web (new_world (idle, 0%nat)) (Ok p) w' Hv Hr) as [Hok _].
  destruct (Hok p eq_refl) as [Hto _]. apply (Hto (mkMapping 8443 443)). apply list_elem_of_further, list_elem_of_here.
Defined.
