(* ===== verification/NetIP.v ===== *)
(** * IP addresses

    [net.ParseIP] and [net.IP.String] of the Go library, as far as a host name is
    brought into its usual form with them.  An address is its eight groups of 16
    bits; an IPv4 address is one whose first five groups are 0 and whose sixth is
    0xffff. *)

From stdpp Require Import pretty.
From S2P Require Import Prelude GoStrings Utf8 Json Decimal Cluster Publish.
From Stdlib Require Import Strings.Byte.

Definition dot : Byte.byte := x2e.
Definition percent : Byte.byte := x25.

(** ** Parsing *)

Definition octet (field : bytes) : option Z :=
  match field with
  | [] => None
  | b :: rest => if isb x30 b && negb (bool_decide (rest = [])) then None else v ← decimal_value 0 field; if v <=? 255 then Some v else None
  end.

(** Four fields, as the last two groups. *)
Definition parseIPv4 (s : bytes) : option (list Z) :=
  match split_on dot s with
  | [f0; f1; f2; f3] =>
    a ← octet f0; b ← octet f1; c ← octet f2; d ← octet f3; Some [a * 256 + b; c * 256 + d]
  | _ => None
  end.

Fixpoint hex_prefix (s : bytes) : bytes * bytes :=
  match s with
  | [] => ([], [])
  | b :: s' => match hex_value b with Some _ => let '(ds, rest) := hex_prefix s' in (b :: ds, rest) | None => ([], s) end
  end.

Fixpoint hex_number (acc : Z) (ds : bytes) : Z :=
  match ds with
  | [] => acc
  | b :: ds' => hex_number (acc * 16 + Z.of_N (default 0%N (hex_value b))) ds'
  end.

(** The loop of [parseIPv6], with room for so many groups: the groups, how many
    come before the ellipsis, and what is left of the text. *)
Fixpoint parse_groups (room : nat) (s : bytes) (groups : list Z) (ellipsis : option nat) : option (list Z * option nat * bytes) :=
  match room with
  | O => Some (groups, ellipsis, s)
  | S room' =>
    let '(ds, rest) := hex_prefix s in
    if (4 <? length ds)%nat || bool_decide (ds = []) then None
    else
      let groups' := groups ++ [hex_number 0 ds] in
      match rest with
      | [] => Some (groups', ellipsis, [])
      | b :: more =>
        if bool_decide (b = dot) then
          if (bool_decide (ellipsis = None) && negb (length groups =? 6)%nat) || (6 <? length groups)%nat then None
          else v4 ← parseIPv4 s; Some (groups ++ v4, ellipsis, [])
        else if negb (bool_decide (b = colon)) then None
        else match more with
        | [] => None
        | c :: more' =>
          if bool_decide (c = colon) then
            match ellipsis with
            | Some _ => None
            | None => match more' with [] => Some (groups', Some (length groups'), []) | _ => parse_groups room' more' groups' (Some (length groups')) end
            end
          else parse_groups room' more groups' ellipsis
        end
      end
  end.

Definition expand (parsed : list Z * option nat * bytes) : option (list Z) :=
  let '(groups, ellipsis, rest) := parsed in
  match rest with
  | _ :: _ => None
  | [] =>
    if (length groups <? 8)%nat
    then match ellipsis with Some e => Some (take e groups ++ replicate (8 - length groups) 0 ++ drop e groups) | None => None end
    else match ellipsis with Some _ => None | None => Some groups end
  end.

Definition parseIPv6 (s : bytes) : option (list Z) :=
  match s with
  | b :: c :: rest =>
    if bool_decide (b = colon) && bool_decide (c = colon)
    then match rest with [] => Some (replicate 8 0) | _ => parse_groups 8 rest [] (Some 0%nat) ≫= expand end
    else parse_groups 8 s [] None ≫= expand
  | _ => parse_groups 8 s [] None ≫= expand
  end.

Definition v4_prefix : list Z := [0; 0; 0; 0; 0; 65535].

(** The first of the three separators decides; an address with a zone is none. *)
Fixpoint parse_addr (s whole : bytes) : option (list Z) :=
  match s with
  | [] => None
  | b :: s' =>
    if bool_decide (b = dot) then v4 ← parseIPv4 whole; Some (v4_prefix ++ v4)
    else if bool_decide (b = colon) then if bool_decide (percent ∈ whole) then None else parseIPv6 whole
    else if bool_decide (b = percent) then None
    else parse_addr s' whole
  end.

Definition ParseIP (s : bytes) : option (list Z) := parse_addr s s.

(** ** Printing *)

(** [appendHex]: no leading zeros, lower case. *)
Definition hex_text (x : Z) : bytes :=
  let digit (n : Z) := hex_digit (Z.to_N (x / n mod 16)) in
  (if 4096 <=? x then [digit 4096] else []) ++ (if 256 <=? x then [digit 256] else []) ++ (if 16 <=? x then [digit 16] else []) ++ [digit 1].

Fixpoint zeros (l : list Z) : nat := match l with 0 :: l' => S (zeros l') | _ => O end.

(** The first of the longest runs of at least two zero groups: where it starts
    and how long it is. *)
Fixpoint zero_run (i : nat) (l : list Z) (best : nat * nat) : nat * nat :=
  match l with
  | [] => best
  | _ :: l' => zero_run (S i) l' (if (2 <=? zeros l)%nat && (best.2 <? zeros l)%nat then (i, zeros l) else best)
  end.

Definition IP_String (g : list Z) : bytes :=
  if bool_decide (take 6 g = v4_prefix) then join [dot] (map digits (flat_map (fun x => [x / 256; x mod 256]) (drop 6 g)))
  else
    let '(start, len) := zero_run 0 g (0%nat, 0%nat) in
    if (len =? 0)%nat then join [colon] (map hex_text g)
    else join [colon] (map hex_text (take start g)) ++ [colon; colon] ++ join [colon] (map hex_text (drop (start + len) g)).

(** ** What is printed is read back *)

Definition group (x : Z) : Prop := 0 ≤ x < 65536.

Definition hex_text_ok (x : Z) : bool :=
  let ds := hex_text x in
  (length ds <=? 4)%nat && negb (bool_decide (ds = [])) && forallb (fun b => match hex_value b with Some _ => true | None => false end) ds && (hex_number 0 ds =? x).

Fixpoint check_from (f : Z → bool) (n : nat) (x : Z) : bool := match n with O => true | S n' => f x && check_from f n' (x + 1) end.

Lemma check_from_spec f n x : check_from f n x = true → ∀ y, x ≤ y < x + Z.of_nat n → f y = true.
Proof.
  revert x. induction n as [|n IH]; intros x; cbn [check_from]; [lia|]. intros [Hx Hn]%andb_true_iff y Hy. destruct (decide (y = x)) as [->|]; [done|]. apply (IH (x + 1)); [done|lia].
Qed.

Lemma hex_text_all : check_from hex_text_ok (Z.to_nat 65536) 0 = true.
Proof. vm_compute. reflexivity. Qed.

Definition is_hex (b : Byte.byte) : bool := match hex_value b with Some _ => true | None => false end.

Lemma hex_text_spec x : group x → (length (hex_text x) ≤ 4)%nat ∧ hex_text x ≠ [] ∧ forallb is_hex (hex_text x) = true ∧ hex_number 0 (hex_text x) = x.
Proof.
  intros Hx. assert (hex_text_ok x = true) as Hok by (apply (check_from_spec _ _ _ hex_text_all); unfold group in Hx; lia). unfold hex_text_ok in Hok. rewrite !andb_true_iff in Hok. destruct Hok as [[[H1 H2] H3] H4].
  apply Nat.leb_le in H1. apply negb_true_iff, bool_decide_eq_false in H2. apply Z.eqb_eq in H4. done.
Qed.

Lemma hex_prefix_app ds rest : forallb is_hex ds = true → match rest with [] => true | b :: _ => negb (is_hex b) end = true → hex_prefix (ds ++ rest) = (ds, rest).
Proof.
  induction ds as [|b ds IH]; cbn.
  - intros _. destruct rest as [|b rest]; [done|]. unfold is_hex. cbn. by destruct (hex_value b).
  - unfold is_hex at 1. destruct (hex_value b); [|done]. cbn. intros Hd Hr. by rewrite IH.
Qed.

(** One group and what follows it. *)
Lemma parse_group room x rest groups e : group x → match rest with [] => true | b :: _ => negb (is_hex b) end = true →
  parse_groups (S room) (hex_text x ++ rest) groups e =
  match rest with
  | [] => Some (groups ++ [x], e, [])
  | b :: more =>
    if bool_decide (b = dot) then
      if (bool_decide (e = None) && negb (length groups =? 6)%nat) || (6 <? length groups)%nat then None
      else v4 ← parseIPv4 (hex_text x ++ rest); Some (groups ++ v4, e, [])
    else if negb (bool_decide (b = colon)) then None
    else match more with
    | [] => None
    | c :: more' =>
      if bool_decide (c = colon) then
        match e with
        | Some _ => None
        | None => match more' with [] => Some (groups ++ [x], Some (length (groups ++ [x])), []) | _ => parse_groups room more' (groups ++ [x]) (Some (length (groups ++ [x]))) end
        end
      else parse_groups room more (groups ++ [x]) e
    end
  end.
Proof.
  intros Hx Hr. destruct (hex_text_spec x Hx) as (H1 & H2 & H3 & H4). cbn [parse_groups]. rewrite hex_prefix_app //. rewrite bool_decide_false //.
  destruct (Nat.ltb_spec 4 (length (hex_text x))); [lia|]. cbn [orb]. by rewrite H4.
Qed.

Definition hexs (l : list Z) : bytes := join [colon] (map hex_text l).

Lemma hexs_cons x y l : hexs (x :: y :: l) = hex_text x ++ colon :: hexs (y :: l).
Proof. done. Qed.

Lemma hexs_head x l : group x → ∃ b rest, hexs (x :: l) = b :: rest ∧ is_hex b = true.
Proof.
  intros Hx. destruct (hex_text_spec x Hx) as (_ & H2 & H3 & _). destruct (hex_text x) as [|b ds] eqn:E; [done|]. cbn in H3. apply andb_true_iff in H3 as [H3 _].
  destruct l as [|y l]; [exists b, ds|exists b, (ds ++ colon :: hexs (y :: l))]; (split; [|done]); [unfold hexs; cbn; by rewrite E|by rewrite hexs_cons E].
Qed.

Lemma hex_not_colon b : is_hex b = true → b ≠ colon.
Proof. by intros H1 ->. Qed.

(** A list of groups is read to its end. *)
Lemma parse_hexs l room groups e : l ≠ [] → Forall group l → (length l ≤ room)%nat → parse_groups room (hexs l) groups e = Some (groups ++ l, e, []).
Proof.
  revert room groups. induction l as [|x l IH]; [done|]. intros room groups _ Hl Hlen. apply Forall_cons in Hl as [Hx Hl]. destruct room as [|room]; [cbn in Hlen; lia|].
  destruct l as [|y l]; [unfold hexs; cbn [map join]; rewrite -(app_nil_r (hex_text x)) parse_group //|].
  rewrite hexs_cons parse_group //. pose proof Hl as [Hy _]%Forall_cons. destruct (hexs_head y l Hy) as (b & rest & Hb & Hh).
  rewrite (bool_decide_false (colon = dot)) // (bool_decide_true (colon = colon)) //. cbn [negb]. rewrite Hb. rewrite bool_decide_false; [by apply hex_not_colon|]. rewrite -Hb IH //; [cbn in Hlen |- *; lia|]. by rewrite -app_assoc.
Qed.

(** A list of groups up to an ellipsis. *)
Lemma parse_hexs_ellipsis l room groups tail : l ≠ [] → Forall group l → (length l ≤ room)%nat →
  parse_groups room (hexs l ++ colon :: colon :: tail) groups None =
  match tail with
  | [] => Some (groups ++ l, Some (length (groups ++ l)), [])
  | _ => parse_groups (room - length l) tail (groups ++ l) (Some (length (groups ++ l)))
  end.
Proof.
  revert room groups. induction l as [|x l IH]; [done|]. intros room groups _ Hl Hlen. apply Forall_cons in Hl as [Hx Hl]. destruct room as [|room]; [cbn in Hlen; lia|].
  destruct l as [|y l].
  { unfold hexs; cbn [map join]. rewrite parse_group //. rewrite (bool_decide_false (colon = dot)) // (bool_decide_true (colon = colon)) //. cbn [negb length]. by rewrite Nat.sub_succ Nat.sub_0_r. }
  rewrite hexs_cons -app_assoc -app_comm_cons parse_group //. pose proof Hl as [Hy _]%Forall_cons. destruct (hexs_head y l Hy) as (b & rest & Hb & Hh).
  rewrite (bool_decide_false (colon = dot)) // (bool_decide_true (colon = colon)) //. cbn [negb]. rewrite Hb. cbn [app]. rewrite bool_decide_false; [by apply hex_not_colon|]. rewrite app_comm_cons -Hb IH //; [cbn in Hlen |- *; lia|]. by rewrite -!app_assoc.
Qed.

(** *** IPv6 *)

Lemma zeros_spec l : (zeros l ≤ length l)%nat ∧ take (zeros l) l = replicate (zeros l) 0.
Proof. induction l as [|[] l [IH1 IH2]]; cbn; try (split; [lia|done]). split; [lia|by rewrite IH2]. Qed.

Lemma zero_run_spec l : ∀ i best st len, zero_run i l best = (st, len) →
  (st, len) = best ∨ (2 ≤ len ∧ i ≤ st ∧ st - i + len ≤ length l)%nat ∧ take len (drop (st - i) l) = replicate len 0.
Proof.
  induction l as [|x l IH]; intros i best st len; cbn [zero_run]; [by left|]. intros [Heq|([H1 [H2 H3]] & H4)]%IH.
  - destruct (_ && _) eqn:Hc; [|by left]. right. injection Heq as -> ->. apply andb_true_iff in Hc as [Hc _]. apply Nat.leb_le in Hc.
    destruct (zeros_spec (x :: l)) as [Z1 Z2]. rewrite Nat.sub_diag drop_0. split; [cbn in *; lia|done].
  - right. cbn [length]. replace (st - i)%nat with (S (st - S i)) by lia. cbn [drop]. split; [lia|done].
Qed.

(** The printed text of groups has no separator but colons. *)
Lemma hexs_bytes l b : Forall group l → b ∈ hexs l → is_hex b = true ∨ b = colon.
Proof.
  induction l as [|x l IH]; [by intros _ ?%elem_of_nil|]. intros [Hx Hl]%Forall_cons. destruct (hex_text_spec x Hx) as (_ & _ & H3 & _).
  assert (b ∈ hex_text x → is_hex b = true) as Hh by (intros Hb; rewrite forallb_forall in H3; by apply H3, list_elem_of_In).
  destruct l as [|y l]; [unfold hexs; cbn [map join]; auto|]. rewrite hexs_cons. intros [Hb|[->|Hb]%elem_of_cons]%elem_of_app; auto.
Qed.

Lemma parse_addr_colon s whole : colon ∈ s → (∀ b, b ∈ s → is_hex b = true ∨ b = colon) → percent ∉ whole → parse_addr s whole = parseIPv6 whole.
Proof.
  intros Hc Hs Hp. induction s as [|b s IH]; [by apply elem_of_nil in Hc|]. cbn [parse_addr]. destruct (Hs b) as [Hb| ->]; [set_solver| |].
  - rewrite !bool_decide_false; [by intros ->..|]. apply IH; [|set_solver]. apply elem_of_cons in Hc as [<-|Hc]; done.
  - rewrite bool_decide_false //. rewrite bool_decide_true //. by rewrite bool_decide_false.
Qed.

Lemma parseIPv6_plain s b rest : s = b :: rest → is_hex b = true → parseIPv6 s = parse_groups 8 s [] None ≫= expand.
Proof. intros -> Hb. unfold parseIPv6. destruct rest as [|c rest]; [done|]. rewrite bool_decide_false //. by apply hex_not_colon. Qed.

Lemma hexs_nonempty l : Forall group l → l ≠ [] → hexs l ≠ [].
Proof. intros Hl Hne. destruct l as [|x l]; [done|]. apply Forall_cons in Hl as [Hx _]. by destruct (hexs_head x l Hx) as (b & rest & -> & _). Qed.

Lemma expand_run g st len : length g = 8%nat → (2 ≤ len)%nat → (st + len ≤ 8)%nat → take len (drop st g) = replicate len 0 →
  expand (take st g ++ drop (st + len) g, Some st, []) = Some g.
Proof.
  intros Hg Hlen Hst Hz. unfold expand. assert (length (take st g ++ drop (st + len) g) = 8 - len)%nat as -> by (rewrite length_app length_take length_drop; lia).
  destruct (Nat.ltb_spec (8 - len) 8); [|lia]. f_equal. replace (8 - (8 - len))%nat with len by lia. rewrite -Hz.
  assert (length (take st g) = st) as Hl by (rewrite length_take; lia).
  rewrite take_app_length' // drop_app_length' //. rewrite -drop_drop. by rewrite !take_drop.
Qed.

Lemma parseIPv6_run g st len : length g = 8%nat → Forall group g → (2 ≤ len)%nat → (st + len ≤ 8)%nat → take len (drop st g) = replicate len 0 →
  parseIPv6 (hexs (take st g) ++ [colon; colon] ++ hexs (drop (st + len) g)) = Some g.
Proof.
  intros Hg Hgr Hlen Hst Hz. pose proof (expand_run g st len Hg Hlen Hst Hz) as He. set (A := take st g) in *. set (B := drop (st + len) g) in *.
  assert (Forall group A) as HA by (by apply Forall_take). assert (Forall group B) as HB by (by apply Forall_drop).
  assert (length A = st) as LA by (unfold A; rewrite length_take; lia). assert (length B = 8 - st - len)%nat as LB by (unfold B; rewrite length_drop; lia).
  destruct A as [|a A'] eqn:EA.
  - cbn in LA. subst st. change (hexs [] ++ [colon; colon] ++ hexs B) with (colon :: colon :: hexs B). unfold parseIPv6. rewrite !bool_decide_true //. cbn [andb].
    destruct B as [|b B'] eqn:EB; [cbn [hexs map join]; rewrite -He; reflexivity|].
    destruct (hexs (b :: B')) as [|c rest] eqn:EH; [by apply hexs_nonempty in EH|]. rewrite -EH parse_hexs; [done|done|cbn [length] in LB |- *; lia|]. exact He.
  - rewrite -EA in HA LA He |- *. assert (A ≠ []) as Hne by (by rewrite EA). assert (group a) as Ha by (rewrite EA in HA; by apply Forall_cons in HA as [? _]).
    destruct (hexs_head a A' Ha) as (c & rest & Hc & Hh). rewrite (parseIPv6_plain _ c (rest ++ [colon; colon] ++ hexs B)); [by rewrite EA Hc|done|].
    change (hexs A ++ [colon; colon] ++ hexs B) with (hexs A ++ colon :: colon :: hexs B). rewrite parse_hexs_ellipsis //; [lia|]. cbn [app]. rewrite LA.
    destruct B as [|b B'] eqn:EB; [rewrite app_nil_r in He; exact He|].
    destruct (hexs (b :: B')) as [|c' rest'] eqn:EH; [by apply hexs_nonempty in EH|]. rewrite -EH parse_hexs; [done|done|cbn [length] in LB |- *; lia|]. exact He.
Qed.

(** *** IPv4 *)

Definition octet_ok (n : Z) : bool :=
  bool_decide (octet (digits n) = Some n) && forallb (fun b => negb (bool_decide (b ∈ [dot; colon; percent]))) (digits n).

Lemma octet_all : check_from octet_ok 256 0 = true.
Proof. vm_compute. reflexivity. Qed.

Lemma octet_spec n : 0 ≤ n < 256 → octet (digits n) = Some n ∧ ∀ b, b ∈ digits n → b ∉ [dot; colon; percent].
Proof.
  intros Hn. assert (octet_ok n = true) as [Ho Hd]%andb_true_iff by (apply (check_from_spec _ _ _ octet_all); lia). apply bool_decide_eq_true in Ho. split; [done|].
  intros b Hb. rewrite forallb_forall in Hd. apply list_elem_of_In, Hd, negb_true_iff, bool_decide_eq_false in Hb. done.
Qed.

Lemma parse_addr_dot s rest whole : (∀ b, b ∈ s → b ∉ [dot; colon; percent]) → parse_addr (s ++ dot :: rest) whole = (v4 ← parseIPv4 whole; Some (v4_prefix ++ v4)).
Proof.
  induction s as [|b s IH]; intros Hs; cbn [app parse_addr]; [done|]. specialize (Hs b ltac:(set_solver)) as Hb.
  rewrite !bool_decide_false; [intros ->; set_solver..|]. apply IH. set_solver.
Qed.

Lemma parse_dotted a b c d : 0 ≤ a < 256 → 0 ≤ b < 256 → 0 ≤ c < 256 → 0 ≤ d < 256 →
  ParseIP (join [dot] (map digits [a; b; c; d])) = Some (v4_prefix ++ [a * 256 + b; c * 256 + d]).
Proof.
  intros Ha Hb Hc Hd. destruct (octet_spec a Ha) as [Oa Fa], (octet_spec b Hb) as [Ob Fb], (octet_spec c Hc) as [Oc Fc], (octet_spec d Hd) as [Od Fd].
  unfold ParseIP. set (whole := join [dot] _). assert (whole = digits a ++ dot :: join [dot] (map digits [b; c; d])) as Hw by done. rewrite {1}Hw parse_addr_dot //.
  unfold parseIPv4, whole. rewrite split_join; [|done|].
  - repeat constructor; intros Hin; [by apply Fa in Hin; set_solver|by apply Fb in Hin; set_solver|by apply Fc in Hin; set_solver|by apply Fd in Hin; set_solver].
  - cbn [map]. by rewrite Oa Ob Oc Od.
Qed.

(** *** Both *)

Theorem ip_roundtrip g : length g = 8%nat → Forall group g → ParseIP (IP_String g) = Some g.
Proof.
  intros Hg Hgr. unfold IP_String. case_bool_decide as Hv.
  - rewrite -{2}(take_drop 6 g) Hv. assert (length (drop 6 g) = 2)%nat as Hl by (rewrite length_drop; lia). assert (Forall group (drop 6 g)) as Hd by (by apply Forall_drop).
    destruct (drop 6 g) as [|hi [|lo [|]]]; try done. clear Hl. rewrite !Forall_cons in Hd. destruct Hd as (Hhi & Hlo & _). unfold group in *.
    cbn [flat_map app]. rewrite parse_dotted; try (Z.to_euclidean_division_equations; lia).
    do 2 f_equal. f_equal; [Z.to_euclidean_division_equations; lia|]. f_equal. Z.to_euclidean_division_equations; lia.
  - destruct (zero_run 0 g (0, 0)%nat) as [st len] eqn:Hz. apply zero_run_spec in Hz.
    assert (∀ l, Forall group l → percent ∉ hexs l) as Hp by (intros l Hl Hin; by apply hexs_bytes in Hin as [?|?]).
    destruct (Nat.eqb_spec len 0) as [->|Hne].
    + change (join [colon] (map hex_text g)) with (hexs g). unfold ParseIP. destruct g as [|x [|y g]]; try done. pose proof Hgr as [Hx _]%Forall_cons.
      rewrite parse_addr_colon; [rewrite hexs_cons; set_solver|intros b; by apply hexs_bytes|by apply Hp|].
      destruct (hexs_head x (y :: g) Hx) as (b & rest & Hb & Hh). rewrite (parseIPv6_plain _ b rest) // parse_hexs //; [rewrite Hg; lia|]. cbn [app mbind option_bind expand].
      by rewrite Hg.
    + destruct Hz as [?|[(H1 & _ & H3) H4]]; [congruence|]. rewrite Nat.sub_0_r in H3, H4. unfold ParseIP.
      change (join [colon] (map hex_text (take st g))) with (hexs (take st g)). change (join [colon] (map hex_text (drop (st + len) g))) with (hexs (drop (st + len) g)).
      assert (Forall group (take st g)) as HA by (by apply Forall_take). assert (Forall group (drop (st + len) g)) as HB by (by apply Forall_drop).
      rewrite parse_addr_colon; [set_solver| | |apply parseIPv6_run; try done; lia].
      * intros b [Hb|[Hb|Hb]%elem_of_app]%elem_of_app; [by apply (hexs_bytes (take st g))|right; set_solver|by apply (hexs_bytes (drop (st + len) g))].
      * intros [Hb|[Hb|Hb]%elem_of_app]%elem_of_app; [by apply (Hp (take st g))|set_solver|by apply (Hp (drop (st + len) g))].
Qed.

(** ** What is read is an address *)

Lemma octet_range f n : octet f = Some n → 0 ≤ n < 256.
Proof.
  assert (∀ l acc v, 0 ≤ acc → decimal_value acc l = Some v → 0 ≤ v) as Hd.
  { induction l as [|b l IH]; intros acc v Ha; cbn; [by intros [= <-]|]. destruct (is_digit b) eqn:Hb; [|done]. apply IH.
    assert (48 ≤ Z.of_N (Byte.to_N b)) by (destruct b; try discriminate; cbn; lia). lia. }
  unfold octet. destruct f as [|b l]; [done|]. destruct (_ && _); [done|]. destruct (decimal_value 0 (b :: l)) as [v|] eqn:Hv; [|done]. cbn [mbind option_bind].
  destruct (Z.leb_spec v 255); [|done]. intros [= <-]. apply Hd in Hv; lia.
Qed.

Lemma parseIPv4_groups s l : parseIPv4 s = Some l → length l = 2%nat ∧ Forall group l.
Proof.
  unfold parseIPv4. destruct (split_on dot s) as [|f0 [|f1 [|f2 [|f3 [|]]]]]; try done.
  destruct (octet f0) eqn:E0; [|done]. destruct (octet f1) eqn:E1; [|done]. destruct (octet f2) eqn:E2; [|done]. destruct (octet f3) eqn:E3; [|done].
  cbn. intros [= <-]. apply octet_range in E0, E1, E2, E3. split; [done|]. repeat constructor; lia.
Qed.

Lemma hex_number_bound ds acc : 0 ≤ acc → 0 ≤ hex_number acc ds < (acc + 1) * 16 ^ Z.of_nat (length ds).
Proof.
  revert acc. induction ds as [|b ds IH]; intros acc Ha; cbn [hex_number length]; [lia|].
  assert (0 ≤ Z.of_N (default 0%N (hex_value b)) < 16) as Hb by (destruct b; cbn; lia). rewrite Nat2Z.inj_succ Z.pow_succ_r; [lia|].
  destruct (IH (acc * 16 + Z.of_N (default 0%N (hex_value b)))); [lia|]. nia.
Qed.

Lemma parse_groups_valid room : ∀ s groups e out e' rest,
  parse_groups room s groups e = Some (out, e', rest) → (room + length groups = 8)%nat → Forall group groups → (∀ k, e = Some k → (k ≤ length groups)%nat) →
  (length out ≤ 8)%nat ∧ Forall group out ∧ ∀ k, e' = Some k → (k ≤ length out)%nat.
Proof.
  induction room as [|room IH]; intros s groups e out e' rest; cbn [parse_groups]; [intros [= <- <- _] Hr Hg He; split_and!; [lia|done|done]|].
  destruct (hex_prefix s) as [ds rs]. destruct (_ || _) eqn:Hc; [done|]. apply orb_false_iff in Hc as [Hc _]. apply Nat.ltb_ge in Hc. intros Hrun Hlen Hg He.
  assert (group (hex_number 0 ds)) as Hx.
  { destruct (hex_number_bound ds 0); [lia|]. assert (16 ^ Z.of_nat (length ds) ≤ 16 ^ 4) by (apply Z.pow_le_mono_r; lia). unfold group. lia. }
  assert (Forall group (groups ++ [hex_number 0 ds])) as Hg' by (apply Forall_app; split; [done|by apply Forall_singleton]).
  assert (length (groups ++ [hex_number 0 ds]) = S (length groups)) as Hl' by (rewrite length_app; cbn; lia).
  destruct rs as [|b more]; [injection Hrun as <- <- _; split_and!; [lia|done|]; intros k Hk; specialize (He k Hk); lia|].
  case_bool_decide.
  - destruct ((_ && _) || _) eqn:Hc2; [done|]. apply orb_false_iff in Hc2 as [_ Hc2]. apply Nat.ltb_ge in Hc2. destruct (parseIPv4 s) as [v4|] eqn:Hv; [|done].
    cbn in Hrun. injection Hrun as <- <- _. destruct (parseIPv4_groups s v4 Hv) as [L4 G4]. rewrite length_app. split_and!; [lia|by apply Forall_app|].
    intros k Hk. specialize (He k Hk). lia.
  - destruct (negb _); [done|]. destruct more as [|c more']; [done|]. case_bool_decide.
    + destruct e; [done|]. destruct more' as [|x y]; [injection Hrun as <- <- _; split_and!; [lia|done|by intros k [= <-]]|].
      eapply IH; [exact Hrun|lia|done|by intros k [= <-]].
    + eapply IH; [exact Hrun|lia|done|]. intros k Hk. specialize (He k Hk). lia.
Qed.

Lemma expand_valid p g : expand p = Some g → (length p.1.1 ≤ 8)%nat → Forall group p.1.1 → (∀ k, p.1.2 = Some k → (k ≤ length p.1.1)%nat) → length g = 8%nat ∧ Forall group g.
Proof.
  destruct p as [[groups e] rest]. unfold expand. cbn [fst snd]. destruct rest; [|done]. intros Hx Hl Hg He. destruct (Nat.ltb_spec (length groups) 8) as [Hlt|Hge].
  - destruct e as [k|]; [|done]. injection Hx as <-. specialize (He k eq_refl). rewrite !length_app length_take length_replicate length_drop. split; [lia|].
    apply Forall_app. split; [by apply Forall_take|]. apply Forall_app. split; [|by apply Forall_drop]. apply Forall_replicate. unfold group. lia.
  - destruct e; [done|]. injection Hx as <-. split; [lia|done].
Qed.

Lemma ParseIP_valid s g : ParseIP s = Some g → length g = 8%nat ∧ Forall group g.
Proof.
  unfold ParseIP. generalize s at 1. intros s'. induction s' as [|b s' IH]; cbn [parse_addr]; [done|]. repeat case_bool_decide; try done.
  - destruct (parseIPv4 s) as [v4|] eqn:Hv; [|done]. cbn. intros [= <-]. destruct (parseIPv4_groups s v4 Hv) as [L4 G4]. split; [cbn; by rewrite L4|].
    repeat (constructor; [unfold group; lia|]). done.
  - assert (∀ s e, e = None ∨ e = Some 0%nat → parse_groups 8 s [] e ≫= expand = Some g → length g = 8%nat ∧ Forall group g) as Hg.
    { intros t e He Ht. destruct (parse_groups 8 t [] e) as [[[out e'] rest]|] eqn:Hp; [|done]. apply parse_groups_valid in Hp as (P1 & P2 & P3); [|done|done|by destruct He as [->| ->]; intros k [= <-]].
      by apply (expand_valid _ _ Ht). }
    unfold parseIPv6. destruct s as [|x [|y rest]]; [apply Hg; auto..|]. destruct (_ && _); [|apply Hg; auto]. destruct rest; [|apply Hg; auto].
    intros [= <-]. split; [done|]. repeat (constructor; [unfold group; lia|]). constructor.
Qed.

(** The usual form of a host. *)
Definition usual_host (h : bytes) : bytes := match ParseIP h with Some g => IP_String g | None => h end.

(** Bringing a host into its usual form again changes nothing. *)
Theorem usual_host_idempotent h : usual_host (usual_host h) = usual_host h.
Proof.
  unfold usual_host at 2 3. destruct (ParseIP h) as [g|] eqn:Hp; [|unfold usual_host; by rewrite Hp]. destruct (ParseIP_valid h g Hp) as [Hl Hg].
  unfold usual_host. by rewrite ip_roundtrip.
Qed.
