(* ===== verification/Descriptor.v ===== *)
(** * Presence metadata (internal/transport/rns/descriptor.go)

    What an allocator announces about itself and what a client makes of it: the
    capacity as a URL query, the platform, and the tunnel edge.  The query form is
    the one of the Go library. *)

From stdpp Require Import pretty.
From S2P Require Import Prelude GoStrings Ordering Wire Utf8 Json Decimal Cluster Publish NetIP.
From Stdlib Require Import Strings.Byte.

(** ** URL queries (net/url) *)

Definition ampersand : Byte.byte := x26.
Definition equals_sign : Byte.byte := x3d.
Definition plus : Byte.byte := x2b.
Definition semicolon : Byte.byte := x3b.
Definition space : Byte.byte := x20.

Definition unreserved (b : Byte.byte) : bool :=
  byte_in 0x30 0x39 b || byte_in 0x41 0x5A b || byte_in 0x61 0x7A b || bool_decide (b ∈ [x2d; x5f; x2e; x7e]).

(** The digit in upper case. *)
Definition upper_hex (n : N) : Byte.byte :=
  default x30 (Byte.of_N (if (n <? 10)%N then 48 + n else 55 + n)%N).

Definition escape_byte (b : Byte.byte) : bytes :=
  if unreserved b then [b] else if bool_decide (b = space) then [plus]
  else [percent; upper_hex (Byte.to_N b / 16); upper_hex (Byte.to_N b mod 16)].

(** [url.QueryEscape] *)
Definition QueryEscape (s : bytes) : bytes := flat_map escape_byte s.

(** [url.QueryUnescape] *)
Fixpoint QueryUnescape (s : bytes) : option bytes :=
  match s with
  | [] => Some []
  | b :: s' =>
    if bool_decide (b = percent) then
      match s' with
      | h :: l :: s'' =>
        match hex_value h, hex_value l with
        | Some hv, Some lv => match Byte.of_N (hv * 16 + lv), QueryUnescape s'' with Some c, Some r => Some (c :: r) | _, _ => None end
        | _, _ => None
        end
      | _ => None
      end
    else r ← QueryUnescape s'; Some ((if bool_decide (b = plus) then space else b) :: r)
  end.

(** [Values.Encode] of single values, by ascending key. *)
Definition encode_values (values : list (string * bytes)) : bytes :=
  join [ampersand] (map (fun kv => QueryEscape (text kv.1) ++ equals_sign :: QueryEscape kv.2) values).

(** [url.ParseQuery]: the pairs, if no part is malformed. *)
Definition query_part (part : bytes) : option (list (string * bytes)) :=
  if bool_decide (semicolon ∈ part) then None
  else match part with
  | [] => Some []
  | _ =>
    let '(k, v) := default (part, []) (cut equals_sign part) in
    key ← QueryUnescape k; value ← QueryUnescape v; Some [(go_string key, value)]
  end.

Fixpoint query_parts (parts : list bytes) : option (list (string * bytes)) :=
  match parts with
  | [] => Some []
  | part :: rest => kv ← query_part part; kvs ← query_parts rest; Some (kv ++ kvs)
  end.

Definition ParseQuery (query : bytes) : option (list (string * bytes)) := query_parts (split_on ampersand query).

(** ** Descriptors *)

Definition metadataCapacity : string := "c".
Definition metadataOS : string := "o".
Definition metadataArch : string := "a".
Definition metadataRuntime : string := "r".
Definition metadataTunnelHost : string := "h".
Definition metadataTunnelPort : string := "p".
Definition metadataTunnelDestination : string := "d".

Record Descriptor := mkDescriptor {
  ds_Capacity : gmap string Z;
  ds_OS : string;
  ds_Arch : string;
  ds_Runtime : string;
  ds_TunnelHost : string;
  ds_TunnelPort : Z;
  ds_TunnelDestination : string
}.

Record TunnelAdvertisement := mkAdvertisement { ta_Host : string; ta_Port : Z; ta_DestinationHash : string }.

Inductive descriptor_error := D_Entries | D_Required | D_Duplicate | D_Slots | D_Port | D_Incomplete | D_Tunnel.

(** [strconv.ParseUint(_, 10, 32)] *)
Definition ParseUint32 (raw : bytes) : option Z :=
  match raw with
  | [] => None
  | _ => v ← decimal_value 0 raw; if v <? 2 ^ 32 then Some v else None
  end.

Definition newDescriptor (capacity : gmap string Z) (node : option NodeCapabilities) (tunnel : option TunnelAdvertisement) : result descriptor_error Descriptor :=
  if existsb (fun kv => blank kv.1 || (kv.2 =? 0)) (map_to_list capacity) then Err D_Entries
  else if bool_decide (capacity = ∅) then Err D_Required
  else
    let os := from_option nc_os "" node in
    let arch := from_option nc_arch "" node in
    let runtime := from_option nc_runtime "" node in
    match tunnel with
    | Some t =>
      if ta_Port t =? 0 then Ok (mkDescriptor capacity os arch runtime "" 0 "")
      else if (ta_Port t <? 1) || (65535 <? ta_Port t) || blank (ta_Host t) then Err D_Tunnel
      else Ok (mkDescriptor capacity os arch runtime (go_string (usual_host (text (ta_Host t)))) (ta_Port t) (ta_DestinationHash t))
    | None => Ok (mkDescriptor capacity os arch runtime "" 0 "")
    end.

(** The keys of a map in ascending order with their values. *)
Definition by_key (capacity : gmap string Z) : list (string * Z) :=
  map (fun k => (k, default 0 (capacity !! k))) (sort_strings (map_to_list capacity).*1).

Definition set_nonempty (key value : string) (m : gmap string string) : gmap string string :=
  if bool_decide (value = "") then m else <[key := value]> m.

(** [Descriptor.metadata] *)
Definition metadata (d : Descriptor) : gmap string string :=
  let base := {[metadataCapacity := go_string (encode_values (map (fun kv => (kv.1, digits kv.2)) (by_key (ds_Capacity d))))]} in
  let named := set_nonempty metadataOS (ds_OS d) (set_nonempty metadataArch (ds_Arch d) (set_nonempty metadataRuntime (ds_Runtime d)
    (set_nonempty metadataTunnelHost (ds_TunnelHost d) (set_nonempty metadataTunnelDestination (ds_TunnelDestination d) base)))) in
  if 0 <? ds_TunnelPort d then <[metadataTunnelPort := go_string (digits (ds_TunnelPort d))]> named else named.

Fixpoint slots_of (pairs : list (string * bytes)) : result descriptor_error (gmap string Z) :=
  match pairs with
  | [] => Ok ∅
  | (class, raw) :: rest =>
    if bool_decide (class ∈ rest.*1) then Err D_Duplicate
    else match ParseUint32 raw with
    | None => Err D_Slots
    | Some slots => if slots =? 0 then Err D_Slots else try more ← slots_of rest; Ok (<[class := slots]> more)
    end
  end.

Definition parseDescriptorMetadata (m : gmap string string) : result descriptor_error Descriptor :=
  let field key := default "" (m !! key) in
  match ParseQuery (text (field metadataCapacity)) with
  | None => Err D_Required
  | Some pairs =>
    if bool_decide (field metadataCapacity = "") then Err D_Required
    else
      try capacity ← slots_of pairs;
      try tunnel ← (if negb (bool_decide (field metadataTunnelPort = "")) then
                      match Atoi (text (field metadataTunnelPort)) with
                      | None => Err D_Port
                      | Some port => Ok (Some (mkAdvertisement (field metadataTunnelHost) port (field metadataTunnelDestination)))
                      end
                    else if negb (bool_decide (field metadataTunnelHost = "")) || negb (bool_decide (field metadataTunnelDestination = "")) then Err D_Incomplete
                    else Ok None);
      newDescriptor capacity (Some (mkNode (field metadataOS) (field metadataArch) (field metadataRuntime) [] [] ∅ [])) tunnel
  end.

(** ** Queries round trip *)

Lemma unescape_byte b l : QueryUnescape (escape_byte b ++ l) = (cons b) <$> QueryUnescape l.
Proof.
  assert (unreserved b = true → b ≠ percent ∧ b ≠ plus) as Hu by (destruct b; vm_compute; done).
  assert (hex_value (upper_hex (Byte.to_N b / 16)) = Some (Byte.to_N b / 16)%N ∧ hex_value (upper_hex (Byte.to_N b mod 16)) = Some (Byte.to_N b mod 16)%N ∧
    Byte.of_N (Byte.to_N b / 16 * 16 + Byte.to_N b mod 16) = Some b) as (H1 & H2 & H3) by (destruct b; vm_compute; done).
  unfold escape_byte. destruct (unreserved b).
  - destruct Hu as [Hp Hq]; [done|]. cbn [app QueryUnescape]. by rewrite !bool_decide_false.
  - case_bool_decide as Hs; [subst b; cbn [app QueryUnescape]|]; [by rewrite bool_decide_false // bool_decide_true|].
    cbn [app QueryUnescape]. rewrite bool_decide_true // H1 H2 H3. by destruct (QueryUnescape l).
Qed.

Lemma unescape_escape s : QueryUnescape (QueryEscape s) = Some s.
Proof. induction s as [|b s IH]; [done|]. cbn [QueryEscape flat_map]. fold (QueryEscape s). by rewrite unescape_byte IH. Qed.

Lemma escape_free s b : b ∈ [ampersand; equals_sign; semicolon] → b ∉ QueryEscape s.
Proof.
  intros Hb Hin. unfold QueryEscape in Hin. apply list_elem_of_In, in_flat_map in Hin as (c & _ & Hc).
  assert (forallb (fun x => negb (bool_decide (x ∈ [ampersand; equals_sign; semicolon]))) (escape_byte c) = true) as Hf by (destruct c; vm_compute; reflexivity).
  rewrite forallb_forall in Hf. apply Hf, negb_true_iff, bool_decide_eq_false in Hc. done.
Qed.

Definition value_text (kv : string * bytes) : bytes := QueryEscape (text kv.1) ++ equals_sign :: QueryEscape kv.2.

Lemma value_text_free kv b : b ∈ [ampersand; semicolon] → b ∉ value_text kv.
Proof.
  intros Hb [Hin|[->|Hin]%elem_of_cons]%elem_of_app; [apply (escape_free (text kv.1) b); [set_solver|done]|set_solver by discriminate|
    apply (escape_free kv.2 b); [set_solver|done]].
Qed.

Lemma query_part_value kv : query_part (value_text kv) = Some [kv].
Proof.
  destruct kv as [k v]. unfold query_part. rewrite bool_decide_false; [apply value_text_free; set_solver|]. unfold value_text. cbn [fst snd].
  destruct (QueryEscape (text k) ++ equals_sign :: QueryEscape v) as [|b l] eqn:E; [by destruct (QueryEscape (text k))|]. rewrite -E.
  rewrite cut_app; [apply escape_free; set_solver|]. unfold default, from_option, id. rewrite !unescape_escape. cbn [mbind option_bind]. do 3 f_equal.
  apply String.string_of_list_byte_of_string.
Qed.

Lemma query_roundtrip values : values ≠ [] → ParseQuery (encode_values values) = Some values.
Proof.
  intros Hne. unfold ParseQuery, encode_values. rewrite split_join; [|by destruct values|].
  - apply Forall_forall. intros p (kv & -> & _)%list_elem_of_fmap. apply (value_text_free kv). set_solver.
  - clear Hne. induction values as [|kv values IH]; [done|]. cbn [map query_parts]. change (QueryEscape (text kv.1) ++ equals_sign :: QueryEscape kv.2) with (value_text kv).
    rewrite query_part_value. cbn [mbind option_bind]. by rewrite IH.
Qed.

(** ** Capacities round trip *)

Definition slots_ok (v : Z) : Prop := 0 < v < 2 ^ 32.

Lemma ParseUint32_digits v : slots_ok v → ParseUint32 (digits v) = Some v.
Proof.
  intros Hv. unfold slots_ok in Hv. destruct (digits_ok v) as (Hne & _ & Hd); [lia|]. unfold ParseUint32. destruct (digits v) eqn:E; [done|]. rewrite Hd. cbn.
  by destruct (Z.ltb_spec v (2 ^ 32)); [|lia].
Qed.

Lemma slots_of_digits l : NoDup l.*1 → Forall (fun kv => slots_ok kv.2) l → slots_of (map (fun kv => (kv.1, digits kv.2)) l) = Ok (list_to_map l).
Proof.
  induction l as [|[k v] l IH]; [done|]. cbn [fmap list_fmap fst snd map slots_of]. intros [Hk Hn]%NoDup_cons [Hv Hl]%Forall_cons. cbn in Hv.
  rewrite bool_decide_false; [rewrite -list_fmap_compose; exact Hk|]. rewrite ParseUint32_digits //. destruct (Z.eqb_spec v 0); [unfold slots_ok in Hv; lia|].
  rewrite IH //.
Qed.

Lemma by_key_perm c : by_key c ≡ₚ map_to_list c.
Proof.
  unfold by_key. assert (sort_strings (map_to_list c).*1 ≡ₚ (map_to_list c).*1) as Hp by apply merge_sort_Permutation. rewrite Hp.
  assert (∀ l, (∀ kv, kv ∈ l → c !! kv.1 = Some kv.2) → map (fun k => (k, default 0 (c !! k))) l.*1 = l) as Hl.
  { induction l as [|[k v] l IH]; [done|]. intros Hc. cbn. rewrite (Hc (k, v)); [set_solver|]. cbn. f_equal. apply IH. set_solver. }
  rewrite Hl; [|done]. intros [k v] Hkv. by apply elem_of_map_to_list.
Qed.

Lemma by_key_map c : NoDup (by_key c).*1 ∧ list_to_map (by_key c) = c.
Proof.
  assert (NoDup (by_key c).*1) as Hn by (rewrite by_key_perm; apply NoDup_fst_map_to_list). split; [done|].
  rewrite (list_to_map_proper _ (map_to_list c)) //; [apply by_key_perm|]. apply list_to_map_to_list.
Qed.

Lemma capacity_roundtrip c : c ≠ ∅ → map_Forall (fun _ v => slots_ok v) c →
  let encoded := encode_values (map (fun kv => (kv.1, digits kv.2)) (by_key c)) in
  encoded ≠ [] ∧ ∃ pairs, ParseQuery encoded = Some pairs ∧ slots_of pairs = Ok c.
Proof.
  intros Hne Hc encoded. assert (by_key c ≠ []) as Hb.
  { intros E. pose proof (by_key_perm c) as Hp. rewrite E in Hp. apply Permutation_nil_l in Hp. by apply Hne, map_to_list_empty_iff. }
  assert (ParseQuery encoded = Some (map (fun kv => (kv.1, digits kv.2)) (by_key c))) as Hq by (apply query_roundtrip; by destruct (by_key c)). split.
  - intros E. rewrite E in Hq. by destruct (by_key c).
  - eexists. split; [exact Hq|]. destruct (by_key_map c) as [Hn Hm]. rewrite slots_of_digits //; [|by rewrite Hm].
    rewrite by_key_perm. apply Forall_forall. intros [k v] Hkv%elem_of_map_to_list. by apply (Hc k).
Qed.

(** ** Hosts *)

Lemma text_go_string l : text (go_string l) = l.
Proof. apply text_of_bytes. Qed.


Lemma join_forallb (f : Byte.byte → bool) sep parts : forallb f sep = true → Forall (fun p => forallb f p = true) parts → forallb f (join sep parts) = true.
Proof.
  intros Hs. induction 1 as [|p parts Hp Hps IH]; [done|]. destruct parts as [|q parts]; [done|]. cbn [join]. by rewrite !forallb_app Hp Hs IH.
Qed.

Lemma hexs_graphic l : Forall group l → forallb graphic (join [colon] (map hex_text l)) = true.
Proof.
  intros Hl. apply forallb_forall. intros b Hb%list_elem_of_In. destruct (hexs_bytes l b Hl Hb) as [Hh| ->]; [|done]. clear -Hh. by destruct b.
Qed.

Lemma IP_String_graphic g : length g = 8%nat → Forall group g → forallb graphic (IP_String g) = true.
Proof.
  intros Hl Hg. unfold IP_String. case_bool_decide.
  - apply join_forallb; [done|]. assert (length (drop 6 g) = 2)%nat as Hd by (rewrite length_drop; lia). assert (Forall group (drop 6 g)) as Hgd by (by apply Forall_drop).
    destruct (drop 6 g) as [|x [|y [|]]]; try done. rewrite !Forall_cons in Hgd. destruct Hgd as (Hx & Hy & _). unfold group in *.
    repeat constructor; apply digits_graphic; Z.to_euclidean_division_equations; lia.
  - destruct (zero_run 0 g (0, 0)%nat) as [st len]. destruct (Nat.eqb len 0); [by apply hexs_graphic|]. rewrite !forallb_app !hexs_graphic //; [by apply Forall_take|by apply Forall_drop].
Qed.

Lemma usual_host_blank h : blank h = false → blank (go_string (usual_host (text h))) = false.
Proof.
  intros Hb. unfold usual_host. destruct (ParseIP (text h)) as [g|] eqn:Hp; [|by rewrite /go_string /text String.string_of_list_byte_of_string].
  destruct (ParseIP_valid _ _ Hp) as [Hl Hg]. unfold blank. apply bool_decide_eq_false. rewrite trim_graphic; [rewrite text_of_bytes; by apply IP_String_graphic|].
  intros He. apply (f_equal text) in He. rewrite text_of_bytes in He. pose proof (ip_roundtrip g Hl Hg) as Hr. by rewrite He in Hr.
Qed.

(** ** Descriptors round trip *)

Lemma metadata_fields d :
  let field key := default "" (metadata d !! key) in
  field metadataCapacity = go_string (encode_values (map (fun kv => (kv.1, digits kv.2)) (by_key (ds_Capacity d)))) ∧
  field metadataOS = ds_OS d ∧ field metadataArch = ds_Arch d ∧ field metadataRuntime = ds_Runtime d ∧
  field metadataTunnelHost = ds_TunnelHost d ∧ field metadataTunnelDestination = ds_TunnelDestination d ∧
  field metadataTunnelPort = (if 0 <? ds_TunnelPort d then go_string (digits (ds_TunnelPort d)) else "").
Proof.
  cbv zeta. unfold metadata, set_nonempty. generalize (go_string (encode_values (map (fun kv => (kv.1, digits kv.2)) (by_key (ds_Capacity d))))). intros c.
  destruct (0 <? ds_TunnelPort d); split_and!; repeat case_bool_decide; simplify_map_eq; done.
Qed.

(** The descriptor [newDescriptor] makes, and making it again from its parts. *)
Lemma newDescriptor_ok capacity node tunnel d : newDescriptor capacity node tunnel = Ok d →
  ds_Capacity d = capacity ∧ capacity ≠ ∅ ∧ existsb (fun kv => blank kv.1 || (kv.2 =? 0)) (map_to_list capacity) = false ∧
  (ds_TunnelPort d = 0 ∧ ds_TunnelHost d = "" ∧ ds_TunnelDestination d = "" ∨
   0 < ds_TunnelPort d ≤ 65535 ∧ blank (ds_TunnelHost d) = false ∧ go_string (usual_host (text (ds_TunnelHost d))) = ds_TunnelHost d).
Proof.
  unfold newDescriptor. destruct (existsb _ _) eqn:He; [done|]. case_bool_decide; [done|]. destruct tunnel as [t|]; [|intros [= <-]; split_and!; try done; by left].
  destruct (Z.eqb_spec (ta_Port t) 0); [intros [= <-]; split_and!; try done; by left|]. destruct (_ || _) eqn:Hc; [done|].
  rewrite !orb_false_iff !Z.ltb_ge in Hc. destruct Hc as [[Hp1 Hp2] Hb]. intros [= <-]. cbn [ds_Capacity ds_TunnelPort ds_TunnelHost]. split_and!; try done. right. split_and!; [lia|lia|by apply usual_host_blank|].
  by rewrite text_go_string usual_host_idempotent.
Qed.

(** C40 What an allocator announces is what a client discovers: the metadata of any
    descriptor that an allocator makes of its capacity, platform and tunnel edge is
    parsed back to the same descriptor, whatever bytes its class names hold and in
    whatever form its tunnel host was written. *)
Theorem presence_roundtrip capacity node tunnel d :
  newDescriptor capacity node tunnel = Ok d → map_Forall (fun _ slots => 0 ≤ slots < 2 ^ 32) capacity → parseDescriptorMetadata (metadata d) = Ok d.
Proof.
  intros Hd Hc. destruct (newDescriptor_ok _ _ _ _ Hd) as (<- & Hne & Hex & Ht). destruct (metadata_fields d) as (F1 & F2 & F3 & F4 & F5 & F6 & F7).
  assert (map_Forall (fun _ v => slots_ok v) (ds_Capacity d)) as Hs.
  { intros k v Hk. specialize (Hc k v Hk). cbn in Hc. destruct (decide (v = 0)) as [->|]; [|unfold slots_ok; lia]. exfalso.
    apply (not_true_iff_false _) in Hex. apply Hex, existsb_exists. exists (k, 0). split; [by apply list_elem_of_In, elem_of_map_to_list|]. cbn. apply orb_true_r. }
  destruct (capacity_roundtrip _ Hne Hs) as (Hnil & pairs & Hq & Hslots). unfold parseDescriptorMetadata. rewrite F1 F2 F3 F4 F5 F6 F7. clear F1 F2 F3 F4 F5 F6 F7.
  rewrite text_go_string Hq bool_decide_false.
  { intros He. apply (f_equal text) in He. by rewrite text_go_string in He. }
  rewrite Hslots. cbn [result_bind]. unfold newDescriptor. destruct Ht as [(P0 & H0 & D0)|(Hp & Hb & Hu)].
  - rewrite P0 H0 D0 Hex (bool_decide_false (ds_Capacity d = ∅)) //. destruct d as [cap os arch rt host port dest]. cbn in P0, H0, D0. subst. done.
  - destruct (Z.ltb_spec 0 (ds_TunnelPort d)); [|lia]. assert (go_string (digits (ds_TunnelPort d)) ≠ "") as Hne2.
    { intros He. apply (f_equal text) in He. rewrite text_go_string in He. by apply (digits_ok (ds_TunnelPort d)); [lia|]. }
    rewrite bool_decide_false //. cbn [negb]. rewrite text_go_string Atoi_digits; [lia|]. cbn [result_bind from_option nc_os nc_arch nc_runtime ta_Port ta_Host ta_DestinationHash].
    rewrite Hex bool_decide_false //. destruct (Z.eqb_spec (ds_TunnelPort d) 0); [lia|]. destruct (Z.ltb_spec (ds_TunnelPort d) 1); [lia|]. destruct (Z.ltb_spec 65535 (ds_TunnelPort d)); [lia|].
    rewrite Hb. cbn [orb]. rewrite Hu. by destruct d.
Qed.

(** An allocator with two classes, one of them with a reserved byte in its name,
    and a tunnel host written in full. *)
Definition example_capacity : gmap string Z := <["gpu & more" := 3]> {["default" := 4]}.
Definition example_tunnel : TunnelAdvertisement := mkAdvertisement "2001:0DB8:0000:0000:0000:0000:0000:0001" 7000 "ab".

Lemma presence_roundtrip_witness :
  ∃ d, newDescriptor example_capacity None (Some example_tunnel) = Ok d ∧ parseDescriptorMetadata (metadata d) = Ok d.
Proof.
  destruct (newDescriptor example_capacity None (Some example_tunnel)) as [d|e] eqn:E; [|vm_compute in E; discriminate E].
  exists d. split; [done|]. apply (presence_roundtrip example_capacity None (Some example_tunnel) d E).
  unfold example_capacity. apply map_Forall_insert_2; [lia|]. apply map_Forall_singleton. lia.
Defined.
