(* ===== verification/Broker.v ===== *)
(** * The local broker: frames (internal/broker/protocol.go)

    The messages between a run process and the broker that holds the cluster key:
    a length and a JSON object.  The parts of [encoding/json] and
    [encoding/base64] the code uses on them are written out.  The raw service
    document of a discovery is kept as the value it parses to. *)

From stdpp Require Import pretty.
From S2P Require Import Prelude GoStrings Utf8 Base64 Json Decimal Cluster.
From Stdlib Require Import Strings.Byte.

Definition protocolVersion : Z := 1.
Definition maxFrameBytes : Z := Z.shiftl 8 20.

Record frame := mkFrame {
  bf_Version : Z;
  bf_Type : string;
  bf_ID : Z;
  bf_Error : string;
  bf_ClusterID : string;
  bf_Identity : string;
  bf_NetworkWait : Z;
  bf_Target : string;
  bf_Destination : string;
  bf_Bootstrap : list string;
  bf_Envelope : bytes;
  bf_Service : option json
}.

Definition no_frame : frame := mkFrame 0 "" 0 "" "" "" 0 "" "" [] [] None.

(** ** Base64 with padding ([base64.StdEncoding]) *)

Definition std_char (b : byte) : byte := if isb x2d b then x2b else if isb x5f b then x2f else b.
Definition std_digit (n : Z) : byte := std_char (digit n).
Definition std_value (b : byte) : option Z :=
  if isb x2b b then Some 62 else if isb x2f b then Some 63
  else if isb x2d b || isb x5f b then None else digit_value b.

Definition sextet (val k : Z) : Z := Z.land (Z.shiftr val k) 63.

Fixpoint std_encode (l : bytes) : bytes :=
  match l with
  | a :: b :: c :: l' =>
    let val := Z.lor (Z.lor (Z.shiftl (byte_z a) 16) (Z.shiftl (byte_z b) 8)) (byte_z c) in
    std_digit (sextet val 18) :: std_digit (sextet val 12) :: std_digit (sextet val 6) :: std_digit (Z.land val 63) :: std_encode l'
  | [a; b] =>
    let val := Z.lor (Z.shiftl (byte_z a) 16) (Z.shiftl (byte_z b) 8) in
    [std_digit (sextet val 18); std_digit (sextet val 12); std_digit (sextet val 6); x3d]
  | [a] => let val := Z.shiftl (byte_z a) 16 in [std_digit (sextet val 18); std_digit (sextet val 12); x3d; x3d]
  | [] => []
  end.

(** Quantum by quantum; padding ends the input. *)
Fixpoint std_quanta (l : bytes) : option bytes :=
  match l with
  | [] => Some []
  | p :: q :: r :: s :: l' =>
    a ← std_value p;
    b ← std_value q;
    if isb x3d r then if isb x3d s && bool_decide (l' = []) then decode_digits [a; b] else None
    else
      c ← std_value r;
      if isb x3d s then if bool_decide (l' = []) then decode_digits [a; b; c] else None
      else
        d ← std_value s;
        head ← decode_digits [a; b; c; d];
        rest ← std_quanta l';
        Some (head ++ rest)
  | _ => None
  end.

Definition std_decode (l : bytes) : option bytes := std_quanta (List.filter (fun b => negb (line_break b)) l).

(** ** [json.Marshal] of a frame *)

Definition opt_str (name : string) (s : string) : list (bytes * json) :=
  if bool_decide (s = "") then [] else [(text name, JStr (text s))].
Definition opt_num (name : string) (n : Z) : list (bytes * json) :=
  if n =? 0 then [] else [(text name, JNum (text (pretty n)))].

Definition frame_members (f : frame) : list (bytes * json) :=
  opt_num "version" (bf_Version f) ++
  [(text "type", JStr (text (bf_Type f)))] ++
  opt_num "id" (bf_ID f) ++
  opt_str "error" (bf_Error f) ++
  opt_str "clusterId" (bf_ClusterID f) ++
  opt_str "identity" (bf_Identity f) ++
  opt_num "networkWait" (bf_NetworkWait f) ++
  opt_str "target" (bf_Target f) ++
  opt_str "destination" (bf_Destination f) ++
  (match bf_Bootstrap f with [] => [] | l => [(text "bootstrap", JArr (map (fun s => JStr (text s)) l))] end) ++
  (match bf_Envelope f with [] => [] | l => [(text "envelope", JStr (std_encode l))] end) ++
  (match bf_Service f with None => [] | Some v => [(text "service", v)] end).

Definition frame_data (f : frame) : bytes := print_value (JObj (frame_members f)).

(** ** [json.Unmarshal] into a frame *)

Inductive frame_field := BF_Version | BF_Type | BF_ID | BF_Error | BF_ClusterID | BF_Identity | BF_NetworkWait | BF_Target
  | BF_Destination | BF_Bootstrap | BF_Envelope | BF_Service.

Definition frame_fields : list (string * frame_field) :=
  [("version", BF_Version); ("type", BF_Type); ("id", BF_ID); ("error", BF_Error); ("clusterId", BF_ClusterID); ("identity", BF_Identity);
   ("networkWait", BF_NetworkWait); ("target", BF_Target); ("destination", BF_Destination); ("bootstrap", BF_Bootstrap);
   ("envelope", BF_Envelope); ("service", BF_Service)].

Definition frame_field_of (name : bytes) : option frame_field :=
  snd <$> List.find (fun '(n, _) => bool_decide (fold_name (text n) = fold_name name)) frame_fields.

(** A literal of a [uint64]. *)
Definition uint_value (literal : bytes) : option Z :=
  match literal with
  | [] => None
  | _ => v ← decimal_value 0 literal; if v <? 2 ^ 64 then Some v else None
  end.

(** The elements of an array of bytes; null leaves what is in place. *)
Fixpoint byte_elems (old : bytes) (l : list json) : option bytes :=
  match l with
  | [] => Some []
  | v :: l' =>
    b ← match v with
        | JNum lit => n ← uint_value lit; if n <? 256 then Some (z_byte n) else None
        | JNull => Some (default x00 (head old))
        | _ => None
        end;
    rest ← byte_elems (tail old) l';
    Some (b :: rest)
  end.

(** A frame that is being decoded, with the backing array of its list. *)
Record frame_decoding := mkFrameDec { fd_frame : frame; fd_backing : list string }.

Definition set_field (f : frame_field) (v : json) (d : frame_decoding) : option frame_decoding :=
  let x := fd_frame d in
  let put x' := Some (mkFrameDec x' (fd_backing d)) in
  match f, v with
  | BF_Service, v => put (mkFrame (bf_Version x) (bf_Type x) (bf_ID x) (bf_Error x) (bf_ClusterID x) (bf_Identity x) (bf_NetworkWait x) (bf_Target x) (bf_Destination x) (bf_Bootstrap x) (bf_Envelope x) (Some v))
  | BF_Bootstrap, JNull => Some (mkFrameDec (mkFrame (bf_Version x) (bf_Type x) (bf_ID x) (bf_Error x) (bf_ClusterID x) (bf_Identity x) (bf_NetworkWait x) (bf_Target x) (bf_Destination x) [] (bf_Envelope x) (bf_Service x)) [])
  | BF_Envelope, JNull => put (mkFrame (bf_Version x) (bf_Type x) (bf_ID x) (bf_Error x) (bf_ClusterID x) (bf_Identity x) (bf_NetworkWait x) (bf_Target x) (bf_Destination x) (bf_Bootstrap x) [] (bf_Service x))
  | _, JNull => Some d
  | BF_Version, JNum lit => n ← int_value lit; put (mkFrame n (bf_Type x) (bf_ID x) (bf_Error x) (bf_ClusterID x) (bf_Identity x) (bf_NetworkWait x) (bf_Target x) (bf_Destination x) (bf_Bootstrap x) (bf_Envelope x) (bf_Service x))
  | BF_Type, JStr s => put (mkFrame (bf_Version x) (go_string s) (bf_ID x) (bf_Error x) (bf_ClusterID x) (bf_Identity x) (bf_NetworkWait x) (bf_Target x) (bf_Destination x) (bf_Bootstrap x) (bf_Envelope x) (bf_Service x))
  | BF_ID, JNum lit => n ← uint_value lit; put (mkFrame (bf_Version x) (bf_Type x) n (bf_Error x) (bf_ClusterID x) (bf_Identity x) (bf_NetworkWait x) (bf_Target x) (bf_Destination x) (bf_Bootstrap x) (bf_Envelope x) (bf_Service x))
  | BF_Error, JStr s => put (mkFrame (bf_Version x) (bf_Type x) (bf_ID x) (go_string s) (bf_ClusterID x) (bf_Identity x) (bf_NetworkWait x) (bf_Target x) (bf_Destination x) (bf_Bootstrap x) (bf_Envelope x) (bf_Service x))
  | BF_ClusterID, JStr s => put (mkFrame (bf_Version x) (bf_Type x) (bf_ID x) (bf_Error x) (go_string s) (bf_Identity x) (bf_NetworkWait x) (bf_Target x) (bf_Destination x) (bf_Bootstrap x) (bf_Envelope x) (bf_Service x))
  | BF_Identity, JStr s => put (mkFrame (bf_Version x) (bf_Type x) (bf_ID x) (bf_Error x) (bf_ClusterID x) (go_string s) (bf_NetworkWait x) (bf_Target x) (bf_Destination x) (bf_Bootstrap x) (bf_Envelope x) (bf_Service x))
  | BF_NetworkWait, JNum lit => n ← int_value lit; put (mkFrame (bf_Version x) (bf_Type x) (bf_ID x) (bf_Error x) (bf_ClusterID x) (bf_Identity x) n (bf_Target x) (bf_Destination x) (bf_Bootstrap x) (bf_Envelope x) (bf_Service x))
  | BF_Target, JStr s => put (mkFrame (bf_Version x) (bf_Type x) (bf_ID x) (bf_Error x) (bf_ClusterID x) (bf_Identity x) (bf_NetworkWait x) (go_string s) (bf_Destination x) (bf_Bootstrap x) (bf_Envelope x) (bf_Service x))
  | BF_Destination, JStr s => put (mkFrame (bf_Version x) (bf_Type x) (bf_ID x) (bf_Error x) (bf_ClusterID x) (bf_Identity x) (bf_NetworkWait x) (bf_Target x) (go_string s) (bf_Bootstrap x) (bf_Envelope x) (bf_Service x))
  | BF_Bootstrap, JArr l =>
    es ← decode_elems (fd_backing d) l;
    Some (mkFrameDec (mkFrame (bf_Version x) (bf_Type x) (bf_ID x) (bf_Error x) (bf_ClusterID x) (bf_Identity x) (bf_NetworkWait x) (bf_Target x) (bf_Destination x) es (bf_Envelope x) (bf_Service x))
            (match l with [] => [] | _ => es ++ drop (length l) (fd_backing d) end))
  | BF_Envelope, JStr s => e ← std_decode s; put (mkFrame (bf_Version x) (bf_Type x) (bf_ID x) (bf_Error x) (bf_ClusterID x) (bf_Identity x) (bf_NetworkWait x) (bf_Target x) (bf_Destination x) (bf_Bootstrap x) e (bf_Service x))
  | BF_Envelope, JArr l => e ← byte_elems (bf_Envelope x) l; put (mkFrame (bf_Version x) (bf_Type x) (bf_ID x) (bf_Error x) (bf_ClusterID x) (bf_Identity x) (bf_NetworkWait x) (bf_Target x) (bf_Destination x) (bf_Bootstrap x) e (bf_Service x))
  | _, _ => None
  end.

(** Unknown fields are skipped. *)
Definition set_member (d : frame_decoding) (kv : bytes * json) : option frame_decoding :=
  match frame_field_of kv.1 with Some f => set_field f kv.2 d | None => Some d end.

Definition decode_frame (data : bytes) : option frame :=
  v ← parse_document data;
  match v with
  | JObj ms => fd_frame <$> foldl (fun acc kv => acc ≫= fun d => set_member d kv) (Some (mkFrameDec no_frame [])) ms
  | JNull => Some no_frame
  | _ => None
  end.

(** ** [readFrame] and [writeFrame] *)

Inductive frame_error := FE_EOF | FE_Size (n : Z) | FE_Decode | FE_Type.

Definition be32 (n : Z) : bytes := [z_byte (Z.shiftr n 24); z_byte (Z.shiftr n 16); z_byte (Z.shiftr n 8); z_byte n].
Definition be32_value (l : bytes) : Z := fold_left (fun acc b => Z.lor (Z.shiftl acc 8) (byte_z b)) l 0.

(** What is left of the input comes with the frame. *)
Definition readFrame (input : bytes) : result frame_error (frame * bytes) :=
  if (length input <? 4)%nat then Err FE_EOF
  else
    let size := be32_value (take 4 input) in
    if (size =? 0) || (maxFrameBytes <? size) then Err (FE_Size size)
    else
      let rest := drop 4 input in
      if (length rest <? Z.to_nat size)%nat then Err FE_EOF
      else match decode_frame (take (Z.to_nat size) rest) with
      | None => Err FE_Decode
      | Some message => if bool_decide (bf_Type message = "") then Err FE_Type else Ok (message, drop (Z.to_nat size) rest)
      end.

Definition writeFrame (message : frame) : result frame_error bytes :=
  let data := frame_data message in
  if (zlen data =? 0) || (maxFrameBytes <? zlen data) then Err (FE_Size (zlen data))
  else Ok (be32 (zlen data) ++ data).

(** ** What is written is read back *)

Lemma std_value_digit n : 0 ≤ n < 64 → std_value (std_digit n) = Some n ∧ isb x3d (std_digit n) = false ∧ line_break (std_digit n) = false.
Proof.
  intros Hn. assert (forallb (fun k => let n := Z.of_nat k in bool_decide (std_value (std_digit n) = Some n) && negb (isb x3d (std_digit n)) && negb (line_break (std_digit n))) (seq 0 64) = true)
    as Hall by (vm_compute; reflexivity).
  rewrite forallb_forall in Hall. specialize (Hall (Z.to_nat n)). rewrite Z2Nat.id in Hall; [lia|].
  destruct (andb_prop _ _ (Hall ltac:(apply in_seq; lia))) as [[->%bool_decide_eq_true Hp%negb_true_iff]%andb_prop Hl%negb_true_iff]. done.
Qed.

Lemma sextet_range val k : 0 ≤ sextet val k < 64.
Proof. apply digit_range. Qed.
Lemma low_range val : 0 ≤ Z.land val 63 < 64.
Proof. pose proof (digit_range val 0) as Hr. by rewrite Z.shiftr_0_r in Hr. Qed.

Lemma decode_triple a b c : let val := Z.lor (Z.lor (Z.shiftl (byte_z a) 16) (Z.shiftl (byte_z b) 8)) (byte_z c) in
  decode_digits [sextet val 18; sextet val 12; sextet val 6; Z.land val 63] = Some [a; b; c].
Proof.
  intros val. pose proof (decode_encode_bytes [a; b; c]) as Hd. cbn [b64_encode_bytes] in Hd. fold val in Hd.
  pose proof (digits_of_digits [sextet val 18; sextet val 12; sextet val 6; Z.land val 63] []) as Hv. cbn [map app] in Hv.
  unfold sextet in Hv at 2 3 4. rewrite Hv in Hd; [repeat constructor; try apply sextet_range; apply low_range|]. exact Hd.
Qed.

Lemma decode_double a b : let val := Z.lor (Z.shiftl (byte_z a) 16) (Z.shiftl (byte_z b) 8) in
  decode_digits [sextet val 18; sextet val 12; sextet val 6] = Some [a; b].
Proof.
  intros val. pose proof (decode_encode_bytes [a; b]) as Hd. cbn [b64_encode_bytes] in Hd. fold val in Hd.
  pose proof (digits_of_digits [sextet val 18; sextet val 12; sextet val 6] []) as Hv. cbn [map app] in Hv.
  unfold sextet in Hv at 2 3 4. rewrite Hv in Hd; [repeat constructor; apply sextet_range|]. exact Hd.
Qed.

Lemma decode_single a : let val := Z.shiftl (byte_z a) 16 in decode_digits [sextet val 18; sextet val 12] = Some [a].
Proof.
  intros val. pose proof (decode_encode_bytes [a]) as Hd. cbn [b64_encode_bytes] in Hd. fold val in Hd.
  pose proof (digits_of_digits [sextet val 18; sextet val 12] []) as Hv. cbn [map app] in Hv.
  unfold sextet in Hv at 2 3. rewrite Hv in Hd; [repeat constructor; apply sextet_range|]. exact Hd.
Qed.

Ltac std_digits :=
  repeat match goal with |- context [std_value (std_digit ?n)] =>
    let V := fresh in let P := fresh in
    destruct (std_value_digit n) as (V & P & _); [first [apply sextet_range|apply low_range]|]; rewrite V ?P; clear V P; cbn [mbind option_bind] end;
  repeat match goal with |- context [isb x3d (std_digit ?n)] =>
    let P := fresh in destruct (std_value_digit n) as (_ & P & _); [first [apply sextet_range|apply low_range]|]; rewrite P; clear P end.

Lemma std_quanta_encode l : std_quanta (std_encode l) = Some l.
Proof.
  remember (length l) as n eqn:Hn. assert (length l ≤ n)%nat as Hle by lia. clear Hn. revert l Hle. induction n as [|n IH]; intros l Hle.
  { destruct l; [done|simpl in Hle; lia]. }
  destruct l as [|a [|b [|c l]]]; [done|..]; cbn [std_encode]; cbv zeta; cbn [std_quanta]; std_digits.
  - apply decode_single.
  - cbn [isb]. change (isb x3d x3d) with true. cbv iota. rewrite bool_decide_true //. apply decode_double.
  - rewrite decode_triple. cbn [mbind option_bind]. rewrite IH; [simpl in Hle; lia|done].
Qed.

Lemma std_encode_clean l : List.filter (fun b => negb (line_break b)) (std_encode l) = std_encode l.
Proof.
  assert (∀ n, 0 ≤ n < 64 → line_break (std_digit n) = false) as Hd by (intros n Hn; by destruct (std_value_digit n Hn) as (_ & _ & ?)).
  remember (length l) as n eqn:Hn. assert (length l ≤ n)%nat as Hle by lia. clear Hn. revert l Hle. induction n as [|n IH]; intros l Hle.
  { destruct l; [done|simpl in Hle; lia]. }
  destruct l as [|a [|b [|c l]]]; [done|..]; cbn [std_encode]; cbv zeta; cbn [List.filter]; rewrite !Hd; try apply sextet_range; try apply low_range; cbn [negb]; [done..|].
  by rewrite IH; [simpl in Hle; lia|].
Qed.

Lemma std_decode_encode l : std_decode (std_encode l) = Some l.
Proof. unfold std_decode. by rewrite std_encode_clean std_quanta_encode. Qed.

(** Strings a frame can carry unchanged. *)
Definition plain (s : string) : Prop := coerce (length (text s)) (text s) = text s.

Record frame_ok (f : frame) : Prop := {
  fo_version : 0 ≤ bf_Version f < 2 ^ 63;
  fo_id : 0 ≤ bf_ID f < 2 ^ 64;
  fo_wait : 0 ≤ bf_NetworkWait f < 2 ^ 63;
  fo_type : bf_Type f ≠ "";
  fo_strings : Forall plain ([bf_Type f; bf_Error f; bf_ClusterID f; bf_Identity f; bf_Target f; bf_Destination f] ++ bf_Bootstrap f);
  fo_service v : bf_Service f = Some v → writable v = true ∧ as_read v = v
}.

Lemma int_literal_pretty n : 0 ≤ n → int_literal (text (pretty n)) = true.
Proof. intros Hn. by destruct (pretty_nonneg n Hn). Qed.

Lemma members_writable f : frame_ok f → forallb (fun kv => writable kv.2) (frame_members f) = true.
Proof.
  intros [Hv Hi Hw _ _ Hs]. unfold frame_members, opt_num, opt_str. rewrite !forallb_app.
  repeat (apply andb_true_iff; split); repeat case_match; cbn; rewrite ?int_literal_pretty; try done; try lia.
  - rewrite andb_true_r. apply forallb_forall. intros v (s' & <- & _)%in_map_iff. done.
  - by destruct (Hs _ eq_refl) as [-> _].
Qed.

Lemma opt_str_as_read name s : plain name → plain s → map (fun kv => (coerce (length kv.1) kv.1, as_read kv.2)) (opt_str name s) = opt_str name s.
Proof. intros Hn Hs. unfold opt_str. case_bool_decide; [done|]. cbn. by rewrite Hn Hs. Qed.
Lemma opt_num_as_read name n : plain name → map (fun kv => (coerce (length kv.1) kv.1, as_read kv.2)) (opt_num name n) = opt_num name n.
Proof. intros Hn. unfold opt_num. destruct (n =? 0); [done|]. cbn. by rewrite Hn. Qed.

Lemma std_encode_ascii l : forallb (byte_in 0 0x7F) (std_encode l) = true.
Proof.
  assert (∀ n, 0 ≤ n < 64 → byte_in 0 0x7F (std_digit n) = true) as Hd.
  { intros n Hn. assert (forallb (fun k => byte_in 0 0x7F (std_digit (Z.of_nat k))) (seq 0 64) = true) as Hall by (vm_compute; reflexivity).
    rewrite forallb_forall in Hall. specialize (Hall (Z.to_nat n)). rewrite Z2Nat.id in Hall; [lia|]. apply Hall, in_seq. lia. }
  remember (length l) as n eqn:Hn. assert (length l ≤ n)%nat as Hle by lia. clear Hn. revert l Hle. induction n as [|n IH]; intros l Hle.
  { destruct l; [done|simpl in Hle; lia]. }
  destruct l as [|a [|b [|c l]]]; [done|..]; cbn [std_encode]; cbv zeta; cbn [forallb]; rewrite !Hd; try apply sextet_range; try apply low_range; [done..|].
  cbn [andb]. apply IH. simpl in Hle; lia.
Qed.

Lemma members_as_read f : frame_ok f →
  map (fun kv => (coerce (length kv.1) kv.1, as_read kv.2)) (frame_members f) = frame_members f.
Proof.
  intros [_ _ _ _ Hstr Hs]. apply Forall_app in Hstr as [Hstr Hb]. rewrite !Forall_cons in Hstr. destruct Hstr as (H1 & H2 & H3 & H4 & H5 & H6 & _).
  unfold frame_members. rewrite !map_app !opt_str_as_read ?opt_num_as_read; try done; try (vm_compute; reflexivity).
  f_equal. f_equal; [cbn; by rewrite H1|]. do 7 f_equal.
  f_equal; [|f_equal].
  - destruct (bf_Bootstrap f) as [|s0 l0]; [done|]. cbn [map as_read fst snd]. f_equal. f_equal. f_equal. rewrite Forall_forall in Hb.
    change (map as_read (map (fun s => JStr (text s)) (s0 :: l0)) = map (fun s => JStr (text s)) (s0 :: l0)).
    rewrite map_map. apply map_ext_in. intros s Hin%list_elem_of_In. cbn. by rewrite (Hb s Hin).
  - destruct (bf_Envelope f) as [|b l]; [done|]. cbn [map as_read fst snd]. by rewrite (ascii_coerce _ (std_encode_ascii (b :: l))).
  - destruct (bf_Service f) as [v|]; [|done]. cbn [map fst snd]. by destruct (Hs v eq_refl) as [_ ->].
Qed.

(** Decoding member by member. *)
Definition dec (ms : list (bytes * json)) (d : frame_decoding) : option frame_decoding :=
  foldl (fun acc kv => acc ≫= fun d => set_member d kv) (Some d) ms.

Lemma dec_app ms1 ms2 d d' : dec ms1 d = Some d' → dec (ms1 ++ ms2) d = dec ms2 d'.
Proof. unfold dec. intros Hd. by rewrite foldl_app Hd. Qed.

Lemma dec_one name v d f : frame_field_of (text name) = Some f → dec [(text name, v)] d = set_field f v d.
Proof. intros Hf. unfold dec. cbn [foldl mbind option_bind]. unfold set_member. cbn [fst snd]. by rewrite Hf. Qed.

Lemma text_string s : go_string (text s) = s.
Proof. apply String.string_of_list_byte_of_string. Qed.

Lemma uint_value_pretty n : 0 ≤ n < 2 ^ 64 → uint_value (text (pretty n)) = Some n.
Proof.
  intros Hn. destruct (pretty_nonneg n) as [Hl Hv]; [lia|]. unfold uint_value. destruct (text (pretty n)); [done|]. rewrite Hv. cbn [mbind option_bind].
  destruct (Z.ltb_spec n (2 ^ 64)); [done|lia].
Qed.

(** The frame whose first [k] fields are those of [f]. *)
Definition before {A} (k i : nat) (a z : A) : A := if (i <? k)%nat then a else z.
Definition upto (k : nat) (f : frame) : frame :=
  mkFrame (before k 0 (bf_Version f) 0) (before k 1 (bf_Type f) "") (before k 2 (bf_ID f) 0) (before k 3 (bf_Error f) "")
    (before k 4 (bf_ClusterID f) "") (before k 5 (bf_Identity f) "") (before k 6 (bf_NetworkWait f) 0) (before k 7 (bf_Target f) "")
    (before k 8 (bf_Destination f) "") (before k 9 (bf_Bootstrap f) []) (before k 10 (bf_Envelope f) []) (before k 11 (bf_Service f) None).

Ltac dec_num H :=
  let Hz := fresh "Hz" in unfold opt_num; match goal with |- context [?n =? 0] => destruct (Z.eqb_spec n 0) as [Hz|Hz] end;
  [unfold dec, upto; cbn; by rewrite Hz|]; erewrite dec_one; [|vm_compute; reflexivity]; cbn [set_field]; rewrite H //.
Ltac dec_str :=
  let Hz := fresh "Hz" in unfold opt_str; case_bool_decide as Hz; [unfold dec, upto; cbn; by rewrite Hz|];
  erewrite dec_one; [|vm_compute; reflexivity]; cbn [set_field]; by rewrite text_string.

Lemma decode_members f : frame_ok f → fd_frame <$> dec (frame_members f) (mkFrameDec no_frame []) = Some f.
Proof.
  intros [Hv Hi Hw _ _ _]. unfold frame_members. change no_frame with (upto 0 f).
  rewrite (dec_app _ _ _ (mkFrameDec (upto 1 f) [])); [dec_num int_value_pretty|].
  rewrite (dec_app _ _ _ (mkFrameDec (upto 2 f) [])); [erewrite dec_one; [|vm_compute; reflexivity]; cbn [set_field]; by rewrite text_string|].
  rewrite (dec_app _ _ _ (mkFrameDec (upto 3 f) [])); [dec_num uint_value_pretty|].
  rewrite (dec_app _ _ _ (mkFrameDec (upto 4 f) [])); [dec_str|].
  rewrite (dec_app _ _ _ (mkFrameDec (upto 5 f) [])); [dec_str|].
  rewrite (dec_app _ _ _ (mkFrameDec (upto 6 f) [])); [dec_str|].
  rewrite (dec_app _ _ _ (mkFrameDec (upto 7 f) [])); [dec_num int_value_pretty|].
  rewrite (dec_app _ _ _ (mkFrameDec (upto 8 f) [])); [dec_str|].
  rewrite (dec_app _ _ _ (mkFrameDec (upto 9 f) [])); [dec_str|].
  rewrite (dec_app _ _ _ (mkFrameDec (upto 10 f) (bf_Bootstrap f))).
  { destruct (bf_Bootstrap f) as [|s l] eqn:Hb; [unfold dec, upto; cbn; by rewrite Hb|]. erewrite dec_one; [|vm_compute; reflexivity]. cbn [set_field fd_backing].
    rewrite decode_elems_strings. cbn [mbind option_bind map]. unfold upto. cbn. by rewrite Hb app_nil_r. }
  rewrite (dec_app _ _ _ (mkFrameDec (upto 11 f) (bf_Bootstrap f))).
  { destruct (bf_Envelope f) as [|b l] eqn:Hb; [unfold dec, upto; cbn; by rewrite Hb|]. erewrite dec_one; [|vm_compute; reflexivity]. cbn [set_field fd_backing].
    rewrite std_decode_encode. cbn [mbind option_bind]. unfold upto. cbn. by rewrite Hb. }
  destruct f as [v ty i e c id w t d b en sv]. cbn [bf_Service bf_Bootstrap]. destruct sv as [x|]; [|done]. erewrite dec_one; [|vm_compute; reflexivity]. done.
Qed.

Lemma byte_z_byte n : byte_z (z_byte n) = n mod 256.
Proof.
  unfold byte_z, z_byte. pose proof (Z.mod_pos_bound n 256 ltac:(lia)) as Hr. destruct (Byte.of_N (Z.to_N (n mod 256))) as [b|] eqn:Hb.
  - cbn. apply Byte.to_of_N in Hb. rewrite Hb. lia.
  - apply Byte.of_N_None_iff in Hb. lia.
Qed.

Lemma be32_roundtrip n : 0 ≤ n < 2 ^ 32 → be32_value (be32 n) = n.
Proof.
  intros Hn. unfold be32_value, be32. cbn [fold_left]. rewrite !byte_z_byte !shiftr_div; [lia..|].
  rewrite !lor_shiftl; try lia; try (apply Z.mod_pos_bound; lia). change (2 ^ 8) with 256. change (2 ^ 16) with 65536. change (2 ^ 24) with 16777216.
  Z.to_euclidean_division_equations. lia.
Qed.

(** What one side of the broker socket writes is what the other side reads: a
    frame with a type, whose strings are UTF-8 and whose numbers fit, is read back
    unchanged, whatever follows it, and the rest of the input is left in place;
    unless it is larger than the limit, which the writer reports.  So any sequence
    of frames is read back one by one. *)
Theorem broker_frame_roundtrip f rest :
  frame_ok f →
  match writeFrame f with
  | Ok data => readFrame (data ++ rest) = Ok (f, rest)
  | Err e => e = FE_Size (zlen (frame_data f)) ∧ maxFrameBytes < zlen (frame_data f)
  end.
Proof.
  intros Hf. unfold writeFrame. assert (0 < zlen (frame_data f)) as Hpos.
  { unfold frame_data, zlen. destruct (print_head (JObj (frame_members f))) as (b & t & -> & _); [exact (members_writable f Hf)|]. simpl. lia. }
  destruct (Z.eqb_spec (zlen (frame_data f)) 0); [lia|]. destruct (Z.ltb_spec maxFrameBytes (zlen (frame_data f))) as [|Hmax]; [done|]. cbn [orb].
  assert (be32_value (be32 (zlen (frame_data f))) = zlen (frame_data f)) as Hbe.
  { apply be32_roundtrip. assert (maxFrameBytes = 8388608) as Hm by reflexivity. lia. }
  unfold readFrame. rewrite -!app_assoc. change (length (be32 (zlen (frame_data f)) ++ frame_data f ++ rest)) with (4 + length (frame_data f ++ rest))%nat.
  destruct (Nat.ltb_spec (4 + length (frame_data f ++ rest)) 4); [lia|].
  change (take 4 (be32 (zlen (frame_data f)) ++ frame_data f ++ rest)) with (be32 (zlen (frame_data f))).
  change (drop 4 (be32 (zlen (frame_data f)) ++ frame_data f ++ rest)) with (frame_data f ++ rest). rewrite Hbe.
  destruct (Z.eqb_spec (zlen (frame_data f)) 0); [lia|]. destruct (Z.ltb_spec maxFrameBytes (zlen (frame_data f))); [lia|]. cbn [orb].
  unfold zlen at 1 2 3. rewrite Nat2Z.id length_app. destruct (Nat.ltb_spec (length (frame_data f) + length rest) (length (frame_data f))); [lia|].
  rewrite take_app_length drop_app_length. unfold decode_frame, frame_data at 1. rewrite -(app_nil_r (print_value _)) parse_print_document //; [exact (members_writable f Hf)|].
  cbn [mbind option_bind as_read]. rewrite members_as_read // -/(dec (frame_members f) (mkFrameDec no_frame [])) decode_members //.
  rewrite bool_decide_false //. apply fo_type, Hf.
Qed.
