(* ===== verification/BrokerSession.v ===== *)
(** * The local broker: sessions (internal/broker/endpoint.go, server.go)

    One connection between a run process and the broker: the requests of the run
    process with their goroutines, the read loop that hands replies to them, and
    the broker that serves one request after the other and forwards envelopes and
    discoveries in between.  A step is a locked part of a method, one read or one
    write.  The network behind the broker answers as it likes.

    [h_served] records what the broker answered to which request; it is not part
    of the program. *)

From stdpp Require Import pretty.
From S2P Require Import Prelude GoStrings Wire Utf8 Base64 Json Decimal Cluster Broker.

(** ** The first frame (server.go) *)

Record Server := mkServer { sv_ClusterID : string; sv_ClusterKey : bytes; sv_BootstrapDestinations : list string; sv_canceled : bool }.

Definition reply_frame (type error clusterID : string) (version : Z) : frame :=
  mkFrame version type 0 error clusterID "" 0 "" "" [] [] None.

(** [serveConnection]: what is written, and whether an endpoint is served next. *)
Definition serveConnection (s : Server) (first : frame) : list frame * bool * Server :=
  if negb (bf_Version first =? protocolVersion)
  then ([reply_frame "error" "unsupported broker protocol version" "" protocolVersion], false, s)
  else if bool_decide (bf_Type first = "status")
  then ([reply_frame "status" "" (sv_ClusterID s) protocolVersion], false, s)
  else if bool_decide (bf_Type first = "shutdown")
  then ([reply_frame "shutdown" "" (sv_ClusterID s) protocolVersion], false,
        mkServer (sv_ClusterID s) (sv_ClusterKey s) (sv_BootstrapDestinations s) true)
  else if bool_decide (bf_Type first = "open") then ([], true, s)
  else ([reply_frame "error" "unsupported broker request" "" 0], false, s).

(** The answer of [serveEndpoint] to an open: the endpoint the factory made, or
    the text of its error. *)
Definition serve_open (s : Server) (created : result string string) : frame :=
  match created with
  | Err e => reply_frame "error" e "" 0
  | Ok name => mkFrame protocolVersion "opened" 0 "" (sv_ClusterID s) name 0 "" "" (sv_BootstrapDestinations s) [] None
  end.

(** [requestControl], [Status] and [Shutdown] *)
Inductive control_error := CE_Reported (text : string) | CE_Invalid.

Definition control_request (requestType : string) : frame := reply_frame requestType "" "" protocolVersion.

Definition requestControl (requestType : string) (response : frame) : result control_error frame :=
  if negb (bool_decide (bf_Error response = "")) then Err (CE_Reported (bf_Error response))
  else if negb (bf_Version response =? protocolVersion) || negb (bool_decide (bf_Type response = requestType)) || bool_decide (bf_ClusterID response = "")
  then Err CE_Invalid
  else Ok response.

(** The part of [OpenEndpoint] that judges the answer. *)
Inductive open_error := OE_Reported (text : string) | OE_Invalid | OE_Bootstrap.

Definition open_request (networkWait : Z) : frame :=
  mkFrame protocolVersion "open" 0 "" "" "" networkWait "" "" [] [] None.

Definition judge_opened (opened : frame) : result open_error (string * string * list string) :=
  if negb (bool_decide (bf_Type opened = "opened")) || negb (bf_Version opened =? protocolVersion) || bool_decide (bf_Identity opened = "")
  then Err (if bool_decide (bf_Error opened = "") then OE_Invalid else OE_Reported (bf_Error opened))
  else match NormalizeBootstrapDestinations (bf_Bootstrap opened) with
  | Err _ => Err OE_Bootstrap
  | Ok bootstrap => Ok (bf_Identity opened, bf_ClusterID opened, bootstrap)
  end.

(** [Serve] up to the listener: the checks, and the server it goes on with. *)
Inductive serve_error := SE_Identity | SE_Bootstrap.

Definition Serve `{Realm} (s : Server) : result serve_error Server :=
  match ID (sv_ClusterKey s) with
  | Err _ => Err SE_Identity
  | Ok derived =>
    if bool_decide (sv_ClusterID s = hex_encode derived)
    then match NormalizeBootstrapDestinations (sv_BootstrapDestinations s) with
         | Err _ => Err SE_Bootstrap
         | Ok bootstrap => Ok (mkServer (sv_ClusterID s) (sv_ClusterKey s) bootstrap (sv_canceled s))
         end
    else Err SE_Identity
  end.

Lemma Serve_ok `{Realm} s sv : Serve s = Ok sv →
  (∃ derived, ID (sv_ClusterKey sv) = Ok derived ∧ sv_ClusterID sv = hex_encode derived) ∧ normalized (sv_BootstrapDestinations sv).
Proof.
  unfold Serve. destruct (ID _) as [derived|] eqn:Hid; [|done]. case_bool_decide as Hc; [|done].
  destruct (NormalizeBootstrapDestinations _) as [bs|] eqn:Hb; [|done]. intros [= <-]. split; [by exists derived|by apply Normalize_normalized in Hb].
Qed.

(** A broker that serves opens an endpoint, or answers a status or shutdown
    request, under the cluster its key derives, and a run process takes over its
    bootstrap destinations as they are; only a shutdown cancels it. *)
Theorem broker_names_its_cluster `{Realm} s sv name networkWait : Serve s = Ok sv → name ≠ "" → sv_ClusterID sv ≠ "" →
  serveConnection sv (open_request networkWait) = ([], true, sv) ∧
  judge_opened (serve_open sv (Ok name)) = Ok (name, sv_ClusterID sv, sv_BootstrapDestinations sv) ∧
  (∃ derived, ID (sv_ClusterKey sv) = Ok derived ∧ sv_ClusterID sv = hex_encode derived) ∧
  (∀ kind, kind = "status" ∨ kind = "shutdown" →
    ∃ reply, serveConnection sv (control_request kind) =
      ([reply], false, mkServer (sv_ClusterID sv) (sv_ClusterKey sv) (sv_BootstrapDestinations sv) (bool_decide (kind = "shutdown") || sv_canceled sv)) ∧
      requestControl kind reply = Ok reply ∧ bf_ClusterID reply = sv_ClusterID sv).
Proof.
  intros Hs Hn Hc. destruct (Serve_ok s sv Hs) as [Hid Hb]. split_and!; [done| |done|].
  - unfold judge_opened. cbn [serve_open bf_Type bf_Version bf_Identity bf_Bootstrap bf_ClusterID]. rewrite Z.eqb_refl bool_decide_true // (bool_decide_false (name = "")) //.
    cbn [negb orb]. by rewrite Normalize_fixed.
  - intros kind [-> | ->]; eexists; (split; [by destruct sv|]); unfold requestControl; cbn; by rewrite (bool_decide_false (sv_ClusterID sv = "")).
Qed.

(** ** A session *)

(** Where a request is: its ID is taken, it is written and waited for, or it has
    returned. *)
Inductive outcome := OK | Refused (text : string) | NotWritten | Canceled | Unavailable.
Inductive request_point := Q_Begun | Q_Waiting | Q_Returned (o : outcome).

Record request := mkReq { q_frame : frame; q_point : request_point; q_channel : option frame }.

(** What the read loop hands on: the routes it learnt, the discoveries in their
    channel, the envelopes passed to the handler. *)
Record inbox := mkInbox { in_routes : gmap string string; in_discoveries : list (string * string); in_handled : list bytes }.

Definition discoveriesRoom : nat := 32.

Record session := mkSession {
  ss_nextID : Z;
  ss_pending : gmap Z nat;
  ss_requests : list request;
  ss_inbox : inbox;
  ss_done : bool;
  ss_up : list frame;                  (* on the way to the broker *)
  ss_down : list frame;                (* on the way to the run process *)
  ss_serving : bool;
  h_served : list (frame * frame)
}.

Definition new_session : session := mkSession 0 ∅ [] (mkInbox ∅ [] []) false [] [] true [].

Definition with_id (id : Z) (m : frame) : frame :=
  mkFrame (bf_Version m) (bf_Type m) id (bf_Error m) (bf_ClusterID m) (bf_Identity m) (bf_NetworkWait m) (bf_Target m) (bf_Destination m) (bf_Bootstrap m) (bf_Envelope m) (bf_Service m).

Definition put_request (i : nat) (q : request) (pending : gmap Z nat) (s : session) : session :=
  mkSession (ss_nextID s) pending (<[i := q]> (ss_requests s)) (ss_inbox s) (ss_done s) (ss_up s) (ss_down s) (ss_serving s) (h_served s).

(** The first part of [request]: an ID and a channel. *)
Definition begin_request (message : frame) (s : session) : session :=
  let id := u64 (ss_nextID s + 1) in
  mkSession id (<[id := length (ss_requests s)]> (ss_pending s)) (ss_requests s ++ [mkReq (with_id id message) Q_Begun None])
    (ss_inbox s) (ss_done s) (ss_up s) (ss_down s) (ss_serving s) (h_served s).

(** [write]; a failed one removes the request. *)
Definition write_request (i : nat) (ok : bool) (s : session) : option session :=
  match ss_requests s !! i with
  | Some (mkReq m Q_Begun ch) =>
    Some (if ok
          then mkSession (ss_nextID s) (ss_pending s) (<[i := mkReq m Q_Waiting ch]> (ss_requests s)) (ss_inbox s) (ss_done s)
                 (ss_up s ++ [m]) (ss_down s) (ss_serving s) (h_served s)
          else put_request i (mkReq m (Q_Returned NotWritten) ch) (delete (bf_ID m) (ss_pending s)) s)
  | _ => None
  end.

(** The [select] of [request]. *)
Inductive choice := By_Context | By_Done | By_Reply.
Definition await_request (i : nat) (c : choice) (s : session) : option session :=
  match ss_requests s !! i with
  | Some (mkReq m Q_Waiting ch) =>
    match c, ch with
    | By_Context, _ => Some (put_request i (mkReq m (Q_Returned Canceled) ch) (delete (bf_ID m) (ss_pending s)) s)
    | By_Done, _ => if ss_done s then Some (put_request i (mkReq m (Q_Returned Unavailable) ch) (delete (bf_ID m) (ss_pending s)) s) else None
    | By_Reply, Some reply =>
      Some (put_request i (mkReq m (Q_Returned (if bool_decide (bf_Error reply = "") then OK else Refused (bf_Error reply))) None) (ss_pending s) s)
    | By_Reply, None => None
    end
  | _ => None
  end.

(** What the read loop takes from the messages it forwards: the sender of an
    envelope ([proto.Unmarshal]) and the route of a discovered service. *)
Class Messages := {
  envelope_sender : bytes → option bytes;
  service_route : option json → option (string * string)
}.

Section session.
Context `{Externals, Messages}.

(** One turn of the loop of [serveEndpoint]: what the network answered to a start
    or a send, [""] for no error. *)
Definition response_to (m : frame) (answered : string) : frame :=
  let error := if bool_decide (bf_Type m = "start") || bool_decide (bf_Type m = "send") then answered
               else if bool_decide (bf_Type m = "close") then ""
               else String.append "unsupported endpoint request " (Wire.quote (bf_Type m)) in
  mkFrame 0 "response" (bf_ID m) error "" "" 0 "" "" [] [] None.

Definition serve_request (answered : string) (ok : bool) (s : session) : option session :=
  match ss_up s with
  | m :: rest =>
    if ss_serving s
    then let response := response_to m answered in
      Some (mkSession (ss_nextID s) (ss_pending s) (ss_requests s) (ss_inbox s) (ss_done s) rest (if ok then ss_down s ++ [response] else ss_down s)
              (ok && negb (bool_decide (bf_Type m = "close"))) (h_served s ++ [(m, response)]))
    else None
  | [] => None
  end.

(** The broker's end goes: a read fails or the broker shuts down. *)
Definition hang_up (s : session) : session :=
  mkSession (ss_nextID s) (ss_pending s) (ss_requests s) (ss_inbox s) (ss_done s) (ss_up s) (ss_down s) false (h_served s).

(** Envelopes and discoveries the broker forwards. *)
Definition forwarded (m : frame) : bool := bool_decide (bf_Type m = "envelope") || bool_decide (bf_Type m = "discovery").
Definition forward (m : frame) (s : session) : option session :=
  if forwarded m && ss_serving s
  then Some (mkSession (ss_nextID s) (ss_pending s) (ss_requests s) (ss_inbox s) (ss_done s) (ss_up s) (ss_down s ++ [m]) (ss_serving s) (h_served s))
  else None.

(** One turn of [readLoop]; a reply is put into the channel of its request, which
    has room for one. *)
Definition set_inbox (i : inbox) (rest : list frame) (s : session) : session :=
  mkSession (ss_nextID s) (ss_pending s) (ss_requests s) i (ss_done s) (ss_up s) rest (ss_serving s) (h_served s).

Definition discovered (who destination : string) (i : inbox) : inbox :=
  mkInbox (<[who := destination]> (in_routes i))
    (if (length (in_discoveries i) <? discoveriesRoom)%nat then in_discoveries i ++ [(who, destination)] else in_discoveries i) (in_handled i).

Definition arrived (m : frame) (sender : bytes) (i : inbox) : inbox :=
  mkInbox (if bool_decide (bf_Destination m = "") then in_routes i else <[hex_encode sender := bf_Destination m]> (in_routes i))
    (in_discoveries i) (in_handled i ++ [bf_Envelope m]).

Definition readLoop (s : session) : option session :=
  match ss_down s with
  | m :: rest =>
    if ss_done s then None
    else if bool_decide (bf_Type m = "response") then
      let s' := mkSession (ss_nextID s) (delete (bf_ID m) (ss_pending s)) (ss_requests s) (ss_inbox s) (ss_done s) (ss_up s) rest (ss_serving s) (h_served s) in
      match ss_pending s !! bf_ID m with
      | None => Some s'
      | Some i =>
        match ss_requests s !! i with
        | Some (mkReq m' p None) => Some (put_request i (mkReq m' p (Some m)) (ss_pending s') s')
        | _ => None
        end
      end
    else if bool_decide (bf_Type m = "discovery") then
      Some (set_inbox (match service_route (bf_Service m) with Some (who, destination) => discovered who destination (ss_inbox s) | None => ss_inbox s end) rest s)
    else if bool_decide (bf_Type m = "envelope") then
      Some (set_inbox (match envelope_sender (bf_Envelope m) with Some sender => arrived m sender (ss_inbox s) | None => ss_inbox s end) rest s)
    else Some (set_inbox (ss_inbox s) rest s)
  | [] => None
  end.

(** The run process takes a discovery. *)
Definition take_discovery (s : session) : option session :=
  match in_discoveries (ss_inbox s) with
  | [] => None
  | _ :: more => Some (set_inbox (mkInbox (in_routes (ss_inbox s)) more (in_handled (ss_inbox s))) (ss_down s) s)
  end.

(** [finish] *)
Definition finish (s : session) : session :=
  mkSession (ss_nextID s) (ss_pending s) (ss_requests s) (ss_inbox s) true (ss_up s) (ss_down s) (ss_serving s) (h_served s).

Inductive label :=
| L_Begin (message : frame)
| L_Write (i : nat) (ok : bool)
| L_Await (i : nat) (c : choice)
| L_Serve (answered : string) (ok : bool)
| L_HangUp
| L_Forward (m : frame)
| L_Read
| L_Take
| L_Finish.

Definition step (l : label) (s : session) : option session :=
  match l with
  | L_Begin m => Some (begin_request m s)
  | L_Write i ok => write_request i ok s
  | L_Await i c => await_request i c s
  | L_Serve answered ok => serve_request answered ok s
  | L_HangUp => Some (hang_up s)
  | L_Forward m => forward m s
  | L_Read => readLoop s
  | L_Take => take_discovery s
  | L_Finish => Some (finish s)
  end.

Definition moves (s s' : session) : Prop := ∃ l, step l s = Some s'.

(** ** The invariant *)

Definition begun (q : request) : Prop := q_point q = Q_Begun.
Definition returned (q : request) : Prop := ∃ o, q_point q = Q_Returned o.

(** A request that has been written. *)
Definition written (s : session) (m : frame) : Prop := ∃ i q, ss_requests s !! i = Some q ∧ q_frame q = m ∧ ¬ begun q.

Definition seen_ids (s : session) : list Z := map bf_ID (ss_up s ++ (h_served s).*1).

Record inv (s : session) : Prop := {
  iv_next : ss_nextID s = Z.of_nat (length (ss_requests s));
  iv_ids i q : ss_requests s !! i = Some q → bf_ID (q_frame q) = Z.of_nat i + 1;
  iv_pending id i : ss_pending s !! id = Some i → id = Z.of_nat i + 1 ∧ ∃ q, ss_requests s !! i = Some q ∧ ¬ returned q ∧ q_channel q = None;
  iv_up m : m ∈ ss_up s → written s m;
  iv_served m r : (m, r) ∈ h_served s → written s m ∧ bf_ID r = bf_ID m;
  iv_down r : r ∈ ss_down s → bf_Type r = "response" → ∃ m, (m, r) ∈ h_served s;
  iv_once : NoDup (seen_ids s);
  iv_channel i q r : ss_requests s !! i = Some q → q_channel q = Some r → (q_frame q, r) ∈ h_served s;
  iv_outcome i q : ss_requests s !! i = Some q →
    match q_point q with
    | Q_Returned OK => ∃ r, (q_frame q, r) ∈ h_served s ∧ bf_Error r = ""
    | Q_Returned (Refused text) => ∃ r, (q_frame q, r) ∈ h_served s ∧ bf_Error r = text ∧ text ≠ ""
    | _ => True
    end
}.

Lemma inv_new : inv new_session.
Proof. split; try done; try (by intros ? ?%elem_of_nil); [by intros ? ? ?%elem_of_nil|apply NoDup_nil_2]. Qed.

(** Requests with the same ID are the same. *)
Lemma same_id s i j q p : inv s → ss_requests s !! i = Some q → ss_requests s !! j = Some p → bf_ID (q_frame q) = bf_ID (q_frame p) → i = j ∧ q = p.
Proof.
  intros Hi Hq Hp He. rewrite (iv_ids _ Hi i q Hq) (iv_ids _ Hi j p Hp) in He. assert (i = j) as -> by lia. split; [done|congruence].
Qed.

Definition outcome_ok (s : session) (q : request) : Prop :=
  match q_point q with
  | Q_Returned OK => ∃ r, (q_frame q, r) ∈ h_served s ∧ bf_Error r = ""
  | Q_Returned (Refused text) => ∃ r, (q_frame q, r) ∈ h_served s ∧ bf_Error r = text ∧ text ≠ ""
  | _ => True
  end.

(** One request goes on. *)
Lemma inv_put_request s i q q' pending : inv s → ss_requests s !! i = Some q → q_frame q' = q_frame q → (begun q' → begun q) →
  (∀ id j, pending !! id = Some j → ss_pending s !! id = Some j ∧ (j = i → ¬ returned q' ∧ q_channel q' = None)) →
  (∀ r, q_channel q' = Some r → (q_frame q, r) ∈ h_served s) → outcome_ok s q' → inv (put_request i q' pending s).
Proof.
  intros Hi Hq Hf Hb Hp Hc Ho. assert (i < length (ss_requests s))%nat as Hlt by (by apply lookup_lt_Some in Hq).
  assert (∀ j p, <[i := q']> (ss_requests s) !! j = Some p → (j = i ∧ p = q') ∨ (j ≠ i ∧ ss_requests s !! j = Some p)) as Hlk.
  { intros j p Hj. destruct (decide (i = j)) as [<-|Hne]; [rewrite list_lookup_insert_eq // in Hj; left; split; congruence|right].
    rewrite list_lookup_insert_ne // in Hj. split; [congruence|done]. }
  assert (∀ m, written s m → written (put_request i q' pending s) m) as Hw.
  { intros m (j & p & Hj & Hm & Hn). destruct (decide (i = j)) as [<-|Hne].
    - exists i, q'. cbn. rewrite list_lookup_insert_eq //. split_and!; [done|congruence|]. intros Hb'%Hb. by assert (p = q) as -> by congruence.
    - exists j, p. cbn. by rewrite list_lookup_insert_ne. }
  destruct Hi as [Hnx Hid Hpe Hup Hsv Hdn Hon Hch Hou]. split; cbn; rewrite ?length_insert; try done.
  - intros j p [[-> ->]|[_ Hj]]%Hlk; [rewrite Hf; by apply Hid|by apply Hid].
  - intros id j Hj. destruct (Hp id j Hj) as [Hold Hself]. destruct (Hpe id j Hold) as (Heq & p & Hjp & Hr & Hcn). split; [done|].
    destruct (decide (i = j)) as [<-|Hne]; [exists q'; rewrite list_lookup_insert_eq //; split; [done|by apply Hself]|].
    exists p. by rewrite list_lookup_insert_ne.
  - intros m Hm. by apply Hw, Hup.
  - intros m r Hm. destruct (Hsv m r Hm). split; [by apply Hw|done].
  - intros j p r [[-> ->]|[_ Hj]]%Hlk Hpr; [rewrite Hf; by apply Hc|by apply (Hch j)].
  - intros j p [[-> ->]|[_ Hj]]%Hlk; [exact Ho|exact (Hou j p Hj)].
Qed.

Lemma inv_begin m s : Z.of_nat (length (ss_requests s)) + 1 < 2 ^ 64 → inv s → inv (begin_request m s).
Proof.
  intros Hb [Hnx Hid Hpe Hup Hsv Hdn Hon Hch Hou]. unfold begin_request. assert (u64 (ss_nextID s + 1) = ss_nextID s + 1) as -> by (apply u64_small; lia).
  assert (∀ x, written s x → written (mkSession (ss_nextID s + 1) (<[ss_nextID s + 1 := length (ss_requests s)]> (ss_pending s))
    (ss_requests s ++ [mkReq (with_id (ss_nextID s + 1) m) Q_Begun None]) (ss_inbox s) (ss_done s) (ss_up s) (ss_down s) (ss_serving s) (h_served s)) x) as Hw.
  { intros x (i & q & Hq & Hrest). exists i, q. split; [by apply lookup_app_l_Some|done]. }
  assert (∀ i q, (ss_requests s ++ [mkReq (with_id (ss_nextID s + 1) m) Q_Begun None]) !! i = Some q →
    ss_requests s !! i = Some q ∨ (i = length (ss_requests s) ∧ q = mkReq (with_id (ss_nextID s + 1) m) Q_Begun None)) as Hlk.
  { intros i q [Hl|[Hge Hl]]%lookup_app_Some; [by left|]. apply list_lookup_singleton_Some in Hl as [Hz <-]. right. split; [lia|done]. }
  split; cbn; rewrite ?length_app; try done.
  - cbn. lia.
  - intros i q [Hq|[-> ->]]%Hlk; [by apply Hid|]. cbn. lia.
  - intros id i. destruct (decide (id = ss_nextID s + 1)) as [->|Hne].
    + rewrite lookup_insert_eq. intros [= <-]. split; [lia|]. eexists. rewrite lookup_app_r // Nat.sub_diag. split; [done|]. split; [by intros [o Ho]|done].
    + rewrite lookup_insert_ne; [congruence|]. intros Hi. destruct (Hpe id i Hi) as (Heq & q & Hq & Hrest). split; [done|]. exists q. split; [by apply lookup_app_l_Some|done].
  - intros x Hx. by apply Hw, Hup.
  - intros x r Hx. destruct (Hsv x r Hx). split; [by apply Hw|done].
  - intros i q r [Hq|[-> ->]]%Hlk; [by apply (Hch i)|done].
  - intros i q [Hq|[-> ->]]%Hlk; [exact (Hou i q Hq)|done].
Qed.

Lemma inv_write_request i ok s s' : inv s → write_request i ok s = Some s' → inv s'.
Proof.
  intros Hi. unfold write_request. destruct (ss_requests s !! i) as [[m [| |o] ch]|] eqn:Hq; try done. intros [= <-]. destruct ok.
  - assert (inv (put_request i (mkReq m Q_Waiting ch) (ss_pending s) s)) as Hp.
    { apply (inv_put_request s i (mkReq m Q_Begun ch)); try done; try (intros r; exact (iv_channel _ Hi i _ r Hq)). intros id j Hj. split; [done|]. intros ->.
      destruct (iv_pending _ Hi id i Hj) as (_ & q & Hq' & _ & Hc). assert (q = mkReq m Q_Begun ch) as -> by congruence. split; [by intros [o Ho]|done]. }
    assert (bf_ID m ∉ seen_ids s) as Hfresh.
    { intros (x & Hx & Hin)%list_elem_of_fmap. assert (written s x) as (j & p & Hj & <- & Hn).
      { apply elem_of_app in Hin as [Hin|([x' r] & -> & Hin)%list_elem_of_fmap]; [by apply (iv_up _ Hi)|by apply (iv_served _ Hi _ r)]. }
      destruct (same_id s i j (mkReq m Q_Begun ch) p Hi Hq Hj Hx) as [_ <-]. by apply Hn. }
    assert (i < length (ss_requests s))%nat as Hlt by (by apply lookup_lt_Some in Hq).
    destruct Hp as [Hnx Hid Hpe Hup Hsv Hdn Hon Hch Hou]. split; try done; cbn in *.
    + intros x [Hx|Hx]%elem_of_app; [by apply Hup|]. apply list_elem_of_singleton in Hx as ->. exists i, (mkReq m Q_Waiting ch). cbn.
      rewrite list_lookup_insert_eq //.
    + unfold seen_ids in *. cbn in *. rewrite -app_assoc map_app. rewrite map_app in Hon, Hfresh. apply NoDup_app in Hon as (N1 & N2 & N3). cbn.
      apply NoDup_app. split_and!; [done|set_solver|apply NoDup_cons; set_solver].
  - apply (inv_put_request s i (mkReq m Q_Begun ch)); try done; try (intros r; exact (iv_channel _ Hi i _ r Hq)). intros id j [Hne Hj]%lookup_delete_Some. split; [done|].
    intros ->. destruct (iv_pending _ Hi id i Hj) as [Heq _]. rewrite -(iv_ids _ Hi i _ Hq) in Heq. cbn in Heq. congruence.
Qed.

Lemma inv_await i c s s' : inv s → await_request i c s = Some s' → inv s'.
Proof.
  intros Hi. unfold await_request. destruct (ss_requests s !! i) as [[m [| |o] ch]|] eqn:Hq; try done.
  assert (∀ id j, delete (bf_ID m) (ss_pending s) !! id = Some j → ss_pending s !! id = Some j ∧ j ≠ i) as Hdel.
  { intros id j [Hne Hj]%lookup_delete_Some. split; [done|]. intros ->. destruct (iv_pending _ Hi id i Hj) as [Heq _]. rewrite -(iv_ids _ Hi i _ Hq) in Heq. cbn in Heq. congruence. }
  destruct c; [|destruct (ss_done s); [|done]|destruct ch as [reply|] eqn:Hch; [|done]]; intros [= <-]; apply (inv_put_request s i (mkReq m Q_Waiting ch)); subst; try done;
    try (intros r; exact (iv_channel _ Hi i _ r Hq)); try (intros id j [Hj Hne]%Hdel; by split).
  - intros id j Hj. split; [done|]. intros ->. destruct (iv_pending _ Hi id i Hj) as (_ & q & Hq' & _ & Hc). assert (q = mkReq m Q_Waiting (Some reply)) as -> by congruence. done.
  - unfold outcome_ok. cbn. pose proof (iv_channel _ Hi i _ reply Hq eq_refl) as Hs. cbn in Hs. case_bool_decide; eauto.
Qed.

Lemma inv_serve answered ok s s' : inv s → serve_request answered ok s = Some s' → inv s'.
Proof.
  intros [Hnx Hid Hpe Hup Hsv Hdn Hon Hch Hou]. unfold serve_request. destruct (ss_up s) as [|m rest] eqn:Hu; [done|]. destruct (ss_serving s); [|done].
  intros [= <-]. split; cbn; try done.
  - intros x Hx. apply Hup. set_solver.
  - intros x r [Hx|Hx]%elem_of_app; [by apply Hsv|]. apply list_elem_of_singleton in Hx as [= -> ->]. split; [apply Hup; set_solver|done].
  - intros r Hr Ht. assert (r ∈ ss_down s ∨ r = response_to m answered) as [Hd| ->] by (destruct ok; set_solver);
      [destruct (Hdn r Hd Ht) as [x Hx]; exists x|exists m]; set_solver.
  - unfold seen_ids in *. rewrite Hu in Hon. cbn in *. rewrite fmap_app app_assoc map_app Permutation_app_comm. done.
  - intros i q r Hq Hr. apply elem_of_app. left. by apply (Hch i).
  - intros i q Hq. specialize (Hou i q Hq). destruct (q_point q) as [| |[]]; try done; set_solver.
Qed.

(** Steps that leave the requests, the served ones and the pending map alone. *)
Lemma inv_quiet s s' : inv s → ss_nextID s' = ss_nextID s → ss_pending s' = ss_pending s → ss_requests s' = ss_requests s → ss_up s' = ss_up s →
  h_served s' = h_served s → (∀ r, r ∈ ss_down s' → bf_Type r = "response" → r ∈ ss_down s) → inv s'.
Proof.
  intros [Hnx Hid Hpe Hup Hsv Hdn Hon Hch Hou] E1 E2 E3 E4 E5 Hd. destruct s' as [n p rq ib d up dn sv hs]. cbn in *. subst. split; cbn; try done. intros r Hr Ht. by apply Hdn, Ht; apply Hd.
Qed.

Lemma inv_read s s' : inv s → readLoop s = Some s' → inv s'.
Proof.
  intros Hi. unfold readLoop. destruct (ss_down s) as [|m rest] eqn:Hd; [done|]. destruct (ss_done s); [done|].
  case_bool_decide as Ht; [|repeat case_bool_decide; intros [= <-]; apply (inv_quiet s); try done; intros r Hr _; cbn in Hr; rewrite Hd; set_solver].
  set (s1 := mkSession _ _ _ _ _ _ _ _ _).
  assert (inv s1) as Hi1.
  { destruct Hi as [Hnx Hid Hpe Hup Hsv Hdn Hon Hch Hou]. split; cbn; try done; [intros id i [_ Hx]%lookup_delete_Some; by apply Hpe|].
    intros r Hr. apply Hdn. rewrite Hd. set_solver. }
  destruct (ss_pending s !! bf_ID m) as [i|] eqn:Hp; [|by intros [= <-]]. destruct (ss_requests s !! i) as [[m' p [r|]]|] eqn:Hq; try done. intros [= <-].
  destruct (iv_pending _ Hi _ _ Hp) as (Hid & q & Hq' & Hr & _). assert (q = mkReq m' p None) as -> by congruence.
  assert ((m', m) ∈ h_served s) as Hs.
  { destruct (iv_down _ Hi m ltac:(rewrite Hd; set_solver) Ht) as [x Hx]. destruct (iv_served _ Hi x m Hx) as [(j & w & Hw & <- & _) He].
    rewrite Hid -(iv_ids _ Hi i _ Hq) in He. by destruct (same_id s i j _ w Hi Hq Hw He) as [_ <-]. }
  apply (inv_put_request s1 i (mkReq m' p None)); try done.
  - intros id j Hj. split; [done|]. intros ->. apply lookup_delete_Some in Hj as [Hne Hj]. destruct (iv_pending _ Hi id i Hj) as [He _]. congruence.
  - by intros r [= <-].
  - unfold outcome_ok. cbn. destruct p as [| |o]; try done. exfalso. apply Hr. by exists o.
Qed.

Lemma requests_grow l s s' : step l s = Some s' → (length (ss_requests s) ≤ length (ss_requests s'))%nat.
Proof.
  destruct l; cbn; unfold write_request, await_request, serve_request, forward, readLoop, take_discovery; intros Hs;
    repeat (case_match; simplify_eq; try done); simplify_eq; cbn; rewrite ?length_app ?length_insert; lia.
Qed.

Lemma inv_moves s s' : Z.of_nat (length (ss_requests s')) < 2 ^ 64 → inv s → moves s s' → inv s'.
Proof.
  intros Hb Hi [l Hl]. destruct l; cbn in Hl.
  - injection Hl as <-. apply inv_begin; [|done]. cbn in Hb. rewrite length_app in Hb. cbn in Hb. lia.
  - by apply (inv_write_request i ok s).
  - by apply (inv_await i c s).
  - by apply (inv_serve answered ok s).
  - injection Hl as <-. by apply (inv_quiet s).
  - unfold forward, forwarded in Hl. destruct (_ && _) eqn:Hf; [|done]. injection Hl as <-. apply (inv_quiet s); try done. cbn.
    intros r [Hr|Hr]%elem_of_app Ht; [done|]. apply list_elem_of_singleton in Hr as ->. by rewrite Ht in Hf.
  - by apply (inv_read s).
  - unfold take_discovery in Hl. destruct (in_discoveries _); [done|]. injection Hl as <-. by apply (inv_quiet s).
  - injection Hl as <-. by apply (inv_quiet s).
Qed.

Lemma inv_reachable s s' : rtc moves s s' → inv s → Z.of_nat (length (ss_requests s')) < 2 ^ 64 → inv s'.
Proof.
  intros Hr. induction Hr as [s|s s1 s2 Hm Hr IH]; [done|]. intros Hi Hb.
  assert (length (ss_requests s1) ≤ length (ss_requests s2))%nat as Hg.
  { clear -Hr. induction Hr as [|a b c [l Hl] Hr IH]; [done|]. apply requests_grow in Hl. lia. }
  apply IH; [|done]. apply (inv_moves s); [lia|done|done].
Qed.

(** C39 A request of a run process that returns success was carried out by the
    broker: it is among the requests the broker served, and the reply to it holds
    no error; one that returns an error text returns the text of the reply to that
    very request.  The broker serves each request once, replies in any order with
    envelopes and discoveries in between never reach another request, the read
    loop never blocks on a reply, and a request that has returned leaves nothing
    pending. *)
Theorem replies_matched s : rtc moves new_session s → Z.of_nat (length (ss_requests s)) < 2 ^ 64 →
  (∀ i q, ss_requests s !! i = Some q → q_point q = Q_Returned OK → ∃ r, (q_frame q, r) ∈ h_served s ∧ bf_Error r = "") ∧
  (∀ i q text, ss_requests s !! i = Some q → q_point q = Q_Returned (Refused text) → text ≠ "" ∧ ∃ r, (q_frame q, r) ∈ h_served s ∧ bf_Error r = text) ∧
  NoDup (map bf_ID (h_served s).*1) ∧
  (∀ m rest, ss_down s = m :: rest → ss_done s = false → ∃ s', readLoop s = Some s' ∧ ss_down s' = rest) ∧
  (∀ id i, ss_pending s !! id = Some i → ∃ q, ss_requests s !! i = Some q ∧ bf_ID (q_frame q) = id ∧ ¬ returned q).
Proof.
  intros Hr Hb. assert (inv s) as Hi by (by apply (inv_reachable new_session); [|apply inv_new|]). split_and!.
  - intros i q Hq Hp. pose proof (iv_outcome _ Hi i q Hq) as Ho. by rewrite Hp in Ho.
  - intros i q text Hq Hp. pose proof (iv_outcome _ Hi i q Hq) as Ho. rewrite Hp in Ho. destruct Ho as (r & ? & ? & ?). eauto.
  - pose proof (iv_once _ Hi) as Ho. unfold seen_ids in Ho. rewrite map_app in Ho. by apply NoDup_app in Ho as (_ & _ & Ho).
  - intros m rest Hd Hn. unfold readLoop. rewrite Hd Hn. repeat case_bool_decide; eauto. destruct (ss_pending s !! bf_ID m) as [i|] eqn:Hp; [|eauto].
    destruct (iv_pending _ Hi _ _ Hp) as (_ & [m' p c] & -> & _ & Hc). cbn in Hc. subst c. eauto.
  - intros id i Hp. destruct (iv_pending _ Hi _ _ Hp) as (He & q & Hq & Hn & _). exists q. split_and!; [done| |done]. rewrite (iv_ids _ Hi i q Hq). done.
Qed.
End session.

(** ** Runs *)

#[local] Existing Instance concrete_externals.
#[local] Instance example_messages : Messages := {| envelope_sender data := Some data; service_route _ := Some ("peer", "there") |}.

Definition run_labels (l : list label) (s : session) : option session := fold_left (fun acc lb => acc ≫= step lb) l (Some s).

Lemma run_moves l s s' : run_labels l s = Some s' → rtc moves s s'.
Proof.
  revert s. induction l as [|lb l IH]; intros s; unfold run_labels; simpl; [intros [= <-]; apply rtc_refl|]. destruct (step lb s) as [s1|] eqn:Hs.
  - intros Hr. apply (rtc_l _ _ s1); [by exists lb|by apply IH].
  - intros Hr. exfalso. clear -Hr. induction l as [|x l IH]; [done|by apply IH].
Qed.

(** A start and a send overtake each other: the send is written first, an envelope
    comes between the replies, and the start is refused. *)
Definition two_requests : list label :=
  [L_Begin (reply_frame "start" "" "" 0); L_Begin (reply_frame "send" "" "" 0); L_Write 1 true; L_Write 0 true; L_Serve "" true;
   L_Forward (mkFrame 0 "envelope" 0 "" "" "" 0 "" "abcd" [] [Byte.x01] None); L_Serve "no carrier" true; L_Read; L_Read; L_Read;
   L_Await 0 By_Reply; L_Await 1 By_Reply; L_Finish].

Definition two_requests_end : session := default new_session (run_labels two_requests new_session).

Lemma replies_matched_witness :
  map q_point (ss_requests two_requests_end) = [Q_Returned (Refused "no carrier"); Q_Returned OK] ∧
  (∀ i q, ss_requests two_requests_end !! i = Some q → q_point q = Q_Returned OK → ∃ r, (q_frame q, r) ∈ h_served two_requests_end ∧ bf_Error r = "").
Proof.
  split; [vm_compute; reflexivity|]. apply (replies_matched two_requests_end); [|vm_compute; reflexivity].
  apply (run_moves two_requests). vm_compute. reflexivity.
Defined.

Lemma broker_frame_roundtrip_witness :
  match writeFrame (control_request "status") with
  | Ok data => readFrame (data ++ data) = Ok (control_request "status", data)
  | Err _ => False
  end.
Proof.
  assert (frame_ok (control_request "status")) as Hf.
  { split; [by vm_compute..|done| |done]. repeat constructor. }
  pose proof (broker_frame_roundtrip (control_request "status")) as Hr. destruct (writeFrame (control_request "status")) as [data|] eqn:Hw; [by apply Hr|].
  vm_compute in Hw. discriminate Hw.
Defined.
